(** * Ray: scene manager (GPU back-end) and D3D12 buffer state tracking

    A shallow embedding of [internal/SceneGPU.h] and [internal/Dx/BufferDX.cpp].

    Conventions.
    - C++ [uint32_t] / [uint16_t] values are [Z] numbers; every place where
      the source can wrap or truncate is written with [u32] / [u16].
    - C++ [float] is IEEE-754 binary32, modelled by [spec_float] with
      precision 24 and exponent bound 128.
    - Out-of-bounds indexing (undefined behaviour in the source) makes the
      modelled operation return [None] or a dedicated error result. *)

From Stdlib Require Import ZArith List Bool Lia String.
From Stdlib Require Import Floats.SpecFloat.
From stdpp Require Import base list functions.

Local Open Scope Z_scope.

(** ** Machine integers *)

Definition u32 (z : Z) : Z := z mod 2 ^ 32.
Definition u16 (z : Z) : Z := z mod 2 ^ 16.
Definition u8 (z : Z) : Z := z mod 2 ^ 8.

(** ** binary32 floating point *)

Definition float : Type := spec_float.

Module F32.
Definition prec : Z := 24.
Definition emax : Z := 128.

Definition add : float -> float -> float := SFadd prec emax.
Definition mul : float -> float -> float := SFmul prec emax.
Definition div : float -> float -> float := SFdiv prec emax.
Definition opp : float -> float := SFopp.

(** [a < b], [a > b], [a == b], [a != b] of C++. *)
Definition lt (a b : float) : bool := SFltb a b.
Definition gt (a b : float) : bool := SFltb b a.
Definition le (a b : float) : bool := SFleb a b.
Definition eq (a b : float) : bool := SFeqb a b.
Definition ne (a b : float) : bool := negb (SFeqb a b).

(** [std::max(a, b)] is [(a < b) ? b : a]; [std::min(a, b)] is
      [(b < a) ? b : a]. *)
Definition max (a b : float) : float := if lt a b then b else a.
Definition min (a b : float) : float := if lt b a then b else a.

(** [clamp(val, lo, hi)] is [std::min(std::max(val, lo), hi)]. *)
Definition clamp (val lo hi : float) : float := min (max val lo) hi.

Definition of_Z (z : Z) : float := binary_normalize prec emax z 0 false.

Definition zero : float := S754_zero false.
Definition one : float := Eval cbv in of_Z 1.
Definition two : float := Eval cbv in of_Z 2.
Definition half : float := Eval cbv in div (of_Z 1) (of_Z 2).
Definition f360 : float := Eval cbv in of_Z 360.
(** [0.01f] *)
Definition f0_01 : float := Eval cbv in div (of_Z 1) (of_Z 100).

(** [int(x)]: truncation towards zero; [None] when the value has no [int]
    representation (undefined behaviour in the source). *)
Definition to_int (x : float) : option Z :=
  match x with
  | S754_zero _ => Some 0
  | S754_finite s m e =>
      let v := if 0 <=? e then Zpos m * 2 ^ e else Zpos m / 2 ^ (- e) in
      let v' := if s then - v else v in
      if (- 2 ^ 31 <=? v') && (v' <? 2 ^ 31) then Some v' else None
  | _ => None
  end.
End F32.

Definition float3 : Type := float * float * float.

(** ** Handles *)

(** [InvalidTextureHandle], [InvalidMaterialHandle] and [InvalidLightHandle]
    all carry the index [0xffffffff]. *)
Definition InvalidIndex : Z := 0xffffffff.

(** ** Sparse storage *)

Module SparseStorage.
(** Modelled from the spec: the [SparseStorage] container (its header is
      not among the sources).  It is the "stable-ID sparse store" behind the
      dense handles: [push] stores an element in a free slot and returns the
      slot's index, [erase] frees a slot, and the index of a live element
      never changes.  The free slot chosen here is the lowest one. *)
Section Store.
Context {A : Type}.

Definition t : Type := list (option A).

Definition empty : t := [].

Fixpoint first_free (s : t) : nat :=
      match s with
      | [] => 0%nat
      | None :: _ => 0%nat
      | Some _ :: s' => S (first_free s')
      end.

Definition push (x : A) (s : t) : Z * t :=
      let i := first_free s in
      (Z.of_nat i,
       if (i <? length s)%nat then <[i := Some x]> s else s ++ [Some x]).

(** [operator[]]: [None] stands for an access to a slot that holds no
        element. *)
Definition get (s : t) (i : Z) : option A :=
      if (i <? 0) || (Z.of_nat (length s) <=? i) then None
      else mjoin (s !! Z.to_nat i).

Definition exists_ (s : t) (i : Z) : bool :=
      match get s i with Some _ => true | None => false end.

Definition Set_ (i : Z) (x : A) (s : t) : t :=
      if exists_ s i then <[Z.to_nat i := Some x]> s else s.

Definition erase (i : Z) (s : t) : t :=
      if exists_ s i then <[Z.to_nat i := None]> s else s.

(** Live elements in index order (what iterating the storage visits). *)
Definition elements (s : t) : list A := omap id s.

Definition size (s : t) : Z := Z.of_nat (length (elements s)).

(** The indices of the live elements, in order. *)
Fixpoint indices_from (base : nat) (s : t) : list Z :=
      match s with
      | [] => []
      | Some _ :: s' => Z.of_nat base :: indices_from (S base) s'
      | None :: s' => indices_from (S base) s'
      end.
Definition indices (s : t) : list Z := indices_from 0 s.
End Store.
Arguments t : clear implicits.
End SparseStorage.

(** ** Data model *)

Inductive eShadingNode :=
| Diffuse | Glossy | Refractive | Emissive | Mix | Transparent | Principled.

Definition eShadingNode_eqb (a b : eShadingNode) : bool :=
  match a, b with
  | Diffuse, Diffuse | Glossy, Glossy | Refractive, Refractive
  | Emissive, Emissive | Mix, Mix | Transparent, Transparent
  | Principled, Principled => true
  | _, _ => false
  end.

(** Named constants whose declarations are in headers that are not among the
    sources.  They are a parameter of the model. *)
Class Constants := {
  NORMALS_TEXTURE : nat;
  BASE_TEXTURE : nat;
  ROUGH_TEXTURE : nat;
  METALLIC_TEXTURE : nat;
  SPECULAR_TEXTURE : nat;
  MIX_MAT1 : nat;
  MIX_MAT2 : nat;
  MAX_MATERIAL_TEXTURES : nat;
  MAT_FLAG_MULT_IMPORTANCE : Z;
  MAT_FLAG_MIX_ADD : Z;
  MATERIAL_SOLID_BIT : Z;
  MATERIAL_INDEX_BITS : Z;
  LEAF_NODE_BIT : Z;
  ATLAS_TEX_SRGB_BIT : Z;
  ATLAS_TEX_RECONSTRUCT_Z_BIT : Z;
  ATLAS_TEX_MIPS_BIT : Z;
  ATLAS_TEX_WIDTH_BITS : Z;
  ATLAS_TEX_HEIGHT_BITS : Z;
  MIN_ATLAS_TEXTURE_SIZE : Z;
  NUM_MIP_LEVELS : nat;
  PhysicalSkyTexture : Z
}.

(** What the scene code relies on: the two Mix child slots are distinct
    slots of the texture table and differ from the slot of the normal map,
    the material index occupies the low 14 bits of a triangle-material
    half-word (the bound the assertions of [AddMesh] state) and the solid
    bit is bit 15. *)
Definition constants_ok `{Constants} : bool :=
  negb (Nat.eqb MIX_MAT1 MIX_MAT2)
  && negb (Nat.eqb NORMALS_TEXTURE MIX_MAT1)
  && negb (Nat.eqb NORMALS_TEXTURE MIX_MAT2)
  && (MIX_MAT1 <? MAX_MATERIAL_TEXTURES)%nat
  && (MIX_MAT2 <? MAX_MATERIAL_TEXTURES)%nat
  && (MATERIAL_INDEX_BITS =? 2 ^ 14 - 1)
  && (MATERIAL_SOLID_BIT =? 2 ^ 15)
  && (MAT_FLAG_MULT_IMPORTANCE =? 1)
  && (MAT_FLAG_MIX_ADD =? 2).

(** A concrete choice of these constants, used to run the model on
    examples: the texture slots in the order the specification lists them,
    the two Mix slots sharing the last two, the flag bits as stated in
    [constants_ok]. *)
Definition ray_constants : Constants := {|
  NORMALS_TEXTURE := 0;
  BASE_TEXTURE := 1;
  ROUGH_TEXTURE := 2;
  METALLIC_TEXTURE := 3;
  SPECULAR_TEXTURE := 4;
  MIX_MAT1 := 3;
  MIX_MAT2 := 4;
  MAX_MATERIAL_TEXTURES := 5;
  MAT_FLAG_MULT_IMPORTANCE := 1;
  MAT_FLAG_MIX_ADD := 2;
  MATERIAL_SOLID_BIT := 0x8000;
  MATERIAL_INDEX_BITS := 0x3fff;
  LEAF_NODE_BIT := 0x80000000;
  ATLAS_TEX_SRGB_BIT := 0x8000;
  ATLAS_TEX_RECONSTRUCT_Z_BIT := 0x4000;
  ATLAS_TEX_MIPS_BIT := 0x8000;
  ATLAS_TEX_WIDTH_BITS := 0x3fff;
  ATLAS_TEX_HEIGHT_BITS := 0x7fff;
  MIN_ATLAS_TEXTURE_SIZE := 4;
  NUM_MIP_LEVELS := 12;
  PhysicalSkyTexture := 0xfffffffe
|}.

(** [material_t].  [textures] is the table [textures[MAX_MATERIAL_TEXTURES]];
    for a Mix node its slots [MIX_MAT1] and [MIX_MAT2] hold the two child
    material indices. *)
Record material_t := {
  textures : list Z;
  base_color : float3;
  flags : Z;
  type : eShadingNode;
  tangent_rotation : float;
  strength : float;
  roughness_unorm : Z;
  anisotropic_unorm : Z;
  ior : float;
  sheen_unorm : Z;
  sheen_tint_unorm : Z;
  tint_unorm : Z;
  metallic_unorm : Z;
  transmission_unorm : Z;
  transmission_roughness_unorm : Z;
  specular_unorm : Z;
  specular_tint_unorm : Z;
  clearcoat_unorm : Z;
  clearcoat_roughness_unorm : Z;
  normal_map_strength_unorm : Z
}.

(** [material_t mat = {}] *)
Definition material_zero `{Constants} : material_t := {|
  textures := replicate MAX_MATERIAL_TEXTURES 0;
  base_color := (F32.zero, F32.zero, F32.zero);
  flags := 0;
  type := Diffuse;
  tangent_rotation := F32.zero;
  strength := F32.zero;
  roughness_unorm := 0;
  anisotropic_unorm := 0;
  ior := F32.zero;
  sheen_unorm := 0;
  sheen_tint_unorm := 0;
  tint_unorm := 0;
  metallic_unorm := 0;
  transmission_unorm := 0;
  transmission_roughness_unorm := 0;
  specular_unorm := 0;
  specular_tint_unorm := 0;
  clearcoat_unorm := 0;
  clearcoat_roughness_unorm := 0;
  normal_map_strength_unorm := 0
|}.

(** [mat.textures[slot]] *)
Definition tex_slot (m : material_t) (slot : nat) : Z :=
  default 0 (textures m !! slot).

(** [shading_node_desc_t]; fields hold the index of the handles. *)
Record shading_node_desc_t := {
  sn_type : eShadingNode;
  sn_base_color : float3;
  sn_base_texture : Z;
  sn_normal_map : Z;
  sn_normal_map_intensity : float;
  sn_mix_materials : Z * Z;
  sn_roughness : float;
  sn_roughness_texture : Z;
  sn_anisotropic_rotation : float;
  sn_sheen : float;
  sn_strength : float;
  sn_ior : float;
  sn_tint : float;
  sn_metallic_texture : Z;
  sn_multiple_importance : bool;
  sn_mix_add : bool
}.

(** [principled_mat_desc_t] *)
Record principled_mat_desc_t := {
  pm_base_color : float3;
  pm_base_texture : Z;
  pm_metallic : float;
  pm_metallic_texture : Z;
  pm_specular : float;
  pm_specular_texture : Z;
  pm_specular_tint : float;
  pm_roughness : float;
  pm_roughness_texture : Z;
  pm_anisotropic : float;
  pm_anisotropic_rotation : float;
  pm_sheen : float;
  pm_sheen_tint : float;
  pm_clearcoat : float;
  pm_clearcoat_roughness : float;
  pm_transmission : float;
  pm_ior : float;
  pm_transmission_roughness : float;
  pm_emission_color : float3;
  pm_emission_texture : Z;
  pm_emission_strength : float;
  pm_alpha : float;
  pm_alpha_texture : Z;
  pm_normal_map : Z;
  pm_normal_map_intensity : float
}.

(** [tri_mat_data_t]: two 16-bit half-words. *)
Record tri_mat_data_t := { front_mi : Z; back_mi : Z }.

(** [bvh_node_t].  [prim_index] shares its storage with [left_child] and
    [prim_count] with [right_child]. *)
Record bvh_node_t := {
  bbox_min : float3;
  prim_index : Z;
  bbox_max : float3;
  prim_count : Z
}.
Definition left_child (n : bvh_node_t) : Z := prim_index n.
Definition right_child (n : bvh_node_t) : Z := prim_count n.

Definition bvh_node_zero : bvh_node_t := {|
  bbox_min := (F32.zero, F32.zero, F32.zero); prim_index := 0;
  bbox_max := (F32.zero, F32.zero, F32.zero); prim_count := 0 |}.

(** The bounding box of a [prim_t]; its three index fields are zero in
    every use below. *)
Record prim_t := { p_bbox_min : float3; p_bbox_max : float3 }.

Record mesh_t := {
  m_bbox_min : float3;
  m_bbox_max : float3;
  node_index : Z;
  node_count : Z;
  tris_index : Z;
  tris_count : Z;
  vert_index : Z;
  vert_count : Z
}.

Record mesh_instance_t := {
  mi_bbox_min : float3;
  tr_index : Z;
  mi_bbox_max : float3;
  mesh_index : Z
}.

Record transform_t := { xform : list float; inv_xform : list float }.

(** [transform_t tr = {}] *)
Definition transform_zero : transform_t :=
  {| xform := replicate 16 F32.zero; inv_xform := replicate 16 F32.zero |}.

Inductive light_type :=
| LIGHT_TYPE_SPHERE | LIGHT_TYPE_DIR | LIGHT_TYPE_LINE | LIGHT_TYPE_RECT
| LIGHT_TYPE_DISK | LIGHT_TYPE_TRI | LIGHT_TYPE_ENV.

Definition light_type_eqb (a b : light_type) : bool :=
  match a, b with
  | LIGHT_TYPE_SPHERE, LIGHT_TYPE_SPHERE | LIGHT_TYPE_DIR, LIGHT_TYPE_DIR
  | LIGHT_TYPE_LINE, LIGHT_TYPE_LINE | LIGHT_TYPE_RECT, LIGHT_TYPE_RECT
  | LIGHT_TYPE_DISK, LIGHT_TYPE_DISK | LIGHT_TYPE_TRI, LIGHT_TYPE_TRI
  | LIGHT_TYPE_ENV, LIGHT_TYPE_ENV => true
  | _, _ => false
  end.

(** The per-kind member of the union inside [light_t]; [geom_zero] is the
    state [light_t l = {}] leaves it in. *)
Inductive light_geom :=
| geom_zero
| geom_sph (pos : float3) (area : float) (dir : float3) (radius spot blend : float)
| geom_dir (dir : float3) (angle : float)
| geom_tri (tri_index xform_index : Z).

Record light_t := {
  l_type : light_type;
  cast_shadow : bool;
  visible : bool;
  sky_portal : bool;
  col : float3;
  geom : light_geom
}.

Record directional_light_desc_t := {
  dl_color : float3;
  dl_direction : float3;
  dl_angle : float;
  dl_cast_shadow : bool;
  dl_visible : bool
}.

Record sphere_light_desc_t := {
  sl_color : float3;
  sl_position : float3;
  sl_radius : float;
  sl_visible : bool;
  sl_cast_shadow : bool
}.

Inductive eTextureFormat := RGBA8888 | RGB888 | RG88 | R8.

(** [tex_desc_t]; [td_data] is the byte array behind [data]. *)
Record tex_desc_t := {
  td_format : eTextureFormat;
  td_name : string;
  td_data : list Z;
  td_w : Z;
  td_h : Z;
  td_is_srgb : bool;
  td_is_normalmap : bool;
  td_force_no_compression : bool;
  td_generate_mipmaps : bool
}.

Record atlas_texture_t := {
  at_width : Z;
  at_height : Z;
  at_atlas : Z;
  at_page : list Z;
  at_pos : list (Z * Z)
}.

Record environment_t := {
  env_col : float3;
  env_map : Z;
  back_col : float3;
  back_map : Z;
  env_map_rotation : float;
  back_map_rotation : float;
  multiple_importance : bool;
  qtree_levels : Z
}.

Record environment_desc_t := {
  ed_env_col : float3;
  ed_env_map : Z;
  ed_back_col : float3;
  ed_back_map : Z;
  ed_env_map_rotation : float;
  ed_back_map_rotation : float;
  ed_multiple_importance : bool
}.

(** A quad-tree cell: four luminance components. *)
Definition fvec4 : Type := float * float * float * float.

Definition fvec4_zero : fvec4 := (F32.zero, F32.zero, F32.zero, F32.zero).

Definition fvec4_get (v : fvec4) (i : Z) : float :=
  let '(a, b, c, d) := v in
  if i =? 0 then a else if i =? 1 then b else if i =? 2 then c else d.

Definition fvec4_set (v : fvec4) (i : Z) (x : float) : fvec4 :=
  let '(a, b, c, d) := v in
  if i =? 0 then (x, b, c, d) else if i =? 1 then (a, x, c, d)
  else if i =? 2 then (a, b, x, d) else (a, b, c, x).

(** [env_map_qtree_]: the resolution and the levels, finest first.
    [qt_tex] records the size and mip count of the texture created for it. *)
Record qtree_t := {
  res : Z;
  mips : list (list fvec4);
  qt_tex : option (Z * Z * Z)
}.

(** [env_map_qtree_ = {}] *)
Definition qtree_empty : qtree_t := {| res := -1; mips := []; qt_tex := None |}.

Inductive log_level := LogInfo | LogWarning | LogError.

(** One call of the log sink: the level and the format string. *)
Definition log_entry : Type := log_level * string.

(** The state of one texture atlas: the regions allocated in it so far, each
    with its page, position and size. *)
Definition atlas_state : Type := list (Z * (Z * Z) * (Z * Z)).

(** ** The scene

    The members of [Scene] that the modelled operations read or write.
    Of [tris_] and [vertices_] only the sizes are kept (their payload is
    geometry that no modelled operation inspects); [log_] is the sequence of
    calls made on [ctx_->log()]. *)
Record Scene := {
  use_hwrt_ : bool;
  use_bindless_ : bool;
  use_tex_compression_ : bool;
  nodes_ : list bvh_node_t;
  tris_size_ : Z;
  tri_indices_ : list Z;
  tri_materials_ : list tri_mat_data_t;
  tri_materials_cpu_ : list tri_mat_data_t;
  transforms_ : SparseStorage.t transform_t;
  meshes_ : SparseStorage.t mesh_t;
  mesh_instances_ : SparseStorage.t mesh_instance_t;
  mi_indices_ : list Z;
  vertices_size_ : Z;
  vtx_indices_ : list Z;
  materials_ : SparseStorage.t material_t;
  atlas_textures_ : SparseStorage.t atlas_texture_t;
  tex_atlases_ : list atlas_state;
  lights_ : SparseStorage.t light_t;
  li_indices_ : list Z;
  visible_lights_ : list Z;
  blocker_lights_ : list Z;
  env_ : environment_t;
  env_map_light_ : Z;
  physical_sky_texture_ : Z;
  env_map_qtree_ : qtree_t;
  macro_nodes_start_ : Z;
  macro_nodes_count_ : Z;
  tlas_root_node_ : bvh_node_t;
  log_ : list log_entry
}.


(** Field updates. *)

Definition with_nodes (v : list bvh_node_t) (s : Scene) : Scene :=
  {| use_hwrt_ := use_hwrt_ s; use_bindless_ := use_bindless_ s; use_tex_compression_ :=
     use_tex_compression_ s; nodes_ := v; tris_size_ := tris_size_ s; tri_indices_ :=
     tri_indices_ s; tri_materials_ := tri_materials_ s; tri_materials_cpu_ :=
     tri_materials_cpu_ s; transforms_ := transforms_ s; meshes_ := meshes_ s;
     mesh_instances_ := mesh_instances_ s; mi_indices_ := mi_indices_ s; vertices_size_ :=
     vertices_size_ s; vtx_indices_ := vtx_indices_ s; materials_ := materials_ s;
     atlas_textures_ := atlas_textures_ s; tex_atlases_ := tex_atlases_ s; lights_ :=
     lights_ s; li_indices_ := li_indices_ s; visible_lights_ := visible_lights_ s;
     blocker_lights_ := blocker_lights_ s; env_ := env_ s; env_map_light_ := env_map_light_
     s; physical_sky_texture_ := physical_sky_texture_ s; env_map_qtree_ := env_map_qtree_
     s; macro_nodes_start_ := macro_nodes_start_ s; macro_nodes_count_ := macro_nodes_count_
     s; tlas_root_node_ := tlas_root_node_ s; log_ := log_ s |}.

Definition with_tris_size (v : Z) (s : Scene) : Scene :=
  {| use_hwrt_ := use_hwrt_ s; use_bindless_ := use_bindless_ s; use_tex_compression_ :=
     use_tex_compression_ s; nodes_ := nodes_ s; tris_size_ := v; tri_indices_ :=
     tri_indices_ s; tri_materials_ := tri_materials_ s; tri_materials_cpu_ :=
     tri_materials_cpu_ s; transforms_ := transforms_ s; meshes_ := meshes_ s;
     mesh_instances_ := mesh_instances_ s; mi_indices_ := mi_indices_ s; vertices_size_ :=
     vertices_size_ s; vtx_indices_ := vtx_indices_ s; materials_ := materials_ s;
     atlas_textures_ := atlas_textures_ s; tex_atlases_ := tex_atlases_ s; lights_ :=
     lights_ s; li_indices_ := li_indices_ s; visible_lights_ := visible_lights_ s;
     blocker_lights_ := blocker_lights_ s; env_ := env_ s; env_map_light_ := env_map_light_
     s; physical_sky_texture_ := physical_sky_texture_ s; env_map_qtree_ := env_map_qtree_
     s; macro_nodes_start_ := macro_nodes_start_ s; macro_nodes_count_ := macro_nodes_count_
     s; tlas_root_node_ := tlas_root_node_ s; log_ := log_ s |}.

Definition with_tri_indices (v : list Z) (s : Scene) : Scene :=
  {| use_hwrt_ := use_hwrt_ s; use_bindless_ := use_bindless_ s; use_tex_compression_ :=
     use_tex_compression_ s; nodes_ := nodes_ s; tris_size_ := tris_size_ s; tri_indices_ :=
     v; tri_materials_ := tri_materials_ s; tri_materials_cpu_ := tri_materials_cpu_ s;
     transforms_ := transforms_ s; meshes_ := meshes_ s; mesh_instances_ := mesh_instances_
     s; mi_indices_ := mi_indices_ s; vertices_size_ := vertices_size_ s; vtx_indices_ :=
     vtx_indices_ s; materials_ := materials_ s; atlas_textures_ := atlas_textures_ s;
     tex_atlases_ := tex_atlases_ s; lights_ := lights_ s; li_indices_ := li_indices_ s;
     visible_lights_ := visible_lights_ s; blocker_lights_ := blocker_lights_ s; env_ :=
     env_ s; env_map_light_ := env_map_light_ s; physical_sky_texture_ :=
     physical_sky_texture_ s; env_map_qtree_ := env_map_qtree_ s; macro_nodes_start_ :=
     macro_nodes_start_ s; macro_nodes_count_ := macro_nodes_count_ s; tlas_root_node_ :=
     tlas_root_node_ s; log_ := log_ s |}.

Definition with_tri_materials (v : list tri_mat_data_t) (s : Scene) : Scene :=
  {| use_hwrt_ := use_hwrt_ s; use_bindless_ := use_bindless_ s; use_tex_compression_ :=
     use_tex_compression_ s; nodes_ := nodes_ s; tris_size_ := tris_size_ s; tri_indices_ :=
     tri_indices_ s; tri_materials_ := v; tri_materials_cpu_ := tri_materials_cpu_ s;
     transforms_ := transforms_ s; meshes_ := meshes_ s; mesh_instances_ := mesh_instances_
     s; mi_indices_ := mi_indices_ s; vertices_size_ := vertices_size_ s; vtx_indices_ :=
     vtx_indices_ s; materials_ := materials_ s; atlas_textures_ := atlas_textures_ s;
     tex_atlases_ := tex_atlases_ s; lights_ := lights_ s; li_indices_ := li_indices_ s;
     visible_lights_ := visible_lights_ s; blocker_lights_ := blocker_lights_ s; env_ :=
     env_ s; env_map_light_ := env_map_light_ s; physical_sky_texture_ :=
     physical_sky_texture_ s; env_map_qtree_ := env_map_qtree_ s; macro_nodes_start_ :=
     macro_nodes_start_ s; macro_nodes_count_ := macro_nodes_count_ s; tlas_root_node_ :=
     tlas_root_node_ s; log_ := log_ s |}.

Definition with_tri_materials_cpu (v : list tri_mat_data_t) (s : Scene) : Scene :=
  {| use_hwrt_ := use_hwrt_ s; use_bindless_ := use_bindless_ s; use_tex_compression_ :=
     use_tex_compression_ s; nodes_ := nodes_ s; tris_size_ := tris_size_ s; tri_indices_ :=
     tri_indices_ s; tri_materials_ := tri_materials_ s; tri_materials_cpu_ := v;
     transforms_ := transforms_ s; meshes_ := meshes_ s; mesh_instances_ := mesh_instances_
     s; mi_indices_ := mi_indices_ s; vertices_size_ := vertices_size_ s; vtx_indices_ :=
     vtx_indices_ s; materials_ := materials_ s; atlas_textures_ := atlas_textures_ s;
     tex_atlases_ := tex_atlases_ s; lights_ := lights_ s; li_indices_ := li_indices_ s;
     visible_lights_ := visible_lights_ s; blocker_lights_ := blocker_lights_ s; env_ :=
     env_ s; env_map_light_ := env_map_light_ s; physical_sky_texture_ :=
     physical_sky_texture_ s; env_map_qtree_ := env_map_qtree_ s; macro_nodes_start_ :=
     macro_nodes_start_ s; macro_nodes_count_ := macro_nodes_count_ s; tlas_root_node_ :=
     tlas_root_node_ s; log_ := log_ s |}.

Definition with_transforms (v : SparseStorage.t transform_t) (s : Scene) : Scene :=
  {| use_hwrt_ := use_hwrt_ s; use_bindless_ := use_bindless_ s; use_tex_compression_ :=
     use_tex_compression_ s; nodes_ := nodes_ s; tris_size_ := tris_size_ s; tri_indices_ :=
     tri_indices_ s; tri_materials_ := tri_materials_ s; tri_materials_cpu_ :=
     tri_materials_cpu_ s; transforms_ := v; meshes_ := meshes_ s; mesh_instances_ :=
     mesh_instances_ s; mi_indices_ := mi_indices_ s; vertices_size_ := vertices_size_ s;
     vtx_indices_ := vtx_indices_ s; materials_ := materials_ s; atlas_textures_ :=
     atlas_textures_ s; tex_atlases_ := tex_atlases_ s; lights_ := lights_ s; li_indices_ :=
     li_indices_ s; visible_lights_ := visible_lights_ s; blocker_lights_ := blocker_lights_
     s; env_ := env_ s; env_map_light_ := env_map_light_ s; physical_sky_texture_ :=
     physical_sky_texture_ s; env_map_qtree_ := env_map_qtree_ s; macro_nodes_start_ :=
     macro_nodes_start_ s; macro_nodes_count_ := macro_nodes_count_ s; tlas_root_node_ :=
     tlas_root_node_ s; log_ := log_ s |}.

Definition with_meshes (v : SparseStorage.t mesh_t) (s : Scene) : Scene :=
  {| use_hwrt_ := use_hwrt_ s; use_bindless_ := use_bindless_ s; use_tex_compression_ :=
     use_tex_compression_ s; nodes_ := nodes_ s; tris_size_ := tris_size_ s; tri_indices_ :=
     tri_indices_ s; tri_materials_ := tri_materials_ s; tri_materials_cpu_ :=
     tri_materials_cpu_ s; transforms_ := transforms_ s; meshes_ := v; mesh_instances_ :=
     mesh_instances_ s; mi_indices_ := mi_indices_ s; vertices_size_ := vertices_size_ s;
     vtx_indices_ := vtx_indices_ s; materials_ := materials_ s; atlas_textures_ :=
     atlas_textures_ s; tex_atlases_ := tex_atlases_ s; lights_ := lights_ s; li_indices_ :=
     li_indices_ s; visible_lights_ := visible_lights_ s; blocker_lights_ := blocker_lights_
     s; env_ := env_ s; env_map_light_ := env_map_light_ s; physical_sky_texture_ :=
     physical_sky_texture_ s; env_map_qtree_ := env_map_qtree_ s; macro_nodes_start_ :=
     macro_nodes_start_ s; macro_nodes_count_ := macro_nodes_count_ s; tlas_root_node_ :=
     tlas_root_node_ s; log_ := log_ s |}.

Definition with_mesh_instances (v : SparseStorage.t mesh_instance_t) (s : Scene) : Scene :=
  {| use_hwrt_ := use_hwrt_ s; use_bindless_ := use_bindless_ s; use_tex_compression_ :=
     use_tex_compression_ s; nodes_ := nodes_ s; tris_size_ := tris_size_ s; tri_indices_ :=
     tri_indices_ s; tri_materials_ := tri_materials_ s; tri_materials_cpu_ :=
     tri_materials_cpu_ s; transforms_ := transforms_ s; meshes_ := meshes_ s;
     mesh_instances_ := v; mi_indices_ := mi_indices_ s; vertices_size_ := vertices_size_ s;
     vtx_indices_ := vtx_indices_ s; materials_ := materials_ s; atlas_textures_ :=
     atlas_textures_ s; tex_atlases_ := tex_atlases_ s; lights_ := lights_ s; li_indices_ :=
     li_indices_ s; visible_lights_ := visible_lights_ s; blocker_lights_ := blocker_lights_
     s; env_ := env_ s; env_map_light_ := env_map_light_ s; physical_sky_texture_ :=
     physical_sky_texture_ s; env_map_qtree_ := env_map_qtree_ s; macro_nodes_start_ :=
     macro_nodes_start_ s; macro_nodes_count_ := macro_nodes_count_ s; tlas_root_node_ :=
     tlas_root_node_ s; log_ := log_ s |}.

Definition with_mi_indices (v : list Z) (s : Scene) : Scene :=
  {| use_hwrt_ := use_hwrt_ s; use_bindless_ := use_bindless_ s; use_tex_compression_ :=
     use_tex_compression_ s; nodes_ := nodes_ s; tris_size_ := tris_size_ s; tri_indices_ :=
     tri_indices_ s; tri_materials_ := tri_materials_ s; tri_materials_cpu_ :=
     tri_materials_cpu_ s; transforms_ := transforms_ s; meshes_ := meshes_ s;
     mesh_instances_ := mesh_instances_ s; mi_indices_ := v; vertices_size_ :=
     vertices_size_ s; vtx_indices_ := vtx_indices_ s; materials_ := materials_ s;
     atlas_textures_ := atlas_textures_ s; tex_atlases_ := tex_atlases_ s; lights_ :=
     lights_ s; li_indices_ := li_indices_ s; visible_lights_ := visible_lights_ s;
     blocker_lights_ := blocker_lights_ s; env_ := env_ s; env_map_light_ := env_map_light_
     s; physical_sky_texture_ := physical_sky_texture_ s; env_map_qtree_ := env_map_qtree_
     s; macro_nodes_start_ := macro_nodes_start_ s; macro_nodes_count_ := macro_nodes_count_
     s; tlas_root_node_ := tlas_root_node_ s; log_ := log_ s |}.

Definition with_vertices_size (v : Z) (s : Scene) : Scene :=
  {| use_hwrt_ := use_hwrt_ s; use_bindless_ := use_bindless_ s; use_tex_compression_ :=
     use_tex_compression_ s; nodes_ := nodes_ s; tris_size_ := tris_size_ s; tri_indices_ :=
     tri_indices_ s; tri_materials_ := tri_materials_ s; tri_materials_cpu_ :=
     tri_materials_cpu_ s; transforms_ := transforms_ s; meshes_ := meshes_ s;
     mesh_instances_ := mesh_instances_ s; mi_indices_ := mi_indices_ s; vertices_size_ :=
     v; vtx_indices_ := vtx_indices_ s; materials_ := materials_ s; atlas_textures_ :=
     atlas_textures_ s; tex_atlases_ := tex_atlases_ s; lights_ := lights_ s; li_indices_ :=
     li_indices_ s; visible_lights_ := visible_lights_ s; blocker_lights_ := blocker_lights_
     s; env_ := env_ s; env_map_light_ := env_map_light_ s; physical_sky_texture_ :=
     physical_sky_texture_ s; env_map_qtree_ := env_map_qtree_ s; macro_nodes_start_ :=
     macro_nodes_start_ s; macro_nodes_count_ := macro_nodes_count_ s; tlas_root_node_ :=
     tlas_root_node_ s; log_ := log_ s |}.

Definition with_vtx_indices (v : list Z) (s : Scene) : Scene :=
  {| use_hwrt_ := use_hwrt_ s; use_bindless_ := use_bindless_ s; use_tex_compression_ :=
     use_tex_compression_ s; nodes_ := nodes_ s; tris_size_ := tris_size_ s; tri_indices_ :=
     tri_indices_ s; tri_materials_ := tri_materials_ s; tri_materials_cpu_ :=
     tri_materials_cpu_ s; transforms_ := transforms_ s; meshes_ := meshes_ s;
     mesh_instances_ := mesh_instances_ s; mi_indices_ := mi_indices_ s; vertices_size_ :=
     vertices_size_ s; vtx_indices_ := v; materials_ := materials_ s; atlas_textures_ :=
     atlas_textures_ s; tex_atlases_ := tex_atlases_ s; lights_ := lights_ s; li_indices_ :=
     li_indices_ s; visible_lights_ := visible_lights_ s; blocker_lights_ := blocker_lights_
     s; env_ := env_ s; env_map_light_ := env_map_light_ s; physical_sky_texture_ :=
     physical_sky_texture_ s; env_map_qtree_ := env_map_qtree_ s; macro_nodes_start_ :=
     macro_nodes_start_ s; macro_nodes_count_ := macro_nodes_count_ s; tlas_root_node_ :=
     tlas_root_node_ s; log_ := log_ s |}.

Definition with_materials (v : SparseStorage.t material_t) (s : Scene) : Scene :=
  {| use_hwrt_ := use_hwrt_ s; use_bindless_ := use_bindless_ s; use_tex_compression_ :=
     use_tex_compression_ s; nodes_ := nodes_ s; tris_size_ := tris_size_ s; tri_indices_ :=
     tri_indices_ s; tri_materials_ := tri_materials_ s; tri_materials_cpu_ :=
     tri_materials_cpu_ s; transforms_ := transforms_ s; meshes_ := meshes_ s;
     mesh_instances_ := mesh_instances_ s; mi_indices_ := mi_indices_ s; vertices_size_ :=
     vertices_size_ s; vtx_indices_ := vtx_indices_ s; materials_ := v; atlas_textures_ :=
     atlas_textures_ s; tex_atlases_ := tex_atlases_ s; lights_ := lights_ s; li_indices_ :=
     li_indices_ s; visible_lights_ := visible_lights_ s; blocker_lights_ := blocker_lights_
     s; env_ := env_ s; env_map_light_ := env_map_light_ s; physical_sky_texture_ :=
     physical_sky_texture_ s; env_map_qtree_ := env_map_qtree_ s; macro_nodes_start_ :=
     macro_nodes_start_ s; macro_nodes_count_ := macro_nodes_count_ s; tlas_root_node_ :=
     tlas_root_node_ s; log_ := log_ s |}.

Definition with_atlas_textures (v : SparseStorage.t atlas_texture_t) (s : Scene) : Scene :=
  {| use_hwrt_ := use_hwrt_ s; use_bindless_ := use_bindless_ s; use_tex_compression_ :=
     use_tex_compression_ s; nodes_ := nodes_ s; tris_size_ := tris_size_ s; tri_indices_ :=
     tri_indices_ s; tri_materials_ := tri_materials_ s; tri_materials_cpu_ :=
     tri_materials_cpu_ s; transforms_ := transforms_ s; meshes_ := meshes_ s;
     mesh_instances_ := mesh_instances_ s; mi_indices_ := mi_indices_ s; vertices_size_ :=
     vertices_size_ s; vtx_indices_ := vtx_indices_ s; materials_ := materials_ s;
     atlas_textures_ := v; tex_atlases_ := tex_atlases_ s; lights_ := lights_ s; li_indices_
     := li_indices_ s; visible_lights_ := visible_lights_ s; blocker_lights_ :=
     blocker_lights_ s; env_ := env_ s; env_map_light_ := env_map_light_ s;
     physical_sky_texture_ := physical_sky_texture_ s; env_map_qtree_ := env_map_qtree_ s;
     macro_nodes_start_ := macro_nodes_start_ s; macro_nodes_count_ := macro_nodes_count_ s;
     tlas_root_node_ := tlas_root_node_ s; log_ := log_ s |}.

Definition with_tex_atlases (v : list atlas_state) (s : Scene) : Scene :=
  {| use_hwrt_ := use_hwrt_ s; use_bindless_ := use_bindless_ s; use_tex_compression_ :=
     use_tex_compression_ s; nodes_ := nodes_ s; tris_size_ := tris_size_ s; tri_indices_ :=
     tri_indices_ s; tri_materials_ := tri_materials_ s; tri_materials_cpu_ :=
     tri_materials_cpu_ s; transforms_ := transforms_ s; meshes_ := meshes_ s;
     mesh_instances_ := mesh_instances_ s; mi_indices_ := mi_indices_ s; vertices_size_ :=
     vertices_size_ s; vtx_indices_ := vtx_indices_ s; materials_ := materials_ s;
     atlas_textures_ := atlas_textures_ s; tex_atlases_ := v; lights_ := lights_ s;
     li_indices_ := li_indices_ s; visible_lights_ := visible_lights_ s; blocker_lights_ :=
     blocker_lights_ s; env_ := env_ s; env_map_light_ := env_map_light_ s;
     physical_sky_texture_ := physical_sky_texture_ s; env_map_qtree_ := env_map_qtree_ s;
     macro_nodes_start_ := macro_nodes_start_ s; macro_nodes_count_ := macro_nodes_count_ s;
     tlas_root_node_ := tlas_root_node_ s; log_ := log_ s |}.

Definition with_lights (v : SparseStorage.t light_t) (s : Scene) : Scene :=
  {| use_hwrt_ := use_hwrt_ s; use_bindless_ := use_bindless_ s; use_tex_compression_ :=
     use_tex_compression_ s; nodes_ := nodes_ s; tris_size_ := tris_size_ s; tri_indices_ :=
     tri_indices_ s; tri_materials_ := tri_materials_ s; tri_materials_cpu_ :=
     tri_materials_cpu_ s; transforms_ := transforms_ s; meshes_ := meshes_ s;
     mesh_instances_ := mesh_instances_ s; mi_indices_ := mi_indices_ s; vertices_size_ :=
     vertices_size_ s; vtx_indices_ := vtx_indices_ s; materials_ := materials_ s;
     atlas_textures_ := atlas_textures_ s; tex_atlases_ := tex_atlases_ s; lights_ := v;
     li_indices_ := li_indices_ s; visible_lights_ := visible_lights_ s; blocker_lights_ :=
     blocker_lights_ s; env_ := env_ s; env_map_light_ := env_map_light_ s;
     physical_sky_texture_ := physical_sky_texture_ s; env_map_qtree_ := env_map_qtree_ s;
     macro_nodes_start_ := macro_nodes_start_ s; macro_nodes_count_ := macro_nodes_count_ s;
     tlas_root_node_ := tlas_root_node_ s; log_ := log_ s |}.

Definition with_li_indices (v : list Z) (s : Scene) : Scene :=
  {| use_hwrt_ := use_hwrt_ s; use_bindless_ := use_bindless_ s; use_tex_compression_ :=
     use_tex_compression_ s; nodes_ := nodes_ s; tris_size_ := tris_size_ s; tri_indices_ :=
     tri_indices_ s; tri_materials_ := tri_materials_ s; tri_materials_cpu_ :=
     tri_materials_cpu_ s; transforms_ := transforms_ s; meshes_ := meshes_ s;
     mesh_instances_ := mesh_instances_ s; mi_indices_ := mi_indices_ s; vertices_size_ :=
     vertices_size_ s; vtx_indices_ := vtx_indices_ s; materials_ := materials_ s;
     atlas_textures_ := atlas_textures_ s; tex_atlases_ := tex_atlases_ s; lights_ :=
     lights_ s; li_indices_ := v; visible_lights_ := visible_lights_ s; blocker_lights_ :=
     blocker_lights_ s; env_ := env_ s; env_map_light_ := env_map_light_ s;
     physical_sky_texture_ := physical_sky_texture_ s; env_map_qtree_ := env_map_qtree_ s;
     macro_nodes_start_ := macro_nodes_start_ s; macro_nodes_count_ := macro_nodes_count_ s;
     tlas_root_node_ := tlas_root_node_ s; log_ := log_ s |}.

Definition with_visible_lights (v : list Z) (s : Scene) : Scene :=
  {| use_hwrt_ := use_hwrt_ s; use_bindless_ := use_bindless_ s; use_tex_compression_ :=
     use_tex_compression_ s; nodes_ := nodes_ s; tris_size_ := tris_size_ s; tri_indices_ :=
     tri_indices_ s; tri_materials_ := tri_materials_ s; tri_materials_cpu_ :=
     tri_materials_cpu_ s; transforms_ := transforms_ s; meshes_ := meshes_ s;
     mesh_instances_ := mesh_instances_ s; mi_indices_ := mi_indices_ s; vertices_size_ :=
     vertices_size_ s; vtx_indices_ := vtx_indices_ s; materials_ := materials_ s;
     atlas_textures_ := atlas_textures_ s; tex_atlases_ := tex_atlases_ s; lights_ :=
     lights_ s; li_indices_ := li_indices_ s; visible_lights_ := v; blocker_lights_ :=
     blocker_lights_ s; env_ := env_ s; env_map_light_ := env_map_light_ s;
     physical_sky_texture_ := physical_sky_texture_ s; env_map_qtree_ := env_map_qtree_ s;
     macro_nodes_start_ := macro_nodes_start_ s; macro_nodes_count_ := macro_nodes_count_ s;
     tlas_root_node_ := tlas_root_node_ s; log_ := log_ s |}.

Definition with_blocker_lights (v : list Z) (s : Scene) : Scene :=
  {| use_hwrt_ := use_hwrt_ s; use_bindless_ := use_bindless_ s; use_tex_compression_ :=
     use_tex_compression_ s; nodes_ := nodes_ s; tris_size_ := tris_size_ s; tri_indices_ :=
     tri_indices_ s; tri_materials_ := tri_materials_ s; tri_materials_cpu_ :=
     tri_materials_cpu_ s; transforms_ := transforms_ s; meshes_ := meshes_ s;
     mesh_instances_ := mesh_instances_ s; mi_indices_ := mi_indices_ s; vertices_size_ :=
     vertices_size_ s; vtx_indices_ := vtx_indices_ s; materials_ := materials_ s;
     atlas_textures_ := atlas_textures_ s; tex_atlases_ := tex_atlases_ s; lights_ :=
     lights_ s; li_indices_ := li_indices_ s; visible_lights_ := visible_lights_ s;
     blocker_lights_ := v; env_ := env_ s; env_map_light_ := env_map_light_ s;
     physical_sky_texture_ := physical_sky_texture_ s; env_map_qtree_ := env_map_qtree_ s;
     macro_nodes_start_ := macro_nodes_start_ s; macro_nodes_count_ := macro_nodes_count_ s;
     tlas_root_node_ := tlas_root_node_ s; log_ := log_ s |}.

Definition with_env (v : environment_t) (s : Scene) : Scene :=
  {| use_hwrt_ := use_hwrt_ s; use_bindless_ := use_bindless_ s; use_tex_compression_ :=
     use_tex_compression_ s; nodes_ := nodes_ s; tris_size_ := tris_size_ s; tri_indices_ :=
     tri_indices_ s; tri_materials_ := tri_materials_ s; tri_materials_cpu_ :=
     tri_materials_cpu_ s; transforms_ := transforms_ s; meshes_ := meshes_ s;
     mesh_instances_ := mesh_instances_ s; mi_indices_ := mi_indices_ s; vertices_size_ :=
     vertices_size_ s; vtx_indices_ := vtx_indices_ s; materials_ := materials_ s;
     atlas_textures_ := atlas_textures_ s; tex_atlases_ := tex_atlases_ s; lights_ :=
     lights_ s; li_indices_ := li_indices_ s; visible_lights_ := visible_lights_ s;
     blocker_lights_ := blocker_lights_ s; env_ := v; env_map_light_ := env_map_light_ s;
     physical_sky_texture_ := physical_sky_texture_ s; env_map_qtree_ := env_map_qtree_ s;
     macro_nodes_start_ := macro_nodes_start_ s; macro_nodes_count_ := macro_nodes_count_ s;
     tlas_root_node_ := tlas_root_node_ s; log_ := log_ s |}.

Definition with_env_map_light (v : Z) (s : Scene) : Scene :=
  {| use_hwrt_ := use_hwrt_ s; use_bindless_ := use_bindless_ s; use_tex_compression_ :=
     use_tex_compression_ s; nodes_ := nodes_ s; tris_size_ := tris_size_ s; tri_indices_ :=
     tri_indices_ s; tri_materials_ := tri_materials_ s; tri_materials_cpu_ :=
     tri_materials_cpu_ s; transforms_ := transforms_ s; meshes_ := meshes_ s;
     mesh_instances_ := mesh_instances_ s; mi_indices_ := mi_indices_ s; vertices_size_ :=
     vertices_size_ s; vtx_indices_ := vtx_indices_ s; materials_ := materials_ s;
     atlas_textures_ := atlas_textures_ s; tex_atlases_ := tex_atlases_ s; lights_ :=
     lights_ s; li_indices_ := li_indices_ s; visible_lights_ := visible_lights_ s;
     blocker_lights_ := blocker_lights_ s; env_ := env_ s; env_map_light_ := v;
     physical_sky_texture_ := physical_sky_texture_ s; env_map_qtree_ := env_map_qtree_ s;
     macro_nodes_start_ := macro_nodes_start_ s; macro_nodes_count_ := macro_nodes_count_ s;
     tlas_root_node_ := tlas_root_node_ s; log_ := log_ s |}.

Definition with_physical_sky_texture (v : Z) (s : Scene) : Scene :=
  {| use_hwrt_ := use_hwrt_ s; use_bindless_ := use_bindless_ s; use_tex_compression_ :=
     use_tex_compression_ s; nodes_ := nodes_ s; tris_size_ := tris_size_ s; tri_indices_ :=
     tri_indices_ s; tri_materials_ := tri_materials_ s; tri_materials_cpu_ :=
     tri_materials_cpu_ s; transforms_ := transforms_ s; meshes_ := meshes_ s;
     mesh_instances_ := mesh_instances_ s; mi_indices_ := mi_indices_ s; vertices_size_ :=
     vertices_size_ s; vtx_indices_ := vtx_indices_ s; materials_ := materials_ s;
     atlas_textures_ := atlas_textures_ s; tex_atlases_ := tex_atlases_ s; lights_ :=
     lights_ s; li_indices_ := li_indices_ s; visible_lights_ := visible_lights_ s;
     blocker_lights_ := blocker_lights_ s; env_ := env_ s; env_map_light_ := env_map_light_
     s; physical_sky_texture_ := v; env_map_qtree_ := env_map_qtree_ s; macro_nodes_start_
     := macro_nodes_start_ s; macro_nodes_count_ := macro_nodes_count_ s; tlas_root_node_ :=
     tlas_root_node_ s; log_ := log_ s |}.

Definition with_env_map_qtree (v : qtree_t) (s : Scene) : Scene :=
  {| use_hwrt_ := use_hwrt_ s; use_bindless_ := use_bindless_ s; use_tex_compression_ :=
     use_tex_compression_ s; nodes_ := nodes_ s; tris_size_ := tris_size_ s; tri_indices_ :=
     tri_indices_ s; tri_materials_ := tri_materials_ s; tri_materials_cpu_ :=
     tri_materials_cpu_ s; transforms_ := transforms_ s; meshes_ := meshes_ s;
     mesh_instances_ := mesh_instances_ s; mi_indices_ := mi_indices_ s; vertices_size_ :=
     vertices_size_ s; vtx_indices_ := vtx_indices_ s; materials_ := materials_ s;
     atlas_textures_ := atlas_textures_ s; tex_atlases_ := tex_atlases_ s; lights_ :=
     lights_ s; li_indices_ := li_indices_ s; visible_lights_ := visible_lights_ s;
     blocker_lights_ := blocker_lights_ s; env_ := env_ s; env_map_light_ := env_map_light_
     s; physical_sky_texture_ := physical_sky_texture_ s; env_map_qtree_ := v;
     macro_nodes_start_ := macro_nodes_start_ s; macro_nodes_count_ := macro_nodes_count_ s;
     tlas_root_node_ := tlas_root_node_ s; log_ := log_ s |}.

Definition with_macro_nodes_start (v : Z) (s : Scene) : Scene :=
  {| use_hwrt_ := use_hwrt_ s; use_bindless_ := use_bindless_ s; use_tex_compression_ :=
     use_tex_compression_ s; nodes_ := nodes_ s; tris_size_ := tris_size_ s; tri_indices_ :=
     tri_indices_ s; tri_materials_ := tri_materials_ s; tri_materials_cpu_ :=
     tri_materials_cpu_ s; transforms_ := transforms_ s; meshes_ := meshes_ s;
     mesh_instances_ := mesh_instances_ s; mi_indices_ := mi_indices_ s; vertices_size_ :=
     vertices_size_ s; vtx_indices_ := vtx_indices_ s; materials_ := materials_ s;
     atlas_textures_ := atlas_textures_ s; tex_atlases_ := tex_atlases_ s; lights_ :=
     lights_ s; li_indices_ := li_indices_ s; visible_lights_ := visible_lights_ s;
     blocker_lights_ := blocker_lights_ s; env_ := env_ s; env_map_light_ := env_map_light_
     s; physical_sky_texture_ := physical_sky_texture_ s; env_map_qtree_ := env_map_qtree_
     s; macro_nodes_start_ := v; macro_nodes_count_ := macro_nodes_count_ s; tlas_root_node_
     := tlas_root_node_ s; log_ := log_ s |}.

Definition with_macro_nodes_count (v : Z) (s : Scene) : Scene :=
  {| use_hwrt_ := use_hwrt_ s; use_bindless_ := use_bindless_ s; use_tex_compression_ :=
     use_tex_compression_ s; nodes_ := nodes_ s; tris_size_ := tris_size_ s; tri_indices_ :=
     tri_indices_ s; tri_materials_ := tri_materials_ s; tri_materials_cpu_ :=
     tri_materials_cpu_ s; transforms_ := transforms_ s; meshes_ := meshes_ s;
     mesh_instances_ := mesh_instances_ s; mi_indices_ := mi_indices_ s; vertices_size_ :=
     vertices_size_ s; vtx_indices_ := vtx_indices_ s; materials_ := materials_ s;
     atlas_textures_ := atlas_textures_ s; tex_atlases_ := tex_atlases_ s; lights_ :=
     lights_ s; li_indices_ := li_indices_ s; visible_lights_ := visible_lights_ s;
     blocker_lights_ := blocker_lights_ s; env_ := env_ s; env_map_light_ := env_map_light_
     s; physical_sky_texture_ := physical_sky_texture_ s; env_map_qtree_ := env_map_qtree_
     s; macro_nodes_start_ := macro_nodes_start_ s; macro_nodes_count_ := v; tlas_root_node_
     := tlas_root_node_ s; log_ := log_ s |}.

Definition with_tlas_root_node (v : bvh_node_t) (s : Scene) : Scene :=
  {| use_hwrt_ := use_hwrt_ s; use_bindless_ := use_bindless_ s; use_tex_compression_ :=
     use_tex_compression_ s; nodes_ := nodes_ s; tris_size_ := tris_size_ s; tri_indices_ :=
     tri_indices_ s; tri_materials_ := tri_materials_ s; tri_materials_cpu_ :=
     tri_materials_cpu_ s; transforms_ := transforms_ s; meshes_ := meshes_ s;
     mesh_instances_ := mesh_instances_ s; mi_indices_ := mi_indices_ s; vertices_size_ :=
     vertices_size_ s; vtx_indices_ := vtx_indices_ s; materials_ := materials_ s;
     atlas_textures_ := atlas_textures_ s; tex_atlases_ := tex_atlases_ s; lights_ :=
     lights_ s; li_indices_ := li_indices_ s; visible_lights_ := visible_lights_ s;
     blocker_lights_ := blocker_lights_ s; env_ := env_ s; env_map_light_ := env_map_light_
     s; physical_sky_texture_ := physical_sky_texture_ s; env_map_qtree_ := env_map_qtree_
     s; macro_nodes_start_ := macro_nodes_start_ s; macro_nodes_count_ := macro_nodes_count_
     s; tlas_root_node_ := v; log_ := log_ s |}.

Definition with_log (v : list log_entry) (s : Scene) : Scene :=
  {| use_hwrt_ := use_hwrt_ s; use_bindless_ := use_bindless_ s; use_tex_compression_ :=
     use_tex_compression_ s; nodes_ := nodes_ s; tris_size_ := tris_size_ s; tri_indices_ :=
     tri_indices_ s; tri_materials_ := tri_materials_ s; tri_materials_cpu_ :=
     tri_materials_cpu_ s; transforms_ := transforms_ s; meshes_ := meshes_ s;
     mesh_instances_ := mesh_instances_ s; mi_indices_ := mi_indices_ s; vertices_size_ :=
     vertices_size_ s; vtx_indices_ := vtx_indices_ s; materials_ := materials_ s;
     atlas_textures_ := atlas_textures_ s; tex_atlases_ := tex_atlases_ s; lights_ :=
     lights_ s; li_indices_ := li_indices_ s; visible_lights_ := visible_lights_ s;
     blocker_lights_ := blocker_lights_ s; env_ := env_ s; env_map_light_ := env_map_light_
     s; physical_sky_texture_ := physical_sky_texture_ s; env_map_qtree_ := env_map_qtree_
     s; macro_nodes_start_ := macro_nodes_start_ s; macro_nodes_count_ := macro_nodes_count_
     s; tlas_root_node_ := tlas_root_node_ s; log_ := v |}.

(** The scene the constructor builds. *)
Definition Scene_new (use_hwrt use_bindless use_tex_compression : bool) : Scene := {|
  use_hwrt_ := use_hwrt;
  use_bindless_ := use_bindless;
  use_tex_compression_ := use_tex_compression;
  nodes_ := [];
  tris_size_ := 0;
  tri_indices_ := [];
  tri_materials_ := [];
  tri_materials_cpu_ := [];
  transforms_ := SparseStorage.empty;
  meshes_ := SparseStorage.empty;
  mesh_instances_ := SparseStorage.empty;
  mi_indices_ := [];
  vertices_size_ := 0;
  vtx_indices_ := [];
  materials_ := SparseStorage.empty;
  atlas_textures_ := SparseStorage.empty;
  tex_atlases_ := replicate 7 [];
  lights_ := SparseStorage.empty;
  li_indices_ := [];
  visible_lights_ := [];
  blocker_lights_ := [];
  env_ := {| env_col := (F32.zero, F32.zero, F32.zero); env_map := InvalidIndex;
             back_col := (F32.zero, F32.zero, F32.zero); back_map := InvalidIndex;
             env_map_rotation := F32.zero; back_map_rotation := F32.zero;
             multiple_importance := true; qtree_levels := 0 |};
  env_map_light_ := InvalidIndex;
  physical_sky_texture_ := InvalidIndex;
  env_map_qtree_ := qtree_empty;
  macro_nodes_start_ := 0xffffffff;
  macro_nodes_count_ := 0;
  tlas_root_node_ := bvh_node_zero;
  log_ := []
|}.

Record shape_desc_t := {
  front_mat : Z;
  back_mat : Z;
  vtx_start : Z;
  vtx_count : Z
}.

(** [mesh_desc_t], without the vertex attribute payload. *)
Record mesh_desc_t := {
  md_vtx_attrs_count : Z;
  md_vtx_indices : list Z;
  md_base_vertex : Z;
  md_shapes : list shape_desc_t
}.
Definition md_vtx_indices_count (m : mesh_desc_t) : Z :=
  Z.of_nat (length (md_vtx_indices m)).

(** The environment map as [PrepareEnvMapQTree_nolock] sees it after the
    read-back: its size, the decoded colour [rgbe_to_rgb] yields for a pixel
    and the canonical coordinates [DirToCanonical] yields for the direction
    of a pixel. *)
Record env_image := {
  img_w : Z;
  img_h : Z;
  img_rgb : Z -> Z -> float3;
  img_canonical : Z -> Z -> float * float
}.

(** Functions and values the scene code uses but whose definitions are not
    among the sources.  They are a parameter of the model. *)
Class Externals := {
  PI : float;
  tanf : float -> float;
  pack_unorm_16 : float -> Z;
  (** the default member initialisers of [shading_node_desc_t] *)
  shading_node_defaults : shading_node_desc_t;
  InverseMatrix : list float -> list float;
  TransformBoundingBox : float3 -> float3 -> list float -> float3 * float3;
  (** returns the node count, the nodes and the primitive indices *)
  PreprocessPrims_SAH : list prim_t -> Z * list bvh_node_t * list Z;
  (** returns the nodes, the number of triangles and the triangle indices *)
  PreprocessMesh : mesh_desc_t -> list bvh_node_t * Z * list Z;
  (** the bounds of the vertex positions a mesh descriptor references *)
  vertices_bbox : mesh_desc_t -> float3 * float3;
  (** [TextureAtlas::Allocate] on atlas [i] in a given state for a region
      of a given size with given contents: the page ([-1] when the
      allocation fails), the position and the new state of the atlas *)
  atlas_Allocate :
    Z -> atlas_state -> Z * Z -> list Z -> Z * (Z * Z) * atlas_state;
  (** [TextureAtlas::AllocateMips]: pages and positions of the mips and the
      new state of the atlas *)
  atlas_AllocateMips :
    Z -> atlas_state -> Z * Z -> list Z -> Z -> list Z * list (Z * Z) * atlas_state;
  image_blit_supported : bool;
  (** [bindless_textures_.erase] *)
  erase_bindless_texture : Z -> Scene -> Scene;
  (** the pixels of the texture an env-map handle refers to *)
  env_map_image : Scene -> Z -> env_image;
  (** the RGBE pixels the sky baker renders for the directional lights *)
  sky_pixels : list light_t -> list Z;
  AddBindlessTexture_nolock : tex_desc_t -> Scene -> Z * Scene;
  GenerateTextureMips_nolock : Scene -> Scene;
  PrepareBindlessTextures_nolock : Scene -> Scene;
  RebuildHWAccStructures_nolock : Scene -> Scene
}.

(** ** Results of operations that can go wrong

    [InvalidMaterial], [StackOverflow], [OutOfBounds] and [Overflow] stand
    for what is undefined behaviour in the source: reading a storage slot
    that holds no element, writing past the 32 entries of a material stack,
    indexing an array out of its bounds, a signed integer overflow or a
    float-to-int conversion out of range.  [OutOfFuel] means that a loop did not finish
    within the number of iterations the model was given. *)
Inductive failure :=
| InvalidMaterial | StackOverflow | OutOfBounds | Overflow | OutOfFuel.

Inductive result (A : Type) :=
| Ok (a : A)
| Fail (why : failure).
Arguments Ok {A} a.
Arguments Fail {A} why.

Definition bind {A B : Type} (r : result A) (k : A -> result B) : result B :=
  match r with
  | Ok a => k a
  | Fail why => Fail why
  end.

Notation "'let*' x ':=' r 'in' k" := (bind r (fun x => k))
  (at level 10, x name, r at level 100, k at level 200).


(** [l[i]] and [l[i] = x] on an array. *)
Definition read_at {A : Type} (l : list A) (i : Z) : result A :=
  if (i <? 0) || (Z.of_nat (length l) <=? i) then Fail OutOfBounds
  else match l !! Z.to_nat i with
       | Some x => Ok x
       | None => Fail OutOfBounds
       end.

Definition write_at {A : Type} (l : list A) (i : Z) (x : A) : result (list A) :=
  if (0 <=? i) && (i <? Z.of_nat (length l))
  then Ok (<[Z.to_nat i := x]> l)
  else Fail OutOfBounds.

(** ** Materials *)

Section Materials.
Context `{Constants} `{Externals}.

Definition lor_if (b : bool) (bit v : Z) : Z := if b then Z.lor v bit else v.

(** [Scene::AddMaterial_nolock] *)
Definition make_material (m : shading_node_desc_t) : material_t :=
  let ty := sn_type m in
  let tex0 := textures material_zero in
  let tex1 := <[BASE_TEXTURE := sn_base_texture m]> tex0 in
  let tex2 := <[ROUGH_TEXTURE := sn_roughness_texture m]> tex1 in
  let tex3 :=
    match ty with
    | Diffuse | Glossy => <[METALLIC_TEXTURE := sn_metallic_texture m]> tex2
    | Mix => <[MIX_MAT2 := snd (sn_mix_materials m)]>
               (<[MIX_MAT1 := fst (sn_mix_materials m)]> tex2)
    | _ => tex2
    end in
  let tex4 := <[NORMALS_TEXTURE := sn_normal_map m]> tex3 in
  {| textures := tex4;
     base_color := sn_base_color m;
     flags :=
       match ty with
       | Emissive => lor_if (sn_multiple_importance m) MAT_FLAG_MULT_IMPORTANCE 0
       | Mix => lor_if (sn_mix_add m) MAT_FLAG_MIX_ADD 0
       | _ => 0
       end;
     type := ty;
     tangent_rotation :=
       match ty with
       | Glossy => F32.mul (F32.mul F32.two PI) (sn_anisotropic_rotation m)
       | _ => F32.zero
       end;
     strength :=
       match ty with
       | Emissive | Mix => sn_strength m
       | _ => F32.zero
       end;
     roughness_unorm := pack_unorm_16 (sn_roughness m);
     anisotropic_unorm := 0;
     ior := sn_ior m;
     sheen_unorm :=
       match ty with
       | Diffuse =>
           pack_unorm_16 (F32.clamp (F32.mul F32.half (sn_sheen m)) F32.zero F32.one)
       | _ => 0
       end;
     sheen_tint_unorm :=
       match ty with
       | Diffuse => pack_unorm_16 (F32.clamp (sn_tint m) F32.zero F32.one)
       | _ => 0
       end;
     tint_unorm :=
       match ty with
       | Glossy => pack_unorm_16 (F32.clamp (sn_tint m) F32.zero F32.one)
       | _ => 0
       end;
     metallic_unorm := 0;
     transmission_unorm := 0;
     transmission_roughness_unorm := 0;
     specular_unorm := 0;
     specular_tint_unorm := 0;
     clearcoat_unorm := 0;
     clearcoat_roughness_unorm := 0;
     normal_map_strength_unorm :=
       pack_unorm_16 (F32.clamp (sn_normal_map_intensity m) F32.zero F32.one) |}.

Definition AddMaterial_nolock (m : shading_node_desc_t) (s : Scene) : Z * Scene :=
  let '(i, ms) := SparseStorage.push (make_material m) (materials_ s) in
  (i, with_materials ms s).

(** [Scene::AddMaterial(const shading_node_desc_t &)] takes the lock and
    calls [AddMaterial_nolock]. *)
Definition AddMaterial (m : shading_node_desc_t) (s : Scene) : Z * Scene :=
  AddMaterial_nolock m s.

Definition with_sn_type (ty : eShadingNode) (d : shading_node_desc_t) :=
  {| sn_type := ty; sn_base_color := sn_base_color d;
     sn_base_texture := sn_base_texture d; sn_normal_map := sn_normal_map d;
     sn_normal_map_intensity := sn_normal_map_intensity d;
     sn_mix_materials := sn_mix_materials d; sn_roughness := sn_roughness d;
     sn_roughness_texture := sn_roughness_texture d;
     sn_anisotropic_rotation := sn_anisotropic_rotation d;
     sn_sheen := sn_sheen d; sn_strength := sn_strength d; sn_ior := sn_ior d;
     sn_tint := sn_tint d; sn_metallic_texture := sn_metallic_texture d;
     sn_multiple_importance := sn_multiple_importance d;
     sn_mix_add := sn_mix_add d |}.

(** The main node of a principled material. *)
Definition principled_main_mat (m : principled_mat_desc_t) : material_t :=
  let c01 x := pack_unorm_16 (F32.clamp x F32.zero F32.one) in
  {| textures :=
       <[SPECULAR_TEXTURE := pm_specular_texture m]>
       (<[NORMALS_TEXTURE := pm_normal_map m]>
       (<[METALLIC_TEXTURE := pm_metallic_texture m]>
       (<[ROUGH_TEXTURE := pm_roughness_texture m]>
       (<[BASE_TEXTURE := pm_base_texture m]> (textures material_zero)))));
     base_color := pm_base_color m;
     flags := 0;
     type := Principled;
     tangent_rotation :=
       F32.mul (F32.mul F32.two PI)
         (F32.clamp (pm_anisotropic_rotation m) F32.zero F32.one);
     strength := F32.zero;
     roughness_unorm := c01 (pm_roughness m);
     anisotropic_unorm := c01 (pm_anisotropic m);
     ior := pm_ior m;
     sheen_unorm := c01 (F32.mul F32.half (pm_sheen m));
     sheen_tint_unorm := c01 (pm_sheen_tint m);
     tint_unorm := 0;
     metallic_unorm := c01 (pm_metallic m);
     transmission_unorm := c01 (pm_transmission m);
     transmission_roughness_unorm := c01 (pm_transmission_roughness m);
     specular_unorm := c01 (pm_specular m);
     specular_tint_unorm := c01 (pm_specular_tint m);
     clearcoat_unorm := c01 (pm_clearcoat m);
     clearcoat_roughness_unorm := c01 (pm_clearcoat_roughness m);
     normal_map_strength_unorm := c01 (pm_normal_map_intensity m) |}.

(** The descriptors [AddMaterial(principled)] fills in, starting from a
    default-initialised [shading_node_desc_t]. *)
Definition emissive_desc (m : principled_mat_desc_t) : shading_node_desc_t :=
  let d := shading_node_defaults in
  {| sn_type := Emissive; sn_base_color := pm_emission_color m;
     sn_base_texture := pm_emission_texture m; sn_normal_map := sn_normal_map d;
     sn_normal_map_intensity := sn_normal_map_intensity d;
     sn_mix_materials := sn_mix_materials d; sn_roughness := sn_roughness d;
     sn_roughness_texture := sn_roughness_texture d;
     sn_anisotropic_rotation := sn_anisotropic_rotation d;
     sn_sheen := sn_sheen d; sn_strength := pm_emission_strength m;
     sn_ior := sn_ior d; sn_tint := sn_tint d;
     sn_metallic_texture := sn_metallic_texture d;
     sn_multiple_importance := sn_multiple_importance d;
     sn_mix_add := sn_mix_add d |}.

Definition transparent_desc : shading_node_desc_t :=
  with_sn_type Transparent shading_node_defaults.

Definition mix_desc (base_texture : Z) (strength_ : float) (mix_add : option bool)
    (mat1 mat2 : Z) : shading_node_desc_t :=
  let d := shading_node_defaults in
  {| sn_type := Mix; sn_base_color := sn_base_color d;
     sn_base_texture := base_texture; sn_normal_map := sn_normal_map d;
     sn_normal_map_intensity := sn_normal_map_intensity d;
     sn_mix_materials := (mat1, mat2); sn_roughness := sn_roughness d;
     sn_roughness_texture := sn_roughness_texture d;
     sn_anisotropic_rotation := sn_anisotropic_rotation d;
     sn_sheen := sn_sheen d; sn_strength := strength_;
     sn_ior := F32.zero; sn_tint := sn_tint d;
     sn_metallic_texture := sn_metallic_texture d;
     sn_multiple_importance := sn_multiple_importance d;
     sn_mix_add := match mix_add with Some b => b | None => sn_mix_add d end |}.

(** [Scene::AddMaterial(const principled_mat_desc_t &)] *)
Definition AddMaterial_principled (m : principled_mat_desc_t) (s : Scene)
    : Z * Scene :=
  let '(root0, ms0) := SparseStorage.push (principled_main_mat m) (materials_ s) in
  let s0 := with_materials ms0 s in
  let '(er, eg, eb) := pm_emission_color m in
  let '(emissive_node, s1) :=
    if F32.gt (pm_emission_strength m) F32.zero
       && (F32.gt er F32.zero || F32.gt eg F32.zero || F32.gt eb F32.zero)
    then AddMaterial (emissive_desc m) s0
    else (InvalidIndex, s0) in
  let '(transparent_node, s2) :=
    if F32.ne (pm_alpha m) F32.one || negb (pm_alpha_texture m =? InvalidIndex)
    then AddMaterial transparent_desc s1
    else (InvalidIndex, s1) in
  let '(root1, s3) :=
    if negb (emissive_node =? InvalidIndex) then
      if root0 =? InvalidIndex then (emissive_node, s2)
      else AddMaterial
             (mix_desc InvalidIndex F32.half (Some true) root0 emissive_node) s2
    else (root0, s2) in
  if negb (transparent_node =? InvalidIndex) then
    if (root1 =? InvalidIndex) || F32.eq (pm_alpha m) F32.zero
    then (transparent_node, s3)
    else AddMaterial
           (mix_desc (pm_alpha_texture m) (pm_alpha m) None transparent_node root1) s3
  else (root1, s3).

(** [Scene::RemoveMaterial] *)
Definition RemoveMaterial (m : Z) (s : Scene) : Scene :=
  with_materials (SparseStorage.erase m (materials_ s)) s.

End Materials.

(** ** Meshes *)

Section Meshes.
Context `{Constants} `{Externals}.

(** The loop of [AddMesh] that resolves Mix nodes.  [stack] holds the
    entries [material_stack[0 .. material_count)], the top one first.  The
    result is the value of [is_front_solid] / [is_back_solid] when the loop
    is left. *)
Fixpoint walk_materials (fuel : nat) (mats : SparseStorage.t material_t)
    (stack : list Z) : result bool :=
  match stack with
  | [] => Ok true
  | top :: rest =>
      match fuel with
      | O => Fail OutOfFuel
      | S fuel' =>
          match SparseStorage.get mats top with
          | None => Fail InvalidMaterial
          | Some mat =>
              match type mat with
              | Mix =>
                  if (length rest + 2 <=? 32)%nat
                  then walk_materials fuel' mats
                         (tex_slot mat MIX_MAT2 :: tex_slot mat MIX_MAT1 :: rest)
                  else Fail StackOverflow
              | Transparent => Ok false
              | _ => walk_materials fuel' mats rest
              end
          end
      end
  end.

(** [material_stack[0] = root; material_count = 1; while (material_count) ...] *)
Definition is_solid (fuel : nat) (mats : SparseStorage.t material_t) (root : Z)
    : result bool :=
  walk_materials fuel mats [root].

(** The values [i / 3] the loop
    [for (i = vtx_start; i < vtx_start + vtx_count; i += 3)] visits. *)
Definition shape_tris (sh : shape_desc_t) : list Z :=
  map (fun k => (vtx_start sh + 3 * Z.of_nat k) / 3)
      (seq 0 (Z.to_nat ((vtx_count sh + 2) / 3))).

(** The record the loop stores for every triangle of a shape. *)
Definition shape_tri_mat (sh : shape_desc_t) (is_front_solid is_back_solid : bool)
    : tri_mat_data_t :=
  {| front_mi := lor_if is_front_solid MATERIAL_SOLID_BIT (u16 (front_mat sh));
     back_mi := lor_if is_back_solid MATERIAL_SOLID_BIT (u16 (back_mat sh)) |}.

Fixpoint write_all {A : Type} (idx : list Z) (x : A) (l : list A) : result (list A) :=
  match idx with
  | [] => Ok l
  | i :: idx' => let* l' := write_at l i x in write_all idx' x l'
  end.

(** One iteration of [for (const shape_desc_t &sh : _m.shapes)]. *)
Definition init_shape_materials (fuel : nat) (mats : SparseStorage.t material_t)
    (sh : shape_desc_t) (new_tri_materials : list tri_mat_data_t)
    : result (list tri_mat_data_t) :=
  let* is_front_solid := is_solid fuel mats (front_mat sh) in
  let* is_back_solid := is_solid fuel mats (back_mat sh) in
  write_all (shape_tris sh) (shape_tri_mat sh is_front_solid is_back_solid)
            new_tri_materials.

Fixpoint init_tri_materials (fuel : nat) (mats : SparseStorage.t material_t)
    (shapes : list shape_desc_t) (new_tri_materials : list tri_mat_data_t)
    : result (list tri_mat_data_t) :=
  match shapes with
  | [] => Ok new_tri_materials
  | sh :: shapes' =>
      let* l := init_shape_materials fuel mats sh new_tri_materials in
      init_tri_materials fuel mats shapes' l
  end.

Definition tri_mat_zero : tri_mat_data_t := {| front_mi := 0; back_mi := 0 |}.

(** The offsets [AddMesh] applies to the nodes of the new BLAS. *)
Definition offset_mesh_node (tri_indices_size nodes_size : Z) (n : bvh_node_t)
    : bvh_node_t :=
  if negb (Z.land (prim_index n) LEAF_NODE_BIT =? 0)
  then {| bbox_min := bbox_min n; prim_index := u32 (prim_index n + tri_indices_size);
          bbox_max := bbox_max n; prim_count := prim_count n |}
  else {| bbox_min := bbox_min n; prim_index := u32 (left_child n + nodes_size);
          bbox_max := bbox_max n; prim_count := u32 (right_child n + nodes_size) |}.

(** [Scene::AddMesh] *)
Definition AddMesh (fuel : nat) (m : mesh_desc_t) (s : Scene) : result (Z * Scene) :=
  let '(new_nodes, new_tris_size, new_tri_indices) :=
    if use_hwrt_ s then ([], 0, []) else PreprocessMesh m in
  let* bbox :=
    (if use_hwrt_ s then Ok (vertices_bbox m)
     else let* n0 := read_at new_nodes 0 in Ok (bbox_min n0, bbox_max n0)) in
  let* new_tri_materials :=
    init_tri_materials fuel (materials_ s) (md_shapes m)
      (replicate (Z.to_nat (md_vtx_indices_count m / 3)) tri_mat_zero) in
  let new_vtx_indices :=
    map (fun i => u32 (i + md_base_vertex m + u32 (vertices_size_ s)))
        (md_vtx_indices m) in
  let nodes_size := u32 (Z.of_nat (length (nodes_ s))) in
  let new_nodes' :=
    map (offset_mesh_node (u32 (Z.of_nat (length (tri_indices_ s)))) nodes_size)
        new_nodes in
  let new_tri_indices' :=
    map (fun i => u32 (i + u32 (Z.of_nat (length (tri_materials_ s)))))
        new_tri_indices in
  let mesh := {|
    m_bbox_min := fst bbox; m_bbox_max := snd bbox;
    node_index := nodes_size;
    node_count := u32 (Z.of_nat (length new_nodes'));
    tris_index := u32 (tris_size_ s);
    tris_count := u32 new_tris_size;
    vert_index := u32 (Z.of_nat (length (vtx_indices_ s)));
    vert_count := u32 (Z.of_nat (length new_vtx_indices)) |} in
  let '(mesh_i, meshes') := SparseStorage.push mesh (meshes_ s) in
  let s1 := with_tri_materials (tri_materials_ s ++ new_tri_materials) s in
  let s2 := with_tri_materials_cpu (tri_materials_cpu_ s1 ++ new_tri_materials) s1 in
  let s3 := with_meshes meshes' s2 in
  let s4 := if use_hwrt_ s then s3 else with_nodes (nodes_ s3 ++ new_nodes') s3 in
  let s5 := with_vertices_size (vertices_size_ s4 + md_vtx_attrs_count m) s4 in
  let s6 := with_vtx_indices (vtx_indices_ s5 ++ new_vtx_indices) s5 in
  let s7 :=
    if use_hwrt_ s then s6
    else with_tri_indices (tri_indices_ s6 ++ new_tri_indices')
           (with_tris_size (tris_size_ s6 + new_tris_size) s6) in
  Ok (mesh_i, s7).

End Meshes.

(** ** Lights *)

Section Lights.
Context `{Constants} `{Externals}.

(** [lights_.push(l); li_indices_.PushBack(light_index)] *)
Definition push_light (l : light_t) (s : Scene) : Z * Scene :=
  let '(light_index, ls) := SparseStorage.push l (lights_ s) in
  let s1 := with_lights ls s in
  (light_index, with_li_indices (li_indices_ s1 ++ [light_index]) s1).

(** [Scene::AddLight(const directional_light_desc_t &)] *)
Definition AddLight_directional (_l : directional_light_desc_t) (s : Scene)
    : Z * Scene :=
  let '(d0, d1, d2) := dl_direction _l in
  let angle := F32.div (F32.mul (dl_angle _l) PI) F32.f360 in
  let '(c0, c1, c2) := dl_color _l in
  let col' :=
    if F32.ne angle F32.zero then
      let radius := tanf angle in
      let mul := F32.div F32.one (F32.mul (F32.mul PI radius) radius) in
      (F32.mul c0 mul, F32.mul c1 mul, F32.mul c2 mul)
    else (c0, c1, c2) in
  let l := {|
    l_type := LIGHT_TYPE_DIR;
    cast_shadow := dl_cast_shadow _l;
    visible := false;
    sky_portal := false;
    col := col';
    geom := geom_dir (F32.opp d0, F32.opp d1, F32.opp d2) angle |} in
  let '(light_index, s1) := push_light l s in
  let s2 :=
    if dl_visible _l
    then with_visible_lights (visible_lights_ s1 ++ [light_index]) s1
    else s1 in
  (light_index, s2).

(** [Scene::AddLight(const sphere_light_desc_t &)] *)
Definition AddLight_sphere (_l : sphere_light_desc_t) (s : Scene) : Z * Scene :=
  let four := F32.mul F32.two F32.two in
  let l := {|
    l_type := LIGHT_TYPE_SPHERE;
    cast_shadow := sl_cast_shadow _l;
    visible := sl_visible _l;
    sky_portal := false;
    col := sl_color _l;
    geom :=
      geom_sph (sl_position _l)
        (F32.mul (F32.mul (F32.mul four PI) (sl_radius _l)) (sl_radius _l))
        (F32.zero, F32.zero, F32.zero) (sl_radius _l)
        (F32.opp F32.one) (F32.opp F32.one) |} in
  let '(light_index, s1) := push_light l s in
  let s2 :=
    if sl_visible _l
    then with_visible_lights (visible_lights_ s1 ++ [light_index]) s1
    else s1 in
  (light_index, s2).

(** [Scene::RemoveLight_nolock] *)
Definition RemoveLight_nolock (i : Z) (s : Scene) : Scene :=
  if negb (SparseStorage.exists_ (lights_ s) i) then s
  else with_lights (SparseStorage.erase i (lights_ s)) s.

End Lights.

(** ** Mesh instances and the TLAS *)

Section Instances.
Context `{Constants} `{Externals}.

(** [Scene::RemoveNodes_nolock]: after the early return its body is
    commented out. *)
Definition RemoveNodes_nolock (node_index node_count : Z) (s : Scene) : Scene :=
  if node_count =? 0 then s else s.

(** The offset [RebuildTLAS_nolock] applies to the nodes of the new TLAS. *)
Definition offset_tlas_node (nodes_size : Z) (n : bvh_node_t) : bvh_node_t :=
  if Z.land (prim_index n) LEAF_NODE_BIT =? 0
  then {| bbox_min := bbox_min n; prim_index := u32 (left_child n + nodes_size);
          bbox_max := bbox_max n; prim_count := u32 (right_child n + nodes_size) |}
  else n.

Definition instance_prim (mi : mesh_instance_t) : prim_t :=
  {| p_bbox_min := mi_bbox_min mi; p_bbox_max := mi_bbox_max mi |}.

(** [Scene::RebuildTLAS_nolock] *)
Definition RebuildTLAS_nolock (s : Scene) : result Scene :=
  let s1 := RemoveNodes_nolock (macro_nodes_start_ s) (macro_nodes_count_ s) s in
  let s2 := with_mi_indices [] s1 in
  let primitives := map instance_prim (SparseStorage.elements (mesh_instances_ s2)) in
  let nodes_size := u32 (Z.of_nat (length (nodes_ s2))) in
  let s3 := with_macro_nodes_start nodes_size s2 in
  let '(count, bvh_nodes, mi_indices) := PreprocessPrims_SAH primitives in
  let s4 := with_macro_nodes_count (u32 count) s3 in
  let bvh_nodes' := map (offset_tlas_node nodes_size) bvh_nodes in
  let s5 := with_nodes (nodes_ s4 ++ bvh_nodes') s4 in
  let s6 := with_mi_indices (mi_indices_ s5 ++ mi_indices) s5 in
  let* root := read_at bvh_nodes' 0 in
  Ok (with_tlas_root_node root s6).

(** [Scene::SetMeshInstanceTransform_nolock] *)
Definition SetMeshInstanceTransform_nolock (mi_handle : Z) (xform_ : list float)
    (s : Scene) : result Scene :=
  let tr := {| xform := take 16 xform_; inv_xform := InverseMatrix (take 16 xform_) |} in
  match SparseStorage.get (mesh_instances_ s) mi_handle with
  | None => Fail OutOfBounds
  | Some mi =>
      match SparseStorage.get (meshes_ s) (mesh_index mi) with
      | None => Fail OutOfBounds
      | Some m =>
          let '(bmin, bmax) :=
            TransformBoundingBox (m_bbox_min m) (m_bbox_max m) xform_ in
          let mi' := {| mi_bbox_min := bmin; tr_index := tr_index mi;
                        mi_bbox_max := bmax; mesh_index := mesh_index mi |} in
          let s1 :=
            with_mesh_instances
              (SparseStorage.Set_ mi_handle mi' (mesh_instances_ s)) s in
          let s2 :=
            with_transforms (SparseStorage.Set_ (tr_index mi) tr (transforms_ s1)) s1 in
          RebuildTLAS_nolock s2
      end
  end.

(** The light [AddMeshInstance] creates for an emissive triangle. *)
Definition triangle_light (tri xform_index : Z) (front_mat_ : material_t) : light_t :=
  let '(c0, c1, c2) := base_color front_mat_ in
  {| l_type := LIGHT_TYPE_TRI;
     cast_shadow := true;
     visible := false;
     sky_portal := false;
     col := (F32.mul c0 (strength front_mat_), F32.mul c1 (strength front_mat_),
             F32.mul c2 (strength front_mat_));
     geom := geom_tri tri xform_index |}.

(** The test [AddMeshInstance] applies to the front material of a triangle. *)
Definition is_emissive_mi (front_mat_ : material_t) : bool :=
  eShadingNode_eqb (type front_mat_) Emissive
  && negb (Z.land (flags front_mat_) MAT_FLAG_MULT_IMPORTANCE =? 0).

(** The body of the loop over the triangles of the instanced mesh. *)
Definition add_emissive_tri (xform_index tri : Z) (s : Scene) : result Scene :=
  let* tri_mat := read_at (tri_materials_cpu_ s) tri in
  match SparseStorage.get (materials_ s)
          (Z.land (front_mi tri_mat) MATERIAL_INDEX_BITS) with
  | None => Fail InvalidMaterial
  | Some front_mat_ =>
      if is_emissive_mi front_mat_
      then Ok (snd (push_light (triangle_light tri xform_index front_mat_) s))
      else Ok s
  end.

Fixpoint add_emissive_tris (xform_index : Z) (tris : list Z) (s : Scene)
    : result Scene :=
  match tris with
  | [] => Ok s
  | tri :: tris' =>
      let* s' := add_emissive_tri xform_index tri s in
      add_emissive_tris xform_index tris' s'
  end.

(** The triangles
    [for (tri = m.vert_index / 3; tri < (m.vert_index + m.vert_count) / 3; ++tri)]
    visits. *)
Definition mesh_tris (m : mesh_t) : list Z :=
  let first := vert_index m / 3 in
  let stop := u32 (vert_index m + vert_count m) / 3 in
  map (fun k => first + Z.of_nat k) (seq 0 (Z.to_nat (stop - first))).

(** [Scene::AddMeshInstance] *)
Definition AddMeshInstance (mesh : Z) (xform_ : list float) (s : Scene)
    : result (Z * Scene) :=
  let '(tr, trs) := SparseStorage.push transform_zero (transforms_ s) in
  let s1 := with_transforms trs s in
  let mi := {| mi_bbox_min := (F32.zero, F32.zero, F32.zero); tr_index := tr;
               mi_bbox_max := (F32.zero, F32.zero, F32.zero); mesh_index := mesh |} in
  let '(mi_index, mis) := SparseStorage.push mi (mesh_instances_ s1) in
  let s2 := with_mesh_instances mis s1 in
  match SparseStorage.get (meshes_ s2) mesh with
  | None => Fail OutOfBounds
  | Some m =>
      let* s3 := add_emissive_tris tr (mesh_tris m) s2 in
      let* s4 := SetMeshInstanceTransform_nolock mi_index xform_ s3 in
      Ok (mi_index, s4)
  end.

(** [Scene::SetMeshInstanceTransform] *)
Definition SetMeshInstanceTransform (mi_handle : Z) (xform_ : list float)
    (s : Scene) : result Scene :=
  SetMeshInstanceTransform_nolock mi_handle xform_ s.

End Instances.

(** ** Textures *)

Section Textures.
Context `{Constants} `{Externals}.

(** One iteration of the loops that repack a normal map to two channels:
    the two bytes kept and the contribution to [recostruct_z]. *)
Definition repack_pixel (channels : Z) (data : list Z) (i : Z)
    : result (Z * Z * bool) :=
  let* r := read_at data (channels * i) in
  let* g := read_at data (channels * i + 1) in
  let* b := read_at data (channels * i + 2) in
  Ok (r, g, b <? 250).

Fixpoint repack_normalmap (channels : Z) (data : list Z) (idx : list Z)
    : result (list Z * bool) :=
  match idx with
  | [] => Ok ([], false)
  | i :: idx' =>
      let* px := repack_pixel channels data i in
      let* rest := repack_normalmap channels data idx' in
      let '(r, g, z) := px in
      Ok (r :: g :: fst rest, z || snd rest)
  end.

Definition pixel_indices (w h : Z) : list Z :=
  map Z.of_nat (seq 0 (Z.to_nat (w * h))).

(** The first part of [AddAtlasTexture_nolock]: the atlas index, the data
    to upload and [recostruct_z]. *)
Definition choose_atlas (use_compression : bool) (_t : tex_desc_t)
    : result (Z * list Z * bool) :=
  match td_format _t with
  | RGBA8888 =>
      if negb (td_is_normalmap _t) then Ok (0, td_data _t, false)
      else
        let* rp := repack_normalmap 4 (td_data _t) (pixel_indices (td_w _t) (td_h _t)) in
        Ok (if use_compression then 6 else 2, fst rp, snd rp)
  | RGB888 =>
      if negb (td_is_normalmap _t)
      then Ok (if use_compression then 4 else 1, td_data _t, false)
      else
        let* rp := repack_normalmap 3 (td_data _t) (pixel_indices (td_w _t) (td_h _t)) in
        Ok (if use_compression then 6 else 2, fst rp, snd rp)
  | RG88 => Ok (if use_compression then 6 else 2, td_data _t, false)
  | R8 => Ok (if use_compression then 5 else 3, td_data _t, false)
  end.

Definition Info (msg : string) (s : Scene) : Scene :=
  with_log (log_ s ++ [(LogInfo, msg)]) s.

(** [Scene::AddAtlasTexture_nolock] *)
Definition AddAtlasTexture_nolock (_t : tex_desc_t) (s : Scene) : result (Z * Scene) :=
  let width0 := u16 (td_w _t) in
  let height0 := u16 (td_h _t) in
  let width1 := u16 (lor_if (td_is_srgb _t) ATLAS_TEX_SRGB_BIT width0) in
  let height1 :=
    u16 (lor_if (td_generate_mipmaps _t && (MIN_ATLAS_TEXTURE_SIZE <? td_w _t)
                 && (MIN_ATLAS_TEXTURE_SIZE <? td_h _t))
           ATLAS_TEX_MIPS_BIT height0) in
  let res_ := (td_w _t, td_h _t) in
  let use_compression := use_tex_compression_ s && negb (td_force_no_compression _t) in
  let* chosen := choose_atlas use_compression _t in
  let '(atlas, tex_data, recostruct_z) := chosen in
  let width2 := u16 (lor_if recostruct_z ATLAS_TEX_RECONSTRUCT_Z_BIT width1) in
  (* Allocate initial mip level *)
  let* st := read_at (tex_atlases_ s) atlas in
  let '(page, pos, st') := atlas_Allocate atlas st res_ tex_data in
  let s1 := with_tex_atlases (<[Z.to_nat atlas := st']> (tex_atlases_ s)) s in
  if page =? -1 then Ok (InvalidIndex, s1)
  else
    let page0 := u8 page in
    let pos0 := (u16 (fst pos), u16 (snd pos)) in
    if td_generate_mipmaps _t && (use_compression || negb image_blit_supported) then
      match td_format _t with
      | RGBA8888 => Ok (InvalidIndex, s1)
      | _ =>
          let '(pages, positions, st'') :=
            atlas_AllocateMips atlas st' res_ (td_data _t)
              (Z.of_nat NUM_MIP_LEVELS - 1) in
          let s2 := with_tex_atlases (<[Z.to_nat atlas := st'']> (tex_atlases_ s1)) s1 in
          let t := {|
            at_width := width2; at_height := height1; at_atlas := atlas;
            at_page :=
              page0 :: map (fun i => u8 (default 0 (pages !! i)))
                           (seq 0 (NUM_MIP_LEVELS - 1));
            at_pos :=
              pos0 :: map (fun i => let p := default (0, 0) (positions !! i) in
                                    (u16 (fst p), u16 (snd p)))
                          (seq 0 (NUM_MIP_LEVELS - 1)) |} in
          let s3 := Info "Ray: Texture '%s' loaded (atlas = %i, %ix%i)" s2 in
          let s4 :=
            Info "Ray: Atlasses are (RGBA[%i], RGB[%i], RG[%i], R[%i], BC3[%i], BC4[%i], BC5[%i])"
              s3 in
          let '(i, ts) := SparseStorage.push t (atlas_textures_ s4) in
          Ok (i, with_atlas_textures ts s4)
      end
    else
      let t := {|
        at_width := width2; at_height := height1; at_atlas := atlas;
        at_page := replicate NUM_MIP_LEVELS page0;
        at_pos := replicate NUM_MIP_LEVELS pos0 |} in
      let s3 := Info "Ray: Texture '%s' loaded (atlas = %i, %ix%i)" s1 in
      let s4 :=
        Info "Ray: Atlasses are (RGBA[%i], RGB[%i], RG[%i], R[%i], BC3[%i], BC4[%i], BC5[%i])"
          s3 in
      let '(i, ts) := SparseStorage.push t (atlas_textures_ s4) in
      Ok (i, with_atlas_textures ts s4).

(** [Scene::AddTexture] *)
Definition AddTexture (t : tex_desc_t) (s : Scene) : result (Z * Scene) :=
  if use_bindless_ s then Ok (AddBindlessTexture_nolock t s)
  else AddAtlasTexture_nolock t s.


End Textures.

(** ** The environment quad-tree *)

Section QTree.
Context `{Constants} `{Externals}.

Definition INT_MAX : Z := 2 ^ 31 - 1.

(** [res = 1; while (2 * res < lowest_dim) res *= 2;] *)
Fixpoint qtree_res_loop (fuel : nat) (res_ lowest_dim : Z) : result Z :=
  if INT_MAX <? 2 * res_ then Fail Overflow
  else if 2 * res_ <? lowest_dim then
    match fuel with
    | O => Fail OutOfFuel
    | S fuel' => qtree_res_loop fuel' (res_ * 2) lowest_dim
    end
  else Ok res_.

Definition qtree_res (fuel : nat) (width height : Z) : result Z :=
  qtree_res_loop fuel 1 (Z.min width height).

(** [v[0] + v[1] + v[2] + v[3]] *)
Definition fvec4_sum (v : fvec4) : float :=
  let '(a, b, c, d) := v in F32.add (F32.add (F32.add a b) c) d.

(** [index |= (x & 1) << 0; index |= (y & 1) << 1;] *)
Definition quadrant (x y : Z) : Z :=
  Z.lor (Z.land x 1) (Z.shiftl (Z.land y 1) 1).

(** [clamp(v, lo, hi)] on [int]. *)
Definition clampZ (v lo hi : Z) : Z := Z.min (Z.max v lo) hi.

Definition to_int (x : float) : result Z :=
  match F32.to_int x with
  | Some z => Ok z
  | None => Fail Overflow
  end.

(** The body of the loop over the pixels of the environment map. *)
Definition qtree_add_pixel (img : env_image) (cur_res x y : Z) (mip : list fvec4)
    : result (list fvec4) :=
  let '(r, g, b) := img_rgb img x y in
  let cur_lum := F32.add (F32.add r g) b in
  let '(q0, q1) := img_canonical img x y in
  let* i0 := to_int (F32.mul (F32.of_Z cur_res) q0) in
  let* i1 := to_int (F32.mul (F32.of_Z cur_res) q1) in
  let qx := clampZ i0 0 (cur_res - 1) in
  let qy := clampZ i1 0 (cur_res - 1) in
  let index := quadrant qx qy in
  let cell := Z.quot (Z.quot qy 2 * cur_res) 2 + Z.quot qx 2 in
  let* qvec := read_at mip cell in
  write_at mip cell (fvec4_set qvec index (F32.max (fvec4_get qvec index) cur_lum)).

(** [for (i = 0; i < n; ++i) body(i)] over a value that the body updates. *)
Fixpoint for_each {A : Type} (idx : list Z) (body : Z -> A -> result A) (a : A)
    : result A :=
  match idx with
  | [] => Ok a
  | i :: idx' => let* a' := body i a in for_each idx' body a'
  end.

Definition range (n : Z) : list Z := map Z.of_nat (seq 0 (Z.to_nat n)).

(** The first quad-tree level. *)
Definition qtree_level0 (img : env_image) (cur_res : Z) : result (list fvec4) :=
  for_each (range (img_h img))
    (fun y mip =>
       for_each (range (img_w img)) (fun x mip' => qtree_add_pixel img cur_res x y mip') mip)
    (replicate (Z.to_nat (Z.quot (cur_res * cur_res) 4)) fvec4_zero).

(** [for (v : mips[0]) total_lum += (v[0] + v[1] + v[2] + v[3]);] *)
Definition qtree_total_lum (mip : list fvec4) : float :=
  fold_left (fun total v => F32.add total (fvec4_sum v)) mip F32.zero.

(** The body of the loops that fill an upper level from the previous one. *)
Definition qtree_add_cell (prev_mip : list fvec4) (cur_res x y : Z) (mip : list fvec4)
    : result (list fvec4) :=
  let* c := read_at prev_mip (y * cur_res + x) in
  let res_lum := fvec4_sum c in
  let index := quadrant x y in
  let qx := Z.quot x 2 in
  let qy := Z.quot y 2 in
  let cell := Z.quot (qy * cur_res) 2 + qx in
  let* qvec := read_at mip cell in
  write_at mip cell (fvec4_set qvec index res_lum).

Definition qtree_next_level (prev_mip : list fvec4) (cur_res : Z) : result (list fvec4) :=
  for_each (range cur_res)
    (fun y mip =>
       for_each (range cur_res) (fun x mip' => qtree_add_cell prev_mip cur_res x y mip') mip)
    (replicate (Z.to_nat (Z.quot (cur_res * cur_res) 4)) fvec4_zero).

(** [while (cur_res > 1) { ...; cur_res /= 2; }] *)
Fixpoint qtree_upper_levels (fuel : nat) (cur_res : Z) (mips_ : list (list fvec4))
    : result (list (list fvec4)) :=
  if 1 <? cur_res then
    match fuel with
    | O => Fail OutOfFuel
    | S fuel' =>
        let* prev_mip := read_at mips_ (Z.of_nat (length mips_) - 1) in
        let* mip := qtree_next_level prev_mip cur_res in
        qtree_upper_levels fuel' (Z.quot cur_res 2) (mips_ ++ [mip])
    end
  else Ok mips_.

(** [simd_cast(v > threshold).not_all_zeros()] *)
Definition any_above (v : fvec4) (threshold : float) : bool :=
  let '(a, b, c, d) := v in
  F32.gt a threshold || F32.gt b threshold || F32.gt c threshold
  || F32.gt d threshold.

(** The two nested loops over the cells of a level; they stop at the first
    cell with a component above the threshold. *)
Fixpoint scan_cells (cur_mip : list fvec4) (threshold : float) (cells : list Z)
    : result bool :=
  match cells with
  | [] => Ok false
  | i :: cells' =>
      let* v := read_at cur_mip i in
      if any_above v threshold then Ok true
      else scan_cells cur_mip threshold cells'
  end.

Definition level_cells (cur_res : Z) : list Z :=
  flat_map (fun y => map (fun x => Z.quot (y * cur_res) 2 + x) (range (Z.quot cur_res 2)))
           (range (Z.quot cur_res 2)).

Definition subdivision_required (cur_mip : list fvec4) (cur_res : Z) (threshold : float)
    : result bool :=
  scan_cells cur_mip threshold (level_cells cur_res).

(** [for (lod = mips.size() - 1; lod >= 0; --lod)]: [n] is [lod + 1]; the
    result is [the_last_required_lod]. *)
Fixpoint last_required_lod (n : nat) (cur_res : Z) (mips_ : list (list fvec4))
    (threshold : float) : result Z :=
  match n with
  | O => Ok 0
  | S lod =>
      let* cur_mip := read_at mips_ (Z.of_nat lod) in
      let* required := subdivision_required cur_mip cur_res threshold in
      if required then last_required_lod lod (cur_res * 2) mips_ threshold
      else Ok (Z.of_nat lod)
  end.

(** [while (the_last_required_lod != 0) { shift the levels down;
    res /= 2; pop_back; --the_last_required_lod; }] *)
Fixpoint drop_levels (n : nat) (q : qtree_t) : qtree_t :=
  match n with
  | O => q
  | S n' =>
      drop_levels n'
        {| res := Z.quot (res q) 2; mips := drop 1 (mips q); qt_tex := qt_tex q |}
  end.

(** The first half of [PrepareEnvMapQTree_nolock]: the resolution, all the
    levels (finest first) and [total_lum], before any level is dropped. *)
Definition qtree_all_levels (fuel : nat) (img : env_image)
    : result (Z * list (list fvec4) * float) :=
  let* res0 := qtree_res fuel (img_w img) (img_h img) in
  let* mip0 := qtree_level0 img res0 in
  let total_lum := qtree_total_lum mip0 in
  let* all_mips := qtree_upper_levels fuel (Z.quot res0 2) [mip0] in
  Ok (res0, all_mips, total_lum).

(** The quad-tree [PrepareEnvMapQTree_nolock] computes from the pixels of
    the environment map, together with [total_lum] and
    [the_last_required_lod]. *)
Definition build_qtree (fuel : nat) (img : env_image)
    : result (qtree_t * float * Z) :=
  let* built := qtree_all_levels fuel img in
  let '(res0, all_mips, total_lum) := built in
  let threshold := F32.mul F32.f0_01 total_lum in
  let* lod := last_required_lod (length all_mips) 2 all_mips threshold in
  let q := drop_levels (Z.to_nat lod)
             {| res := res0; mips := all_mips; qt_tex := None |} in
  Ok ({| res := res q; mips := mips q;
         qt_tex := Some (Z.quot (res q) 2, Z.quot (res q) 2,
                         Z.of_nat (length (mips q))) |},
      total_lum, lod).

(** [Scene::PrepareEnvMapQTree_nolock] *)
Definition PrepareEnvMapQTree_nolock (fuel : nat) (s : Scene) : result Scene :=
  let tex := Z.land (env_map (env_ s)) 0x00ffffff in
  let img := env_map_image s tex in
  let* built := build_qtree fuel img in
  let q := fst (fst built) in
  let e := env_ s in
  let s1 := with_env_map_qtree q s in
  let s2 := with_env {| env_col := env_col e; env_map := env_map e;
                        back_col := back_col e; back_map := back_map e;
                        env_map_rotation := env_map_rotation e;
                        back_map_rotation := back_map_rotation e;
                        multiple_importance := multiple_importance e;
                        qtree_levels := Z.of_nat (length (mips q)) |} s1 in
  Ok (Info "Env map qtree res is %i" s2).

End QTree.

(** ** Finalize *)

Section Finalize.
Context `{Constants} `{Externals}.

Definition with_env_maps (env_map_ back_map_ : Z) (e : environment_t) : environment_t :=
  {| env_col := env_col e; env_map := env_map_;
     back_col := back_col e; back_map := back_map_;
     env_map_rotation := env_map_rotation e;
     back_map_rotation := back_map_rotation e;
     multiple_importance := multiple_importance e;
     qtree_levels := qtree_levels e |}.

Definition with_qtree_levels (n : Z) (e : environment_t) : environment_t :=
  {| env_col := env_col e; env_map := env_map e;
     back_col := back_col e; back_map := back_map e;
     env_map_rotation := env_map_rotation e;
     back_map_rotation := back_map_rotation e;
     multiple_importance := multiple_importance e;
     qtree_levels := n |}.

(** [Scene::GetEnvironment] *)
Definition GetEnvironment (s : Scene) : environment_desc_t :=
  let e := env_ s in
  {| ed_env_col := env_col e; ed_env_map := env_map e;
     ed_back_col := back_col e; ed_back_map := back_map e;
     ed_env_map_rotation := env_map_rotation e;
     ed_back_map_rotation := back_map_rotation e;
     ed_multiple_importance := multiple_importance e |}.

(** [Scene::SetEnvironment] *)
Definition SetEnvironment (env : environment_desc_t) (s : Scene) : Scene :=
  with_env
    {| env_col := ed_env_col env; env_map := ed_env_map env;
       back_col := ed_back_col env; back_map := ed_back_map env;
       env_map_rotation := ed_env_map_rotation env;
       back_map_rotation := ed_back_map_rotation env;
       multiple_importance := ed_multiple_importance env;
       qtree_levels := qtree_levels (env_ s) |} s.

(** The directional lights [PrepareSkyEnvMap_nolock] finds:
    [for (i = 0; i < lights_.size(); ++i)
       if (lights_.exists(i) && lights_[i].type == LIGHT_TYPE_DIR) ...] *)
Definition dir_lights (s : Scene) : list light_t :=
  omap (fun i =>
          match SparseStorage.get (lights_ s) i with
          | Some l => if light_type_eqb (l_type l) LIGHT_TYPE_DIR then Some l else None
          | None => None
          end)
       (map Z.of_nat (seq 0 (Z.to_nat (SparseStorage.size (lights_ s))))).

Definition sky_tex_desc (pixels : list Z) : tex_desc_t :=
  {| td_format := RGBA8888; td_name := "Physical Sky Texture"; td_data := pixels;
     td_w := 512; td_h := 256; td_is_srgb := false; td_is_normalmap := false;
     td_force_no_compression := true; td_generate_mipmaps := false |}.

(** [Scene::PrepareSkyEnvMap_nolock] *)
Definition PrepareSkyEnvMap_nolock (s : Scene) : result Scene :=
  let s1 :=
    if negb (physical_sky_texture_ s =? InvalidIndex) then
      if use_bindless_ s
      then erase_bindless_texture (Z.shiftr (physical_sky_texture_ s) 24) s
      else with_atlas_textures
             (SparseStorage.erase (physical_sky_texture_ s) (atlas_textures_ s)) s
    else s in
  let lights := dir_lights s1 in
  let e := env_ s1 in
  match lights with
  | [] =>
      Ok (with_env
            (with_env_maps InvalidIndex
               (if back_map e =? PhysicalSkyTexture then InvalidIndex else back_map e) e)
            s1)
  | _ =>
      let desc := sky_tex_desc (sky_pixels lights) in
      let* added :=
        (if use_bindless_ s1 then Ok (AddBindlessTexture_nolock desc s1)
         else AddAtlasTexture_nolock desc s1) in
      let '(tex, s2) := added in
      let s3 := with_physical_sky_texture tex s2 in
      let e3 := env_ s3 in
      Ok (with_env
            (with_env_maps tex
               (if back_map e3 =? PhysicalSkyTexture then tex else back_map e3) e3)
            s3)
  end.

(** What [Finalize] does, in order; recorded next to the resulting scene. *)
Inductive finalize_call :=
| Call_RemoveLight
| Call_PrepareSkyEnvMap
| Call_PrepareEnvMapQTree
| Call_DummyQTreeTexture
| Call_AddEnvLight
| Call_GenerateTextureMips
| Call_PrepareBindlessTextures
| Call_RebuildHWAccStructures.

(** The dummy 1x1 quad-tree texture. *)
Definition dummy_qtree_tex (s : Scene) : Scene :=
  let q := env_map_qtree_ s in
  with_env_map_qtree {| res := res q; mips := mips q; qt_tex := Some (1, 1, 1) |} s.

Definition env_light : light_t :=
  {| l_type := LIGHT_TYPE_ENV; cast_shadow := true; visible := false;
     sky_portal := false; col := (F32.one, F32.one, F32.one); geom := geom_zero |}.

(** The test that guards the sky baker. *)
Definition wants_sky (s : Scene) : bool :=
  negb (env_map (env_ s) =? InvalidIndex)
  && ((env_map (env_ s) =? PhysicalSkyTexture)
      || (env_map (env_ s) =? physical_sky_texture_ s)).

(** The start of [Finalize], up to and including the sky baker. *)
Definition Finalize_sky (s : Scene) : list finalize_call * result Scene :=
  let '(tr0, s0) :=
    if negb (env_map_light_ s =? InvalidIndex)
    then ([Call_RemoveLight], RemoveLight_nolock (env_map_light_ s) s)
    else ([], s) in
  let s1 := with_env_map_qtree qtree_empty s0 in
  let s2 := with_env (with_qtree_levels 0 (env_ s1)) s1 in
  if wants_sky s2
  then (tr0 ++ [Call_PrepareSkyEnvMap], PrepareSkyEnvMap_nolock s2)
  else (tr0, Ok s2).

(** The part of [Finalize] that deals with the environment light. *)
Definition Finalize_env (fuel : nat) (s : Scene) : list finalize_call * result Scene :=
  let '(c0, c1, c2) := env_col (env_ s) in
  if multiple_importance (env_ s) && F32.gt c0 F32.zero && F32.gt c1 F32.zero
     && F32.gt c2 F32.zero
  then
    let '(tr1, r1) :=
      if negb (env_map (env_ s) =? InvalidIndex)
      then ([Call_PrepareEnvMapQTree], PrepareEnvMapQTree_nolock fuel s)
      else ([Call_DummyQTreeTexture], Ok (dummy_qtree_tex s)) in
    match r1 with
    | Fail why => (tr1, Fail why)
    | Ok s1 =>
        let '(i, s2) := push_light env_light s1 in
        (tr1 ++ [Call_AddEnvLight], Ok (with_env_map_light i s2))
    end
  else ([Call_DummyQTreeTexture], Ok (dummy_qtree_tex s)).

(** [Scene::Finalize] *)
Definition Finalize (fuel : nat) (s : Scene) : list finalize_call * result Scene :=
  let '(tr0, r0) := Finalize_sky s in
  match r0 with
  | Fail why => (tr0, Fail why)
  | Ok s1 =>
      let '(tr1, r1) := Finalize_env fuel s1 in
      match r1 with
      | Fail why => (tr0 ++ tr1, Fail why)
      | Ok s2 =>
          (tr0 ++ tr1 ++ [Call_GenerateTextureMips; Call_PrepareBindlessTextures;
                          Call_RebuildHWAccStructures],
           Ok (RebuildHWAccStructures_nolock
                 (PrepareBindlessTextures_nolock (GenerateTextureMips_nolock s2))))
      end
  end.

End Finalize.

(** ** D3D12 buffers ([internal/Dx/BufferDX.cpp]) *)

Module Dx.

(** The enumerators of [eBufType] and [eResState] that the buffer code
    names; [OtherType] and [OtherState] stand for the remaining enumerators
    of the two enumerations, which are declared in headers that are not
    among the sources. *)
Inductive eBufType :=
| BufUndefined | Upload | Readback | Storage | Indirect | OtherType (n : nat).

Inductive eResState :=
| Undefined | CopySrc | CopyDst | OtherState (n : nat).

Definition eResState_eqb (a b : eResState) : bool :=
  match a, b with
  | Undefined, Undefined | CopySrc, CopySrc | CopyDst, CopyDst => true
  | OtherState n, OtherState m => Nat.eqb n m
  | _, _ => false
  end.

(** [GetInitialDxResourceState] *)
Definition GetInitialDxResourceState (type : eBufType) : eResState :=
  match type with
  | Upload => CopySrc
  | Readback => CopyDst
  | _ => Undefined
  end.

(** The state of the [LinearAlloc] base of a buffer: the blocks in use. *)
Definition alloc_state : Type := list (Z * Z).

(** [LinearAlloc::Alloc], whose definition is not among the sources: the
    offset of the new block ([0xffffffff] when there is no room) and the new
    state. *)
Class LinearAlloc := { Alloc : alloc_state -> Z -> Z * alloc_state }.

Record Buffer := {
  type_ : eBufType;
  size_ : Z;
  alloc_ : alloc_state;
  resource_state : eResState
}.

Definition with_resource_state (st : eResState) (b : Buffer) : Buffer :=
  {| type_ := type_ b; size_ := size_ b; alloc_ := alloc_ b; resource_state := st |}.

Definition with_alloc (a : alloc_state) (b : Buffer) : Buffer :=
  {| type_ := type_ b; size_ := size_ b; alloc_ := a;
     resource_state := resource_state b |}.

(** A transition barrier.  [StateBefore] and [StateAfter] hold the
    [eResState] whose image under [DXResourceState] the source stores. *)
Record barrier := {
  pResource : nat;
  StateBefore : eResState;
  StateAfter : eResState
}.

(** The calls recorded on a command list. *)
Inductive command :=
| ResourceBarrier (barriers : list barrier)
| CopyBufferRegion (dst : nat) (dst_offset : Z) (src : nat) (src_offset : Z) (size : Z).

(** The buffers, addressed by identity (two references to one buffer are
    the same [nat]), and the command list. *)
Record world := {
  buffers : nat -> Buffer;
  cmd_buf : list command
}.

Definition set_state (id : nat) (st : eResState) (w : world) : world :=
  {| buffers := <[id := with_resource_state st (buffers w id)]> (buffers w);
     cmd_buf := cmd_buf w |}.

Definition record (c : command) (w : world) : world :=
  {| buffers := buffers w; cmd_buf := cmd_buf w ++ [c] |}.

Section Buffer.
Context `{LinearAlloc}.

(** [Buffer::AllocSubRegion]; [this] and [init_buf] identify buffers. *)
Definition AllocSubRegion (this : nat) (req_size : Z) (init_buf : option nat)
    (init_off : Z) (w : world) : Z * world :=
  let '(alloc_off, a) := Alloc (alloc_ (buffers w this)) req_size in
  let w1 := {| buffers := <[this := with_alloc a (buffers w this)]> (buffers w);
               cmd_buf := cmd_buf w |} in
  if negb (alloc_off =? 0xffffffff) then
    match init_buf with
    | Some init =>
        (alloc_off, set_state this CopyDst (set_state init CopySrc w1))
    | None => (alloc_off, w1)
    end
  else (0xffffffff, w1).

(** The barriers [UpdateSubRegion] and [CopyBufferToBuffer] collect. *)
Definition copy_barriers (src dst : nat) (w : world) : list barrier :=
  (if negb (eResState_eqb (resource_state (buffers w src)) CopySrc)
   then [{| pResource := src; StateBefore := resource_state (buffers w src);
            StateAfter := CopySrc |}]
   else [])
  ++
  (if negb (eResState_eqb (resource_state (buffers w dst)) CopyDst)
   then [{| pResource := dst; StateBefore := resource_state (buffers w dst);
            StateAfter := CopyDst |}]
   else []).

Definition record_barriers (bs : list barrier) (w : world) : world :=
  match bs with
  | [] => w
  | _ => record (ResourceBarrier bs) w
  end.

(** [Buffer::UpdateSubRegion] *)
Definition UpdateSubRegion (this : nat) (offset size : Z) (init_buf : nat)
    (init_off : Z) (w : world) : world :=
  let w1 := record_barriers (copy_barriers init_buf this w) w in
  let w2 := record (CopyBufferRegion this offset init_buf init_off size) w1 in
  set_state this CopyDst (set_state init_buf CopySrc w2).

(** [CopyBufferToBuffer] *)
Definition CopyBufferToBuffer (src : nat) (src_offset : Z) (dst : nat)
    (dst_offset size : Z) (w : world) : world :=
  let w1 := record_barriers (copy_barriers src dst w) w in
  let w2 := record (CopyBufferRegion dst dst_offset src src_offset size) w1 in
  set_state dst CopyDst (set_state src CopySrc w2).

End Buffer.

(** A buffer as [Buffer::Resize] leaves it after creation. *)
Definition new_buffer (type : eBufType) (size : Z) : Buffer :=
  {| type_ := type; size_ := size; alloc_ := [];
     resource_state := GetInitialDxResourceState type |}.

End Dx.

(** ** Auxiliary notions used to state the properties *)

(** [push] written by recursion on the slots. *)
Fixpoint push_slots {A : Type} (x : A) (s : SparseStorage.t A) : SparseStorage.t A :=
  match s with
  | [] => [Some x]
  | None :: s' => Some x :: s'
  | Some y :: s' => Some y :: push_slots x s'
  end.

(** Counting the live elements that satisfy a test. *)
Definition count_live {A : Type} (P : A -> bool) (s : SparseStorage.t A) : nat :=
  length (filter (fun x => P x = true) (SparseStorage.elements s)).

(** [r] is the largest power of two strictly below [bound]. *)
Definition largest_pow2_below (r bound : Z) : Prop :=
  (exists k, 0 <= k /\ r = 2 ^ k)
  /\ r < bound
  /\ (forall i, 0 <= i -> 2 ^ i < bound -> 2 ^ i <= r).

(** The resolution as the specification words it: the largest power of two
    strictly below [min(width, height) / 2], the quotient being exact (a
    power of two [p] is below it when [2 * p < min(width, height)]). *)
Definition spec_qtree_res (r width height : Z) : Prop :=
  (exists k, 0 <= k /\ r = 2 ^ k)
  /\ 2 * r < Z.min width height
  /\ (forall i, 0 <= i -> 2 * 2 ^ i < Z.min width height -> 2 ^ i <= r).

(** The test of [Finalize] on the environment tint, and the test the
    specification words ("non-black": at least one channel is positive). *)
Definition env_tint_all_positive (e : environment_t) : bool :=
  let '(c0, c1, c2) := env_col e in
  F32.gt c0 F32.zero && F32.gt c1 F32.zero && F32.gt c2 F32.zero.

Definition env_tint_non_black (e : environment_t) : bool :=
  let '(c0, c1, c2) := env_col e in
  F32.gt c0 F32.zero || F32.gt c1 F32.zero || F32.gt c2 F32.zero.

(** ** Concrete instances used to run the model

    [ray_externals] gives every external function a simple stand-in, so that
    the operations can be evaluated on concrete scenes: the BVH builders
    return a single leaf, each atlas has one 8192 x 8192 page that holds a
    single region, matrices and boxes are passed through. *)
Definition leaf_node (bmin bmax : float3) (count : Z) : bvh_node_t :=
  {| bbox_min := bmin; prim_index := 0x80000000; bbox_max := bmax; prim_count := count |}.

Definition f3_zero : float3 := (F32.zero, F32.zero, F32.zero).

Definition ray_shading_node_defaults : shading_node_desc_t :=
  {| sn_type := Diffuse; sn_base_color := (F32.one, F32.one, F32.one);
     sn_base_texture := InvalidIndex; sn_normal_map := InvalidIndex;
     sn_normal_map_intensity := F32.one;
     sn_mix_materials := (InvalidIndex, InvalidIndex);
     sn_roughness := F32.zero; sn_roughness_texture := InvalidIndex;
     sn_anisotropic_rotation := F32.zero; sn_sheen := F32.zero;
     sn_strength := F32.one; sn_ior := F32.one; sn_tint := F32.zero;
     sn_metallic_texture := InvalidIndex;
     sn_multiple_importance := false; sn_mix_add := false |}.

Definition ray_PI : float := Eval cbv in F32.div (F32.of_Z 355) (F32.of_Z 113).

Definition ray_externals : Externals := {|
  PI := ray_PI;
  tanf := fun x => x;
  pack_unorm_16 := fun x =>
    match F32.to_int (F32.mul x (F32.of_Z 65535)) with Some z => z | None => 0 end;
  shading_node_defaults := ray_shading_node_defaults;
  InverseMatrix := fun m => m;
  TransformBoundingBox := fun bmin bmax _ => (bmin, bmax);
  PreprocessPrims_SAH := fun prims =>
    (1, [leaf_node f3_zero f3_zero (Z.of_nat (length prims))],
     map Z.of_nat (seq 0 (length prims)));
  PreprocessMesh := fun m =>
    ([leaf_node f3_zero f3_zero (md_vtx_indices_count m / 3)],
     md_vtx_indices_count m / 3,
     map Z.of_nat (seq 0 (Z.to_nat (md_vtx_indices_count m / 3))));
  vertices_bbox := fun _ => (f3_zero, f3_zero);
  atlas_Allocate := fun _ st sz _ =>
    match st with
    | [] => if (fst sz <=? 8192) && (snd sz <=? 8192)
            then (0, (0, 0), [(0, (0, 0), sz)])
            else (-1, (0, 0), st)
    | _ => (-1, (0, 0), st)
    end;
  atlas_AllocateMips := fun _ st _ _ n =>
    (replicate (Z.to_nat n) 0, replicate (Z.to_nat n) (0, 0), st);
  image_blit_supported := true;
  erase_bindless_texture := fun _ s => s;
  env_map_image := fun _ _ =>
    {| img_w := 8; img_h := 4;
       img_rgb := fun x y => (F32.of_Z (x + 1), F32.of_Z y, F32.zero);
       img_canonical := fun x y =>
         (F32.div (F32.of_Z x) (F32.of_Z 8), F32.div (F32.of_Z y) (F32.of_Z 4)) |};
  sky_pixels := fun _ => replicate (4 * 512 * 256) 0;
  AddBindlessTexture_nolock := fun _ s => (0, s);
  GenerateTextureMips_nolock := fun s => s;
  PrepareBindlessTextures_nolock := fun s => s;
  RebuildHWAccStructures_nolock := fun s => s
|}.

(** A scene with an ordinary environment map, importance sampling switched
    on and a pure red tint. *)
Definition red_env_desc : environment_desc_t :=
  {| ed_env_col := (F32.one, F32.zero, F32.zero); ed_env_map := 0;
     ed_back_col := f3_zero; ed_back_map := InvalidIndex;
     ed_env_map_rotation := F32.zero; ed_back_map_rotation := F32.zero;
     ed_multiple_importance := true |}.

Definition red_env_scene : Scene :=
  SetEnvironment red_env_desc (Scene_new false false false).

Definition white_env_scene : Scene :=
  SetEnvironment
    {| ed_env_col := (F32.one, F32.one, F32.one); ed_env_map := 0;
       ed_back_col := f3_zero; ed_back_map := InvalidIndex;
       ed_env_map_rotation := F32.zero; ed_back_map_rotation := F32.zero;
       ed_multiple_importance := true |}
    (Scene_new false false false).

(** The first allocation of [AddAtlasTexture_nolock] for a descriptor in a
    scene fails: the atlas chosen for the descriptor returns page [-1]. *)
Definition atlas_allocation_fails `{Constants} `{Externals}
    (t : tex_desc_t) (s : Scene) : Prop :=
  exists atlas data z st,
    choose_atlas (use_tex_compression_ s && negb (td_force_no_compression t)) t
    = Ok (atlas, data, z)
    /\ read_at (tex_atlases_ s) atlas = Ok st
    /\ fst (fst (atlas_Allocate atlas st (td_w t, td_h t) data)) = -1.

(** Two scenes that differ at most in the state of the texture atlases. *)
Definition same_but_atlases (s s' : Scene) : Prop :=
  exists a, s' = with_tex_atlases a s.

(** A texture that is wider than an atlas page. *)
Definition too_wide_tex : tex_desc_t :=
  {| td_format := RGBA8888; td_name := "wide"; td_data := [];
     td_w := 10000; td_h := 1; td_is_srgb := false; td_is_normalmap := false;
     td_force_no_compression := false; td_generate_mipmaps := false |}.

(** ** Material trees *)

(** The shape of a material tree: a Mix node with its MIX_ADD flag and its
    two children (the materials in slots [MIX_MAT1] and [MIX_MAT2]), or a
    node of any other kind. *)
Inductive mat_tree :=
| Leaf (ty : eShadingNode)
| MixT (add : bool) (l r : mat_tree).

(** The material stored under index [i] is the root of the tree [t]. *)
Fixpoint represents `{Constants} (mats : SparseStorage.t material_t) (i : Z)
    (t : mat_tree) : bool :=
  match SparseStorage.get mats i with
  | None => false
  | Some m =>
      match t with
      | Leaf ty =>
          negb (eShadingNode_eqb (type m) Mix) && eShadingNode_eqb (type m) ty
      | MixT add l r =>
          eShadingNode_eqb (type m) Mix
          && Bool.eqb (negb (Z.land (flags m) MAT_FLAG_MIX_ADD =? 0)) add
          && represents mats (tex_slot m MIX_MAT1) l
          && represents mats (tex_slot m MIX_MAT2) r
      end
  end.

Fixpoint has_transparent (t : mat_tree) : bool :=
  match t with
  | Leaf ty => eShadingNode_eqb ty Transparent
  | MixT _ l r => has_transparent l || has_transparent r
  end.

Fixpoint tree_size (t : mat_tree) : nat :=
  match t with
  | Leaf _ => 1
  | MixT _ l r => S (tree_size l + tree_size r)
  end.

(** The number of stack entries the walk of [AddMesh] needs for a tree: the
    second child of a Mix node is resolved while the first one waits on the
    stack. *)
Fixpoint stack_need (t : mat_tree) : nat :=
  match t with
  | Leaf _ => 1
  | MixT _ l r => Nat.max (S (stack_need r)) (stack_need l)
  end.

(** The descriptor "sets emission" and "sets alpha", as
    [AddMaterial(principled)] tests them. *)
Definition sets_emission (m : principled_mat_desc_t) : bool :=
  let '(er, eg, eb) := pm_emission_color m in
  F32.gt (pm_emission_strength m) F32.zero
  && (F32.gt er F32.zero || F32.gt eg F32.zero || F32.gt eb F32.zero).

Definition sets_alpha (m : principled_mat_desc_t) : bool :=
  F32.ne (pm_alpha m) F32.one || negb (pm_alpha_texture m =? InvalidIndex).

(** The composite the specification describes: the Principled node, wrapped
    in an additive Mix with an Emissive node when emission is set, wrapped
    in a regular Mix with a Transparent node when alpha is set. *)
Definition spec_principled_tree (m : principled_mat_desc_t) : mat_tree :=
  let r1 :=
    if sets_emission m then MixT true (Leaf Principled) (Leaf Emissive)
    else Leaf Principled in
  if sets_alpha m then MixT false (Leaf Transparent) r1 else r1.

(** The composite [AddMaterial(principled)] builds: as above, except that
    for an alpha of zero the Transparent node alone is the result. *)
Definition principled_tree (m : principled_mat_desc_t) : mat_tree :=
  let r1 :=
    if sets_emission m then MixT true (Leaf Principled) (Leaf Emissive)
    else Leaf Principled in
  if sets_alpha m then
    if F32.eq (pm_alpha m) F32.zero then Leaf Transparent
    else MixT false (Leaf Transparent) r1
  else r1.

(** A principled material with the given emission and alpha. *)
Definition principled_desc (emission_strength alpha : float) : principled_mat_desc_t :=
  {| pm_base_color := (F32.one, F32.one, F32.one); pm_base_texture := InvalidIndex;
     pm_metallic := F32.zero; pm_metallic_texture := InvalidIndex;
     pm_specular := F32.half; pm_specular_texture := InvalidIndex;
     pm_specular_tint := F32.zero; pm_roughness := F32.half;
     pm_roughness_texture := InvalidIndex; pm_anisotropic := F32.zero;
     pm_anisotropic_rotation := F32.zero; pm_sheen := F32.zero;
     pm_sheen_tint := F32.half; pm_clearcoat := F32.zero;
     pm_clearcoat_roughness := F32.zero; pm_transmission := F32.zero;
     pm_ior := F32.one; pm_transmission_roughness := F32.zero;
     pm_emission_color := (F32.one, F32.one, F32.one);
     pm_emission_texture := InvalidIndex;
     pm_emission_strength := emission_strength;
     pm_alpha := alpha; pm_alpha_texture := InvalidIndex;
     pm_normal_map := InvalidIndex; pm_normal_map_intensity := F32.one |}.

(** What [init_shape_materials] has to leave in the record of a triangle of
    the shape: on each side the material index, and the solid bit cleared
    exactly when the tree of that side has a Transparent leaf. *)
Definition tri_mat_ok `{Constants} (sh : shape_desc_t) (tf tb : mat_tree)
    (tm : tri_mat_data_t) : Prop :=
  Z.land (front_mi tm) MATERIAL_INDEX_BITS = front_mat sh
  /\ Z.land (front_mi tm) MATERIAL_SOLID_BIT
     = (if has_transparent tf then 0 else MATERIAL_SOLID_BIT)
  /\ Z.land (back_mi tm) MATERIAL_INDEX_BITS = back_mat sh
  /\ Z.land (back_mi tm) MATERIAL_SOLID_BIT
     = (if has_transparent tb then 0 else MATERIAL_SOLID_BIT).

(** A descriptor of the given kind with default fields. *)
Definition node_desc (ty : eShadingNode) : shading_node_desc_t :=
  {| sn_type := ty; sn_base_color := (F32.one, F32.one, F32.one);
     sn_base_texture := InvalidIndex; sn_normal_map := InvalidIndex;
     sn_normal_map_intensity := F32.one;
     sn_mix_materials := (InvalidIndex, InvalidIndex);
     sn_roughness := F32.zero; sn_roughness_texture := InvalidIndex;
     sn_anisotropic_rotation := F32.zero; sn_sheen := F32.zero;
     sn_strength := F32.one; sn_ior := F32.one; sn_tint := F32.zero;
     sn_metallic_texture := InvalidIndex;
     sn_multiple_importance := false; sn_mix_add := false |}.

Definition mix_node_desc (mat1 mat2 : Z) : shading_node_desc_t :=
  {| sn_type := Mix; sn_base_color := (F32.one, F32.one, F32.one);
     sn_base_texture := InvalidIndex; sn_normal_map := InvalidIndex;
     sn_normal_map_intensity := F32.one;
     sn_mix_materials := (mat1, mat2);
     sn_roughness := F32.zero; sn_roughness_texture := InvalidIndex;
     sn_anisotropic_rotation := F32.zero; sn_sheen := F32.zero;
     sn_strength := F32.half; sn_ior := F32.one; sn_tint := F32.zero;
     sn_metallic_texture := InvalidIndex;
     sn_multiple_importance := false; sn_mix_add := false |}.

Definition emissive_node_desc (mi : bool) : shading_node_desc_t :=
  {| sn_type := Emissive; sn_base_color := (F32.one, F32.one, F32.one);
     sn_base_texture := InvalidIndex; sn_normal_map := InvalidIndex;
     sn_normal_map_intensity := F32.one;
     sn_mix_materials := (InvalidIndex, InvalidIndex);
     sn_roughness := F32.zero; sn_roughness_texture := InvalidIndex;
     sn_anisotropic_rotation := F32.zero; sn_sheen := F32.zero;
     sn_strength := F32.two; sn_ior := F32.one; sn_tint := F32.zero;
     sn_metallic_texture := InvalidIndex;
     sn_multiple_importance := mi; sn_mix_add := false |}.

(** Materials 0: Transparent, 1: Diffuse, 2: Mix of 0 and 1. *)
Definition glass_scene : Scene :=
  let s0 := Scene_new false false false in
  let s1 := snd (@AddMaterial ray_constants ray_externals (node_desc Transparent) s0) in
  let s2 := snd (@AddMaterial ray_constants ray_externals (node_desc Diffuse) s1) in
  snd (@AddMaterial ray_constants ray_externals (mix_node_desc 0 1) s2).

Definition glass_shape : shape_desc_t :=
  {| front_mat := 2; back_mat := 1; vtx_start := 0; vtx_count := 6 |}.

(** A chain of [n] Mix nodes over a Diffuse material: every Mix node has
    the Diffuse material as its first child and the previous node of the
    chain as its second child.  Each node is created by [AddMaterial] from
    handles that [AddMaterial] returned before. *)
Fixpoint add_mix_chain (n : nat) (diffuse prev : Z) (s : Scene) : Z * Scene :=
  match n with
  | O => (prev, s)
  | S n' =>
      let '(i, s') :=
        @AddMaterial ray_constants ray_externals (mix_node_desc diffuse prev) s in
      add_mix_chain n' diffuse i s'
  end.

Definition deep_chain : Z * Scene :=
  let '(d, s) :=
    @AddMaterial ray_constants ray_externals (node_desc Diffuse)
      (Scene_new false false false) in
  add_mix_chain 32 d d s.

Fixpoint chain_tree (n : nat) : mat_tree :=
  match n with
  | O => Leaf Diffuse
  | S n' => MixT false (Leaf Diffuse) (chain_tree n')
  end.

Definition deep_shape : shape_desc_t :=
  {| front_mat := fst deep_chain; back_mat := fst deep_chain;
     vtx_start := 0; vtx_count := 3 |}.

(** ** Scenes used to run the TLAS rebuild and the triangle lights *)

Definition unit_xform : list float :=
  [F32.one; F32.zero; F32.zero; F32.zero; F32.zero; F32.one; F32.zero; F32.zero;
   F32.zero; F32.zero; F32.one; F32.zero; F32.zero; F32.zero; F32.zero; F32.one].

(** A mesh of two triangles with one shape that uses material [mat] on both
    sides. *)
Definition two_tri_mesh (mat : Z) : mesh_desc_t :=
  {| md_vtx_attrs_count := 4; md_vtx_indices := [0; 1; 2; 0; 2; 3];
     md_base_vertex := 0;
     md_shapes := [{| front_mat := mat; back_mat := mat;
                      vtx_start := 0; vtx_count := 6 |}] |}.

(** A scene with a Diffuse material and a mesh that uses it. *)
Definition diffuse_mesh_scene : result Scene :=
  let s0 := Scene_new false false false in
  let '(m, s1) := @AddMaterial ray_constants ray_externals (node_desc Diffuse) s0 in
  let* r := @AddMesh ray_constants ray_externals 8 (two_tri_mesh m) s1 in
  Ok (snd r).

(** The same scene after the mesh was instanced once, and twice. *)
Definition instanced_once : result Scene :=
  let* s := diffuse_mesh_scene in
  let* r := @AddMeshInstance ray_constants ray_externals 0 unit_xform s in
  Ok (snd r).

Definition instanced_twice : result Scene :=
  let* s := instanced_once in
  let* r := @AddMeshInstance ray_constants ray_externals 0 unit_xform s in
  Ok (snd r).

(** ** Buffers used to run the copy operations *)

(** A stand-in for [LinearAlloc::Alloc]: blocks are placed one after the
    other in a region of 4096 bytes. *)
Definition bump_alloc : Dx.LinearAlloc :=
  {| Dx.Alloc := fun st req =>
       let used := fold_right (fun b acc => snd b + acc) 0 st in
       if used + req <=? 4096 then (used, st ++ [(used, req)])
       else (0xffffffff, st) |}.

(** Buffer 0 is a storage buffer, buffer 1 a read-back buffer, every other
    buffer an upload buffer; no command has been recorded. *)
Definition fresh_world : Dx.world :=
  {| Dx.buffers := fun id =>
       match id with
       | O => Dx.new_buffer Dx.Storage 4096
       | S O => Dx.new_buffer Dx.Readback 4096
       | _ => Dx.new_buffer Dx.Upload 4096
       end;
     Dx.cmd_buf := [] |}.

(** What the copy operations have to record according to the resource-state
    protocol: the commands appended to the command list are the barriers for
    the buffers whose state differs from the copy state they need, if there
    is any, followed by the copy. *)
Definition copy_protocol (src dst : nat) (before after : Dx.world)
    (copy : Dx.command) : Prop :=
  Dx.cmd_buf after
  = Dx.cmd_buf before
    ++ match Dx.copy_barriers src dst before with
       | [] => []
       | bs => [Dx.ResourceBarrier bs]
       end
    ++ [copy].

(** ** Triangle lights *)

Definition is_tri_light (l : light_t) : bool :=
  light_type_eqb (l_type l) LIGHT_TYPE_TRI.

(** A Triangle light that points to triangle [tri] with transform [xf]. *)
Definition tri_light_at (tri xf : Z) (l : light_t) : bool :=
  is_tri_light l
  && match geom l with
     | geom_tri t x => (t =? tri) && (x =? xf)
     | _ => false
     end.

(** The front material of a triangle: the node its triangle-material record
    refers to. *)
Definition front_material `{Constants} (s : Scene) (tri : Z) : option material_t :=
  match read_at (tri_materials_cpu_ s) tri with
  | Ok tm => SparseStorage.get (materials_ s) (Z.land (front_mi tm) MATERIAL_INDEX_BITS)
  | Fail _ => None
  end.

(** The light an instance with transform [xf] gets for triangle [tri]: one
    when the front material itself is an Emissive node with MULT_IMPORTANCE. *)
Definition tri_light_of `{Constants} (s : Scene) (xf tri : Z) : option light_t :=
  match front_material s tri with
  | Some fm => if is_emissive_mi fm then Some (triangle_light tri xf fm) else None
  | None => None
  end.

(** The number of triangles of a mesh whose front material is an Emissive
    node with MULT_IMPORTANCE. *)
Definition emissive_count `{Constants} (s : Scene) (mesh : Z) : nat :=
  match SparseStorage.get (meshes_ s) mesh with
  | Some m => length (omap (tri_light_of s 0) (mesh_tris m))
  | None => 0
  end.

(** The material tree under index [i] contains an Emissive node with
    MULT_IMPORTANCE (the specification's wording); [fuel] bounds the depth. *)
Fixpoint contains_emissive_mi `{Constants} (fuel : nat)
    (mats : SparseStorage.t material_t) (i : Z) : bool :=
  match fuel with
  | O => false
  | S fuel' =>
      match SparseStorage.get mats i with
      | None => false
      | Some m =>
          if is_emissive_mi m then true
          else if eShadingNode_eqb (type m) Mix then
            if contains_emissive_mi fuel' mats (tex_slot m MIX_MAT1) then true
            else contains_emissive_mi fuel' mats (tex_slot m MIX_MAT2)
          else false
      end
  end.

(** A sequence of [AddMeshInstance] calls; the result lists the handles. *)
Fixpoint add_instances `{Constants} `{Externals} (calls : list (Z * list float))
    (s : Scene) : result (list Z * Scene) :=
  match calls with
  | [] => Ok ([], s)
  | (mesh, xf) :: calls' =>
      let* r := AddMeshInstance mesh xf s in
      let* r' := add_instances calls' (snd r) in
      Ok (fst r :: fst r', snd r')
  end.

(** What holds for one instance after the calls: its record names the mesh
    and, for every triangle of the mesh whose front material is an Emissive
    node with MULT_IMPORTANCE, exactly one Triangle light points to the
    triangle with the transform of the instance, and a light that does so
    carries the colour [base_color * strength]. *)
Definition instance_lights_ok `{Constants} (s : Scene) (mesh h : Z) : Prop :=
  exists mi m,
    SparseStorage.get (mesh_instances_ s) h = Some mi
    /\ mesh_index mi = mesh
    /\ SparseStorage.get (meshes_ s) mesh = Some m
    /\ forall tri fm,
         In tri (mesh_tris m) -> front_material s tri = Some fm ->
         is_emissive_mi fm = true ->
         count_live (tri_light_at tri (tr_index mi)) (lights_ s) = 1%nat
         /\ forall i l, SparseStorage.get (lights_ s) i = Some l ->
                        tri_light_at tri (tr_index mi) l = true ->
                        l = triangle_light tri (tr_index mi) fm.

(** Materials 0: Emissive with MULT_IMPORTANCE, 1: Diffuse, 2: Mix of 1 and
    0, and a mesh whose triangles use material [mat]. *)
Definition emissive_scene (mat : Z) : result Scene :=
  let s0 := Scene_new false false false in
  let s1 := snd (@AddMaterial ray_constants ray_externals (emissive_node_desc true) s0) in
  let s2 := snd (@AddMaterial ray_constants ray_externals (node_desc Diffuse) s1) in
  let s3 := snd (@AddMaterial ray_constants ray_externals (mix_node_desc 1 0) s2) in
  let* r := @AddMesh ray_constants ray_externals 8 (two_tri_mesh mat) s3 in
  Ok (snd r).

(** Pushing a list of lights, one after the other. *)
Definition push_all (new : list light_t) (ls : SparseStorage.t light_t)
    : SparseStorage.t light_t :=
  fold_left (fun ls l => snd (SparseStorage.push l ls)) new ls.

(** The parts of a scene that [AddMeshInstance] reads but does not change. *)
Definition same_static (s s' : Scene) : Prop :=
  materials_ s' = materials_ s
  /\ tri_materials_cpu_ s' = tri_materials_cpu_ s
  /\ meshes_ s' = meshes_ s.

(** Every Triangle light refers to a transform that is in use. *)
Definition tri_lights_live (s : Scene) : Prop :=
  forall i l tri xf,
    SparseStorage.get (lights_ s) i = Some l -> tri_light_at tri xf l = true ->
    SparseStorage.exists_ (transforms_ s) xf = true.

(** The effect of one [AddMeshInstance] call. *)
Definition instance_step `{Constants} (s : Scene) (mesh h : Z) (s' : Scene) : Prop :=
  let tr := fst (SparseStorage.push transform_zero (transforms_ s)) in
  same_static s s'
  /\ (exists m, SparseStorage.get (meshes_ s) mesh = Some m
                /\ lights_ s' = push_all (omap (tri_light_of s tr) (mesh_tris m)) (lights_ s))
  /\ (exists mi, SparseStorage.get (mesh_instances_ s') h = Some mi
                 /\ tr_index mi = tr /\ mesh_index mi = mesh)
  /\ (forall h0 mi0, SparseStorage.get (mesh_instances_ s) h0 = Some mi0 ->
                     SparseStorage.get (mesh_instances_ s') h0 = Some mi0)
  /\ SparseStorage.get (transforms_ s) tr = None
  /\ (forall i, SparseStorage.exists_ (transforms_ s) i = true ->
                SparseStorage.exists_ (transforms_ s') i = true)
  /\ SparseStorage.exists_ (transforms_ s') tr = true.

(** The number of triangles with an Emissive, MULT_IMPORTANCE front
    material, summed over the instanced meshes. *)
Definition total_emissive `{Constants} (s : Scene) (calls : list (Z * list float)) : nat :=
  fold_right (fun c acc => (emissive_count s (fst c) + acc)%nat) 0%nat calls.

(** The scene of a result, or an empty scene when the operation failed. *)
Definition scene_of (r : result Scene) : Scene :=
  match r with
  | Ok s => s
  | Fail _ => Scene_new false false false
  end.

Definition instances_of (r : result (list Z * Scene)) : list Z * Scene :=
  match r with
  | Ok x => x
  | Fail _ => ([], Scene_new false false false)
  end.

(** The mesh with the Emissive material, instanced twice; the mesh with the
    Mix material over the Emissive one, instanced once. *)
Definition two_calls : list (Z * list float) := [(0, unit_xform); (0, unit_xform)].

Definition emissive_twice : list Z * Scene :=
  instances_of (@add_instances ray_constants ray_externals two_calls
                  (scene_of (emissive_scene 0))).

Definition mixed_once : list Z * Scene :=
  instances_of (@add_instances ray_constants ray_externals [(0, unit_xform)]
                  (scene_of (emissive_scene 2))).

(** ** Floating-point notions used for the quad-tree *)

(** A float that is zero, plus infinity, or positive and finite with a
    canonical mantissa: what a luminance is. *)
Definition nonneg (x : float) : bool :=
  match x with
  | S754_zero _ => true
  | S754_infinity s => negb s
  | S754_nan => false
  | S754_finite s m e => negb s && canonical_mantissa F32.prec F32.emax m e
  end.

(** A float as the hardware has it: the mantissa of a finite value is the
    canonical one for its exponent. *)
Definition valid (x : float) : bool :=
  match x with
  | S754_finite _ m e => canonical_mantissa F32.prec F32.emax m e
  | _ => true
  end.

Definition valid3 (c : float3) : bool :=
  let '(r, g, b) := c in valid r && valid g && valid b.

Definition with_sign (s : bool) (x : float) : float :=
  match x with
  | S754_zero _ => S754_zero s
  | S754_infinity _ => S754_infinity s
  | S754_nan => S754_nan
  | S754_finite _ m e => S754_finite s m e
  end.

Definition nonneg4 (v : fvec4) : bool :=
  let '(a, b, c, d) := v in nonneg a && nonneg b && nonneg c && nonneg d.

(** [(ea, ma)] is at most the positive float [r]: exponents first, then
    mantissas. *)
Definition lex_le (ea : Z) (ma : Z) (r : float) : Prop :=
  match r with
  | S754_infinity false => True
  | S754_finite false m e => ea < e \/ (ea = e /\ ma <= Zpos m)
  | _ => False
  end.

(** ** The levels of the environment quad-tree *)

(** The number of cells in a row of level [i]:
    [(env_map_qtree_.res >> i) / 2]. *)
Definition level_dim (q : qtree_t) (i : nat) : Z :=
  Z.quot (Z.shiftr (res q) (Z.of_nat i)) 2.

(** The cell of the finer level behind component [idx] of cell [cell] of a
    level with [w] cells in a row: the parent cell is at [(qx, qy)], bit 0
    of [idx] selects the column and bit 1 the row of the child. *)
Definition child_cell (w cell idx : Z) : Z :=
  let qx := cell mod w in
  let qy := cell / w in
  (2 * qy + idx / 2) * (2 * w) + (2 * qx + idx mod 2).

(** A level of [n] cells, each component a luminance. *)
Definition level_ok (n : nat) (mip : list fvec4) : Prop :=
  length mip = n /\ Forall (fun v => nonneg4 v = true) mip.

(** The cells [(x, y)] of [prev] (which has [c] cells in a row) that satisfy
    [P] have their sum in the level [mip] above. *)
Definition sums_done (prev : list fvec4) (c : Z) (P : Z -> Z -> Prop)
    (mip : list fvec4) : Prop :=
  forall x y, 0 <= x < c -> 0 <= y < c -> P x y ->
    exists ch v,
      prev !! Z.to_nat (y * c + x) = Some ch
      /\ mip !! Z.to_nat (y / 2 * (c / 2) + x / 2) = Some v
      /\ fvec4_get v (quadrant x y) = fvec4_sum ch.

(** Level [coarse] holds the sums of all the cells of level [fine], which
    has [c] cells in a row. *)
Definition link (c : Z) (fine coarse : list fvec4) : Prop :=
  sums_done fine c (fun _ _ => True) coarse.

(** All the levels of a quad-tree of resolution [2 ^ n]: their sizes, their
    contents and the sums between neighbours. *)
Definition levels_inv (n : Z) (mips_ : list (list fvec4)) : Prop :=
  (forall i l, mips_ !! i = Some l ->
     Z.of_nat (length l) = 2 ^ (n - 1 - Z.of_nat i) * 2 ^ (n - 1 - Z.of_nat i)
     /\ Forall (fun v => nonneg4 v = true) l)
  /\ (forall i fine coarse,
        mips_ !! i = Some fine -> mips_ !! S i = Some coarse ->
        link (2 ^ (n - 1 - Z.of_nat i)) fine coarse).

(** A 64 x 64 environment map of uniform colour; the canonical coordinates
    of pixel [(x, y)] are [(x / 64, y / 64)]. *)
Definition uniform_env : env_image :=
  {| img_w := 64; img_h := 64;
     img_rgb := fun _ _ => (F32.one, F32.one, F32.one);
     img_canonical := fun x y =>
       (F32.div (F32.of_Z x) (F32.of_Z 64), F32.div (F32.of_Z y) (F32.of_Z 64)) |}.

Definition built_of (r : result (qtree_t * float * Z)) : qtree_t * float * Z :=
  match r with
  | Ok x => x
  | Fail _ => (qtree_empty, F32.zero, 0)
  end.

Definition uniform_qtree : qtree_t * float * Z := built_of (build_qtree 30 uniform_env).

Definition format_channels (f : eTextureFormat) : Z :=
  match f with RGBA8888 => 4 | RGB888 => 3 | RG88 => 2 | R8 => 1 end.

Definition normalmap_tex : tex_desc_t :=
  {| td_format := RGB888; td_name := "normals";
     td_data := [128; 128; 255; 10; 20; 30];
     td_w := 2; td_h := 1; td_is_srgb := false; td_is_normalmap := true;
     td_force_no_compression := false; td_generate_mipmaps := false |}.

Definition rgba_mips_tex : tex_desc_t :=
  {| td_format := RGBA8888; td_name := "albedo";
     td_data := replicate 256 255;
     td_w := 8; td_h := 8; td_is_srgb := true; td_is_normalmap := false;
     td_force_no_compression := false; td_generate_mipmaps := true |}.


Definition added_of (r : result (Z * Scene)) : Z * Scene :=
  match r with
  | Ok x => x
  | Fail _ => (InvalidIndex, Scene_new false false false)
  end.

(** A scene with one Diffuse material, and the mesh added to it. *)
Definition diffuse_scene : Scene :=
  snd (@AddMaterial ray_constants ray_externals (node_desc Diffuse)
         (Scene_new false false false)).

Definition mesh_added : Z * Scene :=
  added_of (@AddMesh ray_constants ray_externals 8 (two_tri_mesh 0) diffuse_scene).




Definition is_nan (x : float) : bool :=
  match x with S754_nan => true | _ => false end.

(** ** The mip images of [WriteTextureMips]

    A texel [color_t<uint8_t, N>] is the list of its [N] channels.  The
    functions below are the part of [WriteTextureMips] that computes
    [dst_data], the image of each further mip level; how a level is then
    packed into [out_data] (rows copied at the pitch alignment, or block
    compression) is not part of them. *)
Definition texel := list Z.

Definition channel (c : texel) (j : Z) : Z := nth (Z.to_nat j) c 0.

(** [res.v[j] = (c00.v[j] + c10.v[j] + c11.v[j] + c01.v[j]) / 4] for [j < N];
    the sum is an [int], the result is stored as a [uint8_t]. *)
Definition average4 (N : Z) (c00 c10 c11 c01 : texel) : texel :=
  map (fun j => u8 (Z.quot (channel c00 j + channel c10 j + channel c11 j + channel c01 j) 4))
      (range N).

(** The body of the loops over [y] and [x]: four reads of [src_data] and a
    [push_back]. *)
Definition mip_texel (N : Z) (src_data : list texel) (src_w src_h x y : Z)
    (dst_data : list texel) : result (list texel) :=
  let* c00 := read_at src_data ((2 * y + 0) * src_w + (2 * x + 0)) in
  let* c10 := read_at src_data ((2 * y + 0) * src_w + Z.min (2 * x + 1) (src_w - 1)) in
  let* c11 := read_at src_data
                (Z.min (2 * y + 1) (src_h - 1) * src_w + Z.min (2 * x + 1) (src_w - 1)) in
  let* c01 := read_at src_data (Z.min (2 * y + 1) (src_h - 1) * src_w + (2 * x + 0)) in
  Ok (dst_data ++ [average4 N c00 c10 c11 c01]).

Definition mip_res (src_res : Z) : Z := Z.max (Z.quot src_res 2) 1.

(** One iteration of the loop over the mip levels: [dst_data] from
    [src_data]. *)
Definition mip_level (N : Z) (src_data : list texel) (src_w src_h : Z) : result (list texel) :=
  for_each (range (mip_res src_h))
    (fun y dst =>
       for_each (range (mip_res src_w))
         (fun x dst' => mip_texel N src_data src_w src_h x y dst') dst)
    [].

(** The images of the [count] levels that follow an image, each with its
    resolution: [for (i = 1; i < mip_count; ++i)] with [count = mip_count - 1]. *)
Fixpoint mip_images (N : Z) (count : nat) (src_data : list texel) (src_w src_h : Z)
    : result (list (list texel * Z * Z)) :=
  match count with
  | O => Ok []
  | S count' =>
      let* dst_data := mip_level N src_data src_w src_h in
      let* rest := mip_images N count' dst_data (mip_res src_w) (mip_res src_h) in
      Ok ((dst_data, mip_res src_w, mip_res src_h) :: rest)
  end.

(** The source texel a destination texel reads at offset [(dx, dy)]. *)
Definition src_texel (src_data : list texel) (src_w src_h x y dx dy : Z) : option texel :=
  src_data !! Z.to_nat (Z.min (2 * y + dy) (src_h - 1) * src_w + Z.min (2 * x + dx) (src_w - 1)).

(** Every texel of an image has [N] channels, each between [lo] and [hi]. *)
Definition texels_within (N lo hi : Z) (img : list texel) : Prop :=
  Forall (fun c => Z.of_nat (length c) = N /\ Forall (fun v => lo <= v <= hi) c) img.

(** A 3 x 2 image of three channels. *)
Definition checker_3x2 : list texel :=
  [[255; 0; 0]; [0; 255; 0]; [9; 9; 9];
   [0; 0; 255]; [255; 255; 0]; [7; 7; 7]].

(** ** [Buffer::Resize] *)

(** [while (size_ < new_size) size_ *= 2;] on a [uint32_t]. *)
Fixpoint Resize_loop (fuel : nat) (size_ new_size : Z) : result Z :=
  if size_ <? new_size then
    match fuel with
    | O => Fail OutOfFuel
    | S fuel' => Resize_loop fuel' (u32 (size_ * 2)) new_size
    end
  else Ok size_.

(** [Buffer::Resize] on the fields a [Dx.Buffer] has.  [LinearAlloc_Resize]
    is [LinearAlloc::Resize], whose definition is not among the sources;
    [created] tells whether [CreateCommittedResource] succeeds.  The
    resource handle, the copy of the old content and the release of the old
    resource are not part of the model. *)
Definition Buffer_Resize (LinearAlloc_Resize : Dx.alloc_state -> Z -> Dx.alloc_state)
    (fuel : nat) (new_size : Z) (created : bool) (b : Dx.Buffer) : result Dx.Buffer :=
  if new_size <=? Dx.size_ b then Ok b
  else
    let old_size := Dx.size_ b in
    let size0 := if old_size =? 0 then new_size else old_size in
    let* size1 := Resize_loop fuel size0 new_size in
    let alloc1 := if negb (old_size =? 0) then LinearAlloc_Resize (Dx.alloc_ b) size1
                  else Dx.alloc_ b in
    let new_buf_state := Dx.GetInitialDxResourceState (Dx.type_ b) in
    Ok {| Dx.type_ := Dx.type_ b; Dx.size_ := size1; Dx.alloc_ := alloc1;
          Dx.resource_state := if created then new_buf_state else Dx.resource_state b |}.

(** The barriers of a copy from a buffer to itself, by its state. *)
Definition self_copy_barriers (b : nat) (st : Dx.eResState) : list Dx.barrier :=
  match st with
  | Dx.CopySrc => [{| Dx.pResource := b; Dx.StateBefore := Dx.CopySrc; Dx.StateAfter := Dx.CopyDst |}]
  | Dx.CopyDst => [{| Dx.pResource := b; Dx.StateBefore := Dx.CopyDst; Dx.StateAfter := Dx.CopySrc |}]
  | _ => [{| Dx.pResource := b; Dx.StateBefore := st; Dx.StateAfter := Dx.CopySrc |};
          {| Dx.pResource := b; Dx.StateBefore := st; Dx.StateAfter := Dx.CopyDst |}]
  end.

(** A store holds the node [main] at [root0] and every material of [old]. *)
Definition holds_main (main : material_t) (root0 : Z)
    (old ms : SparseStorage.t material_t) : Prop :=
  SparseStorage.get ms root0 = Some main
  /\ forall i x, SparseStorage.get old i = Some x -> SparseStorage.get ms i = Some x.

(** The scene with one instance, after the transform of the instance was
    set once more. *)
Definition instance_moved : result Scene :=
  @SetMeshInstanceTransform ray_constants ray_externals 0 unit_xform (scene_of instanced_once).

(** * Properties *)

(** ** Sparse storage *)

Section StoreFacts.
Context {A : Type}.
Implicit Types (s : SparseStorage.t A) (x : A).

Lemma first_free_le s : (SparseStorage.first_free s <= length s)%nat.
Proof. induction s as [|[y|] s IH]; simpl; lia. Qed.

(** [get] without the upper bound test: beyond the slots the lookup finds
    nothing anyway. *)
Lemma get_spec s i :
  SparseStorage.get s i = if i <? 0 then None else mjoin (s !! Z.to_nat i).
Proof.
  unfold SparseStorage.get. destruct (Z.ltb_spec i 0); [reflexivity|].
  destruct (Z.leb_spec (Z.of_nat (length s)) i); [|reflexivity].
  cbn [orb]. unfold SparseStorage.t in *.
  rewrite (lookup_ge_None_2 s (Z.to_nat i)) by lia. reflexivity.
Qed.

Lemma push_snd x s : snd (SparseStorage.push x s) = push_slots x s.
Proof.
  unfold SparseStorage.push; simpl.
  induction s as [|[y|] s IH]; simpl; try reflexivity.
  pose proof (first_free_le s) as Hle.
  destruct (Nat.ltb_spec (SparseStorage.first_free s) (length s)) as [Hlt|Hge].
  - destruct (Nat.ltb_spec (S (SparseStorage.first_free s)) (S (length s))); [|lia].
    simpl. f_equal. exact IH.
  - destruct (Nat.ltb_spec (S (SparseStorage.first_free s)) (S (length s))); [lia|].
    simpl. f_equal. exact IH.
Qed.

Lemma push_fst x s : fst (SparseStorage.push x s) = Z.of_nat (SparseStorage.first_free s).
Proof. reflexivity. Qed.

Lemma get_nat s (i : nat) : SparseStorage.get s (Z.of_nat i) = mjoin (s !! i).
Proof.
  rewrite get_spec.
  destruct (Z.ltb_spec (Z.of_nat i) 0); [lia|]. now rewrite Nat2Z.id.
Qed.

Lemma get_neg s i : i < 0 -> SparseStorage.get s i = None.
Proof.
  intros Hi. rewrite get_spec. destruct (Z.ltb_spec i 0); [reflexivity|lia].
Qed.

Lemma push_slots_lookup_same x s :
  push_slots x s !! SparseStorage.first_free s = Some (Some x).
Proof. induction s as [|[y|] s IH]; simpl; auto. Qed.

Lemma push_slots_lookup_other x s (i : nat) :
  i <> SparseStorage.first_free s ->
  mjoin (push_slots x s !! i) = mjoin (s !! i).
Proof.
  revert i; induction s as [|[y|] s IH]; intros i Hne; simpl in *.
  - destruct i; [congruence|]. reflexivity.
  - destruct i; [reflexivity|]. simpl. apply IH. congruence.
  - destruct i; [congruence|]. reflexivity.
Qed.

Lemma first_free_vacant s : mjoin (s !! SparseStorage.first_free s) = None.
Proof. induction s as [|[y|] s IH]; simpl; auto. Qed.

(** The slot [push] returns held no element. *)
Lemma push_fresh x s : SparseStorage.get s (fst (SparseStorage.push x s)) = None.
Proof. rewrite push_fst, get_nat. apply first_free_vacant. Qed.

(** The element is found under the index [push] returns. *)
Lemma get_push_same x s :
  SparseStorage.get (snd (SparseStorage.push x s)) (fst (SparseStorage.push x s)) = Some x.
Proof. rewrite push_snd, push_fst, get_nat, push_slots_lookup_same. reflexivity. Qed.

(** The other indices are not affected. *)
Lemma get_push_other x s i :
  i <> fst (SparseStorage.push x s) ->
  SparseStorage.get (snd (SparseStorage.push x s)) i = SparseStorage.get s i.
Proof.
  intros Hne. rewrite push_snd. rewrite push_fst in Hne.
  destruct (Z.ltb_spec i 0) as [Hneg|Hpos].
  - now rewrite !get_neg.
  - rewrite <- (Z2Nat.id i) by lia. rewrite !get_nat.
    apply push_slots_lookup_other. intros E. apply Hne. rewrite <- E. lia.
Qed.

Lemma get_push_live x s i y :
  SparseStorage.get s i = Some y ->
  SparseStorage.get (snd (SparseStorage.push x s)) i = Some y.
Proof.
  intros Hy. rewrite get_push_other; [exact Hy|].
  intros E. subst i. rewrite push_fresh in Hy. discriminate.
Qed.

Lemma count_live_cons_Some P y s :
  count_live P (Some y :: s) = ((if P y then 1 else 0) + count_live P s)%nat.
Proof.
  unfold count_live, SparseStorage.elements. simpl.
  rewrite filter_cons. destruct (P y) eqn:E.
  - rewrite decide_True by reflexivity. reflexivity.
  - rewrite decide_False by congruence. reflexivity.
Qed.

Lemma count_live_cons_None P s : count_live P (None :: s) = count_live P s.
Proof. reflexivity. Qed.

Lemma count_live_push P x s :
  count_live P (snd (SparseStorage.push x s))
  = (count_live P s + (if P x then 1 else 0))%nat.
Proof.
  rewrite push_snd. induction s as [|[y|] s IH]; simpl.
  - rewrite count_live_cons_Some. unfold count_live; simpl. lia.
  - rewrite !count_live_cons_Some, IH. lia.
  - rewrite count_live_cons_Some, count_live_cons_None. lia.
Qed.

End StoreFacts.

(** ** Directional lights *)

Section LightFacts.
Context `{Constants} `{Externals}.

Lemma push_light_lights l s :
  lights_ (snd (push_light l s)) = snd (SparseStorage.push l (lights_ s)).
Proof.
  unfold push_light. destruct (SparseStorage.push l (lights_ s)) eqn:E. reflexivity.
Qed.

Lemma push_light_index l s :
  fst (push_light l s) = fst (SparseStorage.push l (lights_ s)).
Proof.
  unfold push_light. destruct (SparseStorage.push l (lights_ s)) eqn:E. reflexivity.
Qed.

Lemma push_light_li_indices l s :
  li_indices_ (snd (push_light l s)) = li_indices_ s ++ [fst (push_light l s)].
Proof.
  unfold push_light. destruct (SparseStorage.push l (lights_ s)) eqn:E. reflexivity.
Qed.

Lemma push_light_visible_lights l s :
  visible_lights_ (snd (push_light l s)) = visible_lights_ s.
Proof.
  unfold push_light. destruct (SparseStorage.push l (lights_ s)) eqn:E. reflexivity.
Qed.

(** C10.  For every directional light descriptor, the light record that
    [AddLight] stores under the returned handle is a directional light whose
    [visible] flag is false, whatever the descriptor's [visible] flag; the
    returned index is appended to [li_indices_], and it is appended to
    [visible_lights_] exactly when the descriptor asks for a visible
    light. *)
Theorem AddLight_directional_visible_false :
  forall (d : directional_light_desc_t) (s : Scene),
    let h := fst (AddLight_directional d s) in
    let s' := snd (AddLight_directional d s) in
    (exists l, SparseStorage.get (lights_ s') h = Some l
               /\ l_type l = LIGHT_TYPE_DIR
               /\ visible l = false
               /\ cast_shadow l = dl_cast_shadow d)
    /\ li_indices_ s' = li_indices_ s ++ [h]
    /\ visible_lights_ s'
       = visible_lights_ s ++ (if dl_visible d then [h] else []).
Proof.
  intros d s. unfold AddLight_directional.
  destruct (dl_direction d) as [[d0 d1] d2].
  destruct (dl_color d) as [[c0 c1] c2].
  set (l := {| l_type := LIGHT_TYPE_DIR; cast_shadow := dl_cast_shadow d;
               visible := false |}).
  pose proof (push_light_lights l s) as Hl.
  pose proof (push_light_index l s) as Hi.
  pose proof (push_light_li_indices l s) as Hli.
  pose proof (push_light_visible_lights l s) as Hv.
  destruct (push_light l s) as [i s1]; simpl in *.
  destruct (dl_visible d); simpl.
  - split; [|split].
    + exists l. rewrite Hl, Hi. split; [apply get_push_same|]. repeat split.
    + exact Hli.
    + now rewrite Hv.
  - split; [|split].
    + exists l. rewrite Hl, Hi. split; [apply get_push_same|]. repeat split.
    + exact Hli.
    + now rewrite Hv, app_nil_r.
Qed.

End LightFacts.

(** ** The resolution of the environment quad-tree *)

Section QTreeRes.
Context `{Constants} `{Externals}.

Lemma pow2_lt_inv (i j : Z) : 0 <= i -> 0 <= j -> 2 ^ i < 2 ^ j -> i < j.
Proof. intros Hi Hj Hlt. apply (Z.pow_lt_mono_r_iff 2); lia. Qed.

Lemma qtree_res_loop_spec (lowest_dim : Z) :
  lowest_dim <= 2 ^ 30 ->
  forall (fuel : nat) (k : Z),
    0 <= k <= 29 -> 30 - k <= Z.of_nat fuel -> 2 ^ k < lowest_dim ->
    exists j, k <= j <= 29
              /\ qtree_res_loop fuel (2 ^ k) lowest_dim = Ok (2 ^ j)
              /\ 2 ^ j < lowest_dim <= 2 * 2 ^ j.
Proof.
  intros Hmax. induction fuel as [|fuel IH]; intros k Hk Hfuel Hlt; [lia|].
  assert (Hk29 : 2 ^ k <= 2 ^ 29) by (apply Z.pow_le_mono_r; lia).
  change (2 ^ 29) with 536870912 in Hk29.
  change (2 ^ 30) with 1073741824 in Hmax.
  cbn [qtree_res_loop]. unfold INT_MAX. change (2 ^ 31 - 1) with 2147483647.
  destruct (Z.ltb_spec 2147483647 (2 * 2 ^ k)); [lia|].
  destruct (Z.ltb_spec (2 * 2 ^ k) lowest_dim) as [Hgo|Hstop].
  - assert (Hs : 2 ^ (k + 1) = 2 * 2 ^ k)
      by (rewrite Z.pow_add_r by lia; change (2 ^ 1) with 2; lia).
    assert (k + 1 < 30).
    { apply pow2_lt_inv; lia. }
    destruct (IH (k + 1)) as (j & Hj & Hres & Hb); try lia.
    exists j. split; [lia|]. split; [|exact Hb].
    rewrite <- Hres. f_equal. lia.
  - exists k. split; [lia|]. split; [reflexivity|lia].
Qed.

(** C4 (as the code has it).  For every environment map whose smaller
    dimension is between 2 and 2^30, the loop that computes the quad-tree
    resolution ends and yields the largest power of two strictly below
    [min(width, height)] itself; twice the resolution is never below
    [min(width, height)]. *)
Theorem qtree_res_largest_pow2_below_min :
  forall (fuel : nat) (width height : Z),
    (30 <= fuel)%nat ->
    2 <= Z.min width height -> Z.min width height <= 2 ^ 30 ->
    exists r, qtree_res fuel width height = Ok r
              /\ largest_pow2_below r (Z.min width height)
              /\ Z.min width height <= 2 * r.
Proof.
  intros fuel width height Hfuel Hlo Hhi. unfold qtree_res.
  assert (Hone : 2 ^ 0 < Z.min width height) by (change (2 ^ 0) with 1; lia).
  destruct (qtree_res_loop_spec (Z.min width height) Hhi fuel 0
              ltac:(lia) ltac:(lia) Hone) as (j & Hj & Hres & Hb).
  exists (2 ^ j). split; [exact Hres|]. split; [|lia].
  split; [exists j; split; [lia|reflexivity]|]. split; [lia|].
  intros i Hi Hlt.
  assert (Hij : i < j + 1).
  { apply pow2_lt_inv; try lia.
    rewrite Z.pow_add_r by lia. change (2 ^ 1) with 2. lia. }
  apply Z.pow_le_mono_r; lia.
Qed.

Lemma qtree_res_largest_pow2_below_min_witness :
  exists r, qtree_res 30 512 256 = Ok r
            /\ largest_pow2_below r (Z.min 512 256)
            /\ Z.min 512 256 <= 2 * r.
Proof.
  apply (qtree_res_largest_pow2_below_min 30 512 256).
  - lia.
  - vm_compute. discriminate.
  - vm_compute. discriminate.
Defined.

(** C4 as stated fails: for the 512 x 256 sky map the resolution is 128,
    which is not strictly below [256 / 2]. *)
Lemma qtree_res_not_below_half :
  qtree_res 30 512 256 = Ok 128 /\ ~ spec_qtree_res 128 512 256.
Proof.
  split; [reflexivity|].
  intros (_ & Hlt & _). vm_compute in Hlt. discriminate.
Qed.

End QTreeRes.

(** ** Finalize and the environment quad-tree *)

Section FinalizeFacts.
Context `{Constants} `{Externals}.

Lemma Finalize_env_calls_qtree (fuel : nat) (s : Scene) :
  In Call_PrepareEnvMapQTree (fst (Finalize_env fuel s))
  <-> multiple_importance (env_ s) = true
      /\ env_tint_all_positive (env_ s) = true
      /\ env_map (env_ s) <> InvalidIndex.
Proof.
  unfold Finalize_env, env_tint_all_positive.
  destruct (env_col (env_ s)) as [[c0 c1] c2].
  destruct (multiple_importance (env_ s)); simpl.
  2:{ split; [intros [E|[]]; discriminate | intros [E _]; discriminate]. }
  destruct (F32.gt c0 F32.zero && F32.gt c1 F32.zero && F32.gt c2 F32.zero) eqn:Ec.
  2:{ split; [intros [E|[]]; discriminate | intros (_ & E & _); discriminate]. }
  destruct (Z.eqb_spec (env_map (env_ s)) InvalidIndex) as [Ei|Ei]; simpl.
  - split.
    + destruct (push_light env_light (dummy_qtree_tex s)); simpl.
      intros [E|[E|[]]]; discriminate.
    + intros (_ & _ & E). contradiction.
  - split; [intros _; auto|]. intros _.
    destruct (PrepareEnvMapQTree_nolock fuel s) as [s1|why]; simpl; [|auto].
    destruct (push_light env_light s1); simpl. auto.
Qed.

Lemma Finalize_sky_no_qtree (s : Scene) :
  ~ In Call_PrepareEnvMapQTree (fst (Finalize_sky s)).
Proof.
  unfold Finalize_sky.
  destruct (negb (env_map_light_ s =? InvalidIndex));
    match goal with |- context [if ?c then _ else _] => destruct c end; simpl;
    intuition discriminate.
Qed.

Lemma Finalize_trace (fuel : nat) (s : Scene) :
  In Call_PrepareEnvMapQTree (fst (Finalize fuel s))
  <-> exists s1, snd (Finalize_sky s) = Ok s1
                 /\ In Call_PrepareEnvMapQTree (fst (Finalize_env fuel s1)).
Proof.
  unfold Finalize. pose proof (Finalize_sky_no_qtree s) as Hsky.
  destruct (Finalize_sky s) as [tr0 [s1|why]]; simpl in *.
  - destruct (Finalize_env fuel s1) as [tr1 [s2|why]] eqn:E1; simpl.
    + rewrite !in_app_iff. simpl. split.
      * intros Hin. exists s1. split; [reflexivity|]. rewrite E1. simpl.
        intuition (try discriminate).
      * intros (s1' & E & Hin). injection E as <-. rewrite E1 in Hin. auto.
    + rewrite in_app_iff. split.
      * intros [E|E]; [contradiction|]. exists s1. rewrite E1. auto.
      * intros (s1' & E & Hin). injection E as <-. rewrite E1 in Hin. auto.
  - split; [contradiction|]. intros (s1 & E & _). discriminate.
Qed.

(** What the start of [Finalize] leaves of the environment when the
    environment map is not the sky. *)
Lemma Finalize_sky_plain (s : Scene) :
  wants_sky (with_env (with_qtree_levels 0 (env_ s)) s) = false ->
  exists s1, snd (Finalize_sky s) = Ok s1
             /\ env_ s1 = with_qtree_levels 0 (env_ s).
Proof.
  intros Hw. unfold Finalize_sky.
  destruct (negb (env_map_light_ s =? InvalidIndex)).
  - unfold RemoveLight_nolock.
    destruct (negb (SparseStorage.exists_ (lights_ s) (env_map_light_ s)));
      unfold wants_sky in *; simpl in *; rewrite Hw; simpl; eauto.
  - unfold wants_sky in *; simpl in *; rewrite Hw; simpl; eauto.
Qed.

(** C3 (as the code has it).  [Finalize] rebuilds the environment quad-tree
    exactly when, after the sky baker had its turn, the environment's
    [multiple_importance] flag is set, an environment map is present and all
    three channels of the env tint are positive.  In particular, for an
    environment map that is not the physical sky this is decided by the
    environment the scene had before [Finalize]. *)
Theorem Finalize_rebuilds_qtree_iff :
  forall (fuel : nat) (s : Scene),
    (In Call_PrepareEnvMapQTree (fst (Finalize fuel s))
     <-> exists s1, snd (Finalize_sky s) = Ok s1
                    /\ multiple_importance (env_ s1) = true
                    /\ env_tint_all_positive (env_ s1) = true
                    /\ env_map (env_ s1) <> InvalidIndex)
    /\ (wants_sky (with_env (with_qtree_levels 0 (env_ s)) s) = false ->
        (In Call_PrepareEnvMapQTree (fst (Finalize fuel s))
         <-> multiple_importance (env_ s) = true
             /\ env_tint_all_positive (env_ s) = true
             /\ env_map (env_ s) <> InvalidIndex)).
Proof.
  intros fuel s.
  assert (Hgen :
    In Call_PrepareEnvMapQTree (fst (Finalize fuel s))
    <-> exists s1, snd (Finalize_sky s) = Ok s1
                   /\ multiple_importance (env_ s1) = true
                   /\ env_tint_all_positive (env_ s1) = true
                   /\ env_map (env_ s1) <> InvalidIndex).
  { rewrite Finalize_trace. split; intros (s1 & E & Hin); exists s1; split; auto;
      now apply (Finalize_env_calls_qtree fuel s1). }
  split; [exact Hgen|].
  intros Hw. rewrite Hgen.
  destruct (Finalize_sky_plain s Hw) as (s1 & E & Henv).
  split.
  - intros (s1' & E' & Hmi & Hcol & Hmap).
    rewrite E in E'. injection E' as <-. rewrite Henv in *.
    unfold env_tint_all_positive in *. simpl in *. auto.
  - intros (Hmi & Hcol & Hmap). exists s1. split; [exact E|].
    rewrite Henv. unfold env_tint_all_positive in *. simpl. auto.
Qed.

End FinalizeFacts.

(** C3 as stated fails: with importance sampling on, an environment map
    present and a pure red tint (a non-black tint), [Finalize] does not
    rebuild the quad-tree. *)
Lemma Finalize_red_tint_no_qtree :
  multiple_importance (env_ red_env_scene) = true
  /\ env_map (env_ red_env_scene) <> InvalidIndex
  /\ env_tint_non_black (env_ red_env_scene) = true
  /\ ~ In Call_PrepareEnvMapQTree
         (fst (@Finalize ray_constants ray_externals 40 red_env_scene)).
Proof.
  split; [reflexivity|]. split; [vm_compute; discriminate|].
  split; [reflexivity|].
  vm_compute. intuition discriminate.
Qed.

Lemma Finalize_rebuilds_qtree_iff_witness :
  In Call_PrepareEnvMapQTree
     (fst (@Finalize ray_constants ray_externals 40 white_env_scene)).
Proof.
  apply (proj2 (@Finalize_rebuilds_qtree_iff ray_constants ray_externals 40
                  white_env_scene)).
  - vm_compute. reflexivity.
  - split; [reflexivity|]. split; [reflexivity|]. vm_compute. discriminate.
Defined.

(** ** Texture allocation failures *)

Section TextureFacts.
Context `{Constants} `{Externals}.

(** C9 (as the code has it).  In packed-atlas mode, for every texture
    descriptor whose first atlas allocation fails, [AddTexture] returns
    normally with the [InvalidTextureHandle] sentinel; it logs nothing (no
    warning either) and the scene is left as it was, apart from the state of
    the atlases. *)
Theorem AddTexture_atlas_allocation_fails :
  forall (t : tex_desc_t) (s : Scene),
    use_bindless_ s = false ->
    atlas_allocation_fails t s ->
    exists s', AddTexture t s = Ok (InvalidIndex, s')
               /\ log_ s' = log_ s
               /\ atlas_textures_ s' = atlas_textures_ s
               /\ same_but_atlases s s'.
Proof.
  intros t s Hb (atlas & data & z & st & Hc & Hr & Hp).
  unfold AddTexture, AddAtlasTexture_nolock. rewrite Hb, Hc. simpl.
  rewrite Hr. simpl.
  destruct (atlas_Allocate atlas st (td_w t, td_h t) data) as [[page pos] st'].
  simpl in Hp. subst page. simpl.
  eexists. split; [reflexivity|]. split; [reflexivity|]. split; [reflexivity|].
  eexists. reflexivity.
Qed.

End TextureFacts.

Lemma too_wide_tex_fails :
  @atlas_allocation_fails ray_constants ray_externals too_wide_tex
    (Scene_new false false false).
Proof. exists 0, [], false, []. repeat split. Qed.

Lemma AddTexture_atlas_allocation_fails_witness :
  exists s', @AddTexture ray_constants ray_externals too_wide_tex
               (Scene_new false false false) = Ok (InvalidIndex, s')
             /\ log_ s' = log_ (Scene_new false false false)
             /\ atlas_textures_ s' = atlas_textures_ (Scene_new false false false)
             /\ same_but_atlases (Scene_new false false false) s'.
Proof.
  apply (@AddTexture_atlas_allocation_fails ray_constants ray_externals
           too_wide_tex (Scene_new false false false)).
  - reflexivity.
  - exists 0, [], false, []. repeat split.
Defined.

(** C9 as stated fails: when the allocation fails nothing is logged at
    warning level. *)
Lemma AddTexture_failure_logs_no_warning :
  exists s',
    @AddTexture ray_constants ray_externals too_wide_tex (Scene_new false false false)
    = Ok (InvalidIndex, s')
    /\ @atlas_allocation_fails ray_constants ray_externals too_wide_tex
         (Scene_new false false false)
    /\ ~ exists msg, In (LogWarning, msg) (log_ s').
Proof.
  eexists. split; [vm_compute; reflexivity|]. split; [exact too_wide_tex_fails|].
  simpl. intros (msg & []).
Qed.

(** ** Principled materials *)

Section MaterialFacts.
Context `{Constants} `{Externals}.

Lemma push_index_bound {A : Type} (x : A) (s : SparseStorage.t A) :
  0 <= fst (SparseStorage.push x s) <= Z.of_nat (length s).
Proof. rewrite push_fst. pose proof (first_free_le s). lia. Qed.

Lemma push_slots_length {A : Type} (x : A) (s : SparseStorage.t A) :
  (length (push_slots x s) <= S (length s))%nat.
Proof. induction s as [|[y|] s IH]; simpl; lia. Qed.

Lemma push_length {A : Type} (x : A) (s : SparseStorage.t A) :
  (length (snd (SparseStorage.push x s)) <= S (length s))%nat.
Proof. rewrite push_snd. apply push_slots_length. Qed.

Lemma AddMaterial_eq (d : shading_node_desc_t) (s : Scene) :
  AddMaterial d s
  = (fst (SparseStorage.push (make_material d) (materials_ s)),
     with_materials (snd (SparseStorage.push (make_material d) (materials_ s))) s).
Proof.
  unfold AddMaterial, AddMaterial_nolock.
  destruct (SparseStorage.push (make_material d) (materials_ s)). reflexivity.
Qed.

(** A tree stays where it is when a material is pushed. *)
Lemma represents_push (x : material_t) (mats : SparseStorage.t material_t)
    (t : mat_tree) :
  forall i, represents mats i t = true ->
            represents (snd (SparseStorage.push x mats)) i t = true.
Proof.
  induction t as [ty|add l IHl r IHr]; intros i; cbn [represents];
    destruct (SparseStorage.get mats i) as [m|] eqn:Em; try discriminate;
    rewrite (get_push_live x mats i m Em); auto.
  intros Hr. apply andb_prop in Hr as [Hr H4]. apply andb_prop in Hr as [Hr H3].
  rewrite Hr, (IHl _ H3), (IHr _ H4). reflexivity.
Qed.

Lemma represents_push_leaf (x : material_t) (mats : SparseStorage.t material_t) :
  eShadingNode_eqb (type x) Mix = false ->
  represents (snd (SparseStorage.push x mats)) (fst (SparseStorage.push x mats))
    (Leaf (type x)) = true.
Proof.
  intros Hty. cbn [represents]. rewrite get_push_same, Hty. cbn [negb andb].
  destruct (type x); reflexivity.
Qed.

Lemma constants_ok_slots :
  constants_ok = true ->
  MIX_MAT1 <> MIX_MAT2 /\ NORMALS_TEXTURE <> MIX_MAT1 /\ NORMALS_TEXTURE <> MIX_MAT2
  /\ (MIX_MAT1 < MAX_MATERIAL_TEXTURES)%nat /\ (MIX_MAT2 < MAX_MATERIAL_TEXTURES)%nat
  /\ MATERIAL_INDEX_BITS = 2 ^ 14 - 1 /\ MATERIAL_SOLID_BIT = 2 ^ 15
  /\ MAT_FLAG_MULT_IMPORTANCE = 1 /\ MAT_FLAG_MIX_ADD = 2.
Proof.
  unfold constants_ok. intros Hok.
  repeat match type of Hok with
         | (_ && _)%bool = true => apply andb_prop in Hok as [Hok ?]
         end.
  repeat match goal with
         | Hb : negb (Nat.eqb _ _) = true |- _ =>
             apply negb_true_iff, Nat.eqb_neq in Hb
         | Hb : (_ <? _)%nat = true |- _ => apply Nat.ltb_lt in Hb
         | Hb : (_ =? _) = true |- _ => apply Z.eqb_eq in Hb
         end.
  repeat split; assumption.
Qed.

Lemma mix_children (bt : Z) (st : float) (add : option bool) (a b : Z) :
  constants_ok = true ->
  tex_slot (make_material (mix_desc bt st add a b)) MIX_MAT1 = a
  /\ tex_slot (make_material (mix_desc bt st add a b)) MIX_MAT2 = b.
Proof.
  intros Hok. destruct (constants_ok_slots Hok) as (H12 & Hn1 & Hn2 & Hl1 & Hl2 & _).
  unfold tex_slot, make_material, mix_desc; simpl.
  split.
  - rewrite list_lookup_insert_ne by congruence.
    rewrite list_lookup_insert_ne by congruence.
    rewrite list_lookup_insert_eq; [reflexivity|].
    rewrite !length_insert, length_replicate. exact Hl1.
  - rewrite list_lookup_insert_ne by congruence.
    rewrite list_lookup_insert_eq; [reflexivity|].
    rewrite !length_insert, length_replicate. exact Hl2.
Qed.

Lemma represents_push_mix (bt : Z) (st : float) (add : option bool) (a b : Z)
    (mats : SparseStorage.t material_t) (l r : mat_tree) :
  constants_ok = true ->
  represents mats a l = true -> represents mats b r = true ->
  let x := make_material (mix_desc bt st add a b) in
  represents (snd (SparseStorage.push x mats)) (fst (SparseStorage.push x mats))
    (MixT (match add with Some v => v | None => sn_mix_add shading_node_defaults end)
          l r) = true.
Proof.
  intros Hok Hl Hr x. cbn [represents]. rewrite get_push_same.
  destruct (mix_children bt st add a b Hok) as [E1 E2]. fold x in E1, E2.
  rewrite E1, E2, (represents_push x mats l a Hl), (represents_push x mats r b Hr).
  destruct (constants_ok_slots Hok) as (_ & _ & _ & _ & _ & _ & _ & _ & Hadd).
  unfold x, make_material, mix_desc; simpl. rewrite Hadd.
  destruct add as [[|]|]; simpl; try reflexivity.
  destruct (sn_mix_add shading_node_defaults); reflexivity.
Qed.

Lemma push_not_invalid {A : Type} (x : A) (s : SparseStorage.t A) :
  Z.of_nat (length s) < InvalidIndex ->
  (fst (SparseStorage.push x s) =? InvalidIndex) = false.
Proof.
  intros Hlen. pose proof (push_index_bound x s). apply Z.eqb_neq. lia.
Qed.

Ltac mat_step :=
  repeat (rewrite AddMaterial_eq; cbn [materials_ with_materials fst snd]).

(** C6 (as the code has it).  For every principled material descriptor,
    [AddMaterial(principled)] returns a handle to the root of this
    composite: the Principled node, wrapped in a Mix node with the MIX_ADD
    flag (children: the Principled node and an Emissive node) when the
    descriptor sets emission; then, when the descriptor sets a non-unit
    alpha or an alpha texture, either the Transparent node alone, for an
    alpha of zero, or a regular Mix node whose children are a Transparent
    node and the previous root. *)
Theorem AddMaterial_principled_tree :
  forall (m : principled_mat_desc_t) (s : Scene),
    constants_ok = true ->
    sn_mix_add shading_node_defaults = false ->
    Z.of_nat (length (materials_ s)) + 4 < InvalidIndex ->
    represents (materials_ (snd (AddMaterial_principled m s)))
               (fst (AddMaterial_principled m s)) (principled_tree m) = true.
Proof.
  intros m s Hok Hdef Hlen.
  unfold AddMaterial_principled, principled_tree, sets_emission, sets_alpha.
  destruct (pm_emission_color m) as [[er eg] eb].
  set (M0 := materials_ s) in *.
  set (x0 := principled_main_mat m).
  destruct (SparseStorage.push x0 M0) as [root0 ms0] eqn:E0.
  assert (Hr0 : root0 = fst (SparseStorage.push x0 M0)) by now rewrite E0.
  assert (Hm0 : ms0 = snd (SparseStorage.push x0 M0)) by now rewrite E0.
  assert (Hl0 : (length ms0 <= S (length M0))%nat) by (subst ms0; apply push_length).
  assert (Hrep0 : represents ms0 root0 (Leaf Principled) = true).
  { subst. apply (represents_push_leaf x0 M0). reflexivity. }
  assert (Hn0 : (root0 =? InvalidIndex) = false).
  { subst root0. apply push_not_invalid. lia. }
  clear E0 Hr0 Hm0.
  destruct (F32.gt (pm_emission_strength m) F32.zero
            && (F32.gt er F32.zero || F32.gt eg F32.zero || F32.gt eb F32.zero)).
  - (* emission *)
    mat_step.
    set (xe := make_material (emissive_desc m)).
    set (e := fst (SparseStorage.push xe ms0)).
    set (ms1 := snd (SparseStorage.push xe ms0)).
    assert (Hl1 : (length ms1 <= S (length ms0))%nat) by apply push_length.
    assert (Hrep1 : represents ms1 e (Leaf Emissive) = true)
      by (apply (represents_push_leaf xe ms0); reflexivity).
    assert (Hrep0' : represents ms1 root0 (Leaf Principled) = true)
      by (apply represents_push; exact Hrep0).
    assert (Hne : (e =? InvalidIndex) = false) by (apply push_not_invalid; lia).
    rewrite Hne, Hn0. cbn [negb].
    destruct (F32.ne (pm_alpha m) F32.one || negb (pm_alpha_texture m =? InvalidIndex)).
    + (* emission and alpha *)
      mat_step.
      set (xt := make_material transparent_desc).
      set (t := fst (SparseStorage.push xt ms1)).
      set (ms2 := snd (SparseStorage.push xt ms1)).
      assert (Hl2 : (length ms2 <= S (length ms1))%nat) by apply push_length.
      assert (Hrep2 : represents ms2 t (Leaf Transparent) = true)
        by (apply (represents_push_leaf xt ms1); reflexivity).
      assert (Hnt : (t =? InvalidIndex) = false) by (apply push_not_invalid; lia).
      set (xm := make_material (mix_desc InvalidIndex F32.half (Some true) root0 e)).
      set (r1 := fst (SparseStorage.push xm ms2)).
      set (ms3 := snd (SparseStorage.push xm ms2)).
      assert (Hl3 : (length ms3 <= S (length ms2))%nat) by apply push_length.
      assert (Hrep3 : represents ms3 r1 (MixT true (Leaf Principled) (Leaf Emissive))
                      = true).
      { apply (represents_push_mix InvalidIndex F32.half (Some true) root0 e ms2);
          auto; apply represents_push; assumption. }
      assert (Hn1 : (r1 =? InvalidIndex) = false) by (apply push_not_invalid; lia).
      rewrite Hnt, Hn1. cbn [negb orb].
      destruct (F32.eq (pm_alpha m) F32.zero).
      * cbn [fst snd materials_ with_materials].
        apply represents_push. exact Hrep2.
      * mat_step. rewrite <- Hdef.
        apply (represents_push_mix (pm_alpha_texture m) (pm_alpha m) None t r1 ms3);
          auto. apply represents_push. exact Hrep2.
    + (* emission only *)
      mat_step. rewrite Z.eqb_refl. cbn [negb fst snd materials_ with_materials].
      apply (represents_push_mix InvalidIndex F32.half (Some true) root0 e ms1); auto.
  - (* no emission *)
    rewrite Z.eqb_refl. cbn [negb].
    destruct (F32.ne (pm_alpha m) F32.one || negb (pm_alpha_texture m =? InvalidIndex)).
    + mat_step.
      set (xt := make_material transparent_desc).
      set (t := fst (SparseStorage.push xt ms0)).
      set (ms2 := snd (SparseStorage.push xt ms0)).
      assert (Hl2 : (length ms2 <= S (length ms0))%nat) by apply push_length.
      assert (Hrep2 : represents ms2 t (Leaf Transparent) = true)
        by (apply (represents_push_leaf xt ms0); reflexivity).
      assert (Hnt : (t =? InvalidIndex) = false) by (apply push_not_invalid; lia).
      rewrite Hnt, Hn0. cbn [negb orb].
      destruct (F32.eq (pm_alpha m) F32.zero).
      * cbn [fst snd materials_ with_materials]. exact Hrep2.
      * mat_step. rewrite <- Hdef.
        apply (represents_push_mix (pm_alpha_texture m) (pm_alpha m) None t root0 ms2);
          auto. apply represents_push. exact Hrep0.
    + rewrite Z.eqb_refl. cbn [negb fst snd materials_ with_materials]. exact Hrep0.
Qed.

End MaterialFacts.

Lemma AddMaterial_principled_tree_witness :
  @represents ray_constants
    (materials_ (snd (@AddMaterial_principled ray_constants ray_externals
                        (principled_desc F32.one F32.half)
                        (Scene_new false false false))))
    (fst (@AddMaterial_principled ray_constants ray_externals
            (principled_desc F32.one F32.half) (Scene_new false false false)))
    (principled_tree (principled_desc F32.one F32.half)) = true.
Proof.
  apply (@AddMaterial_principled_tree ray_constants ray_externals
           (principled_desc F32.one F32.half) (Scene_new false false false)).
  - reflexivity.
  - reflexivity.
  - vm_compute. reflexivity.
Defined.

(** C6 as stated fails: for an alpha of zero the descriptor sets a non-unit
    alpha, yet the returned handle refers to a lone Transparent node and not
    to a Mix node over a Transparent node and the Principled node. *)
Lemma AddMaterial_principled_alpha_zero :
  let d := principled_desc F32.zero F32.zero in
  let r := @AddMaterial_principled ray_constants ray_externals d
             (Scene_new false false false) in
  sets_alpha d = true
  /\ @represents ray_constants (materials_ (snd r)) (fst r) (spec_principled_tree d)
     = false
  /\ @represents ray_constants (materials_ (snd r)) (fst r) (Leaf Transparent) = true.
Proof. vm_compute. repeat split. Qed.

(** ** The walk over material trees in [AddMesh] *)

Section WalkFacts.
Context `{Constants} `{Externals}.

Lemma walk_fuel_mono (mats : SparseStorage.t material_t) :
  forall (fuel : nat) (stack : list Z) (r : result bool),
    walk_materials fuel mats stack = r -> r <> Fail OutOfFuel ->
    forall k, walk_materials (fuel + k) mats stack = r.
Proof.
  induction fuel as [|fuel IH]; intros stack r Hw Hr k.
  - destruct stack as [|top rest]; simpl in Hw.
    + subst r. destruct (0 + k)%nat; reflexivity.
    + congruence.
  - destruct stack as [|top rest]; [exact Hw|].
    cbn [walk_materials Nat.add] in *.
    destruct (SparseStorage.get mats top) as [mat|]; [|exact Hw].
    destruct (type mat); try (apply IH; assumption); try exact Hw.
    destruct (length rest + 2 <=? 32)%nat; [apply IH; assumption|exact Hw].
Qed.

Lemma walk_tree (mats : SparseStorage.t material_t) (t : mat_tree) :
  forall (i : Z) (rest : list Z) (fuel : nat),
    represents mats i t = true ->
    (length rest + stack_need t <= 32)%nat ->
    walk_materials (tree_size t + fuel) mats (i :: rest)
    = if has_transparent t then Ok false else walk_materials fuel mats rest.
Proof.
  induction t as [ty|add l IHl r IHr]; intros i rest fuel Hrep Hneed.
  - cbn [represents] in Hrep. cbn [tree_size has_transparent walk_materials Nat.add].
    destruct (SparseStorage.get mats i) as [m|]; [|discriminate].
    apply andb_prop in Hrep as [Hmix Hty].
    destruct (type m), ty; try discriminate; reflexivity.
  - cbn [represents] in Hrep. cbn [tree_size has_transparent walk_materials Nat.add].
    cbn [stack_need] in Hneed.
    destruct (SparseStorage.get mats i) as [m|]; [|discriminate].
    apply andb_prop in Hrep as [Hrep Hr]. apply andb_prop in Hrep as [Hrep Hl].
    apply andb_prop in Hrep as [Hmix _].
    destruct (type m); try discriminate.
    assert (Hr1 : (1 <= stack_need r)%nat) by (destruct r; simpl; lia).
    destruct (Nat.leb_spec (length rest + 2) 32); [|lia].
    replace (tree_size l + tree_size r + fuel)%nat
      with (tree_size r + (tree_size l + fuel))%nat by lia.
    rewrite (IHr _ (tex_slot m MIX_MAT1 :: rest) _ Hr) by (simpl; lia).
    destruct (has_transparent r).
    + now rewrite orb_true_r.
    + rewrite orb_false_r. apply IHl; [exact Hl|lia].
Qed.

(** The walk ends for a root that denotes a finite tree whose traversal
    fits into the 32 entries of the stack, and it finds out whether the
    tree has a Transparent leaf. *)
Lemma is_solid_tree (mats : SparseStorage.t material_t) (root : Z) (t : mat_tree)
    (fuel : nat) :
  represents mats root t = true ->
  (stack_need t <= 32)%nat -> (tree_size t <= fuel)%nat ->
  is_solid fuel mats root = Ok (negb (has_transparent t)).
Proof.
  intros Hrep Hneed Hfuel. unfold is_solid.
  replace fuel with (tree_size t + (fuel - tree_size t))%nat by lia.
  rewrite (walk_tree mats t root [] _ Hrep) by (simpl; lia).
  destruct (has_transparent t); [reflexivity|].
  destruct (fuel - tree_size t)%nat; reflexivity.
Qed.

(** A walk that fails for another reason than the iteration bound has no
    answer for any bound. *)
Lemma walk_never_ok (mats : SparseStorage.t material_t) (root : Z) (f0 : nat)
    (why : failure) :
  walk_materials f0 mats [root] = Fail why -> why <> OutOfFuel ->
  forall (fuel : nat) (b : bool), is_solid fuel mats root <> Ok b.
Proof.
  intros Hf Hwhy fuel b Hb. unfold is_solid in Hb.
  destruct (Nat.le_ge_cases fuel f0) as [Hle|Hge].
  - pose proof (walk_fuel_mono mats fuel _ _ Hb ltac:(discriminate) (f0 - fuel)%nat)
      as Hm.
    replace (fuel + (f0 - fuel))%nat with f0 in Hm by lia. congruence.
  - pose proof (walk_fuel_mono mats f0 _ _ Hf ltac:(congruence) (fuel - f0)%nat)
      as Hm.
    replace (f0 + (fuel - f0))%nat with fuel in Hm by lia. congruence.
Qed.

Lemma init_shape_materials_front (fuel : nat) (mats : SparseStorage.t material_t)
    (sh : shape_desc_t) (l l' : list tri_mat_data_t) :
  init_shape_materials fuel mats sh l = Ok l' ->
  exists b, is_solid fuel mats (front_mat sh) = Ok b.
Proof.
  unfold init_shape_materials.
  destruct (is_solid fuel mats (front_mat sh)) as [b|why]; [eauto|discriminate].
Qed.

Lemma write_all_spec {A : Type} (x : A) :
  forall (idx : list Z) (l : list A),
    Forall (fun i => 0 <= i < Z.of_nat (length l)) idx ->
    exists l', write_all idx x l = Ok l'
               /\ length l' = length l
               /\ (forall i, In i idx -> l' !! Z.to_nat i = Some x)
               /\ (forall i : nat, ~ In (Z.of_nat i) idx -> l' !! i = l !! i).
Proof.
  induction idx as [|j idx IH]; intros l Hall.
  - exists l. simpl. repeat split; auto. intros i [].
  - inversion Hall as [|? ? Hj Hall']; subst.
    cbn [write_all]. unfold write_at.
    destruct (Z.leb_spec 0 j); [|lia].
    destruct (Z.ltb_spec j (Z.of_nat (length l))); [|lia].
    cbn [andb bind].
    destruct (IH (<[Z.to_nat j := x]> l)) as (l' & Hw & Hlen & Hin & Hout).
    { rewrite length_insert. exact Hall'. }
    exists l'. split; [exact Hw|]. rewrite length_insert in Hlen.
    split; [exact Hlen|]. split.
    + intros i [<-|Hi]; [|auto].
      destruct (in_dec Z.eq_dec j idx) as [Hjin|Hjout]; [auto|].
      rewrite <- (Z2Nat.id j) in Hjout by lia.
      rewrite (Hout _ Hjout). apply list_lookup_insert_eq. lia.
    + intros i Hi. rewrite Hout by (intros Hc; apply Hi; now right).
      apply list_lookup_insert_ne. intros E. apply Hi. left. lia.
Qed.

Lemma solid_bit_arith (x : Z) :
  0 <= x < 2 ^ 14 ->
  u16 x = x
  /\ Z.land x (2 ^ 14 - 1) = x
  /\ Z.land x (2 ^ 15) = 0
  /\ Z.land (Z.lor x (2 ^ 15)) (2 ^ 14 - 1) = x
  /\ Z.land (Z.lor x (2 ^ 15)) (2 ^ 15) = 2 ^ 15.
Proof.
  intros Hx.
  assert (Hm : Z.land x (2 ^ 14 - 1) = x).
  { change (2 ^ 14 - 1) with (Z.ones 14). rewrite Z.land_ones by lia.
    apply Z.mod_small. lia. }
  assert (Hz : Z.land x (2 ^ 15) = 0).
  { rewrite <- Hm, <- Z.land_assoc. change (Z.land (2 ^ 14 - 1) (2 ^ 15)) with 0.
    apply Z.land_0_r. }
  split; [unfold u16; apply Z.mod_small; lia|].
  split; [exact Hm|]. split; [exact Hz|]. split.
  - rewrite Z.land_lor_distr_l, Hm.
    change (Z.land (2 ^ 15) (2 ^ 14 - 1)) with 0. apply Z.lor_0_r.
  - rewrite Z.land_lor_distr_l, Hz. reflexivity.
Qed.

Lemma shape_tri_mat_ok (sh : shape_desc_t) (tf tb : mat_tree) :
  constants_ok = true ->
  0 <= front_mat sh < 2 ^ 14 -> 0 <= back_mat sh < 2 ^ 14 ->
  tri_mat_ok sh tf tb
    (shape_tri_mat sh (negb (has_transparent tf)) (negb (has_transparent tb))).
Proof.
  intros Hok Hf Hb.
  destruct (constants_ok_slots Hok) as (_ & _ & _ & _ & _ & Hbits & Hsolid & _).
  destruct (solid_bit_arith _ Hf) as (Ef1 & Ef2 & Ef3 & Ef4 & Ef5).
  destruct (solid_bit_arith _ Hb) as (Eb1 & Eb2 & Eb3 & Eb4 & Eb5).
  unfold tri_mat_ok, shape_tri_mat, lor_if. cbn [front_mi back_mi].
  rewrite Hbits, Hsolid, Ef1, Eb1.
  destruct (has_transparent tf), (has_transparent tb); cbn [negb]; auto.
Qed.

(** C7 (as the code has it).  For every shape whose front and back material
    roots denote finite material trees (every handle refers to a stored
    material) that the walk can resolve within its 32 stack entries, whose
    material indices are below 2^14 and whose triangles are inside the
    array of triangle-material records, the walk over both trees ends and
    the shape's iteration of [AddMesh] stores, in every record of the shape's
    index range and for each side, the material index with the SOLID_BIT
    cleared if and only if the tree of that side has a Transparent leaf (and
    set otherwise); the other records are not touched. *)
Theorem init_shape_materials_solid_bits :
  forall (fuel : nat) (mats : SparseStorage.t material_t) (sh : shape_desc_t)
         (l : list tri_mat_data_t) (tf tb : mat_tree),
    constants_ok = true ->
    represents mats (front_mat sh) tf = true ->
    represents mats (back_mat sh) tb = true ->
    (stack_need tf <= 32)%nat -> (stack_need tb <= 32)%nat ->
    (tree_size tf <= fuel)%nat -> (tree_size tb <= fuel)%nat ->
    0 <= front_mat sh < 2 ^ 14 -> 0 <= back_mat sh < 2 ^ 14 ->
    Forall (fun i => 0 <= i < Z.of_nat (length l)) (shape_tris sh) ->
    exists l', init_shape_materials fuel mats sh l = Ok l'
               /\ length l' = length l
               /\ (forall i, In i (shape_tris sh) ->
                     exists tm, l' !! Z.to_nat i = Some tm /\ tri_mat_ok sh tf tb tm)
               /\ (forall i : nat, ~ In (Z.of_nat i) (shape_tris sh) ->
                     l' !! i = l !! i).
Proof.
  intros fuel mats sh l tf tb Hok Hf Hb Hnf Hnb Hsf Hsb Hfi Hbi Hall.
  unfold init_shape_materials.
  rewrite (is_solid_tree mats _ tf fuel Hf Hnf Hsf).
  rewrite (is_solid_tree mats _ tb fuel Hb Hnb Hsb). cbn [bind].
  destruct (write_all_spec
              (shape_tri_mat sh (negb (has_transparent tf)) (negb (has_transparent tb)))
              (shape_tris sh) l Hall) as (l' & Hw & Hlen & Hin & Hout).
  exists l'. split; [exact Hw|]. split; [exact Hlen|]. split; [|exact Hout].
  intros i Hi. eexists. split; [apply Hin; exact Hi|].
  apply shape_tri_mat_ok; assumption.
Qed.

End WalkFacts.

Lemma init_shape_materials_solid_bits_witness :
  exists l',
    @init_shape_materials ray_constants 8 (materials_ glass_scene) glass_shape
      (replicate 2 tri_mat_zero) = Ok l'
    /\ length l' = length (replicate 2 tri_mat_zero)
    /\ (forall i, In i (shape_tris glass_shape) ->
          exists tm, l' !! Z.to_nat i = Some tm
                     /\ @tri_mat_ok ray_constants glass_shape
                          (MixT false (Leaf Transparent) (Leaf Diffuse))
                          (Leaf Diffuse) tm)
    /\ (forall i : nat, ~ In (Z.of_nat i) (shape_tris glass_shape) ->
          l' !! i = replicate 2 tri_mat_zero !! i).
Proof.
  apply (@init_shape_materials_solid_bits ray_constants 8 (materials_ glass_scene)
           glass_shape (replicate 2 tri_mat_zero)
           (MixT false (Leaf Transparent) (Leaf Diffuse)) (Leaf Diffuse)).
  - reflexivity.
  - vm_compute. reflexivity.
  - vm_compute. reflexivity.
  - simpl. lia.
  - simpl. lia.
  - simpl. lia.
  - simpl. lia.
  - simpl. lia.
  - simpl. lia.
  - vm_compute. repeat constructor; discriminate.
Defined.

Lemma deep_chain_walk_overflows :
  @walk_materials ray_constants 40 (materials_ (snd deep_chain)) [fst deep_chain]
  = Fail StackOverflow.
Proof. vm_compute. reflexivity. Qed.

(** C7 as stated fails: for a shape whose material is a chain of 32 nested
    Mix nodes (a finite tree, built from handles [AddMaterial] returned), the
    walk does not end with an answer, however many iterations it is given:
    it runs out of the 32 entries of its stack. *)
Lemma deep_chain_walk_fails :
  @represents ray_constants (materials_ (snd deep_chain)) (fst deep_chain)
    (chain_tree 32) = true
  /\ ~ (exists fuel l',
          @init_shape_materials ray_constants fuel (materials_ (snd deep_chain))
            deep_shape (replicate 1 tri_mat_zero) = Ok l').
Proof.
  split; [vm_compute; reflexivity|].
  intros (fuel & l' & E).
  apply (@init_shape_materials_front ray_constants) in E as [b Hb].
  exact (@walk_never_ok ray_constants _ _ 40 StackOverflow
           deep_chain_walk_overflows ltac:(discriminate) fuel b Hb).
Qed.

(** ** The TLAS rebuild *)

Section TLASFacts.
Context `{Constants} `{Externals}.

(** [RemoveNodes_nolock] removes nothing. *)
Lemma RemoveNodes_nolock_id (node_index node_count : Z) (s : Scene) :
  RemoveNodes_nolock node_index node_count s = s.
Proof. unfold RemoveNodes_nolock. destruct (node_count =? 0); reflexivity. Qed.

(** A rebuild only appends to the node array: whatever was in it before,
    the nodes of the previous TLAS included, is still there. *)
Lemma RebuildTLAS_appends (s s' : Scene) :
  RebuildTLAS_nolock s = Ok s' ->
  nodes_ s'
  = nodes_ s
    ++ map (offset_tlas_node (u32 (Z.of_nat (length (nodes_ s)))))
         (snd (fst (PreprocessPrims_SAH
                      (map instance_prim
                           (SparseStorage.elements (mesh_instances_ s)))))).
Proof.
  unfold RebuildTLAS_nolock. rewrite RemoveNodes_nolock_id.
  cbn [mesh_instances_ with_mi_indices nodes_].
  destruct (PreprocessPrims_SAH _) as [[count bvh_nodes] mi_indices].
  cbn [fst snd].
  destruct (read_at _ 0) as [root|why]; cbn [bind]; [|discriminate].
  intros E. injection E as <-. reflexivity.
Qed.

End TLASFacts.

(** C2 (the code at the failing input).  After the mesh of a scene was
    instanced twice, the node array holds the node of the BLAS, the TLAS
    node of the first rebuild and the TLAS node of the second rebuild: the
    second rebuild starts its TLAS at index 2 and leaves the previous TLAS
    node, which the first rebuild put at index 1, in the array. *)
Theorem RebuildTLAS_leaves_stale_nodes :
  exists s1 s2,
    instanced_once = Ok s1 /\ instanced_twice = Ok s2
    /\ macro_nodes_start_ s1 = 1 /\ macro_nodes_count_ s1 = 1
    /\ nodes_ s1 !! 1%nat = Some (tlas_root_node_ s1)
    /\ macro_nodes_start_ s2 = 2 /\ macro_nodes_count_ s2 = 1
    /\ length (nodes_ s2) = 3%nat
    /\ nodes_ s2 !! 1%nat = Some (tlas_root_node_ s1)
    /\ nodes_ s2 !! 2%nat = Some (tlas_root_node_ s2).
Proof.
  destruct instanced_once as [s1|] eqn:E1; [|vm_compute in E1; discriminate].
  destruct instanced_twice as [s2|] eqn:E2; [|vm_compute in E2; discriminate].
  exists s1, s2. vm_compute in E1. vm_compute in E2.
  injection E1 as <-. injection E2 as <-.
  vm_compute. repeat split.
Qed.

(** ** Buffer copies and resource states *)

Section BufferFacts.
Context `{Dx.LinearAlloc}.

(** [AllocSubRegion] records no command at all. *)
Lemma AllocSubRegion_records_nothing (this : nat) (req_size : Z)
    (init_buf : option nat) (init_off : Z) (w : Dx.world) :
  Dx.cmd_buf (snd (Dx.AllocSubRegion this req_size init_buf init_off w))
  = Dx.cmd_buf w.
Proof.
  unfold Dx.AllocSubRegion.
  destruct (Dx.Alloc _ req_size) as [alloc_off a].
  destruct (negb (alloc_off =? 0xffffffff)); [|reflexivity].
  destruct init_buf; reflexivity.
Qed.

Lemma set_state_same (id : nat) (st : Dx.eResState) (w : Dx.world) :
  Dx.resource_state (Dx.buffers (Dx.set_state id st w) id) = st.
Proof. unfold Dx.set_state. cbn [Dx.buffers]. now rewrite fn_lookup_insert. Qed.

Lemma set_state_other (id id' : nat) (st : Dx.eResState) (w : Dx.world) :
  id <> id' ->
  Dx.buffers (Dx.set_state id st w) id' = Dx.buffers w id'.
Proof.
  intros Hne. unfold Dx.set_state. cbn [Dx.buffers].
  now rewrite fn_lookup_insert_ne.
Qed.

Lemma record_barriers_cmd (bs : list Dx.barrier) (w : Dx.world) :
  Dx.cmd_buf (Dx.record_barriers bs w)
  = Dx.cmd_buf w ++ match bs with [] => [] | _ => [Dx.ResourceBarrier bs] end.
Proof. destruct bs; simpl; [now rewrite app_nil_r|reflexivity]. Qed.

(** [CopyBufferToBuffer] follows the protocol; the destination ends in
    [CopyDst] and a source that is another buffer ends in [CopySrc]. *)
Lemma CopyBufferToBuffer_protocol (src dst : nat) (src_offset dst_offset size : Z)
    (w : Dx.world) :
  let w' := Dx.CopyBufferToBuffer src src_offset dst dst_offset size w in
  copy_protocol src dst w w' (Dx.CopyBufferRegion dst dst_offset src src_offset size)
  /\ Dx.resource_state (Dx.buffers w' dst) = Dx.CopyDst
  /\ (src <> dst -> Dx.resource_state (Dx.buffers w' src) = Dx.CopySrc).
Proof.
  unfold Dx.CopyBufferToBuffer, copy_protocol. cbn zeta. split; [|split].
  - cbn [Dx.set_state Dx.cmd_buf Dx.record]. rewrite record_barriers_cmd.
    destruct (Dx.copy_barriers _ _ w); symmetry; apply List.app_assoc.
  - apply set_state_same.
  - intros Hne. rewrite set_state_other by congruence. apply set_state_same.
Qed.

(** So does [UpdateSubRegion]. *)
Lemma UpdateSubRegion_protocol (this init_buf : nat) (offset size init_off : Z)
    (w : Dx.world) :
  let w' := Dx.UpdateSubRegion this offset size init_buf init_off w in
  copy_protocol init_buf this w w'
    (Dx.CopyBufferRegion this offset init_buf init_off size)
  /\ Dx.resource_state (Dx.buffers w' this) = Dx.CopyDst
  /\ (init_buf <> this -> Dx.resource_state (Dx.buffers w' init_buf) = Dx.CopySrc).
Proof.
  unfold Dx.UpdateSubRegion, copy_protocol. cbn zeta. split; [|split].
  - cbn [Dx.set_state Dx.cmd_buf Dx.record]. rewrite record_barriers_cmd.
    destruct (Dx.copy_barriers _ _ w); symmetry; apply List.app_assoc.
  - apply set_state_same.
  - intros Hne. rewrite set_state_other by congruence. apply set_state_same.
Qed.

End BufferFacts.

(** C8 (the code at the failing input).  [AllocSubRegion] of 64 bytes in a
    storage buffer whose state is [Undefined], initialised from a read-back
    buffer whose state is [CopyDst], succeeds and sets the two state fields
    to [CopyDst] and [CopySrc], but the command list stays empty: no barrier
    is emitted for either buffer and no copy is recorded. *)
Theorem AllocSubRegion_no_barrier_no_copy :
  let r := @Dx.AllocSubRegion bump_alloc 0 64 (Some 1%nat) 0 fresh_world in
  Dx.resource_state (Dx.buffers fresh_world 0%nat) = Dx.Undefined
  /\ Dx.resource_state (Dx.buffers fresh_world 1%nat) = Dx.CopyDst
  /\ fst r = 0
  /\ Dx.cmd_buf (snd r) = []
  /\ Dx.resource_state (Dx.buffers (snd r) 0%nat) = Dx.CopyDst
  /\ Dx.resource_state (Dx.buffers (snd r) 1%nat) = Dx.CopySrc.
Proof. vm_compute. repeat split. Qed.

(** ** Triangle lights of mesh instances *)

Section StoreSetFacts.
Context {A : Type}.
Implicit Types (s : SparseStorage.t A) (x : A).

Lemma exists_get s i :
  SparseStorage.exists_ s i = true <-> exists y, SparseStorage.get s i = Some y.
Proof.
  unfold SparseStorage.exists_. destruct (SparseStorage.get s i) as [y|].
  - split; eauto.
  - split; [discriminate|]. intros [y Hy]. discriminate.
Qed.

Lemma get_Some_range s i y :
  SparseStorage.get s i = Some y ->
  0 <= i /\ s !! Z.to_nat i = Some (Some y).
Proof.
  rewrite get_spec. destruct (Z.ltb_spec i 0); [discriminate|].
  destruct (s !! Z.to_nat i) as [[z|]|]; simpl; try discriminate.
  intros E. injection E as ->. split; [lia|reflexivity].
Qed.

Lemma get_Set_same x s i :
  SparseStorage.exists_ s i = true ->
  SparseStorage.get (SparseStorage.Set_ i x s) i = Some x.
Proof.
  intros He. unfold SparseStorage.Set_. rewrite He.
  apply exists_get in He as [y Hy]. apply get_Some_range in Hy as [Hi Hl].
  rewrite get_spec. unfold SparseStorage.t in *.
  destruct (Z.ltb_spec i 0); [lia|].
  rewrite list_lookup_insert_eq; [reflexivity|].
  apply lookup_lt_Some in Hl. exact Hl.
Qed.

Lemma get_Set_other x s i j :
  i <> j ->
  SparseStorage.get (SparseStorage.Set_ i x s) j = SparseStorage.get s j.
Proof.
  intros Hne. unfold SparseStorage.Set_.
  destruct (SparseStorage.exists_ s i) eqn:He; [|reflexivity].
  apply exists_get in He as [y Hy]. apply get_Some_range in Hy as [Hi _].
  rewrite !get_spec. unfold SparseStorage.t in *.
  destruct (Z.ltb_spec j 0); [reflexivity|].
  rewrite list_lookup_insert_ne; [reflexivity|]. lia.
Qed.

Lemma exists_Set x s i j :
  SparseStorage.exists_ s j = true ->
  SparseStorage.exists_ (SparseStorage.Set_ i x s) j = true.
Proof.
  intros He. destruct (Z.eq_dec i j) as [->|Hne].
  - apply exists_get. exists x. now apply get_Set_same.
  - unfold SparseStorage.exists_ in *. now rewrite get_Set_other.
Qed.

Lemma exists_push x s i :
  SparseStorage.exists_ s i = true ->
  SparseStorage.exists_ (snd (SparseStorage.push x s)) i = true.
Proof.
  intros He. apply exists_get in He as [y Hy]. apply exists_get. exists y.
  now apply get_push_live.
Qed.

Lemma get_cons_succ (o : option A) s i :
  0 <= i -> SparseStorage.get (o :: s) (i + 1) = SparseStorage.get s i.
Proof.
  intros Hi. rewrite !get_spec.
  destruct (Z.ltb_spec (i + 1) 0); [lia|]. destruct (Z.ltb_spec i 0); [lia|].
  replace (Z.to_nat (i + 1)) with (S (Z.to_nat i)) by lia. reflexivity.
Qed.

Lemma count_live_zero (P : A -> bool) s :
  (forall i y, SparseStorage.get s i = Some y -> P y = false) ->
  count_live P s = 0%nat.
Proof.
  induction s as [|[y|] s IH]; intros Hall.
  - reflexivity.
  - rewrite count_live_cons_Some.
    rewrite (Hall 0 y) by reflexivity.
    rewrite IH; [reflexivity|].
    intros i z Hz. destruct (get_Some_range s i z Hz) as [Hi Hl].
    apply (Hall (i + 1) z). now rewrite get_cons_succ.
  - rewrite count_live_cons_None. apply IH.
    intros i z Hz. destruct (get_Some_range s i z Hz) as [Hi Hl].
    apply (Hall (i + 1) z). now rewrite get_cons_succ.
Qed.

Lemma count_live_zero_inv (P : A -> bool) s :
  count_live P s = 0%nat ->
  forall i y, SparseStorage.get s i = Some y -> P y = false.
Proof.
  induction s as [|[y|] s IH]; intros Hc i z Hz.
  - apply get_Some_range in Hz as [_ Hz]. destruct (Z.to_nat i); discriminate.
  - rewrite count_live_cons_Some in Hc.
    destruct (get_Some_range _ i z Hz) as [Hi Hl].
    destruct (Z.to_nat i) as [|n] eqn:En.
    + change (Some (Some y) = Some (Some z)) in Hl. injection Hl as <-.
      destruct (P y); [discriminate|reflexivity].
    + change (s !! n = Some (Some z)) in Hl.
      apply (IH ltac:(destruct (P y); simpl in Hc; lia) (Z.of_nat n)).
      rewrite get_nat. unfold SparseStorage.t in *. rewrite Hl. reflexivity.
  - rewrite count_live_cons_None in Hc.
    destruct (get_Some_range _ i z Hz) as [Hi Hl].
    destruct (Z.to_nat i) as [|n] eqn:En; [discriminate|].
    change (s !! n = Some (Some z)) in Hl.
    apply (IH Hc (Z.of_nat n)).
    rewrite get_nat. unfold SparseStorage.t in *. rewrite Hl. reflexivity.
Qed.

End StoreSetFacts.

Section PushAllFacts.

Lemma push_all_cons (x : light_t) (new : list light_t) (ls : SparseStorage.t light_t) :
  push_all (x :: new) ls = push_all new (snd (SparseStorage.push x ls)).
Proof. reflexivity. Qed.

Lemma push_all_count (P : light_t -> bool) (new : list light_t) :
  forall ls,
    count_live P (push_all new ls)
    = (count_live P ls + length (filter (fun l => P l = true) new))%nat.
Proof.
  induction new as [|l new IH]; intros ls.
  - change (push_all [] ls) with ls. rewrite filter_nil. simpl. lia.
  - rewrite push_all_cons, IH, count_live_push, filter_cons.
    destruct (P l) eqn:E.
    + rewrite decide_True by reflexivity. simpl. lia.
    + rewrite decide_False by congruence. lia.
Qed.

Lemma push_all_live (new : list light_t) :
  forall ls i l,
    SparseStorage.get ls i = Some l ->
    SparseStorage.get (push_all new ls) i = Some l.
Proof.
  induction new as [|x new IH]; intros ls i l Hl; [exact Hl|].
  rewrite push_all_cons. apply IH. now apply get_push_live.
Qed.

Lemma push_all_origin (new : list light_t) :
  forall ls i l,
    SparseStorage.get (push_all new ls) i = Some l ->
    SparseStorage.get ls i = Some l \/ In l new.
Proof.
  induction new as [|x new IH]; intros ls i l Hl; [now left|].
  rewrite push_all_cons in Hl.
  destruct (IH _ _ _ Hl) as [Hold|Hnew]; [|right; now right].
  destruct (Z.eq_dec i (fst (SparseStorage.push x ls))) as [->|Hne].
  - rewrite get_push_same in Hold. injection Hold as <-. right. now left.
  - rewrite get_push_other in Hold by exact Hne. now left.
Qed.

End PushAllFacts.

Section InstanceStep.
Context `{Constants} `{Externals}.

Lemma push_light_frame (l : light_t) (s : Scene) :
  same_static s (snd (push_light l s))
  /\ transforms_ (snd (push_light l s)) = transforms_ s
  /\ mesh_instances_ (snd (push_light l s)) = mesh_instances_ s.
Proof.
  unfold push_light, same_static.
  destruct (SparseStorage.push l (lights_ s)). repeat split.
Qed.

Lemma same_static_refl (s : Scene) : same_static s s.
Proof. repeat split. Qed.

Lemma same_static_trans (s1 s2 s3 : Scene) :
  same_static s1 s2 -> same_static s2 s3 -> same_static s1 s3.
Proof.
  unfold same_static. intros (A1 & A2 & A3) (B1 & B2 & B3).
  repeat split; congruence.
Qed.

Lemma tri_lights_static (s s1 : Scene) (xf : Z) (tris : list Z) :
  same_static s s1 ->
  omap (tri_light_of s1 xf) tris = omap (tri_light_of s xf) tris.
Proof.
  intros (Hm & Hc & _). unfold tri_light_of, front_material.
  rewrite Hm, Hc. reflexivity.
Qed.

Lemma front_material_static (s s1 : Scene) (tri : Z) :
  same_static s s1 -> front_material s1 tri = front_material s tri.
Proof.
  intros (Hm & Hc & _). unfold front_material. rewrite Hm, Hc. reflexivity.
Qed.

Lemma add_emissive_tri_spec (xf tri : Z) (s s' : Scene) :
  add_emissive_tri xf tri s = Ok s' ->
  same_static s s'
  /\ transforms_ s' = transforms_ s
  /\ mesh_instances_ s' = mesh_instances_ s
  /\ lights_ s'
     = push_all (match tri_light_of s xf tri with Some l => [l] | None => [] end)
         (lights_ s).
Proof.
  unfold add_emissive_tri, tri_light_of, front_material.
  destruct (read_at (tri_materials_cpu_ s) tri) as [tm|why]; cbn [bind];
    [|discriminate].
  destruct (SparseStorage.get (materials_ s) _) as [fm|]; [|discriminate].
  destruct (is_emissive_mi fm); intros E; injection E as <-.
  - destruct (push_light_frame (triangle_light tri xf fm) s) as (F1 & F2 & F3).
    repeat split; try apply F1; auto; try apply push_light_lights.
  - repeat split.
Qed.

Lemma push_all_app (a b : list light_t) (ls : SparseStorage.t light_t) :
  push_all (a ++ b) ls = push_all b (push_all a ls).
Proof. unfold push_all. apply fold_left_app. Qed.

Lemma add_emissive_tris_spec (xf : Z) (tris : list Z) :
  forall s s',
    add_emissive_tris xf tris s = Ok s' ->
    same_static s s'
    /\ transforms_ s' = transforms_ s
    /\ mesh_instances_ s' = mesh_instances_ s
    /\ lights_ s' = push_all (omap (tri_light_of s xf) tris) (lights_ s).
Proof.
  induction tris as [|tri tris IH]; intros s s' E.
  - injection E as <-. repeat split.
  - cbn [add_emissive_tris] in E.
    destruct (add_emissive_tri xf tri s) as [s1|why] eqn:E1; cbn [bind] in E;
      [|discriminate].
    destruct (add_emissive_tri_spec _ _ _ _ E1) as (S1 & T1 & M1 & L1).
    destruct (IH _ _ E) as (S2 & T2 & M2 & L2).
    split; [eapply same_static_trans; eassumption|].
    split; [congruence|]. split; [congruence|].
    rewrite L2, L1, (tri_lights_static s s1 xf tris S1), <- push_all_app.
    f_equal. cbn [omap list_omap].
    change (tri_light_of s xf tri) with (tri_light_of s xf tri).
    destruct (tri_light_of s xf tri); reflexivity.
Qed.

Lemma RebuildTLAS_frame (s s' : Scene) :
  RebuildTLAS_nolock s = Ok s' ->
  same_static s s'
  /\ lights_ s' = lights_ s
  /\ transforms_ s' = transforms_ s
  /\ mesh_instances_ s' = mesh_instances_ s.
Proof.
  unfold RebuildTLAS_nolock. rewrite RemoveNodes_nolock_id.
  destruct (PreprocessPrims_SAH _) as [[count bvh_nodes] mi_indices].
  destruct (read_at _ 0) as [root|why]; cbn [bind]; [|discriminate].
  intros E. injection E as <-. repeat split.
Qed.

Lemma SetMeshInstanceTransform_spec (h : Z) (xf : list float) (s s' : Scene) :
  SetMeshInstanceTransform_nolock h xf s = Ok s' ->
  exists mi mi',
    SparseStorage.get (mesh_instances_ s) h = Some mi
    /\ SparseStorage.get (mesh_instances_ s') h = Some mi'
    /\ tr_index mi' = tr_index mi /\ mesh_index mi' = mesh_index mi
    /\ (forall h0, h0 <> h ->
          SparseStorage.get (mesh_instances_ s') h0
          = SparseStorage.get (mesh_instances_ s) h0)
    /\ (forall i, SparseStorage.exists_ (transforms_ s) i = true ->
                  SparseStorage.exists_ (transforms_ s') i = true)
    /\ same_static s s' /\ lights_ s' = lights_ s.
Proof.
  unfold SetMeshInstanceTransform_nolock.
  destruct (SparseStorage.get (mesh_instances_ s) h) as [mi|] eqn:Emi; [|discriminate].
  destruct (SparseStorage.get (meshes_ s) (mesh_index mi)) as [m|]; [|discriminate].
  destruct (TransformBoundingBox _ _ xf) as [bmin bmax].
  intros E. destruct (RebuildTLAS_frame _ _ E) as (St & Li & Tr & Mi).
  cbn [lights_ transforms_ mesh_instances_ with_transforms with_mesh_instances] in *.
  exists mi. eexists. split; [reflexivity|]. split.
  { rewrite Mi. apply get_Set_same. apply exists_get. eauto. }
  split; [reflexivity|]. split; [reflexivity|]. split.
  { intros h0 Hne. rewrite Mi. apply get_Set_other. congruence. }
  split.
  { intros i Hi. rewrite Tr. now apply exists_Set. }
  split; [|exact Li].
  destruct St as (A & B & C). repeat split; assumption.
Qed.

(** One call of [AddMeshInstance]. *)
Lemma AddMeshInstance_step (mesh : Z) (xf : list float) (s : Scene) (h : Z) (s' : Scene) :
  AddMeshInstance mesh xf s = Ok (h, s') -> instance_step s mesh h s'.
Proof.
  unfold AddMeshInstance, instance_step.
  pose proof (push_fresh transform_zero (transforms_ s)) as Hfresh.
  pose proof (get_push_same transform_zero (transforms_ s)) as Hsame.
  pose proof (fun i => exists_push transform_zero (transforms_ s) i) as Hmono.
  destruct (SparseStorage.push transform_zero (transforms_ s)) as [tr trs].
  cbn [fst snd] in *.
  set (mi0 := {| mi_bbox_min := (F32.zero, F32.zero, F32.zero); tr_index := tr;
                 mi_bbox_max := (F32.zero, F32.zero, F32.zero); mesh_index := mesh |}).
  cbn [mesh_instances_ with_transforms].
  pose proof (get_push_same mi0 (mesh_instances_ s)) as Hmi.
  pose proof (fun h0 y => get_push_live mi0 (mesh_instances_ s) h0 y) as Hold.
  pose proof (push_fresh mi0 (mesh_instances_ s)) as Hfr.
  destruct (SparseStorage.push mi0 (mesh_instances_ s)) as [mi_index mis].
  cbn [fst snd meshes_ with_mesh_instances with_transforms] in *.
  destruct (SparseStorage.get (meshes_ s) mesh) as [m|] eqn:Em; [|discriminate].
  destruct (add_emissive_tris tr (mesh_tris m) _) as [s3|why] eqn:E3; cbn [bind];
    [|discriminate].
  destruct (SetMeshInstanceTransform_nolock mi_index xf s3) as [s4|why] eqn:E4;
    cbn [bind]; [|discriminate].
  intros E. injection E as <- <-.
  destruct (add_emissive_tris_spec _ _ _ _ E3) as (S3 & T3 & M3 & L3).
  destruct (SetMeshInstanceTransform_spec _ _ _ _ E4)
    as (mi & mi' & G1 & G2 & G3 & G4 & G5 & G6 & S4 & L4).
  cbn [lights_ transforms_ mesh_instances_ with_mesh_instances with_transforms] in *.
  rewrite M3, Hmi in G1. injection G1 as <-.
  split.
  { eapply same_static_trans; [|exact S4].
    destruct S3 as (A & B & C). repeat split; assumption. }
  split.
  { exists m. split; [reflexivity|]. rewrite L4, L3.
    unfold tri_light_of, front_material. reflexivity. }
  split; [exists mi'; auto|].
  split.
  { intros h0 y Hy. destruct (Z.eq_dec h0 mi_index) as [->|Hne].
    - exfalso. clear -Hy Hfr. congruence.
    - rewrite (G5 _ Hne), M3. now apply Hold. }
  split; [exact Hfresh|]. split.
  { intros i Hi. apply G6. rewrite T3. now apply Hmono. }
  apply G6. rewrite T3. apply exists_get. eauto.
Qed.

End InstanceStep.

Section TriangleLights.
Context `{Constants} `{Externals}.

Lemma tri_light_at_triangle_light (tri xf tri' xf' : Z) (fm : material_t) :
  tri_light_at tri xf (triangle_light tri' xf' fm) = (tri' =? tri) && (xf' =? xf).
Proof.
  unfold triangle_light. destruct (base_color fm) as [[c0 c1] c2]. reflexivity.
Qed.

Lemma is_tri_light_triangle_light (tri xf : Z) (fm : material_t) :
  is_tri_light (triangle_light tri xf fm) = true.
Proof.
  unfold triangle_light. destruct (base_color fm) as [[c0 c1] c2]. reflexivity.
Qed.

Lemma tri_light_at_is_tri (tri xf : Z) (l : light_t) :
  tri_light_at tri xf l = true -> is_tri_light l = true.
Proof. unfold tri_light_at. intros E. now apply andb_prop in E as [E _]. Qed.

Lemma omap_cons_tri (s : Scene) (xf tri : Z) (tris : list Z) :
  omap (tri_light_of s xf) (tri :: tris)
  = match tri_light_of s xf tri with
    | Some l => l :: omap (tri_light_of s xf) tris
    | None => omap (tri_light_of s xf) tris
    end.
Proof. reflexivity. Qed.

Lemma tri_light_of_cases (s : Scene) (t : Z) :
  (exists fm, front_material s t = Some fm /\ is_emissive_mi fm = true
              /\ forall xf, tri_light_of s xf t = Some (triangle_light t xf fm))
  \/ (forall xf, tri_light_of s xf t = None).
Proof.
  unfold tri_light_of. destruct (front_material s t) as [fm|]; [|now right].
  destruct (is_emissive_mi fm) eqn:Ee; [|now right].
  left. exists fm. repeat split; auto.
Qed.

Lemma In_new_lights (s : Scene) (xf : Z) (tris : list Z) (l : light_t) :
  In l (omap (tri_light_of s xf) tris) ->
  exists tri fm, In tri tris /\ front_material s tri = Some fm
                 /\ is_emissive_mi fm = true /\ l = triangle_light tri xf fm.
Proof.
  induction tris as [|t tris IH]; [intros []|].
  rewrite omap_cons_tri.
  destruct (tri_light_of_cases s t) as [(fm & Hf & He & Hs)|Hn].
  - rewrite Hs. intros [<-|Hin].
    + exists t, fm. repeat split; auto. now left.
    + destruct (IH Hin) as (tri & fm' & A & B & C & D).
      exists tri, fm'. repeat split; auto. now right.
  - rewrite Hn. intros Hin. destruct (IH Hin) as (tri & fm' & A & B & C & D).
    exists tri, fm'. repeat split; auto. now right.
Qed.

Lemma filter_length_all (P : light_t -> bool) (new : list light_t) :
  (forall l, In l new -> P l = true) ->
  length (filter (fun l => P l = true) new) = length new.
Proof.
  induction new as [|x new IH]; intros Hall; [reflexivity|].
  rewrite filter_cons, decide_True by (apply Hall; now left).
  simpl. f_equal. apply IH. intros l Hl. apply Hall. now right.
Qed.

Lemma filter_length_none (P : light_t -> bool) (new : list light_t) :
  (forall l, In l new -> P l = false) ->
  length (filter (fun l => P l = true) new) = 0%nat.
Proof.
  induction new as [|x new IH]; intros Hall; [reflexivity|].
  rewrite filter_cons, decide_False.
  - apply IH. intros l Hl. apply Hall. now right.
  - rewrite (Hall x) by now left. discriminate.
Qed.

Lemma new_lights_length (s : Scene) (xf xf' : Z) (tris : list Z) :
  length (omap (tri_light_of s xf) tris) = length (omap (tri_light_of s xf') tris).
Proof.
  induction tris as [|t tris IH]; [reflexivity|].
  rewrite !omap_cons_tri.
  destruct (tri_light_of_cases s t) as [(fm & Hf & He & Hs)|Hn].
  - rewrite !Hs. simpl. now f_equal.
  - rewrite !Hn. exact IH.
Qed.

Lemma new_lights_other_transform (s : Scene) (xf xf0 tri : Z) (tris : list Z) :
  xf0 <> xf ->
  length (filter (fun l => tri_light_at tri xf0 l = true)
            (omap (tri_light_of s xf) tris)) = 0%nat.
Proof.
  intros Hne. apply filter_length_none. intros l Hl.
  destruct (In_new_lights _ _ _ _ Hl) as (tri' & fm & _ & _ & _ & ->).
  rewrite tri_light_at_triangle_light.
  destruct (Z.eqb_spec xf xf0); [congruence|]. apply andb_false_r.
Qed.

Lemma new_lights_other_triangle (s : Scene) (xf tri : Z) (tris : list Z) :
  ~ In tri tris ->
  length (filter (fun l => tri_light_at tri xf l = true)
            (omap (tri_light_of s xf) tris)) = 0%nat.
Proof.
  intros Hnot. apply filter_length_none. intros l Hl.
  destruct (In_new_lights _ _ _ _ Hl) as (tri' & fm & Hin & _ & _ & ->).
  rewrite tri_light_at_triangle_light.
  destruct (Z.eqb_spec tri' tri); [subst; contradiction|reflexivity].
Qed.

Lemma new_lights_one (s : Scene) (xf tri : Z) (fm : material_t) (tris : list Z) :
  List.NoDup tris -> In tri tris ->
  front_material s tri = Some fm -> is_emissive_mi fm = true ->
  length (filter (fun l => tri_light_at tri xf l = true)
            (omap (tri_light_of s xf) tris)) = 1%nat.
Proof.
  intros Hnd. induction Hnd as [|t tris Hnot Hnd IH]; intros Hin Hf He; [destruct Hin|].
  rewrite omap_cons_tri.
  destruct (tri_light_of_cases s t) as [(fm' & Hf' & He' & Hs)|Hn].
  - rewrite Hs. rewrite filter_cons, tri_light_at_triangle_light.
    destruct (Z.eq_dec t tri) as [->|Hne].
    + rewrite !Z.eqb_refl, decide_True by reflexivity.
      simpl. f_equal. now apply new_lights_other_triangle.
    + destruct (Z.eqb_spec t tri); [contradiction|].
      rewrite decide_False by (simpl; discriminate).
      destruct Hin as [E|Hin]; [contradiction|]. now apply IH.
  - rewrite Hn. destruct Hin as [E|Hin]; [|now apply IH].
    subst t. unfold tri_light_of in Hn. specialize (Hn 0).
    rewrite Hf, He in Hn. discriminate.
Qed.

Lemma mesh_tris_NoDup (m : mesh_t) : List.NoDup (mesh_tris m).
Proof.
  unfold mesh_tris. apply Finite.Injective_map_NoDup.
  - intros a b E. lia.
  - apply List.seq_NoDup.
Qed.

Lemma emissive_count_static (s s1 : Scene) (mesh : Z) :
  same_static s s1 -> emissive_count s1 mesh = emissive_count s mesh.
Proof.
  intros Hs. unfold emissive_count.
  destruct Hs as (Hm & Hc & Hme). rewrite Hme.
  destruct (SparseStorage.get (meshes_ s) mesh); [|reflexivity].
  f_equal. apply tri_lights_static. repeat split; assumption.
Qed.

Lemma total_emissive_static (s s1 : Scene) (calls : list (Z * list float)) :
  same_static s s1 -> total_emissive s1 calls = total_emissive s calls.
Proof.
  intros Hs. induction calls as [|c calls IH]; [reflexivity|].
  simpl. now rewrite IH, (emissive_count_static s s1).
Qed.

Lemma not_exists_fresh {A : Type} (st : SparseStorage.t A) (i : Z) :
  SparseStorage.get st i = None -> SparseStorage.exists_ st i = true -> False.
Proof. unfold SparseStorage.exists_. intros ->. discriminate. Qed.

End TriangleLights.

Section TriangleLightsMain.
Context `{Constants} `{Externals}.

Lemma instance_step_live (s : Scene) (mesh h : Z) (s1 : Scene) :
  tri_lights_live s -> instance_step s mesh h s1 -> tri_lights_live s1.
Proof.
  intros Hlive (S1 & (m & Em & L1) & _ & _ & Hfresh & Hmono & Htr).
  intros i l tri xf Hl Hat. rewrite L1 in Hl.
  destruct (push_all_origin _ _ _ _ Hl) as [Hold|Hnew].
  - apply Hmono. eapply Hlive; eassumption.
  - destruct (In_new_lights _ _ _ _ Hnew) as (tri' & fm & _ & _ & _ & ->).
    rewrite tri_light_at_triangle_light in Hat.
    apply andb_prop in Hat as [_ Hx]. apply Z.eqb_eq in Hx. subst xf. exact Htr.
Qed.

(** No Triangle light of a scene refers to a transform that is not in use. *)
Lemma no_light_at_fresh (s : Scene) (tri xf : Z) :
  tri_lights_live s -> SparseStorage.get (transforms_ s) xf = None ->
  forall i l, SparseStorage.get (lights_ s) i = Some l -> tri_light_at tri xf l = false.
Proof.
  intros Hlive Hfresh i l Hl.
  destruct (tri_light_at tri xf l) eqn:Hat; [|reflexivity].
  exfalso. eapply not_exists_fresh; [exact Hfresh|]. eapply Hlive; eassumption.
Qed.

Lemma add_instances_spec (calls : list (Z * list float)) :
  forall (s : Scene) (handles : list Z) (s' : Scene),
    tri_lights_live s ->
    add_instances calls s = Ok (handles, s') ->
    same_static s s'
    /\ tri_lights_live s'
    /\ (forall i, SparseStorage.exists_ (transforms_ s) i = true ->
                  SparseStorage.exists_ (transforms_ s') i = true)
    /\ (forall h mi, SparseStorage.get (mesh_instances_ s) h = Some mi ->
                     SparseStorage.get (mesh_instances_ s') h = Some mi)
    /\ count_live is_tri_light (lights_ s')
       = (count_live is_tri_light (lights_ s) + total_emissive s calls)%nat
    /\ (forall tri xf,
          SparseStorage.exists_ (transforms_ s) xf = true ->
          count_live (tri_light_at tri xf) (lights_ s')
          = count_live (tri_light_at tri xf) (lights_ s)
          /\ forall i l, SparseStorage.get (lights_ s') i = Some l ->
                         tri_light_at tri xf l = true ->
                         exists i', SparseStorage.get (lights_ s) i' = Some l)
    /\ Forall2 (fun c h => instance_lights_ok s' (fst c) h) calls handles.
Proof.
  induction calls as [|[mesh xf] calls IH]; intros s handles s' Hlive E.
  - injection E as <- <-. split; [apply same_static_refl|].
    split; [exact Hlive|]. split; [auto|]. split; [auto|].
    split; [simpl; lia|]. split; [|constructor].
    intros tri xf0 _. split; [reflexivity|]. eauto.
  - cbn [add_instances] in E.
    destruct (AddMeshInstance mesh xf s) as [[h s1]|why] eqn:E1; cbn [bind] in E;
      [|discriminate].
    cbn [snd fst] in E.
    destruct (add_instances calls s1) as [[handles' s2]|why] eqn:E2; cbn [bind] in E;
      [|discriminate].
    injection E as <- <-.
    pose proof (AddMeshInstance_step _ _ _ _ _ E1) as Hstep.
    pose proof (instance_step_live _ _ _ _ Hlive Hstep) as Hlive1.
    destruct Hstep as (S1 & (m & Em & L1) & (mi & Gmi & Gtr & Gmesh) & Hold1
                       & Hfresh & Hmono1 & Htr).
    set (tr := fst (SparseStorage.push transform_zero (transforms_ s))) in *.
    destruct (IH _ _ _ Hlive1 E2) as (S2 & Live2 & Mono2 & Old2 & Cnt2 & At2 & F2).
    pose proof (same_static_trans _ _ _ S1 S2) as S12.
    split; [exact S12|]. split; [exact Live2|]. split; [auto|]. split; [auto|].
    split.
    { rewrite Cnt2, L1, push_all_count, (total_emissive_static s s1 calls S1).
      rewrite filter_length_all.
      - change (total_emissive s ((mesh, xf) :: calls))
          with (emissive_count s mesh + total_emissive s calls)%nat.
        unfold emissive_count at 1. rewrite Em.
        rewrite (new_lights_length s tr 0). lia.
      - intros l Hl. destruct (In_new_lights _ _ _ _ Hl) as (t & fm & _ & _ & _ & ->).
        apply is_tri_light_triangle_light. }
    split.
    { intros tri xf0 Hx0.
      destruct (At2 tri xf0 (Hmono1 _ Hx0)) as [C2 O2].
      assert (Hne : xf0 <> tr).
      { intros ->. eapply not_exists_fresh; eassumption. }
      split.
      - rewrite C2, L1, push_all_count, new_lights_other_transform by exact Hne. lia.
      - intros i l Hl Hat. destruct (O2 _ _ Hl Hat) as [i' Hl'].
        rewrite L1 in Hl'. destruct (push_all_origin _ _ _ _ Hl') as [Ho|Hn]; [eauto|].
        destruct (In_new_lights _ _ _ _ Hn) as (t & fm & _ & _ & _ & ->).
        rewrite tri_light_at_triangle_light in Hat.
        apply andb_prop in Hat as [_ Hx]. apply Z.eqb_eq in Hx. congruence. }
    constructor; [|exact F2].
    cbn [fst]. exists mi, m.
    split; [now apply Old2|]. split; [exact Gmesh|].
    destruct S12 as (Hm2 & Hc2 & Hme2).
    split; [now rewrite Hme2|].
    intros tri fm Hin Hfm Hem.
    rewrite (front_material_static s s2 tri) in Hfm by (repeat split; assumption).
    rewrite Gtr.
    destruct (At2 tri tr Htr) as [C2 O2].
    split.
    + rewrite C2, L1, push_all_count.
      rewrite (count_live_zero _ _ (no_light_at_fresh s tri tr Hlive Hfresh)).
      rewrite (new_lights_one s tr tri fm); auto. apply mesh_tris_NoDup.
    + intros i l Hl Hat. destruct (O2 _ _ Hl Hat) as [i' Hl'].
      rewrite L1 in Hl'. destruct (push_all_origin _ _ _ _ Hl') as [Ho|Hn].
      * rewrite (no_light_at_fresh s tri tr Hlive Hfresh _ _ Ho) in Hat. discriminate.
      * destruct (In_new_lights _ _ _ _ Hn) as (t & fm' & _ & Hf' & _ & ->).
        rewrite tri_light_at_triangle_light in Hat.
        apply andb_prop in Hat as [Ht _]. apply Z.eqb_eq in Ht. subst t.
        congruence.
Qed.

(** C1 (as the code has it).  After every sequence of [AddMeshInstance]
    calls on a scene without Triangle lights, the number of Triangle lights
    equals the number of instanced triangles whose front material itself
    (the node the triangle-material record refers to) is an Emissive node
    with the MULT_IMPORTANCE flag, summed over the instances; and for each
    instance and each such triangle of its mesh, exactly one Triangle light
    points to the triangle with the transform index of the instance, its
    colour being [base_color * strength] of the front material. *)
Theorem AddMeshInstance_triangle_lights :
  forall (calls : list (Z * list float)) (s0 : Scene) (handles : list Z) (s : Scene),
    count_live is_tri_light (lights_ s0) = 0%nat ->
    add_instances calls s0 = Ok (handles, s) ->
    count_live is_tri_light (lights_ s) = total_emissive s0 calls
    /\ Forall2 (fun c h => instance_lights_ok s (fst c) h) calls handles.
Proof.
  intros calls s0 handles s Hzero E.
  assert (Hlive : tri_lights_live s0).
  { intros i l tri xf Hl Hat. apply tri_light_at_is_tri in Hat.
    rewrite (count_live_zero_inv _ _ Hzero _ _ Hl) in Hat. discriminate. }
  destruct (add_instances_spec calls s0 handles s Hlive E)
    as (_ & _ & _ & _ & Cnt & _ & F).
  split; [|exact F]. rewrite Cnt, Hzero. reflexivity.
Qed.

End TriangleLightsMain.

Lemma AddMeshInstance_triangle_lights_witness :
  count_live is_tri_light (lights_ (snd emissive_twice))
  = @total_emissive ray_constants (scene_of (emissive_scene 0)) two_calls
  /\ Forall2 (fun c h => @instance_lights_ok ray_constants (snd emissive_twice) (fst c) h)
       two_calls (fst emissive_twice).
Proof.
  apply (@AddMeshInstance_triangle_lights ray_constants ray_externals two_calls
           (scene_of (emissive_scene 0)) (fst emissive_twice) (snd emissive_twice)).
  - vm_compute. reflexivity.
  - vm_compute. reflexivity.
Defined.

(** Two instances of a mesh with two emissive triangles: four lights. *)
Example emissive_twice_lights :
  count_live is_tri_light (lights_ (snd emissive_twice)) = 4%nat
  /\ li_indices_ (snd emissive_twice) = [0; 1; 2; 3].
Proof. vm_compute. split; reflexivity. Qed.

(** C1 as stated fails: the triangles of the instanced mesh have a Mix node
    as front material whose tree contains an Emissive node with
    MULT_IMPORTANCE, and yet the light table holds no Triangle light after
    the mesh was instanced. *)
Lemma mixed_emissive_no_light :
  @add_instances ray_constants ray_externals [(0, unit_xform)]
    (scene_of (emissive_scene 2)) = Ok mixed_once
  /\ (exists tm, read_at (tri_materials_cpu_ (snd mixed_once)) 0 = Ok tm
                 /\ @contains_emissive_mi ray_constants 4 (materials_ (snd mixed_once))
                      (Z.land (front_mi tm) (@MATERIAL_INDEX_BITS ray_constants))
                    = true)
  /\ count_live is_tri_light (lights_ (snd mixed_once)) = 0%nat.
Proof.
  split; [vm_compute; reflexivity|]. split; [|vm_compute; reflexivity].
  exists {| front_mi := 32770; back_mi := 32770 |}.
  split; vm_compute; reflexivity.
Qed.

(** ** binary32 addition of luminances *)

Section FloatFacts.

Local Open Scope Z_scope.

Lemma fexp_eq (e : Z) : fexp F32.prec F32.emax e = Z.max (e - 24) (-149).
Proof. reflexivity. Qed.

Lemma fexp_mono (a b : Z) :
  a <= b -> fexp F32.prec F32.emax a <= fexp F32.prec F32.emax b.
Proof. rewrite !fexp_eq. lia. Qed.

Lemma fexp_ge_emin (a : Z) : -149 <= fexp F32.prec F32.emax a.
Proof. rewrite fexp_eq. lia. Qed.

(** The number of binary digits. *)
Lemma digits2_pos_spec (m : positive) :
  2 ^ (Zpos (digits2_pos m) - 1) <= Zpos m < 2 ^ Zpos (digits2_pos m).
Proof.
  induction m as [m IH|m IH|]; cbn [digits2_pos].
  - rewrite Pos2Z.inj_succ.
    replace (Z.succ (Zpos (digits2_pos m)) - 1) with (Z.succ (Zpos (digits2_pos m) - 1))
      by lia.
    rewrite !Z.pow_succ_r by lia. lia.
  - rewrite Pos2Z.inj_succ.
    replace (Z.succ (Zpos (digits2_pos m)) - 1) with (Z.succ (Zpos (digits2_pos m) - 1))
      by lia.
    rewrite !Z.pow_succ_r by lia. lia.
  - simpl. lia.
Qed.

Lemma Zdigits2_spec (z : Z) :
  0 < z -> 1 <= Zdigits2 z /\ 2 ^ (Zdigits2 z - 1) <= z < 2 ^ Zdigits2 z.
Proof.
  intros Hz. destruct z as [|p|p]; try lia.
  cbn [Zdigits2]. split; [lia|apply digits2_pos_spec].
Qed.

Lemma Zdigits2_unique (z k : Z) :
  2 ^ (k - 1) <= z < 2 ^ k -> 1 <= k -> Zdigits2 z = k.
Proof.
  intros [Hlo Hhi] Hk.
  assert (Hz : 0 < z).
  { pose proof (Z.pow_pos_nonneg 2 (k - 1)). lia. }
  destruct (Zdigits2_spec z Hz) as (Hd & Hdlo & Hdhi).
  destruct (Z.lt_trichotomy (Zdigits2 z) k) as [Hlt|[Heq|Hgt]]; [|exact Heq|].
  - assert (2 ^ Zdigits2 z <= 2 ^ (k - 1)) by (apply Z.pow_le_mono_r; lia). lia.
  - assert (2 ^ k <= 2 ^ (Zdigits2 z - 1)) by (apply Z.pow_le_mono_r; lia). lia.
Qed.

Lemma Zdigits2_mono (a b : Z) : 0 < a -> a <= b -> Zdigits2 a <= Zdigits2 b.
Proof.
  intros Ha Hab.
  destruct (Zdigits2_spec a Ha) as (Hda & Halo & Hahi).
  destruct (Zdigits2_spec b ltac:(lia)) as (Hdb & Hblo & Hbhi).
  destruct (Z.le_gt_cases (Zdigits2 a) (Zdigits2 b)) as [|Hgt]; [assumption|].
  assert (2 ^ Zdigits2 b <= 2 ^ (Zdigits2 a - 1)) by (apply Z.pow_le_mono_r; lia).
  lia.
Qed.

Lemma Zdigits2_mul_pow2 (z k : Z) :
  0 < z -> 0 <= k -> Zdigits2 (z * 2 ^ k) = Zdigits2 z + k.
Proof.
  intros Hz Hk. destruct (Zdigits2_spec z Hz) as (Hd & Hlo & Hhi).
  pose proof (Z.pow_pos_nonneg 2 k ltac:(lia) Hk) as Hp.
  apply Zdigits2_unique; [|lia].
  replace (Zdigits2 z + k - 1) with ((Zdigits2 z - 1) + k) by lia.
  rewrite !Z.pow_add_r by lia. split; nia.
Qed.

Lemma Zdigits2_div_pow2 (z k : Z) :
  0 < z -> 0 <= k < Zdigits2 z ->
  0 < z / 2 ^ k /\ Zdigits2 (z / 2 ^ k) = Zdigits2 z - k.
Proof.
  intros Hz Hk. destruct (Zdigits2_spec z Hz) as (Hd & Hlo & Hhi).
  pose proof (Z.pow_pos_nonneg 2 k ltac:(lia) ltac:(lia)) as Hp.
  assert (Hsplit : 2 ^ (Zdigits2 z - 1) = 2 ^ (Zdigits2 z - k - 1) * 2 ^ k).
  { rewrite <- Z.pow_add_r by lia. f_equal. lia. }
  assert (Hsplit' : 2 ^ Zdigits2 z = 2 ^ (Zdigits2 z - k) * 2 ^ k).
  { rewrite <- Z.pow_add_r by lia. f_equal. lia. }
  assert (Hq : 2 ^ (Zdigits2 z - k - 1) <= z / 2 ^ k < 2 ^ (Zdigits2 z - k)).
  { split.
    - apply Z.div_le_lower_bound; [lia|]. rewrite Z.mul_comm. lia.
    - apply Z.div_lt_upper_bound; [lia|]. rewrite Z.mul_comm. lia. }
  pose proof (Z.pow_pos_nonneg 2 (Zdigits2 z - k - 1) ltac:(lia) ltac:(lia)).
  split; [lia|]. apply Zdigits2_unique; [|lia].
  replace (Zdigits2 z - k - 1) with (Zdigits2 z - k - 1) by lia. exact Hq.
Qed.

Lemma Zdigits2_succ (z : Z) : 0 < z -> Zdigits2 (z + 1) <= Zdigits2 z + 1.
Proof.
  intros Hz. destruct (Zdigits2_spec z Hz) as (Hd & Hlo & Hhi).
  destruct (Zdigits2_spec (z + 1) ltac:(lia)) as (Hd' & Hlo' & Hhi').
  destruct (Z.le_gt_cases (Zdigits2 (z + 1)) (Zdigits2 z + 1)) as [|Hgt]; [assumption|].
  assert (2 ^ (Zdigits2 z + 1) <= 2 ^ (Zdigits2 (z + 1) - 1))
    by (apply Z.pow_le_mono_r; lia).
  rewrite Z.pow_add_r in * by lia. lia.
Qed.

(** Shifts. *)
Lemma iter_xO_spec (m d : positive) :
  Zpos (Pos.iter xO m d) = Zpos m * 2 ^ Zpos d.
Proof.
  induction d as [|d IH] using Pos.peano_ind.
  - simpl. lia.
  - rewrite Pos.iter_succ, Pos2Z.inj_xO, IH, Pos2Z.inj_succ, Z.pow_succ_r by lia. lia.
Qed.

Lemma shl_align_spec (mx : positive) (ex ex' : Z) :
  let r := shl_align mx ex ex' in
  Zpos (fst r) = Zpos mx * 2 ^ (ex - snd r)
  /\ snd r = Z.min ex ex'.
Proof.
  unfold shl_align. destruct (ex' - ex) as [|d|d] eqn:Ed; cbn [fst snd].
  - split; [|lia]. rewrite Z.sub_diag. simpl. lia.
  - split; [|lia]. rewrite Z.sub_diag. simpl. lia.
  - split; [|lia]. rewrite iter_xO_spec. f_equal. f_equal. lia.
Qed.

Lemma shr_1_spec (r : shr_record) :
  0 <= shr_m r -> shr_m (shr_1 r) = shr_m r / 2.
Proof.
  destruct r as [m b s]. cbn [shr_m]. intros Hm. unfold shr_1.
  destruct m as [|[p|p|]|p]; cbn [shr_m]; try lia; try reflexivity.
  - apply Z.div_unique with 1; lia.
  - apply Z.div_unique with 0; lia.
Qed.

Lemma pow2_xI (p : positive) : 2 ^ Zpos p~1 = 2 * (2 ^ Zpos p * 2 ^ Zpos p).
Proof.
  replace (Zpos p~1) with (1 + Zpos p + Zpos p) by lia.
  rewrite !Z.pow_add_r by lia. change (2 ^ 1) with 2. ring.
Qed.

Lemma pow2_xO (p : positive) : 2 ^ Zpos p~0 = 2 ^ Zpos p * 2 ^ Zpos p.
Proof.
  replace (Zpos p~0) with (Zpos p + Zpos p) by lia.
  rewrite !Z.pow_add_r by lia. ring.
Qed.

Lemma iter_shr_1_spec (p : positive) :
  forall r, 0 <= shr_m r ->
            shr_m (SpecFloat.iter_pos shr_1 p r) = shr_m r / 2 ^ Zpos p.
Proof.
  induction p as [p IH|p IH|]; intros r Hr; cbn [SpecFloat.iter_pos].
  - pose proof (Z.pow_pos_nonneg 2 (Zpos p) ltac:(lia) ltac:(lia)) as Hp.
    assert (H1 : 0 <= shr_m (shr_1 r)).
    { rewrite shr_1_spec by assumption. apply Z.div_pos; lia. }
    assert (H2 : 0 <= shr_m (SpecFloat.iter_pos shr_1 p (shr_1 r))).
    { rewrite IH by assumption. apply Z.div_pos; lia. }
    rewrite IH, IH, shr_1_spec by assumption.
    rewrite !Z.div_div by lia.
    f_equal. rewrite pow2_xI. ring.
  - pose proof (Z.pow_pos_nonneg 2 (Zpos p) ltac:(lia) ltac:(lia)) as Hp.
    assert (H2 : 0 <= shr_m (SpecFloat.iter_pos shr_1 p r)).
    { rewrite IH by assumption. apply Z.div_pos; lia. }
    rewrite IH, IH by assumption.
    rewrite !Z.div_div by lia.
    f_equal. rewrite pow2_xO. ring.
  - rewrite shr_1_spec by assumption. reflexivity.
Qed.

Lemma shr_spec (r : shr_record) (e n : Z) :
  0 <= shr_m r ->
  shr_m (fst (shr r e n)) = shr_m r / 2 ^ Z.max 0 n
  /\ snd (shr r e n) = e + Z.max 0 n.
Proof.
  intros Hr. unfold shr. destruct n as [|p|p]; cbn [fst snd].
  - simpl. rewrite Z.div_1_r. lia.
  - rewrite iter_shr_1_spec by assumption. split; [f_equal; f_equal; lia|lia].
  - simpl. rewrite Z.div_1_r. lia.
Qed.

Lemma shr_fexp_spec (m e : Z) (l : location) :
  0 <= m ->
  let n := Z.max 0 (fexp F32.prec F32.emax (Zdigits2 m + e) - e) in
  shr_m (fst (shr_fexp F32.prec F32.emax m e l)) = m / 2 ^ n
  /\ snd (shr_fexp F32.prec F32.emax m e l) = e + n.
Proof.
  intros Hm. unfold shr_fexp.
  assert (Hrec : shr_m (shr_record_of_loc m l) = m)
    by (destruct l as [|[| |]]; reflexivity).
  pose proof (shr_spec (shr_record_of_loc m l) e
                (fexp F32.prec F32.emax (Zdigits2 m + e) - e)) as Hs.
  rewrite Hrec in Hs. apply Hs. exact Hm.
Qed.

Lemma round_nearest_even_bounds (m : Z) (l : location) :
  m <= round_nearest_even m l <= m + 1.
Proof.
  unfold round_nearest_even. destruct l as [|[| |]]; try lia.
  destruct (Z.even m); lia.
Qed.

Lemma div_pow2_lt (m a k : Z) :
  0 <= k -> 0 <= a -> 0 <= m < 2 ^ (a + k) -> m / 2 ^ k < 2 ^ a.
Proof.
  intros Hk Ha Hm. pose proof (Z.pow_pos_nonneg 2 k ltac:(lia) Hk).
  apply Z.div_lt_upper_bound; [lia|]. rewrite <- Z.pow_add_r by lia.
  replace (k + a) with (a + k) by lia. lia.
Qed.

Lemma Zdigits2_le (z k : Z) : 0 <= k -> 0 <= z < 2 ^ k -> Zdigits2 z <= k.
Proof.
  intros Hk Hz. destruct (Z.eq_dec z 0) as [->|Hnz]; [simpl; lia|].
  destruct (Zdigits2_spec z ltac:(lia)) as (Hd & Hlo & Hhi).
  destruct (Z.le_gt_cases (Zdigits2 z) k) as [|Hgt]; [assumption|].
  assert (2 ^ k <= 2 ^ (Zdigits2 z - 1)) by (apply Z.pow_le_mono_r; lia). lia.
Qed.

Lemma bra_spec (M : positive) (E : Z) :
  E <= fexp F32.prec F32.emax (Zdigits2 (Zpos M) + E) ->
  let e1 := fexp F32.prec F32.emax (Zdigits2 (Zpos M) + E) in
  let r := binary_round_aux F32.prec F32.emax false (Zpos M) E loc_Exact in
  nonneg r = true
  /\ forall ea ma, -149 <= ea <= e1 -> 0 < ma ->
       (ea = e1 -> ma <= Zpos M / 2 ^ (e1 - E)) -> lex_le ea ma r.
Proof.
  intros HE e1 r. subst r. unfold binary_round_aux.
  pose proof (shr_fexp_spec (Zpos M) E loc_Exact ltac:(lia)) as Hs.
  cbv zeta in Hs. destruct Hs as [Hm1 He1]. change (fexp F32.prec F32.emax (Zdigits2 (Z.pos M) + E)) with e1 in Hm1, He1.
  rewrite Z.max_r in Hm1, He1 by lia.
  destruct (shr_fexp F32.prec F32.emax (Zpos M) E loc_Exact) as [mrs' e'].
  cbn [fst snd] in Hm1, He1.
  assert (He : e' = e1) by lia. clear He1. subst e'.
  pose proof (round_nearest_even_bounds (shr_m mrs') (loc_of_shr_record mrs')) as Hm2.
  set (m2 := round_nearest_even (shr_m mrs') (loc_of_shr_record mrs')) in *.
  rewrite Hm1 in Hm2. clear Hm1.
  set (k := e1 - E) in *. set (m1 := Zpos M / 2 ^ k) in *.
  pose proof (fexp_eq (Zdigits2 (Zpos M) + E)) as He1.
  change (fexp F32.prec F32.emax (Zdigits2 (Z.pos M) + E)) with e1 in He1.
  destruct (Zdigits2_spec (Zpos M) ltac:(lia)) as (HdM & HMlo & HMhi).
  pose proof (Z.pow_pos_nonneg 2 k ltac:(lia) ltac:(lia)) as Hpk.
  assert (Hm1 : 0 <= m1 < 2 ^ 24 /\ (-149 < e1 -> 2 ^ 23 <= m1)).
  { split; [split|].
    - apply Z.div_pos; lia.
    - apply div_pow2_lt; try lia. split; [lia|].
      eapply Z.lt_le_trans; [exact HMhi|]. apply Z.pow_le_mono_r; lia.
    - intros Hnorm.
      destruct (Zdigits2_div_pow2 (Zpos M) k ltac:(lia) ltac:(lia)) as [Hpos Hdig].
      fold m1 in Hpos, Hdig.
      destruct (Zdigits2_spec m1 Hpos) as (_ & Hlo & _).
      replace (Zdigits2 m1 - 1) with 23 in Hlo by lia. exact Hlo. }
  destruct Hm1 as [Hm1 Hnorm].
  change (2 ^ 24) with 16777216 in *. change (2 ^ 23) with 8388608 in *.
  pose proof (shr_fexp_spec m2 e1 loc_Exact ltac:(lia)) as Hs.
  cbv zeta in Hs. destruct Hs as [Hm3 He3].
  destruct (shr_fexp F32.prec F32.emax m2 e1 loc_Exact) as [mrs'' e''].
  cbn [fst snd] in Hm3, He3.
  pose proof (fexp_eq (Zdigits2 m2 + e1)) as Hf2.
  destruct (Z.eq_dec m2 16777216) as [Htop|Hlow].
  - rewrite Htop in *. change (Zdigits2 16777216) with 25 in *.
    rewrite Hf2 in Hm3, He3.
    replace (Z.max 0 (Z.max (25 + e1 - 24) (-149) - e1)) with 1 in Hm3, He3 by lia.
    change (16777216 / 2 ^ 1) with 8388608 in Hm3. rewrite Hm3.
    destruct (e'' <=? F32.emax - F32.prec) eqn:Hov.
    + split.
      * cbn [nonneg negb andb]. unfold canonical_mantissa.
        change (Zpos (digits2_pos 8388608)) with 24.
        apply Z.eqb_eq. rewrite fexp_eq. lia.
      * intros ea ma Hea Hma Hle. cbn [lex_le]. lia.
    + split; [reflexivity|]. intros; exact I.
  - assert (Hd2 : Zdigits2 m2 <= 24) by (apply Zdigits2_le; [lia|]; change (2 ^ 24) with 16777216; lia).
    assert (Hfix : Z.max 0 (fexp F32.prec F32.emax (Zdigits2 m2 + e1) - e1) = 0).
    { rewrite Hf2. lia. }
    rewrite Hfix in Hm3, He3. change (2 ^ 0) with 1 in Hm3. rewrite Z.div_1_r in Hm3.
    rewrite Hm3. assert (He : e'' = e1) by lia. clear He3. subst e''.
    destruct m2 as [|p|p] eqn:Ep; [| |lia].
    + split; [reflexivity|]. intros ea ma Hea Hma Hle. cbn [lex_le]. lia.
    + destruct (e1 <=? F32.emax - F32.prec) eqn:Hov.
      * split.
        -- cbn [nonneg negb andb]. unfold canonical_mantissa.
           apply Z.eqb_eq. change (Zpos (digits2_pos p)) with (Zdigits2 (Zpos p)).
           rewrite Hf2.
           destruct (Z.eq_dec e1 (-149)) as [Hsub|Hn]; [lia|].
           assert (Zdigits2 (Zpos p) = 24).
           { apply Zdigits2_unique; [|lia]. change (2 ^ (24 - 1)) with 8388608.
             change (2 ^ 24) with 16777216. lia. }
           lia.
        -- intros ea ma Hea Hma Hle. cbn [lex_le]. lia.
      * split; [reflexivity|]. intros; exact I.
Qed.

Lemma SFleb_finite (m1 m2 : positive) (e1 e2 : Z) :
  SFleb (S754_finite false m1 e1) (S754_finite false m2 e2) = true
  <-> e1 < e2 \/ (e1 = e2 /\ Zpos m1 <= Zpos m2).
Proof.
  unfold SFleb, SFcompare.
  change (PosDef.Pos.compare_cont Eq m1 m2) with (Pos.compare m1 m2).
  destruct (Z.compare_spec e1 e2); [|intuition lia|intuition (lia || discriminate)].
  destruct (Pos.compare_spec m1 m2); intuition (lia || discriminate).
Qed.

Lemma SFltb_finite (m1 m2 : positive) (e1 e2 : Z) :
  SFltb (S754_finite false m1 e1) (S754_finite false m2 e2) = true
  <-> e1 < e2 \/ (e1 = e2 /\ Zpos m1 < Zpos m2).
Proof.
  unfold SFltb, SFcompare.
  change (PosDef.Pos.compare_cont Eq m1 m2) with (Pos.compare m1 m2).
  destruct (Z.compare_spec e1 e2); [|intuition lia|intuition (lia || discriminate)].
  destruct (Pos.compare_spec m1 m2); intuition (lia || discriminate).
Qed.

Lemma nonneg_finite (s : bool) (m : positive) (e : Z) :
  nonneg (S754_finite s m e) = true ->
  s = false /\ fexp F32.prec F32.emax (Zdigits2 (Zpos m) + e) = e.
Proof.
  cbn [nonneg]. unfold canonical_mantissa. intros Hn.
  apply andb_prop in Hn as [Hs Hc]. apply Z.eqb_eq in Hc.
  destruct s; [discriminate|]. split; [reflexivity|exact Hc].
Qed.

Lemma SFleb_refl (a : float) : nonneg a = true -> SFleb a a = true.
Proof.
  destruct a as [[]|[]| |s m e]; try reflexivity; try (intros Hn; discriminate Hn).
  intros Hn. apply nonneg_finite in Hn as [-> _]. apply SFleb_finite. lia.
Qed.

Lemma SFleb_trans (a b c : float) :
  nonneg a = true -> nonneg b = true -> nonneg c = true ->
  SFleb a b = true -> SFleb b c = true -> SFleb a c = true.
Proof.
  intros Ha Hb Hc.
  destruct a as [sa|sa| |sa ma ea]; try discriminate;
    destruct b as [sb|sb| |sb mb eb]; try discriminate;
    destruct c as [sc|sc| |sc mc ec]; try discriminate;
    try (apply nonneg_finite in Ha as [-> _]);
    try (apply nonneg_finite in Hb as [-> _]);
    try (apply nonneg_finite in Hc as [-> _]);
    try (destruct sa; try discriminate); try (destruct sb; try discriminate);
    try (destruct sc; try discriminate);
    try reflexivity; try discriminate.
  rewrite !SFleb_finite. lia.
Qed.

Lemma SFltb_false_SFleb (t c : float) :
  nonneg t = true -> nonneg c = true -> SFltb t c = false -> SFleb c t = true.
Proof.
  intros Ht Hc.
  destruct t as [st|st| |st mt et]; try discriminate;
    destruct c as [sc|sc| |sc mc ec]; try discriminate;
    try (apply nonneg_finite in Ht as [-> _]);
    try (apply nonneg_finite in Hc as [-> _]);
    try (destruct st; try discriminate); try (destruct sc; try discriminate);
    try reflexivity; try discriminate.
  intros Hlt. apply SFleb_finite.
  destruct (Z.lt_trichotomy ec et) as [|[->|Hgt]]; [lia| |].
  - destruct (Z.le_gt_cases (Zpos mc) (Zpos mt)) as [|Hm]; [lia|].
    assert (Hc : SFltb (S754_finite false mt et) (S754_finite false mc et) = true)
      by (apply SFltb_finite; lia).
    congruence.
  - assert (Hc : SFltb (S754_finite false mt et) (S754_finite false mc ec) = true)
      by (apply SFltb_finite; lia).
    congruence.
Qed.

Lemma lex_le_SFleb (m : positive) (e : Z) (r : float) :
  lex_le e (Zpos m) r -> SFleb (S754_finite false m e) r = true.
Proof.
  destruct r as [s|s| |s mr er]; cbn [lex_le]; try contradiction.
  - destruct s; [contradiction|reflexivity].
  - destruct s; [contradiction|]. intros Hle. apply SFleb_finite. exact Hle.
Qed.

Lemma SFadd_finite (mx my : positive) (ex ey : Z) :
  nonneg (S754_finite false mx ex) = true ->
  nonneg (S754_finite false my ey) = true ->
  let r := F32.add (S754_finite false mx ex) (S754_finite false my ey) in
  nonneg r = true
  /\ SFleb (S754_finite false mx ex) r = true
  /\ SFleb (S754_finite false my ey) r = true.
Proof.
  intros Hx Hy r.
  apply nonneg_finite in Hx as [_ Hx]. apply nonneg_finite in Hy as [_ Hy].
  subst r. unfold F32.add, SFadd.
  change (IntDef.Z.min ex ey) with (Z.min ex ey).
  set (ez := Z.min ex ey).
  destruct (shl_align_spec mx ex ez) as [Hp1 He1].
  destruct (shl_align_spec my ey ez) as [Hp2 He2].
  cbv zeta in Hp1, He1, Hp2, He2.
  replace (snd (shl_align mx ex ez)) with ez in Hp1 by lia.
  replace (snd (shl_align my ey ez)) with ez in Hp2 by lia.
  set (p1 := fst (shl_align mx ex ez)) in *.
  set (p2 := fst (shl_align my ey ez)) in *.
  change (binary_normalize F32.prec F32.emax
            (cond_Zopp false (Zpos p1) + cond_Zopp false (Zpos p2)) ez false)
    with (binary_round F32.prec F32.emax false (p1 + p2) ez).
  unfold binary_round.
  change (Zpos (digits2_pos (p1 + p2))) with (Zdigits2 (Zpos (p1 + p2))).
  set (d := Zdigits2 (Zpos (p1 + p2)) + ez).
  destruct (shl_align_spec (p1 + p2) ez (fexp F32.prec F32.emax d)) as [Hmz Hez].
  cbv zeta in Hmz, Hez.
  destruct (shl_align (p1 + p2) ez (fexp F32.prec F32.emax d)) as [mz ez'].
  cbn [fst snd] in Hmz, Hez.
  assert (Hdz : Zdigits2 (Zpos mz) + ez' = d).
  { rewrite Hmz, Zdigits2_mul_pow2 by lia. unfold d. lia. }
  pose proof (bra_spec mz ez') as Hb. cbv zeta in Hb. rewrite Hdz in Hb.
  destruct (Hb ltac:(lia)) as [Hn Hlex]. clear Hb.
  pose proof (Z.pow_pos_nonneg 2 (ex - ez) ltac:(lia) ltac:(lia)) as Hq1.
  pose proof (Z.pow_pos_nonneg 2 (ey - ez) ltac:(lia) ltac:(lia)) as Hq2.
  assert (Hd1 : Zdigits2 (Zpos mx) + ex <= d).
  { unfold d. pose proof (Zdigits2_mono (Zpos p1) (Zpos (p1 + p2)) ltac:(lia) ltac:(lia)).
    rewrite Hp1, Zdigits2_mul_pow2 in H by lia. lia. }
  assert (Hd2 : Zdigits2 (Zpos my) + ey <= d).
  { unfold d. pose proof (Zdigits2_mono (Zpos p2) (Zpos (p1 + p2)) ltac:(lia) ltac:(lia)).
    rewrite Hp2, Zdigits2_mul_pow2 in H by lia. lia. }
  pose proof (fexp_mono _ _ Hd1) as Hf1. pose proof (fexp_mono _ _ Hd2) as Hf2.
  pose proof (fexp_ge_emin (Zdigits2 (Zpos mx) + ex)).
  pose proof (fexp_ge_emin (Zdigits2 (Zpos my) + ey)).
  assert (Hval : forall (m : positive) (e : Z) (p : positive),
             ez <= e -> Zpos p = Zpos m * 2 ^ (e - ez) -> Zpos p <= Zpos (p1 + p2) ->
             e = fexp F32.prec F32.emax d ->
             Zpos m <= Zpos mz / 2 ^ (fexp F32.prec F32.emax d - ez')).
  { intros m e p Hle Hp Hsum Hed.
    pose proof (Z.pow_pos_nonneg 2 (e - ez') ltac:(lia) ltac:(lia)).
    rewrite <- Hed. apply Z.div_le_lower_bound; [lia|].
    rewrite Hmz. replace (e - ez') with ((e - ez) + (ez - ez')) by lia.
    rewrite Z.pow_add_r by lia.
    pose proof (Z.pow_pos_nonneg 2 (ez - ez') ltac:(lia) ltac:(lia)).
    pose proof (Z.pow_pos_nonneg 2 (e - ez) ltac:(lia) ltac:(lia)).
    nia. }
  split; [exact Hn|]. split; apply lex_le_SFleb, Hlex; try lia.
  - intros Heq. apply (Hval mx ex p1); lia.
  - intros Heq. apply (Hval my ey p2); lia.
Qed.

Lemma SFadd_nonneg (a b : float) :
  nonneg a = true -> nonneg b = true ->
  nonneg (F32.add a b) = true
  /\ SFleb a (F32.add a b) = true /\ SFleb b (F32.add a b) = true.
Proof.
  intros Ha Hb.
  destruct a as [sa|sa| |sa ma ea]; try discriminate;
    destruct b as [sb|sb| |sb mb eb]; try discriminate.
  all: try (pose proof Ha as Ha'; apply nonneg_finite in Ha' as [-> _]).
  all: try (pose proof Hb as Hb'; apply nonneg_finite in Hb' as [-> _]).
  all: try (destruct sa; try discriminate); try (destruct sb; try discriminate).
  all: try (apply SFadd_finite; assumption).
  all: cbn [F32.add SFadd]; repeat split; try assumption; try reflexivity;
    try (apply SFleb_refl; assumption).
Qed.

Lemma mul_threshold_nonneg (total : float) :
  nonneg total = true -> nonneg (F32.mul F32.f0_01 total) = true.
Proof.
  intros Ht. destruct total as [s|s| |s m e]; try discriminate.
  - reflexivity.
  - destruct s; [discriminate|reflexivity].
  - apply nonneg_finite in Ht as [-> _].
    unfold F32.mul, F32.f0_01, SFmul. cbn [xorb].
    match goal with
    | |- nonneg (binary_round_aux _ _ _ (Zpos ?M) ?E _) = true =>
        pose proof (bra_spec M E) as Hb
    end.
    cbv zeta in Hb. apply Hb. rewrite fexp_eq.
    match goal with
    | |- _ <= Z.max (Zdigits2 (Zpos (?c * m)) + _ - 24) _ =>
        assert (Hd : 24 <= Zdigits2 (Zpos (c * m)))
    end.
    { change 24 with (Zdigits2 8388608). apply Zdigits2_mono; lia. }
    lia.
Qed.

Lemma binary_round_aux_sign (s : bool) (mx ex : Z) (lx : location) :
  binary_round_aux F32.prec F32.emax s mx ex lx
  = with_sign s (binary_round_aux F32.prec F32.emax false mx ex lx).
Proof.
  unfold binary_round_aux.
  destruct (shr_fexp F32.prec F32.emax mx ex lx) as [mrs' e'].
  destruct (shr_fexp F32.prec F32.emax _ e' loc_Exact) as [mrs'' e''].
  destruct (shr_m mrs'') as [|m|m]; try reflexivity.
  destruct (e'' <=? F32.emax - F32.prec); reflexivity.
Qed.

Lemma valid_with_sign (s : bool) (x : float) : valid (with_sign s x) = valid x.
Proof. destruct x; reflexivity. Qed.

Lemma nonneg_valid (x : float) : nonneg x = true -> valid x = true.
Proof.
  destruct x as [s|s| |s m e]; try reflexivity. cbn [nonneg valid].
  intros Hn. apply andb_prop in Hn as [_ Hn]. exact Hn.
Qed.

(** [binary_round] hands [binary_round_aux] a mantissa that needs no further
    shift to the left. *)
Lemma shl_align_fexp_spec (m : positive) (e : Z) :
  let d := Zdigits2 (Zpos m) + e in
  let r := shl_align m e (fexp F32.prec F32.emax d) in
  Zpos (fst r) = Zpos m * 2 ^ (e - snd r)
  /\ snd r <= e
  /\ Zdigits2 (Zpos (fst r)) + snd r = d
  /\ snd r <= fexp F32.prec F32.emax d.
Proof.
  intros d r. destruct (shl_align_spec m e (fexp F32.prec F32.emax d)) as [Hm He].
  fold r in Hm, He. split; [exact Hm|]. split; [lia|].
  split; [|lia]. rewrite Hm, Zdigits2_mul_pow2 by lia. unfold d. lia.
Qed.

Lemma binary_round_valid (s : bool) (m : positive) (e : Z) :
  valid (binary_round F32.prec F32.emax s m e) = true.
Proof.
  unfold binary_round.
  change (Zpos (digits2_pos m)) with (Zdigits2 (Zpos m)).
  destruct (shl_align_fexp_spec m e) as (_ & _ & Hd & Hle).
  destruct (shl_align m e _) as [mz ez]. cbn [fst snd] in Hd, Hle.
  rewrite binary_round_aux_sign, valid_with_sign. apply nonneg_valid.
  pose proof (bra_spec mz ez) as Hb. cbv zeta in Hb. rewrite Hd in Hb.
  apply Hb. exact Hle.
Qed.

Lemma SFadd_valid (a b : float) :
  valid a = true -> valid b = true -> valid (F32.add a b) = true.
Proof.
  intros Ha Hb. destruct a as [sa|sa| |sa ma ea]; destruct b as [sb|sb| |sb mb eb];
    try reflexivity; try assumption;
    try (destruct sa, sb; reflexivity).
  unfold F32.add, SFadd.
  destruct (cond_Zopp sa _ + cond_Zopp sb _) as [|m|m]; cbn [binary_normalize];
    [reflexivity| |]; apply binary_round_valid.
Qed.

(** [std::max] keeps a luminance a luminance, whatever the other float. *)
Lemma max_nonneg (a b : float) :
  nonneg a = true -> valid b = true -> nonneg (F32.max a b) = true.
Proof.
  intros Ha Hb. unfold F32.max, F32.lt. destruct (SFltb a b) eqn:Hlt; [|exact Ha].
  assert (Hsign : match b with
                  | S754_zero _ => True
                  | S754_infinity s | S754_finite s _ _ => s = false
                  | S754_nan => False
                  end).
  { destruct a as [sa|[]| |[] ma ea]; try discriminate Ha;
      destruct b as [sb|[]| |[] mb eb]; try discriminate Hlt;
      try exact I; reflexivity. }
  destruct b as [sb|sb| |sb mb eb]; try contradiction; subst; try reflexivity.
  exact Hb.
Qed.

End FloatFacts.

(** ** The environment quad-tree *)

Section QTreeFacts.

Lemma bind_Ok {A B : Type} (r : result A) (k : A -> result B) (b : B) :
  bind r k = Ok b -> exists a, r = Ok a /\ k a = Ok b.
Proof. destruct r as [a|why]; [exists a; auto|discriminate]. Qed.

Lemma read_at_Ok {A : Type} (l : list A) (i : Z) (x : A) :
  read_at l i = Ok x -> 0 <= i < Z.of_nat (length l) /\ l !! Z.to_nat i = Some x.
Proof.
  unfold read_at. destruct (Z.ltb_spec i 0); [discriminate|].
  destruct (Z.leb_spec (Z.of_nat (length l)) i); [discriminate|].
  cbn [orb]. destruct (l !! Z.to_nat i) eqn:El; [|discriminate].
  intros [= ->]. split; [lia|reflexivity].
Qed.

Lemma write_at_Ok {A : Type} (l : list A) (i : Z) (x : A) (l' : list A) :
  write_at l i x = Ok l' ->
  0 <= i < Z.of_nat (length l) /\ l' = <[Z.to_nat i := x]> l.
Proof.
  unfold write_at. destruct (Z.leb_spec 0 i); [|discriminate].
  destruct (Z.ltb_spec i (Z.of_nat (length l))); [|discriminate].
  cbn [andb]. intros [= <-]. split; [lia|reflexivity].
Qed.

Lemma In_range (n i : Z) : In i (range n) <-> 0 <= i < n.
Proof.
  unfold range. rewrite in_map_iff. split.
  - intros (k & <- & Hk). apply in_seq in Hk. lia.
  - intros Hi. exists (Z.to_nat i). split; [lia|]. apply in_seq. lia.
Qed.

(** A loop keeps what each of its iterations keeps. *)
Lemma for_each_acc {A : Type} (Q : list Z -> A -> Prop) (body : Z -> A -> result A) :
  forall (idx done : list Z) (a a' : A),
    (forall done' i a1 a2, In i idx -> Q done' a1 -> body i a1 = Ok a2 ->
                           Q (done' ++ [i]) a2) ->
    Q done a -> for_each idx body a = Ok a' -> Q (done ++ idx) a'.
Proof.
  induction idx as [|i idx IH]; intros done a a' Hstep Hq Hrun.
  - cbn [for_each] in Hrun. injection Hrun as <-. rewrite List.app_nil_r. exact Hq.
  - cbn [for_each] in Hrun. apply bind_Ok in Hrun as (a1 & Hb & Hrun).
    replace (done ++ i :: idx) with ((done ++ [i]) ++ idx)
      by (rewrite <- List.app_assoc; reflexivity).
    apply (IH (done ++ [i]) a1 a').
    + intros done' j a2 a3 Hj. apply Hstep. right. exact Hj.
    + apply (Hstep done i a a1); [left; reflexivity|exact Hq|exact Hb].
    + exact Hrun.
Qed.

Lemma for_each_inv {A : Type} (P : A -> Prop) (body : Z -> A -> result A)
    (idx : list Z) (a a' : A) :
  (forall i a1 a2, In i idx -> P a1 -> body i a1 = Ok a2 -> P a2) ->
  P a -> for_each idx body a = Ok a' -> P a'.
Proof.
  intros Hstep Hp Hrun.
  apply (for_each_acc (fun _ => P) body idx [] a a'); auto.
Qed.

(** Components of a cell. *)
Lemma nonneg4_get (v : fvec4) (i : Z) :
  nonneg4 v = true -> nonneg (fvec4_get v i) = true.
Proof.
  destruct v as [[[a b] c] d]. cbn [nonneg4 fvec4_get]. intros Hv.
  apply andb_prop in Hv as [Hv Hd]. apply andb_prop in Hv as [Hv Hc].
  apply andb_prop in Hv as [Ha Hb].
  destruct (i =? 0); [assumption|]. destruct (i =? 1); [assumption|].
  destruct (i =? 2); assumption.
Qed.

Lemma nonneg4_set (v : fvec4) (i : Z) (x : float) :
  nonneg4 v = true -> nonneg x = true -> nonneg4 (fvec4_set v i x) = true.
Proof.
  destruct v as [[[a b] c] d]. cbn [nonneg4 fvec4_set]. intros Hv Hx.
  apply andb_prop in Hv as [Hv Hd]. apply andb_prop in Hv as [Hv Hc].
  apply andb_prop in Hv as [Ha Hb].
  destruct (i =? 0); [|destruct (i =? 1); [|destruct (i =? 2)]];
    cbn [nonneg4]; rewrite ?Ha, ?Hb, ?Hc, ?Hd, ?Hx; reflexivity.
Qed.

Lemma fvec4_get_set_same (v : fvec4) (i : Z) (x : float) :
  fvec4_get (fvec4_set v i x) i = x.
Proof.
  destruct v as [[[a b] c] d]. cbn [fvec4_set].
  destruct (i =? 0) eqn:E0; [cbn [fvec4_get]; rewrite E0; reflexivity|].
  destruct (i =? 1) eqn:E1; [cbn [fvec4_get]; rewrite E0, E1; reflexivity|].
  destruct (i =? 2) eqn:E2; cbn [fvec4_get]; rewrite E0, E1, E2; reflexivity.
Qed.

Lemma fvec4_get_set_other (v : fvec4) (i j : Z) (x : float) :
  0 <= i < 4 -> 0 <= j < 4 -> i <> j ->
  fvec4_get (fvec4_set v i x) j = fvec4_get v j.
Proof.
  intros Hi Hj Hij. destruct v as [[[a b] c] d].
  assert (Ci : i = 0 \/ i = 1 \/ i = 2 \/ i = 3) by lia.
  assert (Cj : j = 0 \/ j = 1 \/ j = 2 \/ j = 3) by lia.
  destruct Ci as [->|[->|[->| ->]]]; destruct Cj as [->|[->|[->| ->]]];
    try reflexivity; contradiction.
Qed.

Lemma fvec4_sum_nonneg (v : fvec4) :
  nonneg4 v = true ->
  nonneg (fvec4_sum v) = true
  /\ forall i, SFleb (fvec4_get v i) (fvec4_sum v) = true.
Proof.
  destruct v as [[[a b] c] d]. cbn [nonneg4 fvec4_sum fvec4_get]. intros Hv.
  apply andb_prop in Hv as [Hv Hd]. apply andb_prop in Hv as [Hv Hc].
  apply andb_prop in Hv as [Ha Hb].
  destruct (SFadd_nonneg a b Ha Hb) as (Hab & Ha1 & Hb1).
  destruct (SFadd_nonneg _ c Hab Hc) as (Habc & Hab2 & Hc2).
  destruct (SFadd_nonneg _ d Habc Hd) as (Hs & Habc3 & Hd3).
  split; [exact Hs|]. intros i.
  pose proof (SFleb_trans _ _ _ Hc Habc Hs Hc2 Habc3) as Hc'.
  pose proof (SFleb_trans _ _ _ Hab Habc Hs Hab2 Habc3) as Hab'.
  destruct (i =? 0); [exact (SFleb_trans _ _ _ Ha Hab Hs Ha1 Hab')|].
  destruct (i =? 1); [exact (SFleb_trans _ _ _ Hb Hab Hs Hb1 Hab')|].
  destruct (i =? 2); assumption.
Qed.

(** Quadrants and cells. *)
Lemma quadrant_eq (x y : Z) : quadrant x y = x mod 2 + 2 * (y mod 2).
Proof.
  unfold quadrant. change 1 with (Z.ones 1) at 1 2. rewrite !Z.land_ones by lia.
  change (2 ^ 1) with 2.
  pose proof (Z.mod_pos_bound x 2 ltac:(lia)).
  pose proof (Z.mod_pos_bound y 2 ltac:(lia)).
  assert (Cx : x mod 2 = 0 \/ x mod 2 = 1) by lia.
  assert (Cy : y mod 2 = 0 \/ y mod 2 = 1) by lia.
  destruct Cx as [-> | ->]; destruct Cy as [-> | ->]; reflexivity.
Qed.

Lemma quadrant_range (x y : Z) : 0 <= quadrant x y < 4.
Proof.
  rewrite quadrant_eq.
  pose proof (Z.mod_pos_bound x 2 ltac:(lia)).
  pose proof (Z.mod_pos_bound y 2 ltac:(lia)). lia.
Qed.

(** The first level. *)
Lemma qtree_add_pixel_ok (img : env_image) (c x y : Z) (mip mip' : list fvec4) (n : nat) :
  valid3 (img_rgb img x y) = true -> level_ok n mip ->
  qtree_add_pixel img c x y mip = Ok mip' -> level_ok n mip'.
Proof.
  intros Hpix [Hlen Hall]. unfold qtree_add_pixel.
  destruct (img_rgb img x y) as [[r g] b]. destruct (img_canonical img x y) as [q0 q1].
  cbn [valid3] in Hpix.
  apply andb_prop in Hpix as [Hpix Hb]. apply andb_prop in Hpix as [Hr Hg].
  intros Hrun.
  apply bind_Ok in Hrun as (i0 & _ & Hrun). apply bind_Ok in Hrun as (i1 & _ & Hrun).
  apply bind_Ok in Hrun as (qvec & Hread & Hrun).
  apply read_at_Ok in Hread as [_ Hread]. apply write_at_Ok in Hrun as [_ ->].
  split; [rewrite length_insert; exact Hlen|].
  apply Forall_insert; [exact Hall|].
  pose proof (proj1 (Forall_lookup _ _) Hall _ _ Hread) as Hq. cbv beta in Hq.
  apply nonneg4_set; [exact Hq|]. apply max_nonneg; [apply nonneg4_get; exact Hq|].
  apply SFadd_valid; [apply SFadd_valid|]; assumption.
Qed.

Lemma qtree_level0_ok (img : env_image) (c : Z) (mip : list fvec4) :
  (forall x y, valid3 (img_rgb img x y) = true) ->
  qtree_level0 img c = Ok mip -> level_ok (Z.to_nat (Z.quot (c * c) 4)) mip.
Proof.
  intros Hpix. unfold qtree_level0.
  apply for_each_inv.
  - intros y a1 a2 _ Ha1. apply for_each_inv; [|exact Ha1].
    intros x a3 a4 _. apply qtree_add_pixel_ok, Hpix.
  - split; [apply length_replicate|]. apply Forall_replicate. reflexivity.
Qed.

Lemma qtree_total_lum_nonneg (mip : list fvec4) :
  Forall (fun v => nonneg4 v = true) mip -> nonneg (qtree_total_lum mip) = true.
Proof.
  unfold qtree_total_lum. assert (Hz : nonneg F32.zero = true) by reflexivity.
  revert Hz. generalize F32.zero as acc.
  induction mip as [|v mip IH]; intros acc Hacc Hall; [exact Hacc|].
  pose proof (Forall_inv Hall) as Hv. apply Forall_inv_tail in Hall.
  cbv beta in Hv. cbn [fold_left].
  apply IH; [|exact Hall].
  apply SFadd_nonneg; [exact Hacc|apply fvec4_sum_nonneg; exact Hv].
Qed.

(** The upper levels. *)
Lemma cell_index (c h x y : Z) :
  c = 2 * h -> 0 <= h -> 0 <= x -> 0 <= y ->
  Z.quot (Z.quot y 2 * c) 2 + Z.quot x 2 = y / 2 * (c / 2) + x / 2.
Proof.
  intros -> Hh Hx Hy.
  assert (Hy2 : 0 <= y / 2) by (apply Z.div_pos; lia).
  rewrite (Z.quot_div_nonneg y 2), (Z.quot_div_nonneg x 2) by lia.
  rewrite Z.quot_div_nonneg by nia.
  replace (y / 2 * (2 * h)) with (y / 2 * h * 2) by ring.
  replace (2 * h) with (h * 2) by ring.
  rewrite !Z.div_mul by lia. reflexivity.
Qed.

Lemma half_double (h : Z) : 2 * h / 2 = h.
Proof. replace (2 * h) with (h * 2) by ring. apply Z.div_mul. lia. Qed.

Lemma cell_inj (h x y x0 y0 : Z) :
  0 < h -> 0 <= x < 2 * h -> 0 <= y -> 0 <= x0 < 2 * h -> 0 <= y0 ->
  y / 2 * h + x / 2 = y0 / 2 * h + x0 / 2 ->
  x / 2 = x0 / 2 /\ y / 2 = y0 / 2.
Proof.
  intros Hh Hx Hy Hx0 Hy0 Heq.
  assert (0 <= x / 2 < h) by (split; [apply Z.div_pos; lia|apply Z.div_lt_upper_bound; lia]).
  assert (0 <= x0 / 2 < h) by (split; [apply Z.div_pos; lia|apply Z.div_lt_upper_bound; lia]).
  assert (y / 2 = y0 / 2) by nia. split; nia.
Qed.

Lemma quadrant_inj (x y x0 y0 : Z) :
  x / 2 = x0 / 2 -> y / 2 = y0 / 2 -> quadrant x y = quadrant x0 y0 ->
  x = x0 /\ y = y0.
Proof.
  rewrite !quadrant_eq. intros Hx Hy Hq.
  pose proof (Z.div_mod x 2 ltac:(lia)). pose proof (Z.div_mod x0 2 ltac:(lia)).
  pose proof (Z.div_mod y 2 ltac:(lia)). pose proof (Z.div_mod y0 2 ltac:(lia)).
  pose proof (Z.mod_pos_bound x 2 ltac:(lia)). pose proof (Z.mod_pos_bound x0 2 ltac:(lia)).
  pose proof (Z.mod_pos_bound y 2 ltac:(lia)). pose proof (Z.mod_pos_bound y0 2 ltac:(lia)).
  lia.
Qed.

Lemma sums_done_weaken (prev : list fvec4) (c : Z) (P P' : Z -> Z -> Prop)
    (mip : list fvec4) :
  (forall x y, 0 <= x < c -> 0 <= y < c -> P' x y -> P x y) ->
  sums_done prev c P mip -> sums_done prev c P' mip.
Proof. intros Himp Hs x y Hx Hy Hp. apply Hs; auto. Qed.

Lemma qtree_add_cell_step (prev : list fvec4) (c h : Z) (P : Z -> Z -> Prop)
    (x0 y0 : Z) (mip mip' : list fvec4) (n : nat) :
  c = 2 * h -> 0 < h -> 0 <= x0 < c -> 0 <= y0 < c ->
  Forall (fun v => nonneg4 v = true) prev ->
  level_ok n mip -> sums_done prev c P mip ->
  qtree_add_cell prev c x0 y0 mip = Ok mip' ->
  level_ok n mip'
  /\ sums_done prev c (fun x y => P x y \/ (x = x0 /\ y = y0)) mip'.
Proof.
  intros Hc Hh Hx0 Hy0 Hprev [Hlen Hall] Hdone. unfold qtree_add_cell. intros Hrun.
  apply bind_Ok in Hrun as (ch0 & Hch0 & Hrun).
  rewrite (cell_index c h x0 y0) in Hrun by lia.
  apply bind_Ok in Hrun as (qvec & Hq & Hrun).
  apply read_at_Ok in Hch0 as [_ Hch0]. apply read_at_Ok in Hq as [Hcell Hq].
  apply write_at_Ok in Hrun as [_ ->].
  pose proof (proj1 (Forall_lookup _ _) Hprev _ _ Hch0) as Hn0. cbv beta in Hn0.
  pose proof (proj1 (Forall_lookup _ _) Hall _ _ Hq) as Hnq. cbv beta in Hnq.
  split.
  - split; [rewrite length_insert; exact Hlen|].
    apply Forall_insert; [exact Hall|].
    apply nonneg4_set; [exact Hnq|]. apply fvec4_sum_nonneg. exact Hn0.
  - intros x y Hx Hy HP.
    assert (Hcase : (x = x0 /\ y = y0) \/ (x <> x0 \/ y <> y0)) by lia.
    destruct Hcase as [[-> ->]|Hne].
    + exists ch0, (fvec4_set qvec (quadrant x0 y0) (fvec4_sum ch0)).
      split; [exact Hch0|]. split; [|apply fvec4_get_set_same].
      apply list_lookup_insert_eq. lia.
    + destruct HP as [HP|HP]; [|lia].
      destruct (Hdone x y Hx Hy HP) as (ch & v & Hch & Hv & Hget).
      exists ch.
      destruct (Z.eq_dec (y / 2 * (c / 2) + x / 2) (y0 / 2 * (c / 2) + x0 / 2))
        as [Ecell|Ncell].
      * exists (fvec4_set qvec (quadrant x0 y0) (fvec4_sum ch0)).
        rewrite Ecell in Hv |- *. rewrite Hq in Hv. injection Hv as <-.
        split; [exact Hch|]. split; [apply list_lookup_insert_eq; lia|].
        rewrite fvec4_get_set_other; [exact Hget| | |].
        -- apply quadrant_range.
        -- apply quadrant_range.
        -- intros Hqq. symmetry in Hqq. rewrite Hc, half_double in Ecell.
           destruct (cell_inj h x y x0 y0 ltac:(lia) ltac:(lia) ltac:(lia)
                       ltac:(lia) ltac:(lia) Ecell) as [E1 E2].
           destruct (quadrant_inj x y x0 y0 E1 E2 Hqq). lia.
      * exists v. split; [exact Hch|]. split; [|exact Hget].
        rewrite list_lookup_insert_ne; [exact Hv|].
        intros Heq. apply Z2Nat.inj in Heq; [congruence|lia|].
        assert (0 <= y / 2) by (apply Z.div_pos; lia).
        assert (0 <= x / 2) by (apply Z.div_pos; lia).
        assert (0 <= c / 2) by (apply Z.div_pos; lia). nia.
Qed.

Lemma qtree_row_ok (prev : list fvec4) (c h : Z) (P : Z -> Z -> Prop)
    (y0 : Z) (mip mip' : list fvec4) (n : nat) :
  c = 2 * h -> 0 < h -> 0 <= y0 < c ->
  Forall (fun v => nonneg4 v = true) prev ->
  level_ok n mip -> sums_done prev c P mip ->
  for_each (range c) (fun x m => qtree_add_cell prev c x y0 m) mip = Ok mip' ->
  level_ok n mip' /\ sums_done prev c (fun x y => P x y \/ y = y0) mip'.
Proof.
  intros Hc Hh Hy0 Hprev Hok Hdone Hrun.
  pose proof (for_each_acc
                (fun done m => level_ok n m
                               /\ sums_done prev c
                                    (fun x y => P x y \/ (y = y0 /\ In x done)) m)
                (fun x m => qtree_add_cell prev c x y0 m) (range c) [] mip mip')
    as Hloop.
  destruct Hloop as [Hok' Hdone'].
  - intros done x a1 a2 Hin [Hok1 Hdone1] Hstep. apply In_range in Hin.
    destruct (qtree_add_cell_step prev c h _ x y0 a1 a2 n Hc Hh Hin Hy0 Hprev
                Hok1 Hdone1 Hstep) as [Hok2 Hdone2].
    split; [exact Hok2|]. revert Hdone2. apply sums_done_weaken.
    intros x' y' _ _ [HP|[-> Hx']]; [left; left; exact HP|].
    apply in_app_iff in Hx' as [Hx'|[<-|[]]]; [left; right; auto|right; auto].
  - split; [exact Hok|]. revert Hdone. apply sums_done_weaken.
    intros x' y' _ _ [HP|[_ []]]. exact HP.
  - exact Hrun.
  - split; [exact Hok'|]. revert Hdone'. apply sums_done_weaken.
    intros x' y' Hx' _ [HP| ->]; [left; exact HP|].
    right. split; [reflexivity|]. cbn [app]. apply In_range. exact Hx'.
Qed.

Lemma qtree_next_level_ok (prev : list fvec4) (c h : Z) (mip : list fvec4) :
  c = 2 * h -> 0 < h ->
  Forall (fun v => nonneg4 v = true) prev ->
  qtree_next_level prev c = Ok mip ->
  level_ok (Z.to_nat (h * h)) mip /\ sums_done prev c (fun _ _ => True) mip.
Proof.
  intros Hc Hh Hprev Hrun. unfold qtree_next_level in Hrun.
  assert (Hcells : Z.quot (c * c) 4 = h * h).
  { rewrite Z.quot_div_nonneg by nia. subst c.
    replace (2 * h * (2 * h)) with (h * h * 4) by ring. apply Z.div_mul. lia. }
  rewrite Hcells in Hrun.
  pose proof (for_each_acc
                (fun done m => level_ok (Z.to_nat (h * h)) m
                               /\ sums_done prev c (fun x y => In y done) m)
                (fun y m => for_each (range c)
                              (fun x m' => qtree_add_cell prev c x y m') m)
                (range c) [] (replicate (Z.to_nat (h * h)) fvec4_zero) mip)
    as Hloop.
  destruct Hloop as [Hok' Hdone'].
  - intros done y a1 a2 Hin [Hok1 Hdone1] Hstep. apply In_range in Hin.
    destruct (qtree_row_ok prev c h _ y a1 a2 _ Hc Hh Hin Hprev Hok1 Hdone1 Hstep)
      as [Hok2 Hdone2].
    split; [exact Hok2|]. revert Hdone2. apply sums_done_weaken.
    intros x' y' _ _ Hy'.
    apply in_app_iff in Hy' as [Hy'|[<-|[]]]; [left; exact Hy'|right; reflexivity].
  - split.
    + split; [apply length_replicate|]. apply Forall_replicate. reflexivity.
    + intros x y _ _ [].
  - exact Hrun.
  - split; [exact Hok'|]. revert Hdone'. apply sums_done_weaken.
    intros x' y' _ Hy' _. cbn [app]. apply In_range. exact Hy'.
Qed.

Lemma qtree_res_loop_pow2 (lowest_dim : Z) :
  forall (fuel : nat) (k r : Z),
    0 <= k -> qtree_res_loop fuel (2 ^ k) lowest_dim = Ok r ->
    exists n, k <= n /\ r = 2 ^ n.
Proof.
  induction fuel as [|fuel IH]; intros k r Hk Hrun; cbn [qtree_res_loop] in Hrun;
    destruct (INT_MAX <? 2 * 2 ^ k); try discriminate;
    destruct (2 * 2 ^ k <? lowest_dim); try discriminate.
  - injection Hrun as <-. exists k. split; [lia|reflexivity].
  - replace (2 ^ k * 2) with (2 ^ (k + 1)) in Hrun
      by (rewrite Z.pow_add_r by lia; reflexivity).
    destruct (IH (k + 1) r ltac:(lia) Hrun) as (n & Hn & ->).
    exists n. split; [lia|reflexivity].
  - injection Hrun as <-. exists k. split; [lia|reflexivity].
Qed.

Lemma pow2_half (m : Z) : 1 <= m -> 2 ^ m = 2 * 2 ^ (m - 1).
Proof.
  intros Hm. replace m with (1 + (m - 1)) at 1 by lia.
  rewrite Z.pow_add_r by lia. reflexivity.
Qed.

Lemma pow2_le_1 (m : Z) : 0 <= m -> 2 ^ m <= 1 -> m = 0.
Proof.
  intros Hm Hle. destruct (Z.eq_dec m 0) as [|Hnz]; [assumption|].
  pose proof (Z.pow_le_mono_r 2 1 m ltac:(lia) ltac:(lia)) as Hp.
  change (2 ^ 1) with 2 in Hp. lia.
Qed.

Lemma qtree_upper_levels_ok (n : Z) :
  forall (fuel : nat) (mips_ : list (list fvec4)) (c : Z) (all : list (list fvec4)),
    1 <= Z.of_nat (length mips_) <= n ->
    c = 2 ^ (n - Z.of_nat (length mips_)) ->
    levels_inv n mips_ ->
    qtree_upper_levels fuel c mips_ = Ok all ->
    levels_inv n all /\ Z.of_nat (length all) = n.
Proof.
  assert (Hstop : forall (mips_ : list (list fvec4)) (c : Z),
             1 <= Z.of_nat (length mips_) <= n ->
             c = 2 ^ (n - Z.of_nat (length mips_)) -> c <= 1 ->
             Z.of_nat (length mips_) = n).
  { intros mips_ c Hlen -> Hle. apply pow2_le_1 in Hle; lia. }
  induction fuel as [|fuel IH]; intros mips_ c all Hlen Hc Hinv Hrun;
    cbn [qtree_upper_levels] in Hrun;
    destruct (Z.ltb_spec 1 c) as [Hgo|Hle]; try discriminate.
  - injection Hrun as <-. split; [exact Hinv|]. eapply Hstop; eassumption.
  - apply bind_Ok in Hrun as (prev & Hprev & Hrun).
    apply bind_Ok in Hrun as (mip & Hmip & Hrun).
    apply read_at_Ok in Hprev as [_ Hprev].
    assert (Hlt : Z.of_nat (length mips_) < n).
    { destruct (Z.eq_dec (Z.of_nat (length mips_)) n) as [E|]; [|lia].
      rewrite E, Z.sub_diag in Hc. change (2 ^ 0) with 1 in Hc. lia. }
    set (len := length mips_) in *.
    set (h := 2 ^ (n - Z.of_nat len - 1)).
    assert (Hh : 0 < h) by (apply Z.pow_pos_nonneg; lia).
    assert (Hch : c = 2 * h) by (rewrite Hc; apply pow2_half; lia).
    destruct Hinv as [Hlev Hlink].
    destruct (Hlev _ _ Hprev) as [_ Hnn].
    destruct (qtree_next_level_ok prev c h mip Hch Hh Hnn Hmip) as [[Hlm Hnm] Hsum].
    replace (Z.to_nat (Z.of_nat len - 1)) with (len - 1)%nat in Hprev by lia.
    apply (IH (mips_ ++ [mip]) (Z.quot c 2) all).
    + rewrite length_app. cbn [length]. fold len. lia.
    + rewrite length_app. cbn [length]. fold len.
      rewrite Z.quot_div_nonneg, Hch, half_double by lia. unfold h. f_equal. lia.
    + split.
      * intros i l Hl.
        destruct (Nat.lt_ge_cases i len) as [Hi|Hi].
        -- rewrite lookup_app_l in Hl by exact Hi. apply Hlev. exact Hl.
        -- rewrite lookup_app_r in Hl by exact Hi. fold len in Hl.
           destruct (i - len)%nat as [|d] eqn:Ed; [|discriminate].
           injection Hl as <-. assert (i = len) by lia. subst i.
           split; [|exact Hnm].
           replace (n - 1 - Z.of_nat len) with (n - Z.of_nat len - 1) by lia.
           fold h. rewrite Hlm. lia.
      * intros i fine coarse Hf Hco.
        destruct (Nat.lt_ge_cases (S i) len) as [Hi|Hi].
        -- rewrite lookup_app_l in Hf by (fold len; lia).
           rewrite lookup_app_l in Hco by exact Hi.
           eapply Hlink; eassumption.
        -- rewrite lookup_app_r in Hco by exact Hi. fold len in Hco.
           destruct (S i - len)%nat as [|d] eqn:Ed; [|discriminate].
           injection Hco as <-. assert (i = (len - 1)%nat) by lia. subst i.
           rewrite lookup_app_l in Hf by (fold len; lia).
           rewrite Hprev in Hf. injection Hf as <-.
           replace (2 ^ (n - 1 - Z.of_nat (len - 1))) with c; [exact Hsum|].
           rewrite Hc. f_equal. lia.
    + exact Hrun.
  - injection Hrun as <-. split; [exact Hinv|]. eapply Hstop; eassumption.
Qed.

(** The search for the last required level. *)
Lemma scan_cells_false (mip : list fvec4) (threshold : float) (cells : list Z) :
  scan_cells mip threshold cells = Ok false ->
  forall i, In i cells ->
    exists v, mip !! Z.to_nat i = Some v /\ any_above v threshold = false.
Proof.
  induction cells as [|j cells IH]; intros Hrun i Hin; [destruct Hin|].
  cbn [scan_cells] in Hrun. apply bind_Ok in Hrun as (v & Hv & Hrun).
  destruct (any_above v threshold) eqn:Ev; [discriminate|].
  destruct Hin as [<-|Hin]; [|apply IH; assumption].
  apply read_at_Ok in Hv as [_ Hv]. exists v. auto.
Qed.

Lemma level_cells_cover (h i : Z) :
  0 < h -> 0 <= i < h * h -> In i (level_cells (2 * h)).
Proof.
  intros Hh Hi. unfold level_cells.
  rewrite Z.quot_div_nonneg, half_double by lia.
  apply in_flat_map. exists (i / h).
  assert (0 <= i / h < h).
  { split; [apply Z.div_pos; lia|apply Z.div_lt_upper_bound; lia]. }
  split; [apply In_range; lia|].
  apply in_map_iff. exists (i mod h).
  pose proof (Z.mod_pos_bound i h Hh). split; [|apply In_range; lia].
  rewrite Z.quot_div_nonneg by nia.
  replace (i / h * (2 * h)) with (i / h * h * 2) by ring.
  rewrite Z.div_mul by lia.
  pose proof (Z.div_mod i h ltac:(lia)). lia.
Qed.

Lemma any_above_false (v : fvec4) (threshold : float) (i : Z) :
  any_above v threshold = false -> F32.gt (fvec4_get v i) threshold = false.
Proof.
  destruct v as [[[a b] c] d]. cbn [any_above fvec4_get]. intros Hv.
  apply orb_false_elim in Hv as [Hv Hd]. apply orb_false_elim in Hv as [Hv Hc].
  apply orb_false_elim in Hv as [Ha Hb].
  destruct (i =? 0); [assumption|]. destruct (i =? 1); [assumption|].
  destruct (i =? 2); assumption.
Qed.

Lemma last_required_lod_spec (n : Z) (mips_ : list (list fvec4)) (threshold : float) :
  forall (k : nat) (lod : Z),
    Z.of_nat k <= n ->
    last_required_lod k (2 ^ (n - Z.of_nat k + 1)) mips_ threshold = Ok lod ->
    lod = 0
    \/ (0 < lod < Z.of_nat k
        /\ exists mip, mips_ !! Z.to_nat lod = Some mip
                       /\ subdivision_required mip (2 ^ (n - lod)) threshold = Ok false).
Proof.
  induction k as [|k IH]; intros lod Hk Hrun; cbn [last_required_lod] in Hrun.
  - injection Hrun as <-. left. reflexivity.
  - apply bind_Ok in Hrun as (cur_mip & Hcur & Hrun).
    apply bind_Ok in Hrun as (required & Hreq & Hrun).
    replace (n - Z.of_nat (S k) + 1) with (n - Z.of_nat k) in * by lia.
    destruct required.
    + replace (2 ^ (n - Z.of_nat k) * 2) with (2 ^ (n - Z.of_nat k + 1)) in Hrun
        by (rewrite Z.pow_add_r by lia; reflexivity).
      destruct (IH lod ltac:(lia) Hrun) as [->|(Hlod & Hmip)]; [left; reflexivity|].
      right. split; [lia|exact Hmip].
    + injection Hrun as <-.
      destruct k as [|k]; [left; reflexivity|]. right. split; [lia|].
      apply read_at_Ok in Hcur as [_ Hcur]. exists cur_mip. split; assumption.
Qed.

Lemma drop_levels_mips (k : nat) :
  forall q, mips (drop_levels k q) = drop k (mips q).
Proof.
  induction k as [|k IH]; intros q; cbn [drop_levels]; [reflexivity|].
  rewrite IH. cbn [mips]. rewrite drop_drop. reflexivity.
Qed.

Lemma drop_levels_res (k : nat) :
  forall q m, res q = 2 ^ m -> Z.of_nat k <= m ->
              res (drop_levels k q) = 2 ^ (m - Z.of_nat k).
Proof.
  induction k as [|k IH]; intros q m Hres Hk; cbn [drop_levels].
  - rewrite Hres. f_equal. lia.
  - rewrite (IH _ (m - 1)).
    + f_equal. lia.
    + cbn [res]. rewrite Hres, (pow2_half m) by lia.
      pose proof (Z.pow_pos_nonneg 2 (m - 1) ltac:(lia) ltac:(lia)).
      rewrite Z.quot_div_nonneg by lia. apply half_double.
    + lia.
Qed.

(** All the levels, before any is dropped. *)
Lemma qtree_all_levels_ok (fuel : nat) (img : env_image) (res0 : Z)
    (all : list (list fvec4)) (total : float) :
  (forall x y, valid3 (img_rgb img x y) = true) ->
  qtree_all_levels fuel img = Ok (res0, all, total) ->
  nonneg total = true
  /\ ((res0 = 1 /\ all = [[]])
      \/ exists n, 1 <= n /\ res0 = 2 ^ n /\ levels_inv n all
                   /\ Z.of_nat (length all) = n).
Proof.
  intros Hpix Hrun. unfold qtree_all_levels in Hrun.
  apply bind_Ok in Hrun as (r & Hres & Hrun).
  apply bind_Ok in Hrun as (mip0 & Hmip0 & Hrun).
  apply bind_Ok in Hrun as (all' & Hup & Hrun).
  injection Hrun as <- <- <-.
  destruct (qtree_level0_ok img r mip0 Hpix Hmip0) as [Hlen Hnn].
  split; [apply qtree_total_lum_nonneg; exact Hnn|].
  unfold qtree_res in Hres. change 1 with (2 ^ 0) in Hres.
  destruct (qtree_res_loop_pow2 _ fuel 0 r ltac:(lia) Hres) as (n & Hn & ->).
  destruct (Z.eq_dec n 0) as [->|Hnz].
  - left. split; [reflexivity|].
    change (Z.to_nat (Z.quot (2 ^ 0 * 2 ^ 0) 4)) with 0%nat in Hlen.
    destruct mip0; [|discriminate].
    change (Z.quot (2 ^ 0) 2) with 0 in Hup.
    destruct fuel; cbn in Hup; injection Hup as <-; reflexivity.
  - right. exists n. split; [lia|]. split; [reflexivity|].
    pose proof (Z.pow_pos_nonneg 2 (n - 1) ltac:(lia) ltac:(lia)) as Hp.
    assert (Hq : Z.quot (2 ^ n * 2 ^ n) 4 = 2 ^ (n - 1) * 2 ^ (n - 1)).
    { rewrite (pow2_half n) by lia. rewrite Z.quot_div_nonneg by nia.
      replace (2 * 2 ^ (n - 1) * (2 * 2 ^ (n - 1)))
        with (2 ^ (n - 1) * 2 ^ (n - 1) * 4) by ring.
      apply Z.div_mul. lia. }
    apply (qtree_upper_levels_ok n fuel [mip0] (Z.quot (2 ^ n) 2) all').
    + cbn [length]. lia.
    + cbn [length]. rewrite (pow2_half n) at 1 by lia.
      rewrite Z.quot_div_nonneg, half_double by lia. f_equal.
    + split.
      * intros [|i] l Hl; [|discriminate]. injection Hl as <-.
        split; [|exact Hnn]. rewrite Hlen, Hq.
        replace (n - 1 - Z.of_nat 0) with (n - 1) by lia. nia.
      * intros [|i] fine coarse _ Hco; discriminate.
    + exact Hup.
Qed.

Lemma below_threshold (n : Z) (all : list (list fvec4)) (threshold : float) (lod : nat) :
  levels_inv n all -> Z.of_nat (length all) = n -> nonneg threshold = true ->
  (exists mip, all !! lod = Some mip
               /\ subdivision_required mip (2 ^ (n - Z.of_nat lod)) threshold = Ok false) ->
  forall (d j : nat), (j + d = lod)%nat ->
    forall (mip : list fvec4) (cell : nat) (v : fvec4) (idx : Z),
      all !! j = Some mip -> mip !! cell = Some v ->
      SFleb (fvec4_get v idx) threshold = true.
Proof.
  intros [Hlev Hlink] Hlen HT (top & Htop & Hscan).
  pose proof (lookup_lt_Some _ _ _ Htop) as Hlod.
  induction d as [|d IH]; intros j Hj mip cell v idx Hmip Hv.
  - assert (j = lod) by lia. subst j. rewrite Htop in Hmip. injection Hmip as <-.
    destruct (Hlev _ _ Htop) as [Hl Hnn].
    pose proof (lookup_lt_Some _ _ _ Hv) as Hcell.
    set (h := 2 ^ (n - 1 - Z.of_nat lod)) in *.
    assert (Hh : 0 < h) by (apply Z.pow_pos_nonneg; lia).
    assert (H2h : 2 ^ (n - Z.of_nat lod) = 2 * h).
    { rewrite pow2_half by lia. unfold h. do 2 f_equal. lia. }
    rewrite H2h in Hscan. unfold subdivision_required in Hscan.
    destruct (scan_cells_false _ _ _ Hscan (Z.of_nat cell)) as (v' & Hv' & Habove).
    { apply level_cells_cover; lia. }
    rewrite Nat2Z.id, Hv in Hv'. injection Hv' as <-.
    pose proof (proj1 (Forall_lookup _ _) Hnn _ _ Hv) as Hnv. cbv beta in Hnv.
    apply SFltb_false_SFleb; [exact HT|apply nonneg4_get; exact Hnv|].
    apply (any_above_false v threshold idx Habove).
  - destruct (lookup_lt_is_Some_2 all (S j) ltac:(lia)) as [coarse Hco].
    destruct (Hlev _ _ Hmip) as [Hl Hnn].
    pose proof (lookup_lt_Some _ _ _ Hv) as Hcell.
    set (c := 2 ^ (n - 1 - Z.of_nat j)) in *.
    assert (Hc : 0 < c) by (apply Z.pow_pos_nonneg; lia).
    pose proof (Z.mod_pos_bound (Z.of_nat cell) c Hc) as Hx.
    assert (Hy : 0 <= Z.of_nat cell / c < c).
    { split; [apply Z.div_pos; lia|apply Z.div_lt_upper_bound; lia]. }
    destruct (Hlink j mip coarse Hmip Hco _ _ Hx Hy I) as (ch & pv & Hch & Hpv & Hget).
    change (2 ^ (n - 1 - Z.of_nat j)) with c in Hch.
    replace (Z.of_nat cell / c * c + Z.of_nat cell mod c) with (Z.of_nat cell) in Hch
      by (pose proof (Z.div_mod (Z.of_nat cell) c ltac:(lia)); lia).
    rewrite Nat2Z.id, Hv in Hch. injection Hch as <-.
    pose proof (proj1 (Forall_lookup _ _) Hnn _ _ Hv) as Hnv. cbv beta in Hnv.
    destruct (fvec4_sum_nonneg v Hnv) as [Hsum Hle].
    apply (SFleb_trans _ (fvec4_sum v)); [apply nonneg4_get; exact Hnv|exact Hsum
                                          |exact HT|apply Hle|].
    rewrite <- Hget. apply (IH (S j) ltac:(lia) coarse _ pv _ Hco Hpv).
Qed.

Lemma dim_pow2 (m k : Z) :
  0 <= k -> k + 1 <= m -> Z.quot (Z.shiftr (2 ^ m) k) 2 = 2 ^ (m - k - 1).
Proof.
  intros Hk Hm.
  rewrite Z.shiftr_div_pow2, <- Z.pow_sub_r by lia.
  rewrite (pow2_half (m - k)) by lia.
  pose proof (Z.pow_pos_nonneg 2 (m - k - 1) ltac:(lia) ltac:(lia)).
  rewrite Z.quot_div_nonneg by lia. apply half_double.
Qed.

Lemma child_cell_coords (h cell idx : Z) :
  0 < h -> 0 <= cell < h * h -> 0 <= idx < 4 ->
  let x := 2 * (cell mod h) + idx mod 2 in
  let y := 2 * (cell / h) + idx / 2 in
  0 <= x < 2 * h /\ 0 <= y < 2 * h
  /\ child_cell h cell idx = y * (2 * h) + x
  /\ y / 2 * h + x / 2 = cell
  /\ quadrant x y = idx.
Proof.
  intros Hh Hcell Hidx x y.
  pose proof (Z.mod_pos_bound cell h Hh) as Hm.
  assert (Hd : 0 <= cell / h < h).
  { split; [apply Z.div_pos; lia|apply Z.div_lt_upper_bound; lia]. }
  pose proof (Z.div_mod cell h ltac:(lia)) as Hdm.
  assert (Ci : idx = 0 \/ idx = 1 \/ idx = 2 \/ idx = 3) by lia.
  assert (Hx2 : x / 2 = cell mod h /\ x mod 2 = idx mod 2).
  { unfold x. destruct Ci as [->|[->|[->| ->]]];
      change (0 mod 2) with 0; change (1 mod 2) with 1;
      change (2 mod 2) with 0; change (3 mod 2) with 1;
      split; try (symmetry; apply Z.div_unique with 0; lia);
      try (symmetry; apply Z.div_unique with 1; lia);
      try (symmetry; apply Z.mod_unique with (cell mod h); lia). }
  assert (Hy2 : y / 2 = cell / h /\ y mod 2 = idx / 2).
  { unfold y. destruct Ci as [->|[->|[->| ->]]];
      change (0 / 2) with 0; change (1 / 2) with 0;
      change (2 / 2) with 1; change (3 / 2) with 1;
      split; try (symmetry; apply Z.div_unique with 0; lia);
      try (symmetry; apply Z.div_unique with 1; lia);
      try (symmetry; apply Z.mod_unique with (cell / h); lia). }
  destruct Hx2 as [Hx2 Hxm]. destruct Hy2 as [Hy2 Hym].
  assert (Hi : 0 <= idx mod 2 < 2) by (apply Z.mod_pos_bound; lia).
  assert (Hi2 : 0 <= idx / 2 < 2).
  { split; [apply Z.div_pos; lia|apply Z.div_lt_upper_bound; lia]. }
  split; [unfold x; lia|]. split; [unfold y; lia|].
  split; [reflexivity|]. split; [rewrite Hx2, Hy2; lia|].
  rewrite quadrant_eq, Hxm, Hym. pose proof (Z.div_mod idx 2 ltac:(lia)). lia.
Qed.

(** C5.  For every environment map whose decoded pixel colours are floats as
    the hardware has them (any sign, infinities and NaN included) and for
    which [PrepareEnvMapQTree_nolock] builds the quad-tree: in every pair of
    adjacent retained levels, each component of each cell of the coarser
    level equals the sum of the four components of the corresponding cell
    of the finer level; and the retained levels are all the levels without
    the [the_last_required_lod] finest ones, every cell component of which
    is at most [0.01f * total_lum]. *)
Theorem build_qtree_sums_and_trim :
  forall (fuel : nat) (img : env_image) (q : qtree_t) (total : float) (lod : Z),
    (forall x y, valid3 (img_rgb img x y) = true) ->
    build_qtree fuel img = Ok (q, total, lod) ->
    exists (res0 : Z) (all : list (list fvec4)),
      qtree_all_levels fuel img = Ok (res0, all, total)
      /\ 0 <= lod
      /\ mips q = drop (Z.to_nat lod) all
      /\ (forall (k : nat) (coarse : list fvec4) (cell : nat) (v : fvec4) (idx : Z),
            mips q !! S k = Some coarse -> coarse !! cell = Some v -> 0 <= idx < 4 ->
            exists fine ch,
              mips q !! k = Some fine
              /\ fine !! Z.to_nat (child_cell (level_dim q (S k)) (Z.of_nat cell) idx)
                 = Some ch
              /\ fvec4_get v idx = fvec4_sum ch)
      /\ (forall (j : nat) (mip : list fvec4) (cell : nat) (v : fvec4) (idx : Z),
            (j < Z.to_nat lod)%nat -> all !! j = Some mip -> mip !! cell = Some v ->
            F32.le (fvec4_get v idx) (F32.mul F32.f0_01 total) = true).
Proof.
  intros fuel img q total lod Hpix Hrun. unfold build_qtree in Hrun.
  apply bind_Ok in Hrun as ([[res0 all] total'] & Hall & Hrun).
  apply bind_Ok in Hrun as (lod' & Hlod & Hrun).
  injection Hrun as <- <- <-.
  exists res0, all. split; [exact Hall|].
  destruct (qtree_all_levels_ok fuel img res0 all total' Hpix Hall)
    as [Htot [[-> ->]|(n & Hn & -> & Hinv & Hlen)]].
  { vm_compute in Hlod. discriminate. }
  pose proof (mul_threshold_nonneg total' Htot) as HT.
  set (threshold := F32.mul F32.f0_01 total') in *.
  replace 2 with (2 ^ (n - Z.of_nat (length all) + 1)) in Hlod
    by (rewrite Hlen; replace (n - n + 1) with 1 by lia; reflexivity).
  apply last_required_lod_spec in Hlod; [|lia].
  assert (Hrange : 0 <= lod' < n) by (destruct Hlod as [->|[? _]]; lia).
  split; [lia|]. cbn [mips res]. rewrite drop_levels_mips. cbn [mips].
  split; [reflexivity|]. split.
  - intros k coarse cell v idx Hco Hv Hidx.
    rewrite lookup_drop in Hco |- *.
    pose proof (lookup_lt_Some _ _ _ Hco) as Hk.
    destruct (lookup_lt_is_Some_2 all (Z.to_nat lod' + k) ltac:(lia)) as [fine Hf].
    exists fine.
    replace (Z.to_nat lod' + S k)%nat with (S (Z.to_nat lod' + k)) in Hco by lia.
    destruct Hinv as [Hlev Hlink].
    pose proof (Hlink _ _ _ Hf Hco) as Hsum.
    destruct (Hlev _ _ Hco) as [Hlc _].
    pose proof (lookup_lt_Some _ _ _ Hv) as Hcell.
    set (h := 2 ^ (n - 1 - Z.of_nat (S (Z.to_nat lod' + k)))) in *.
    assert (Hh : 0 < h) by (apply Z.pow_pos_nonneg; lia).
    assert (Hc : 2 ^ (n - 1 - Z.of_nat (Z.to_nat lod' + k)) = 2 * h).
    { rewrite pow2_half by lia. unfold h. do 2 f_equal. lia. }
    rewrite Hc in Hsum.
    unfold level_dim. cbn [res].
    rewrite (drop_levels_res _ _ n) by (cbn [res]; lia || reflexivity).
    rewrite dim_pow2 by lia.
    replace (2 ^ (n - Z.of_nat (Z.to_nat lod') - Z.of_nat (S k) - 1)) with h
      by (unfold h; f_equal; lia).
    destruct (child_cell_coords h (Z.of_nat cell) idx Hh ltac:(lia) Hidx)
      as (Hx & Hy & Hchild & Hcellx & Hquad).
    destruct (Hsum _ _ Hx Hy I) as (ch & v' & Hch & Hv' & Hget).
    rewrite half_double, Hcellx, Nat2Z.id, Hv in Hv'. injection Hv' as <-.
    exists ch. split; [exact Hf|]. split.
    + rewrite Hchild. exact Hch.
    + rewrite <- Hget, Hquad. reflexivity.
  - intros j mip cell v idx Hj Hmip Hv.
    destruct Hlod as [->|(Hpos & top & Htop & Hscan)]; [simpl in Hj; lia|].
    unfold F32.le.
    apply (below_threshold n all threshold (Z.to_nat lod') Hinv Hlen HT)
      with (d := (Z.to_nat lod' - j)%nat) (j := j) (mip := mip) (cell := cell);
      [|lia|exact Hmip|exact Hv].
    exists top. split; [exact Htop|]. rewrite Z2Nat.id by lia. exact Hscan.
Qed.

End QTreeFacts.

Lemma build_qtree_sums_and_trim_witness :
  exists (res0 : Z) (all : list (list fvec4)),
    qtree_all_levels 30 uniform_env = Ok (res0, all, snd (fst uniform_qtree))
    /\ 0 <= snd uniform_qtree
    /\ mips (fst (fst uniform_qtree)) = drop (Z.to_nat (snd uniform_qtree)) all
    /\ (forall (k : nat) (coarse : list fvec4) (cell : nat) (v : fvec4) (idx : Z),
          mips (fst (fst uniform_qtree)) !! S k = Some coarse ->
          coarse !! cell = Some v -> 0 <= idx < 4 ->
          exists fine ch,
            mips (fst (fst uniform_qtree)) !! k = Some fine
            /\ fine !! Z.to_nat (child_cell (level_dim (fst (fst uniform_qtree)) (S k))
                                   (Z.of_nat cell) idx)
               = Some ch
            /\ fvec4_get v idx = fvec4_sum ch)
    /\ (forall (j : nat) (mip : list fvec4) (cell : nat) (v : fvec4) (idx : Z),
          (j < Z.to_nat (snd uniform_qtree))%nat -> all !! j = Some mip ->
          mip !! cell = Some v ->
          F32.le (fvec4_get v idx) (F32.mul F32.f0_01 (snd (fst uniform_qtree))) = true).
Proof.
  apply (build_qtree_sums_and_trim 30 uniform_env (fst (fst uniform_qtree))
           (snd (fst uniform_qtree)) (snd uniform_qtree)).
  - intros x y. reflexivity.
  - vm_compute. reflexivity.
Defined.

(** The uniform 64 x 64 map: resolution 32 and five levels are built, the
    finest one is dropped. *)
Example uniform_qtree_levels :
  res (fst (fst uniform_qtree)) = 16
  /\ map length (mips (fst (fst uniform_qtree))) = [64; 16; 4; 1]%nat
  /\ snd uniform_qtree = 1.
Proof. vm_compute. repeat split; reflexivity. Qed.

(** * Further properties of the scene manager *)

(** ** Erasing from the sparse storage *)

Section StoreEraseFacts.
Context {A : Type}.
Implicit Types (s : SparseStorage.t A) (x : A).

Lemma get_erase_same s i : SparseStorage.get (SparseStorage.erase i s) i = None.
Proof.
  unfold SparseStorage.erase.
  destruct (SparseStorage.exists_ s i) eqn:He.
  - apply exists_get in He as [y Hy]. apply get_Some_range in Hy as [Hi Hl].
    rewrite get_spec. destruct (Z.ltb_spec i 0); [reflexivity|].
    unfold SparseStorage.t in *.
    rewrite list_lookup_insert_eq by (apply lookup_lt_Some in Hl; exact Hl).
    reflexivity.
  - unfold SparseStorage.exists_ in He.
    destruct (SparseStorage.get s i); [discriminate|reflexivity].
Qed.

Lemma get_erase_other s i j :
  i <> j -> SparseStorage.get (SparseStorage.erase i s) j = SparseStorage.get s j.
Proof.
  intros Hne. unfold SparseStorage.erase.
  destruct (SparseStorage.exists_ s i) eqn:He; [|reflexivity].
  apply exists_get in He as [y Hy]. apply get_Some_range in Hy as [Hi _].
  rewrite !get_spec. destruct (Z.ltb_spec j 0); [reflexivity|].
  unfold SparseStorage.t in *.
  rewrite list_lookup_insert_ne by lia. reflexivity.
Qed.

Lemma exists_erase_same s i : SparseStorage.exists_ (SparseStorage.erase i s) i = false.
Proof. unfold SparseStorage.exists_. now rewrite get_erase_same. Qed.

End StoreEraseFacts.

(** ** The environment *)

(** X1.  [GetEnvironment] returns what [SetEnvironment] stored, and
    [SetEnvironment] changes nothing but the seven fields it copies: the
    number of quad-tree levels, the quad-tree, the environment light and
    the lights stay as they were until the next [Finalize]. *)
Theorem GetEnvironment_SetEnvironment (env : environment_desc_t) (s : Scene) :
  GetEnvironment (SetEnvironment env s) = env
  /\ qtree_levels (env_ (SetEnvironment env s)) = qtree_levels (env_ s)
  /\ env_map_qtree_ (SetEnvironment env s) = env_map_qtree_ s
  /\ env_map_light_ (SetEnvironment env s) = env_map_light_ s
  /\ physical_sky_texture_ (SetEnvironment env s) = physical_sky_texture_ s
  /\ lights_ (SetEnvironment env s) = lights_ s.
Proof. destruct env. repeat split. Qed.

(** ** Lights *)

Section MoreLightFacts.
Context `{Constants} `{Externals}.

(** X2.  [AddLight] for a sphere light returns a handle that was not live,
    stores under it a sphere light with the descriptor's colour and flags,
    keeps every light that was live under its handle, appends the handle to
    [li_indices_], appends it to [visible_lights_] exactly when the
    descriptor asks for a visible light, and never touches
    [blocker_lights_]. *)
Theorem AddLight_sphere_stored (_l : sphere_light_desc_t) (s : Scene) :
  let h := fst (AddLight_sphere _l s) in
  let s' := snd (AddLight_sphere _l s) in
  SparseStorage.get (lights_ s) h = None
  /\ (exists l, SparseStorage.get (lights_ s') h = Some l
                /\ l_type l = LIGHT_TYPE_SPHERE
                /\ visible l = sl_visible _l
                /\ cast_shadow l = sl_cast_shadow _l
                /\ sky_portal l = false
                /\ col l = sl_color _l)
  /\ (forall i l0, SparseStorage.get (lights_ s) i = Some l0 ->
                   SparseStorage.get (lights_ s') i = Some l0)
  /\ li_indices_ s' = li_indices_ s ++ [h]
  /\ visible_lights_ s'
     = (if sl_visible _l then visible_lights_ s ++ [h] else visible_lights_ s)
  /\ blocker_lights_ s' = blocker_lights_ s.
Proof.
  unfold AddLight_sphere.
  match goal with
  | |- context [push_light ?l s] => set (l1 := l)
  end.
  pose proof (push_light_lights l1 s) as Hl.
  pose proof (push_light_index l1 s) as Hi.
  pose proof (push_light_li_indices l1 s) as Hli.
  pose proof (push_light_visible_lights l1 s) as Hv.
  assert (Hb : blocker_lights_ (snd (push_light l1 s)) = blocker_lights_ s).
  { unfold push_light. destruct (SparseStorage.push l1 (lights_ s)). reflexivity. }
  destruct (push_light l1 s) as [h s1]. cbn [fst snd] in *.
  assert (Hs' : forall s2, s2 = (if sl_visible _l
                                 then with_visible_lights (visible_lights_ s1 ++ [h]) s1
                                 else s1) ->
                lights_ s2 = lights_ s1 /\ li_indices_ s2 = li_indices_ s1
                /\ blocker_lights_ s2 = blocker_lights_ s1
                /\ visible_lights_ s2
                   = (if sl_visible _l then visible_lights_ s1 ++ [h]
                      else visible_lights_ s1)).
  { intros s2 ->. destruct (sl_visible _l); repeat split. }
  destruct (Hs' _ eq_refl) as (E1 & E2 & E3 & E4).
  cbv zeta. cbn [fst snd]. rewrite E1, E2, E3, E4, Hl, Hli, Hv, Hb. subst h.
  split; [apply push_fresh|]. split.
  - exists l1. split; [apply get_push_same|]. repeat split.
  - split; [intros i l0; apply get_push_live|]. repeat split.
Qed.

(** X3.  [RemoveLight] frees the slot of the light and nothing else: the
    handle is no longer live and the other lights are untouched, but
    [li_indices_], [visible_lights_] and [blocker_lights_] are left as they
    were, so they go on listing the handle of the removed light. *)
Theorem RemoveLight_keeps_index_lists (i : Z) (s : Scene) :
  let s' := RemoveLight_nolock i s in
  SparseStorage.exists_ (lights_ s') i = false
  /\ (forall j, j <> i ->
        SparseStorage.get (lights_ s') j = SparseStorage.get (lights_ s) j)
  /\ li_indices_ s' = li_indices_ s
  /\ visible_lights_ s' = visible_lights_ s
  /\ blocker_lights_ s' = blocker_lights_ s.
Proof.
  unfold RemoveLight_nolock.
  destruct (SparseStorage.exists_ (lights_ s) i) eqn:He; cbn [negb]; cbv zeta.
  - split; [apply exists_erase_same|]. split; [|repeat split].
    intros j Hne. apply get_erase_other. congruence.
  - split; [exact He|]. repeat split.
Qed.

End MoreLightFacts.

(** ** Materials *)

Section MoreMaterialFacts.
Context `{Constants} `{Externals}.

(** X4.  [AddMaterial] returns a handle that was not live and stores the
    node under it; every material that was live keeps its handle and its
    content.  For a Mix node the two child handles of the descriptor are
    what the slots [MIX_MAT1] and [MIX_MAT2] of the stored node hold (the
    later write of the normal-map slot does not clobber them), and the flag
    word is [MAT_FLAG_MIX_ADD] or zero. *)
Theorem AddMaterial_stored (m : shading_node_desc_t) (s : Scene) :
  constants_ok = true ->
  let h := fst (AddMaterial m s) in
  let s' := snd (AddMaterial m s) in
  SparseStorage.get (materials_ s) h = None
  /\ (exists mat, SparseStorage.get (materials_ s') h = Some mat
                  /\ type mat = sn_type m
                  /\ base_color mat = sn_base_color m
                  /\ (sn_type m = Mix ->
                      tex_slot mat MIX_MAT1 = fst (sn_mix_materials m)
                      /\ tex_slot mat MIX_MAT2 = snd (sn_mix_materials m)
                      /\ flags mat = (if sn_mix_add m then MAT_FLAG_MIX_ADD else 0)))
  /\ (forall i m0, SparseStorage.get (materials_ s) i = Some m0 ->
                   SparseStorage.get (materials_ s') i = Some m0).
Proof.
  intros Hok. rewrite AddMaterial_eq. cbv zeta. cbn [fst snd materials_ with_materials].
  split; [apply push_fresh|]. split; [|intros i m0; apply get_push_live].
  exists (make_material m). split; [apply get_push_same|].
  split; [reflexivity|]. split; [reflexivity|]. intros Hmix.
  destruct (constants_ok_slots Hok) as (H12 & Hn1 & Hn2 & Hl1 & Hl2 & _ & _ & _ & Hadd).
  unfold tex_slot, make_material. cbn [textures flags]. rewrite Hmix.
  split; [|split].
  - rewrite list_lookup_insert_ne by congruence.
    rewrite list_lookup_insert_ne by congruence.
    rewrite list_lookup_insert_eq; [reflexivity|].
    rewrite !length_insert. unfold material_zero. cbn [textures].
    rewrite length_replicate. exact Hl1.
  - rewrite list_lookup_insert_ne by congruence.
    rewrite list_lookup_insert_eq; [reflexivity|].
    rewrite !length_insert. unfold material_zero. cbn [textures].
    rewrite length_replicate. exact Hl2.
  - unfold lor_if. destruct (sn_mix_add m); [|reflexivity].
    rewrite Hadd. reflexivity.
Qed.

End MoreMaterialFacts.

Lemma AddMaterial_stored_witness :
  let m := mix_node_desc 0 1 in
  let s := Scene_new false false false in
  let h := fst (@AddMaterial ray_constants ray_externals m s) in
  let s' := snd (@AddMaterial ray_constants ray_externals m s) in
  SparseStorage.get (materials_ s) h = None
  /\ (exists mat, SparseStorage.get (materials_ s') h = Some mat
                  /\ type mat = sn_type m
                  /\ base_color mat = sn_base_color m
                  /\ (sn_type m = Mix ->
                      tex_slot mat (@MIX_MAT1 ray_constants) = fst (sn_mix_materials m)
                      /\ tex_slot mat (@MIX_MAT2 ray_constants) = snd (sn_mix_materials m)
                      /\ flags mat = (if sn_mix_add m
                                      then @MAT_FLAG_MIX_ADD ray_constants else 0)))
  /\ (forall i m0, SparseStorage.get (materials_ s) i = Some m0 ->
                   SparseStorage.get (materials_ s') i = Some m0).
Proof.
  apply (@AddMaterial_stored ray_constants ray_externals (mix_node_desc 0 1)
           (Scene_new false false false)).
  reflexivity.
Defined.

(** ** Textures *)

Section MoreTextureFacts.
Context `{Constants} `{Externals}.

Lemma read_at_in_range {A : Type} (l : list A) (i : Z) :
  0 <= i < Z.of_nat (length l) -> exists x, read_at l i = Ok x /\ l !! Z.to_nat i = Some x.
Proof.
  intros Hi. unfold read_at.
  destruct (Z.ltb_spec i 0); [lia|]. destruct (Z.leb_spec (Z.of_nat (length l)) i); [lia|].
  cbn [orb]. destruct (lookup_lt_is_Some_2 l (Z.to_nat i) ltac:(lia)) as [x Hx].
  rewrite Hx. exists x. auto.
Qed.

Lemma repack_normalmap_spec (channels : Z) (data : list Z) :
  3 <= channels ->
  forall (idx : list Z),
    (forall i, In i idx -> 0 <= i /\ channels * i + 2 < Z.of_nat (length data)) ->
    exists out z,
      repack_normalmap channels data idx = Ok (out, z)
      /\ length out = (2 * length idx)%nat
      /\ (forall (k : nat) i, idx !! k = Some i ->
            out !! (2 * k)%nat = data !! Z.to_nat (channels * i)
            /\ out !! (2 * k + 1)%nat = data !! Z.to_nat (channels * i + 1))
      /\ (z = true <->
          exists i b, In i idx /\ data !! Z.to_nat (channels * i + 2) = Some b /\ b < 250).
Proof.
  intros Hch. induction idx as [|i idx IH]; intros Hin.
  - exists [], false. split; [reflexivity|]. split; [reflexivity|].
    split; [intros k i Hk; discriminate|].
    split; [discriminate|intros (i & b & [] & _)].
  - destruct (IH ltac:(intros j Hj; apply Hin; right; exact Hj))
      as (out & z & Hrun & Hlen & Hout & Hz).
    destruct (Hin i ltac:(left; reflexivity)) as [Hi0 Hi2].
    destruct (read_at_in_range data (channels * i) ltac:(nia)) as (r & Hr & Hr').
    destruct (read_at_in_range data (channels * i + 1) ltac:(nia)) as (g & Hg & Hg').
    destruct (read_at_in_range data (channels * i + 2) ltac:(nia)) as (b & Hb & Hb').
    exists (r :: g :: out), ((b <? 250) || z).
    split.
    { cbn [repack_normalmap]. unfold repack_pixel. rewrite Hr, Hg, Hb. cbn [bind].
      rewrite Hrun. reflexivity. }
    split; [cbn [length]; lia|]. split.
    + intros [|k] j Hk.
      * injection Hk as <-. cbn. rewrite Hr', Hg'. auto.
      * replace (2 * S k)%nat with (S (S (2 * k))) by lia.
        replace (2 * S k + 1)%nat with (S (S (2 * k + 1))) by lia.
        cbn [lookup list_lookup]. apply (Hout k j). exact Hk.
    + rewrite orb_true_iff, Hz. split.
      * intros [Hlt|(j & c & Hj & Hc & Hlt)].
        -- exists i, b. split; [left; reflexivity|]. split; [exact Hb'|].
           apply Z.ltb_lt. exact Hlt.
        -- exists j, c. split; [right; exact Hj|]. auto.
      * intros (j & c & [<-|Hj] & Hc & Hlt).
        -- left. rewrite Hb' in Hc. injection Hc as <-. apply Z.ltb_lt. exact Hlt.
        -- right. exists j, c. auto.
Qed.

(** X5.  A normal map given with three or four channels whose data holds
    all its pixels is repacked without any out-of-bounds read: it goes to
    the two-channel atlas (2, or 6 with compression), the uploaded data
    keeps exactly the first two channels of every pixel, and [recostruct_z]
    is set exactly when the third channel of some pixel is below 250. *)
Theorem choose_atlas_normalmap (use_compression : bool) (_t : tex_desc_t) :
  td_is_normalmap _t = true ->
  td_format _t = RGBA8888 \/ td_format _t = RGB888 ->
  0 <= td_w _t * td_h _t ->
  format_channels (td_format _t) * (td_w _t * td_h _t) <= Z.of_nat (length (td_data _t)) ->
  exists out z,
    choose_atlas use_compression _t = Ok (if use_compression then 6 else 2, out, z)
    /\ Z.of_nat (length out) = 2 * (td_w _t * td_h _t)
    /\ (forall i, 0 <= i < td_w _t * td_h _t ->
          out !! Z.to_nat (2 * i)
          = td_data _t !! Z.to_nat (format_channels (td_format _t) * i)
          /\ out !! Z.to_nat (2 * i + 1)
             = td_data _t !! Z.to_nat (format_channels (td_format _t) * i + 1))
    /\ (z = true <->
        exists i b, 0 <= i < td_w _t * td_h _t
                    /\ td_data _t !! Z.to_nat (format_channels (td_format _t) * i + 2)
                       = Some b
                    /\ b < 250).
Proof.
  intros Hnm Hfmt Hn Hdata.
  set (ch := format_channels (td_format _t)) in *.
  assert (Hch : 3 <= ch) by (unfold ch; destruct Hfmt as [-> | ->]; simpl; lia).
  assert (Hidx : forall i, In i (pixel_indices (td_w _t) (td_h _t))
                           <-> 0 <= i < td_w _t * td_h _t).
  { intros i. unfold pixel_indices. rewrite in_map_iff. split.
    - intros (k & <- & Hk). apply in_seq in Hk. lia.
    - intros Hi. exists (Z.to_nat i). split; [lia|]. apply in_seq. lia. }
  destruct (repack_normalmap_spec ch (td_data _t) Hch
              (pixel_indices (td_w _t) (td_h _t)))
    as (out & z & Hrun & Hlen & Hout & Hz).
  { intros i Hi. apply Hidx in Hi. nia. }
  exists out, z. split.
  { unfold choose_atlas. rewrite Hnm.
    destruct Hfmt as [Hf|Hf]; rewrite Hf; cbn [negb];
      unfold ch in Hrun; rewrite Hf in Hrun; cbn [format_channels] in Hrun;
      rewrite Hrun; reflexivity. }
  split.
  { rewrite Hlen. unfold pixel_indices. rewrite length_map, length_seq. lia. }
  split.
  - intros i Hi.
    assert (Hk : pixel_indices (td_w _t) (td_h _t) !! Z.to_nat i = Some i).
    { unfold pixel_indices. rewrite list_lookup_fmap, lookup_seq_lt by lia.
      cbn. f_equal. lia. }
    destruct (Hout _ _ Hk) as [Hout0 Hout1].
    replace (Z.to_nat (2 * i)) with (2 * Z.to_nat i)%nat by lia.
    replace (Z.to_nat (2 * i + 1)) with (2 * Z.to_nat i + 1)%nat by lia.
    auto.
  - rewrite Hz. split; intros (i & b & Hi & Hb); exists i, b;
      (split; [apply Hidx; exact Hi|exact Hb]).
Qed.

End MoreTextureFacts.

Lemma choose_atlas_normalmap_witness :
  exists out z,
    choose_atlas false normalmap_tex = Ok (2, out, z)
    /\ Z.of_nat (length out) = 2 * (td_w normalmap_tex * td_h normalmap_tex)
    /\ (forall i, 0 <= i < td_w normalmap_tex * td_h normalmap_tex ->
          out !! Z.to_nat (2 * i)
          = td_data normalmap_tex
              !! Z.to_nat (format_channels (td_format normalmap_tex) * i)
          /\ out !! Z.to_nat (2 * i + 1)
             = td_data normalmap_tex
                 !! Z.to_nat (format_channels (td_format normalmap_tex) * i + 1))
    /\ (z = true <->
        exists i b, 0 <= i < td_w normalmap_tex * td_h normalmap_tex
                    /\ td_data normalmap_tex
                         !! Z.to_nat (format_channels (td_format normalmap_tex) * i + 2)
                       = Some b
                    /\ b < 250).
Proof.
  apply (choose_atlas_normalmap false normalmap_tex).
  - reflexivity.
  - right. reflexivity.
  - vm_compute. discriminate.
  - vm_compute. discriminate.
Defined.

Section AtlasTextureFacts.
Context `{Constants} `{Externals}.

(** X6.  An RGBA8888 texture (not a normal map) that asks for mipmaps is
    refused whenever the mips would have to be generated at once
    (compression in use, or no image blit): [AddAtlasTexture_nolock]
    returns [InvalidTextureHandle], stores no texture record and logs
    nothing; the region it allocated for level 0 in atlas 0 before noticing
    stays allocated. *)
Theorem AddAtlasTexture_rgba_mips_refused (_t : tex_desc_t) (s : Scene)
    (st : atlas_state) :
  td_format _t = RGBA8888 -> td_is_normalmap _t = false ->
  td_generate_mipmaps _t = true ->
  (use_tex_compression_ s && negb (td_force_no_compression _t))
  || negb image_blit_supported = true ->
  read_at (tex_atlases_ s) 0 = Ok st ->
  AddAtlasTexture_nolock _t s
  = Ok (InvalidIndex,
        with_tex_atlases
          (<[0%nat := snd (atlas_Allocate 0 st (td_w _t, td_h _t) (td_data _t))]>
             (tex_atlases_ s)) s).
Proof.
  intros Hfmt Hnm Hmips Hnow Hst. unfold AddAtlasTexture_nolock, choose_atlas.
  rewrite Hfmt, Hnm, Hmips. cbn [negb bind]. rewrite Hst. cbn [bind].
  destruct (atlas_Allocate 0 st (td_w _t, td_h _t) (td_data _t)) as [[page pos] st'].
  cbn [snd andb]. change (Z.to_nat 0) with 0%nat.
  destruct (page =? -1); [reflexivity|]. rewrite Hnow. reflexivity.
Qed.



End AtlasTextureFacts.

Lemma AddAtlasTexture_rgba_mips_refused_witness :
  @AddAtlasTexture_nolock ray_constants ray_externals rgba_mips_tex
    (Scene_new false false true)
  = Ok (InvalidIndex,
        with_tex_atlases
          (<[0%nat := snd (@atlas_Allocate ray_externals 0 [] (8, 8)
                             (td_data rgba_mips_tex))]>
             (tex_atlases_ (Scene_new false false true)))
          (Scene_new false false true)).
Proof.
  apply (@AddAtlasTexture_rgba_mips_refused ray_constants ray_externals rgba_mips_tex
           (Scene_new false false true) []); reflexivity.
Defined.



(** ** Meshes *)

Section MoreMeshFacts.
Context `{Constants} `{Externals}.

Lemma write_all_length {A : Type} (x : A) :
  forall (idx : list Z) (l l' : list A),
    write_all idx x l = Ok l' -> length l' = length l.
Proof.
  induction idx as [|i idx IH]; intros l l' Hrun; cbn [write_all] in Hrun.
  - injection Hrun as <-. reflexivity.
  - apply bind_Ok in Hrun as (l1 & Hw & Hrun).
    apply write_at_Ok in Hw as [_ ->]. rewrite (IH _ _ Hrun).
    apply length_insert.
Qed.

Lemma init_tri_materials_length (fuel : nat) (mats : SparseStorage.t material_t) :
  forall (shapes : list shape_desc_t) (l l' : list tri_mat_data_t),
    init_tri_materials fuel mats shapes l = Ok l' -> length l' = length l.
Proof.
  induction shapes as [|sh shapes IH]; intros l l' Hrun; cbn [init_tri_materials] in Hrun.
  - injection Hrun as <-. reflexivity.
  - apply bind_Ok in Hrun as (l1 & Hsh & Hrun). rewrite (IH _ _ Hrun).
    unfold init_shape_materials in Hsh.
    apply bind_Ok in Hsh as (bf & _ & Hsh). apply bind_Ok in Hsh as (bb & _ & Hsh).
    apply (write_all_length _ _ _ _ Hsh).
Qed.

Lemma offset_seq (a b n : nat) :
  map (fun k => Z.of_nat a + Z.of_nat k) (seq b n) = map Z.of_nat (seq (a + b) n).
Proof.
  revert b. induction n as [|n IH]; intros b; [reflexivity|].
  cbn [seq map]. rewrite IH. f_equal; [lia|]. do 2 f_equal. lia.
Qed.

(** What a successful [AddMesh] leaves behind. *)
Lemma AddMesh_effect (fuel : nat) (m : mesh_desc_t) (s : Scene) (h : Z) (s' : Scene) :
  AddMesh fuel m s = Ok (h, s') ->
  exists (new : list tri_mat_data_t) (mesh : mesh_t),
    length new = Z.to_nat (md_vtx_indices_count m / 3)
    /\ tri_materials_ s' = tri_materials_ s ++ new
    /\ tri_materials_cpu_ s' = tri_materials_cpu_ s ++ new
    /\ length (vtx_indices_ s')
       = (length (vtx_indices_ s) + length (md_vtx_indices m))%nat
    /\ SparseStorage.get (meshes_ s) h = None
    /\ SparseStorage.get (meshes_ s') h = Some mesh
    /\ vert_index mesh = u32 (Z.of_nat (length (vtx_indices_ s)))
    /\ vert_count mesh = u32 (md_vtx_indices_count m)
    /\ materials_ s' = materials_ s.
Proof.
  unfold AddMesh. intros Hrun.
  destruct (if use_hwrt_ s then ([], 0, []) else PreprocessMesh m)
    as [[new_nodes new_tris_size] new_tri_indices].
  apply bind_Ok in Hrun as (bbox & _ & Hrun).
  apply bind_Ok in Hrun as (new & Hnew & Hrun).
  apply init_tri_materials_length in Hnew. rewrite length_replicate in Hnew.
  match type of Hrun with
  | context [SparseStorage.push ?r ?ms] =>
      set (mesh := r) in *;
      pose proof (push_fresh mesh ms) as Hfresh;
      pose proof (get_push_same mesh ms) as Hsame;
      destruct (SparseStorage.push mesh ms) as [mesh_i meshes'] eqn:Hp
  end.
  cbn [fst snd] in Hfresh, Hsame.
  injection Hrun as <- <-.
  exists new, mesh. split; [exact Hnew|].
  destruct (use_hwrt_ s); cbn;
    rewrite ?length_app, ?length_map; repeat split; try assumption;
    unfold md_vtx_indices_count; rewrite ?length_map; reflexivity.
Qed.

(** X9.  [AddMesh] appends the same [vtx_indices_count / 3] records to the
    device array [tri_materials_] and to its host copy
    [tri_materials_cpu_]: two arrays that agree before the call agree after
    it, as the assertion in the code states. *)
Theorem AddMesh_tri_materials_in_step (fuel : nat) (m : mesh_desc_t) (s : Scene)
    (h : Z) (s' : Scene) :
  AddMesh fuel m s = Ok (h, s') ->
  exists new,
    length new = Z.to_nat (md_vtx_indices_count m / 3)
    /\ tri_materials_ s' = tri_materials_ s ++ new
    /\ tri_materials_cpu_ s' = tri_materials_cpu_ s ++ new
    /\ (tri_materials_ s = tri_materials_cpu_ s ->
        tri_materials_ s' = tri_materials_cpu_ s').
Proof.
  intros Hrun.
  destruct (AddMesh_effect _ _ _ _ _ Hrun) as (new & mesh & Hlen & Hg & Hc & _).
  exists new. split; [exact Hlen|]. split; [exact Hg|]. split; [exact Hc|].
  intros Heq. rewrite Hg, Hc, Heq. reflexivity.
Qed.

(** X10.  When every mesh has a multiple of three indices, the index array
    is three times as long as the array of triangle-material records, and
    [AddMesh] keeps it so; the triangles that [AddMeshInstance] visits for
    the new mesh, [vert_index / 3] up to [(vert_index + vert_count) / 3],
    are then exactly the records this call appended. *)
Theorem AddMesh_triangle_range (fuel : nat) (m : mesh_desc_t) (s : Scene)
    (h : Z) (s' : Scene) :
  AddMesh fuel m s = Ok (h, s') ->
  md_vtx_indices_count m mod 3 = 0 ->
  Z.of_nat (length (vtx_indices_ s)) = 3 * Z.of_nat (length (tri_materials_cpu_ s)) ->
  Z.of_nat (length (vtx_indices_ s)) + md_vtx_indices_count m < 2 ^ 32 ->
  Z.of_nat (length (vtx_indices_ s')) = 3 * Z.of_nat (length (tri_materials_cpu_ s'))
  /\ exists mesh,
       SparseStorage.get (meshes_ s') h = Some mesh
       /\ mesh_tris mesh
          = map Z.of_nat (seq (length (tri_materials_cpu_ s))
                              (length (tri_materials_cpu_ s')
                               - length (tri_materials_cpu_ s))).
Proof.
  intros Hrun Hmod Hinv Hsmall.
  destruct (AddMesh_effect _ _ _ _ _ Hrun)
    as (new & mesh & Hlen & _ & Hc & Hv & _ & Hmesh & Hvi & Hvc & _).
  unfold md_vtx_indices_count in *.
  set (n := Z.of_nat (length (md_vtx_indices m))) in *.
  set (v := Z.of_nat (length (vtx_indices_ s))) in *.
  set (t := Z.of_nat (length (tri_materials_cpu_ s))) in *.
  assert (Hn3 : n = 3 * (n / 3)).
  { pose proof (Z.div_mod n 3 ltac:(lia)). lia. }
  assert (Hn0 : 0 <= n / 3) by (apply Z.div_pos; lia).
  split.
  - rewrite Hc, length_app, Hv, Hlen. lia.
  - exists mesh. split; [exact Hmesh|].
    unfold mesh_tris. rewrite Hvi, Hvc. unfold u32.
    change (2 ^ 32) with 4294967296 in *.
    rewrite (Z.mod_small v), (Z.mod_small n), (Z.mod_small (v + n)) by lia.
    assert (Hfirst : v / 3 = t).
    { rewrite Hinv. replace (3 * t) with (t * 3) by ring. apply Z.div_mul. lia. }
    assert (Hstop : (v + n) / 3 = t + n / 3).
    { rewrite Hinv, Hn3 at 1. replace (3 * t + 3 * (n / 3)) with ((t + n / 3) * 3) by ring.
      apply Z.div_mul. lia. }
    rewrite Hfirst, Hstop, Hc, length_app, Hlen.
    replace (Z.to_nat (t + n / 3 - t)) with (Z.to_nat (n / 3)) by lia.
    replace (length (tri_materials_cpu_ s) + Z.to_nat (n / 3)
             - length (tri_materials_cpu_ s))%nat with (Z.to_nat (n / 3)) by lia.
    unfold t. rewrite (offset_seq _ 0), Nat.add_0_r. reflexivity.
Qed.

End MoreMeshFacts.

Lemma AddMesh_tri_materials_in_step_witness :
  exists new,
    length new = Z.to_nat (md_vtx_indices_count (two_tri_mesh 0) / 3)
    /\ tri_materials_ (snd mesh_added) = tri_materials_ diffuse_scene ++ new
    /\ tri_materials_cpu_ (snd mesh_added) = tri_materials_cpu_ diffuse_scene ++ new
    /\ (tri_materials_ diffuse_scene = tri_materials_cpu_ diffuse_scene ->
        tri_materials_ (snd mesh_added) = tri_materials_cpu_ (snd mesh_added)).
Proof.
  apply (@AddMesh_tri_materials_in_step ray_constants ray_externals 8 (two_tri_mesh 0)
           diffuse_scene (fst mesh_added) (snd mesh_added)).
  vm_compute. reflexivity.
Defined.

Lemma AddMesh_triangle_range_witness :
  Z.of_nat (length (vtx_indices_ (snd mesh_added)))
  = 3 * Z.of_nat (length (tri_materials_cpu_ (snd mesh_added)))
  /\ exists mesh,
       SparseStorage.get (meshes_ (snd mesh_added)) (fst mesh_added) = Some mesh
       /\ mesh_tris mesh
          = map Z.of_nat (seq (length (tri_materials_cpu_ diffuse_scene))
                              (length (tri_materials_cpu_ (snd mesh_added))
                               - length (tri_materials_cpu_ diffuse_scene))).
Proof.
  apply (@AddMesh_triangle_range ray_constants ray_externals 8 (two_tri_mesh 0)
           diffuse_scene (fst mesh_added) (snd mesh_added)).
  - vm_compute. reflexivity.
  - reflexivity.
  - reflexivity.
  - vm_compute. reflexivity.
Defined.

(** ** Finalize *)

Section MoreFinalizeFacts.
Context `{Constants} `{Externals}.




End MoreFinalizeFacts.


(** ** The sky environment map *)

Section SkyFacts.
Context `{Constants} `{Externals}.


End SkyFacts.


(** ** The levels of the environment quad-tree *)

Section QTreeShape.
Context `{Externals}.




End QTreeShape.


(** ** [clamp] on floats *)

Section ClampFacts.

Lemma SFcompare_antisym (a b : float) :
  SFcompare b a = option_map CompOpp (SFcompare a b).
Proof.
  destruct a as [sa|sa| |sa ma ea]; destruct b as [sb|sb| |sb mb eb];
    try reflexivity;
    try (destruct sa; reflexivity); try (destruct sb; reflexivity);
    try (destruct sa, sb; reflexivity).
  unfold SFcompare.
  change (PosDef.Pos.compare_cont Eq mb ma) with (Pos.compare mb ma).
  change (PosDef.Pos.compare_cont Eq ma mb) with (Pos.compare ma mb).
  rewrite (Z.compare_antisym ea eb), (Pos.compare_antisym ma mb).
  destruct sa, sb; cbn [option_map]; try reflexivity;
    destruct (ea ?= eb); cbn [CompOpp]; try reflexivity;
    destruct (ma ?= mb)%positive; reflexivity.
Qed.

Lemma SFcompare_not_nan (a b : float) :
  is_nan a = false -> is_nan b = false -> exists c, SFcompare a b = Some c.
Proof.
  destruct a, b; try discriminate; intros _ _; cbn; eauto.
Qed.

Lemma SFcompare_refl (a : float) : is_nan a = false -> SFcompare a a = Some Eq.
Proof.
  destruct a as [s|s| |s m e]; try discriminate; intros _; cbn;
    try (destruct s; reflexivity).
  rewrite Z.compare_refl.
  change (PosDef.Pos.compare_cont Eq m m) with (Pos.compare m m).
  rewrite Pos.compare_refl. destruct s; reflexivity.
Qed.

Lemma SFltb_false_le (a b : float) :
  is_nan a = false -> is_nan b = false -> SFltb a b = false -> SFleb b a = true.
Proof.
  intros Ha Hb. unfold SFltb, SFleb. rewrite (SFcompare_antisym a b).
  destruct (SFcompare_not_nan a b Ha Hb) as [c ->]. destruct c; cbn; congruence.
Qed.

(** X14.  [clamp(val, lo, hi)] with bounds [lo <= hi] that are numbers
    returns, for every [val] that is a number (infinities included), a
    value between [lo] and [hi]; for a NaN it returns the NaN: [clamp] does
    not turn a NaN into a number. *)
Theorem clamp_between (val lo hi : float) :
  is_nan lo = false -> is_nan hi = false -> F32.le lo hi = true ->
  (is_nan val = false ->
   F32.le lo (F32.clamp val lo hi) = true /\ F32.le (F32.clamp val lo hi) hi = true)
  /\ (is_nan val = true -> is_nan (F32.clamp val lo hi) = true).
Proof.
  intros Hlo Hhi Hle.
  assert (Hrefl : forall a, is_nan a = false -> F32.le a a = true).
  { intros a Ha. unfold F32.le, SFleb. rewrite SFcompare_refl by exact Ha. reflexivity. }
  split.
  - intros Hval.
    assert (Hy : is_nan (F32.max val lo) = false /\ F32.le lo (F32.max val lo) = true).
    { unfold F32.max, F32.lt. destruct (SFltb val lo) eqn:E.
      - split; [exact Hlo|apply Hrefl; exact Hlo].
      - split; [exact Hval|]. apply SFltb_false_le; assumption. }
    destruct Hy as [Hny Hly]. unfold F32.clamp.
    generalize dependent (F32.max val lo). intros y Hny Hly.
    unfold F32.min, F32.lt. destruct (SFltb hi y) eqn:E.
    + split; [exact Hle|apply Hrefl; exact Hhi].
    + split; [exact Hly|]. apply SFltb_false_le; assumption.
  - intros Hval. destruct val; try discriminate.
    destruct lo, hi; reflexivity.
Qed.

End ClampFacts.

Lemma clamp_between_witness :
  (is_nan F32.two = false ->
   F32.le F32.zero (F32.clamp F32.two F32.zero F32.one) = true
   /\ F32.le (F32.clamp F32.two F32.zero F32.one) F32.one = true)
  /\ (is_nan F32.two = true -> is_nan (F32.clamp F32.two F32.zero F32.one) = true).
Proof. apply (clamp_between F32.two F32.zero F32.one); reflexivity. Defined.

(** ** The mip images *)

Section MipFacts.

Lemma mip_res_bounds (r : Z) : 1 <= r -> 1 <= mip_res r /\ 2 * mip_res r <= Z.max r 2.
Proof.
  intros Hr. unfold mip_res. pose proof (Z.quot_div_nonneg r 2 ltac:(lia) ltac:(lia)) as Hq.
  rewrite Hq. pose proof (Z.div_mod r 2 ltac:(lia)). pose proof (Z.mod_pos_bound r 2 ltac:(lia)).
  lia.
Qed.

Lemma src_index_in_range (w h x y dx dy : Z) :
  1 <= w -> 1 <= h -> 0 <= x < mip_res w -> 0 <= y < mip_res h ->
  0 <= dx -> 0 <= dy ->
  0 <= Z.min (2 * y + dy) (h - 1) * w + Z.min (2 * x + dx) (w - 1) < w * h.
Proof.
  intros Hw Hh Hx Hy Hdx Hdy.
  set (yy := Z.min (2 * y + dy) (h - 1)). set (xx := Z.min (2 * x + dx) (w - 1)).
  assert (0 <= yy <= h - 1) by (unfold yy; lia).
  assert (0 <= xx <= w - 1) by (unfold xx; lia).
  nia.
Qed.

Lemma min_unclamped (w x : Z) : 1 <= w -> 0 <= x < mip_res w -> Z.min (2 * x + 0) (w - 1) = 2 * x + 0.
Proof.
  intros Hw Hx. pose proof (mip_res_bounds w Hw) as [_ Hb].
  destruct (Z.eq_dec w 1) as [->|Hne]; [change (mip_res 1) with 1 in Hx; lia|]. lia.
Qed.

Lemma for_each_app {A : Type} (body : Z -> A -> result A) (l1 l2 : list Z) (a : A) :
  for_each (l1 ++ l2) body a = let* a' := for_each l1 body a in for_each l2 body a'.
Proof.
  revert a. induction l1 as [|i l1 IH]; intros a; [reflexivity|].
  cbn [for_each app]. destruct (body i a) as [a1|why]; [apply IH|reflexivity].
Qed.

(** One texel: the four reads are in range. *)
Lemma mip_texel_ok (N : Z) (src : list texel) (w h x y : Z) (dst : list texel) :
  1 <= w -> 1 <= h -> Z.of_nat (length src) = w * h ->
  0 <= x < mip_res w -> 0 <= y < mip_res h ->
  exists c00 c10 c11 c01,
    src_texel src w h x y 0 0 = Some c00 /\ src_texel src w h x y 1 0 = Some c10 /\
    src_texel src w h x y 1 1 = Some c11 /\ src_texel src w h x y 0 1 = Some c01 /\
    mip_texel N src w h x y dst = Ok (dst ++ [average4 N c00 c10 c11 c01]).
Proof.
  intros Hw Hh Hlen Hx Hy. unfold mip_texel, src_texel.
  pose proof (min_unclamped w x Hw Hx) as Ex. pose proof (min_unclamped h y Hh Hy) as Ey.
  assert (Hr : forall dx dy, 0 <= dx -> 0 <= dy ->
            exists c, read_at src (Z.min (2 * y + dy) (h - 1) * w + Z.min (2 * x + dx) (w - 1))
                      = Ok c
              /\ src !! Z.to_nat (Z.min (2 * y + dy) (h - 1) * w + Z.min (2 * x + dx) (w - 1))
                 = Some c).
  { intros dx dy Hdx Hdy. apply read_at_in_range. rewrite Hlen.
    apply src_index_in_range; assumption. }
  destruct (Hr 0 0 ltac:(lia) ltac:(lia)) as (c00 & R00 & L00).
  destruct (Hr 1 0 ltac:(lia) ltac:(lia)) as (c10 & R10 & L10).
  destruct (Hr 1 1 ltac:(lia) ltac:(lia)) as (c11 & R11 & L11).
  destruct (Hr 0 1 ltac:(lia) ltac:(lia)) as (c01 & R01 & L01).
  exists c00, c10, c11, c01.
  rewrite Ex, Ey in R00. rewrite Ey in R10. rewrite Ex in R01.
  rewrite R00, R10, R11, R01, L00, L10, L11, L01. cbn [bind]. auto.
Qed.

(** A row of the destination: [dst_w] texels are appended. *)
Lemma mip_row_ok (N : Z) (src : list texel) (w h y : Z) (dst : list texel) :
  1 <= w -> 1 <= h -> Z.of_nat (length src) = w * h -> 0 <= y < mip_res h ->
  exists row,
    for_each (range (mip_res w)) (fun x dst' => mip_texel N src w h x y dst') dst
    = Ok (dst ++ row)
    /\ Z.of_nat (length row) = mip_res w
    /\ forall x, 0 <= x < mip_res w ->
         exists c00 c10 c11 c01,
           src_texel src w h x y 0 0 = Some c00 /\ src_texel src w h x y 1 0 = Some c10 /\
           src_texel src w h x y 1 1 = Some c11 /\ src_texel src w h x y 0 1 = Some c01 /\
           row !! Z.to_nat x = Some (average4 N c00 c10 c11 c01).
Proof.
  intros Hw Hh Hlen Hy. unfold range.
  assert (Hgen : forall n : nat, Z.of_nat n <= mip_res w ->
    exists row,
      for_each (map Z.of_nat (seq 0 n)) (fun x dst' => mip_texel N src w h x y dst') dst
      = Ok (dst ++ row)
      /\ length row = n
      /\ forall x, 0 <= x < Z.of_nat n ->
           exists c00 c10 c11 c01,
             src_texel src w h x y 0 0 = Some c00 /\ src_texel src w h x y 1 0 = Some c10 /\
             src_texel src w h x y 1 1 = Some c11 /\ src_texel src w h x y 0 1 = Some c01 /\
             row !! Z.to_nat x = Some (average4 N c00 c10 c11 c01)).
  { induction n as [|n IH]; intros Hn.
    - exists []. cbn. rewrite List.app_nil_r. split; [reflexivity|]. split; [reflexivity|].
      intros x Hx. lia.
    - destruct (IH ltac:(lia)) as (row & Hrun & Hl & Hrow).
      destruct (mip_texel_ok N src w h (Z.of_nat n) y (dst ++ row) Hw Hh Hlen ltac:(lia) Hy)
        as (c00 & c10 & c11 & c01 & S00 & S10 & S11 & S01 & Ht).
      exists (row ++ [average4 N c00 c10 c11 c01]).
      rewrite seq_S, map_app, for_each_app, Hrun. cbn [bind map for_each Nat.add].
      rewrite Ht. cbn [bind]. rewrite <- List.app_assoc.
      split; [reflexivity|]. split; [rewrite length_app; cbn [length]; lia|].
      intros x Hx. destruct (Z.eq_dec x (Z.of_nat n)) as [->|Hne].
      + exists c00, c10, c11, c01. repeat split; try assumption.
        rewrite Nat2Z.id, lookup_app_r by lia. rewrite Hl, Nat.sub_diag. reflexivity.
      + destruct (Hrow x ltac:(lia)) as (d00 & d10 & d11 & d01 & T00 & T10 & T11 & T01 & Hd).
        exists d00, d10, d11, d01. repeat split; try assumption.
        rewrite lookup_app_l by lia. exact Hd. }
  pose proof (mip_res_bounds w Hw) as [Hp _].
  destruct (Hgen (Z.to_nat (mip_res w)) ltac:(lia)) as (row & Hrun & Hl & Hrow).
  exists row. split; [exact Hrun|]. split; [lia|].
  intros x Hx. apply Hrow. lia.
Qed.

(** A level: every destination texel is the average of its block. *)
Lemma mip_level_spec (N : Z) (src : list texel) (w h : Z) :
  1 <= w -> 1 <= h -> Z.of_nat (length src) = w * h ->
  exists dst,
    mip_level N src w h = Ok dst
    /\ Z.of_nat (length dst) = mip_res w * mip_res h
    /\ forall x y, 0 <= x < mip_res w -> 0 <= y < mip_res h ->
         exists c00 c10 c11 c01,
           src_texel src w h x y 0 0 = Some c00 /\ src_texel src w h x y 1 0 = Some c10 /\
           src_texel src w h x y 1 1 = Some c11 /\ src_texel src w h x y 0 1 = Some c01 /\
           dst !! Z.to_nat (y * mip_res w + x) = Some (average4 N c00 c10 c11 c01).
Proof.
  intros Hw Hh Hlen. unfold mip_level, range.
  pose proof (mip_res_bounds w Hw) as [Hpw _]. pose proof (mip_res_bounds h Hh) as [Hph _].
  assert (Hgen : forall n : nat, Z.of_nat n <= mip_res h ->
    exists dst,
      for_each (map Z.of_nat (seq 0 n))
        (fun y dst0 => for_each (map Z.of_nat (seq 0 (Z.to_nat (mip_res w))))
                         (fun x dst' => mip_texel N src w h x y dst') dst0) []
      = Ok dst
      /\ Z.of_nat (length dst) = mip_res w * Z.of_nat n
      /\ forall x y, 0 <= x < mip_res w -> 0 <= y < Z.of_nat n ->
           exists c00 c10 c11 c01,
             src_texel src w h x y 0 0 = Some c00 /\ src_texel src w h x y 1 0 = Some c10 /\
             src_texel src w h x y 1 1 = Some c11 /\ src_texel src w h x y 0 1 = Some c01 /\
             dst !! Z.to_nat (y * mip_res w + x) = Some (average4 N c00 c10 c11 c01)).
  { induction n as [|n IH]; intros Hn.
    - exists []. cbn [seq map for_each length]. split; [reflexivity|]. split; [lia|].
      intros x y Hx Hy. lia.
    - destruct (IH ltac:(lia)) as (dst & Hrun & Hl & Hdst).
      destruct (mip_row_ok N src w h (Z.of_nat n) dst Hw Hh Hlen ltac:(lia))
        as (row & Hrow & Hlr & Hr).
      exists (dst ++ row). rewrite seq_S, map_app, for_each_app, Hrun.
      cbn [bind map for_each Nat.add]. unfold range in Hrow. rewrite Hrow. cbn [bind].
      split; [reflexivity|]. split; [rewrite length_app; lia|].
      intros x y Hx Hy. destruct (Z.eq_dec y (Z.of_nat n)) as [->|Hne].
      + destruct (Hr x Hx) as (c00 & c10 & c11 & c01 & S00 & S10 & S11 & S01 & Hc).
        exists c00, c10, c11, c01. repeat split; try assumption.
        rewrite lookup_app_r by nia.
        replace (Z.to_nat (Z.of_nat n * mip_res w + x) - length dst)%nat with (Z.to_nat x)
          by nia.
        exact Hc.
      + destruct (Hdst x y Hx ltac:(lia)) as (c00 & c10 & c11 & c01 & S00 & S10 & S11 & S01 & Hc).
        exists c00, c10, c11, c01. repeat split; try assumption.
        rewrite lookup_app_l by nia. exact Hc. }
  destruct (Hgen (Z.to_nat (mip_res h)) ltac:(lia)) as (dst & Hrun & Hl & Hdst).
  exists dst. split; [exact Hrun|]. split; [lia|].
  intros x y Hx Hy. apply Hdst; lia.
Qed.

Lemma channel_within (lo hi : Z) (c : texel) (j : Z) :
  Forall (fun v => lo <= v <= hi) c -> 0 <= j < Z.of_nat (length c) -> lo <= channel c j <= hi.
Proof.
  intros Hc Hj. unfold channel. rewrite List.Forall_forall in Hc. apply Hc.
  apply nth_In. lia.
Qed.

Lemma average4_within (N lo hi : Z) (c00 c10 c11 c01 : texel) :
  0 <= lo -> hi <= 255 ->
  Forall (fun c => Z.of_nat (length c) = N /\ Forall (fun v => lo <= v <= hi) c)
         [c00; c10; c11; c01] ->
  Z.of_nat (length (average4 N c00 c10 c11 c01)) = Z.max N 0
  /\ Forall (fun v => lo <= v <= hi) (average4 N c00 c10 c11 c01).
Proof.
  intros Hlo Hhi Hall. unfold average4. split.
  { rewrite length_map. unfold range. rewrite length_map, length_seq. lia. }
  apply List.Forall_forall. intros v Hv. apply in_map_iff in Hv as (j & <- & Hj).
  apply In_range in Hj.
  pose proof (Forall_inv Hall) as [L0 W0]. apply Forall_inv_tail in Hall.
  pose proof (Forall_inv Hall) as [L1 W1]. apply Forall_inv_tail in Hall.
  pose proof (Forall_inv Hall) as [L2 W2]. apply Forall_inv_tail in Hall.
  pose proof (Forall_inv Hall) as [L3 W3].
  pose proof (channel_within lo hi c00 j W0 ltac:(lia)).
  pose proof (channel_within lo hi c10 j W1 ltac:(lia)).
  pose proof (channel_within lo hi c11 j W2 ltac:(lia)).
  pose proof (channel_within lo hi c01 j W3 ltac:(lia)).
  set (sum := channel c00 j + channel c10 j + channel c11 j + channel c01 j) in *.
  assert (Hq : lo <= Z.quot sum 4 <= hi).
  { rewrite Z.quot_div_nonneg by lia. split.
    - apply Z.div_le_lower_bound; lia.
    - apply Z.div_le_upper_bound; lia. }
  unfold u8. rewrite Z.mod_small by lia. exact Hq.
Qed.

Lemma mip_res_shift (w : Z) (k : Z) :
  1 <= w -> 0 <= k -> Z.max (Z.shiftr (mip_res w) k) 1 = Z.max (Z.shiftr w (k + 1)) 1.
Proof.
  intros Hw Hk. unfold mip_res. rewrite Z.quot_div_nonneg by lia.
  replace (k + 1) with (1 + k) by lia. rewrite <- Z.shiftr_shiftr by lia.
  change (Z.shiftr w 1) with (Z.div2 w). rewrite Z.div2_div.
  destruct (Z.eq_dec w 1) as [->|Hne].
  - change (1 / 2) with 0. rewrite Z.shiftr_0_l. change (Z.max 0 1) with 1.
    rewrite Z.shiftr_div_pow2 by lia.
    destruct (Z.eq_dec k 0) as [->|Hk0]; [reflexivity|].
    rewrite Z.div_small; [reflexivity|]. split; [lia|]. apply Z.pow_gt_1; lia.
  - assert (1 <= w / 2) by (apply Z.div_le_lower_bound; lia).
    rewrite (Z.max_l (w / 2) 1) by lia. reflexivity.
Qed.

(** X15.  One level of [WriteTextureMips] on an image of [w * h] texels
    ([w, h >= 1]) reads no texel outside the image and yields
    [max(w/2, 1) * max(h/2, 1)] texels in row order; texel [(x, y)] is the
    channel-wise average (sum over 4, rounded down) of the source texels
    [(2x, 2y)], [(2x+1, 2y)], [(2x+1, 2y+1)] and [(2x, 2y+1)], with the
    coordinates clamped to the last column and row. *)
Theorem mip_level_block_average (N : Z) (src : list texel) (w h : Z) :
  1 <= w -> 1 <= h -> Z.of_nat (length src) = w * h ->
  exists dst,
    mip_level N src w h = Ok dst
    /\ Z.of_nat (length dst) = Z.max (Z.quot w 2) 1 * Z.max (Z.quot h 2) 1
    /\ forall x y, 0 <= x < Z.max (Z.quot w 2) 1 -> 0 <= y < Z.max (Z.quot h 2) 1 ->
         exists c00 c10 c11 c01,
           src !! Z.to_nat (Z.min (2 * y) (h - 1) * w + Z.min (2 * x) (w - 1)) = Some c00 /\
           src !! Z.to_nat (Z.min (2 * y) (h - 1) * w + Z.min (2 * x + 1) (w - 1)) = Some c10 /\
           src !! Z.to_nat (Z.min (2 * y + 1) (h - 1) * w + Z.min (2 * x + 1) (w - 1))
             = Some c11 /\
           src !! Z.to_nat (Z.min (2 * y + 1) (h - 1) * w + Z.min (2 * x) (w - 1)) = Some c01 /\
           dst !! Z.to_nat (y * Z.max (Z.quot w 2) 1 + x) = Some (average4 N c00 c10 c11 c01).
Proof.
  intros Hw Hh Hlen.
  destruct (mip_level_spec N src w h Hw Hh Hlen) as (dst & Hrun & Hl & Hdst).
  exists dst. split; [exact Hrun|]. split; [exact Hl|].
  intros x y Hx Hy.
  destruct (Hdst x y Hx Hy) as (c00 & c10 & c11 & c01 & S00 & S10 & S11 & S01 & Hc).
  exists c00, c10, c11, c01. unfold src_texel in *.
  rewrite !Z.add_0_r in S00. rewrite !Z.add_0_r in S10. rewrite !Z.add_0_r in S01.
  repeat split; assumption.
Qed.

(** X16.  Averaging keeps the channel values in their range: when every
    channel of the source image lies between [lo] and [hi] (bounds of a
    [uint8_t]), so does every channel of the next level, which has the same
    number of channels per texel.  With [lo = hi]: the level after an image
    of one colour is of that colour. *)
Theorem mip_level_within (N lo hi : Z) (src : list texel) (w h : Z) :
  0 <= N -> 0 <= lo -> hi <= 255 ->
  1 <= w -> 1 <= h -> Z.of_nat (length src) = w * h ->
  texels_within N lo hi src ->
  exists dst, mip_level N src w h = Ok dst /\ texels_within N lo hi dst.
Proof.
  intros HN Hlo Hhi Hw Hh Hlen Hsrc.
  destruct (mip_level_spec N src w h Hw Hh Hlen) as (dst & Hrun & Hl & Hdst).
  exists dst. split; [exact Hrun|].
  unfold texels_within in *. rewrite Forall_lookup in Hsrc. apply Forall_lookup.
  intros i c Hi.
  pose proof (mip_res_bounds w Hw) as [Hpw _].
  assert (Hlt : (i < length dst)%nat) by (apply lookup_lt_is_Some; eauto).
  set (dw := mip_res w) in *.
  pose proof (Z.div_mod (Z.of_nat i) dw ltac:(lia)) as Hdm.
  pose proof (Z.mod_pos_bound (Z.of_nat i) dw ltac:(lia)) as Hmb.
  assert (Hyb : 0 <= Z.of_nat i / dw < mip_res h).
  { split; [apply Z.div_pos; lia|]. apply Z.div_lt_upper_bound; lia. }
  destruct (Hdst (Z.of_nat i mod dw) (Z.of_nat i / dw) Hmb Hyb)
    as (c00 & c10 & c11 & c01 & S00 & S10 & S11 & S01 & Hc).
  replace (Z.to_nat (Z.of_nat i / dw * dw + Z.of_nat i mod dw)) with i in Hc by lia.
  pose proof (eq_trans (eq_sym Hi) Hc) as Ec. injection Ec as ->.
  unfold src_texel in *.
  pose proof (average4_within N lo hi c00 c10 c11 c01 Hlo Hhi) as Ha.
  rewrite Z.max_l in Ha by lia. apply Ha.
  repeat apply Forall_cons_2; try apply Forall_nil_2; eapply Hsrc; eassumption.
Qed.

(** X17.  For an image of [w * h] texels, [WriteTextureMips] with
    [mip_count = count + 1] computes [count] further images without reading
    outside any of them; the [i]-th one (from 1) has the resolution
    [max(w >> i, 1) x max(h >> i, 1)] and that many texels, so the levels
    stay at one texel once a side has reached 1. *)
Theorem mip_images_resolutions (N : Z) (count : nat) (src : list texel) (w h : Z) :
  1 <= w -> 1 <= h -> Z.of_nat (length src) = w * h ->
  exists levels,
    mip_images N count src w h = Ok levels
    /\ length levels = count
    /\ forall (i : nat) img rw rh, levels !! i = Some (img, rw, rh) ->
         rw = Z.max (Z.shiftr w (Z.of_nat i + 1)) 1
         /\ rh = Z.max (Z.shiftr h (Z.of_nat i + 1)) 1
         /\ Z.of_nat (length img) = rw * rh.
Proof.
  revert src w h.
  induction count as [|count IH]; intros src w h Hw Hh Hlen.
  - exists []. cbn [mip_images]. split; [reflexivity|]. split; [reflexivity|].
    intros i img rw rh Hi. rewrite lookup_nil in Hi. discriminate.
  - destruct (mip_level_spec N src w h Hw Hh Hlen) as (dst & Hrun & Hl & _).
    pose proof (mip_res_bounds w Hw) as [Hpw _]. pose proof (mip_res_bounds h Hh) as [Hph _].
    destruct (IH dst (mip_res w) (mip_res h) Hpw Hph Hl) as (rest & Hrest & Hlr & Hr).
    exists ((dst, mip_res w, mip_res h) :: rest). cbn [mip_images]. rewrite Hrun. cbn [bind].
    rewrite Hrest. cbn [bind]. split; [reflexivity|]. split; [cbn [length]; lia|].
    intros [|i] img rw rh Hi.
    + cbn in Hi. injection Hi as <- <- <-.
      pose proof (mip_res_shift w 0 Hw ltac:(lia)) as Ew.
      pose proof (mip_res_shift h 0 Hh ltac:(lia)) as Eh.
      rewrite Z.shiftr_0_r in Ew. rewrite Z.shiftr_0_r in Eh.
      change (Z.of_nat 0) with 0.
      rewrite <- Ew, <- Eh. rewrite !Z.max_l by lia. auto.
    + cbn [lookup list_lookup] in Hi. apply Hr in Hi as (-> & -> & Hli).
      rewrite (mip_res_shift w (Z.of_nat i + 1) Hw ltac:(lia)),
        (mip_res_shift h (Z.of_nat i + 1) Hh ltac:(lia)) in *.
      replace (Z.of_nat (S i) + 1) with (Z.of_nat i + 1 + 1) by lia. auto.
Qed.

End MipFacts.

Lemma mip_level_block_average_witness :
  exists dst,
    mip_level 3 checker_3x2 3 2 = Ok dst
    /\ Z.of_nat (length dst) = Z.max (Z.quot 3 2) 1 * Z.max (Z.quot 2 2) 1
    /\ forall x y, 0 <= x < Z.max (Z.quot 3 2) 1 -> 0 <= y < Z.max (Z.quot 2 2) 1 ->
         exists c00 c10 c11 c01,
           checker_3x2 !! Z.to_nat (Z.min (2 * y) (2 - 1) * 3 + Z.min (2 * x) (3 - 1))
             = Some c00 /\
           checker_3x2 !! Z.to_nat (Z.min (2 * y) (2 - 1) * 3 + Z.min (2 * x + 1) (3 - 1))
             = Some c10 /\
           checker_3x2 !! Z.to_nat (Z.min (2 * y + 1) (2 - 1) * 3 + Z.min (2 * x + 1) (3 - 1))
             = Some c11 /\
           checker_3x2 !! Z.to_nat (Z.min (2 * y + 1) (2 - 1) * 3 + Z.min (2 * x) (3 - 1))
             = Some c01 /\
           dst !! Z.to_nat (y * Z.max (Z.quot 3 2) 1 + x) = Some (average4 3 c00 c10 c11 c01).
Proof. apply (mip_level_block_average 3 checker_3x2 3 2); [lia|lia|reflexivity]. Defined.

Lemma mip_level_within_witness :
  exists dst, mip_level 3 checker_3x2 3 2 = Ok dst /\ texels_within 3 0 255 dst.
Proof.
  apply (mip_level_within 3 0 255 checker_3x2 3 2); try lia; [reflexivity|].
  unfold texels_within, checker_3x2.
  repeat (apply Forall_cons_2; [split; [reflexivity|repeat constructor; lia]|]).
  apply Forall_nil_2.
Defined.

Lemma mip_images_resolutions_witness :
  exists levels,
    mip_images 3 3 checker_3x2 3 2 = Ok levels
    /\ length levels = 3%nat
    /\ forall (i : nat) img rw rh, levels !! i = Some (img, rw, rh) ->
         rw = Z.max (Z.shiftr 3 (Z.of_nat i + 1)) 1
         /\ rh = Z.max (Z.shiftr 2 (Z.of_nat i + 1)) 1
         /\ Z.of_nat (length img) = rw * rh.
Proof. apply (mip_images_resolutions 3 3 checker_3x2 3 2); [lia|lia|reflexivity]. Defined.

(** The image of the first witness evaluates to one texel, the average of
    the four texels of its first two columns; the third column is not read. *)
Example mip_level_checker :
  mip_level 3 checker_3x2 3 2 = Ok [[127; 127; 63]].
Proof. vm_compute. reflexivity. Qed.

(** ** Sequences of buffer operations *)

Section BufferSequences.
Context `{Dx.LinearAlloc}.

Lemma copy_barriers_ready (src dst : nat) (w : Dx.world) :
  Dx.resource_state (Dx.buffers w src) = Dx.CopySrc ->
  Dx.resource_state (Dx.buffers w dst) = Dx.CopyDst ->
  Dx.copy_barriers src dst w = [].
Proof. intros Hs Hd. unfold Dx.copy_barriers. rewrite Hs, Hd. reflexivity. Qed.

Lemma states_after_copy (src dst : nat) (o1 o2 n : Z) (w : Dx.world) :
  src <> dst ->
  let w1 := Dx.CopyBufferToBuffer src o1 dst o2 n w in
  Dx.resource_state (Dx.buffers w1 src) = Dx.CopySrc
  /\ Dx.resource_state (Dx.buffers w1 dst) = Dx.CopyDst.
Proof.
  intros Hne. cbn zeta. unfold Dx.CopyBufferToBuffer. split.
  - rewrite set_state_other by congruence. apply set_state_same.
  - apply set_state_same.
Qed.

(** X18.  After a copy from one buffer to another, a further copy in the
    same direction, by [CopyBufferToBuffer] or by [UpdateSubRegion], records
    the copy alone; a copy in the opposite direction first records one
    barrier call that turns both buffers round. *)
Theorem copy_again_records_no_barrier (src dst : nat) (o1 o2 n o1' o2' n' : Z)
    (w : Dx.world) :
  src <> dst ->
  let w1 := Dx.CopyBufferToBuffer src o1 dst o2 n w in
  Dx.cmd_buf (Dx.CopyBufferToBuffer src o1' dst o2' n' w1)
  = Dx.cmd_buf w1 ++ [Dx.CopyBufferRegion dst o2' src o1' n']
  /\ Dx.cmd_buf (Dx.UpdateSubRegion dst o2' n' src o1' w1)
     = Dx.cmd_buf w1 ++ [Dx.CopyBufferRegion dst o2' src o1' n']
  /\ Dx.cmd_buf (Dx.CopyBufferToBuffer dst o2' src o1' n' w1)
     = Dx.cmd_buf w1
       ++ [Dx.ResourceBarrier
             [{| Dx.pResource := dst; Dx.StateBefore := Dx.CopyDst;
                 Dx.StateAfter := Dx.CopySrc |};
              {| Dx.pResource := src; Dx.StateBefore := Dx.CopySrc;
                 Dx.StateAfter := Dx.CopyDst |}];
           Dx.CopyBufferRegion src o1' dst o2' n'].
Proof.
  intros Hne. cbn zeta.
  destruct (states_after_copy src dst o1 o2 n w Hne) as [Hs Hd].
  set (w1 := Dx.CopyBufferToBuffer src o1 dst o2 n w) in *.
  split; [|split].
  - unfold Dx.CopyBufferToBuffer at 1. cbn [Dx.set_state Dx.cmd_buf Dx.record].
    rewrite copy_barriers_ready by assumption. reflexivity.
  - unfold Dx.UpdateSubRegion. cbn [Dx.set_state Dx.cmd_buf Dx.record].
    rewrite copy_barriers_ready by assumption. reflexivity.
  - unfold Dx.CopyBufferToBuffer at 1. cbn [Dx.set_state Dx.cmd_buf Dx.record].
    unfold Dx.copy_barriers. rewrite Hs, Hd.
    cbn [Dx.eResState_eqb negb app Dx.record_barriers Dx.record Dx.cmd_buf].
    rewrite <- List.app_assoc. reflexivity.
Qed.

(** X19.  A copy from a buffer to itself always records a barrier call
    before the copy and leaves the buffer in [CopyDst]: both tests read the
    state the buffer had on entry, so from [CopySrc] the barrier goes to
    [CopyDst], from [CopyDst] it goes to [CopySrc], and from any other state
    the one call holds two barriers for the same resource, to [CopySrc] and
    to [CopyDst]. *)
Theorem copy_within_one_buffer (b : nat) (o1 o2 n : Z) (w : Dx.world) :
  let w' := Dx.CopyBufferToBuffer b o1 b o2 n w in
  Dx.resource_state (Dx.buffers w' b) = Dx.CopyDst
  /\ Dx.cmd_buf w'
     = Dx.cmd_buf w
       ++ [Dx.ResourceBarrier (self_copy_barriers b (Dx.resource_state (Dx.buffers w b)));
           Dx.CopyBufferRegion b o2 b o1 n].
Proof.
  cbn zeta. split; [apply set_state_same|].
  unfold Dx.CopyBufferToBuffer. cbn [Dx.set_state Dx.cmd_buf Dx.record].
  unfold Dx.copy_barriers.
  destruct (Dx.resource_state (Dx.buffers w b)) as [| | |k];
    cbn [Dx.eResState_eqb negb app Dx.record_barriers Dx.record Dx.cmd_buf
         self_copy_barriers];
    rewrite <- List.app_assoc; reflexivity.
Qed.

(** X20.  An allocation that succeeds with an initialising buffer makes the
    upload that follows it record no barrier: whatever the states of the two
    buffers were before [AllocSubRegion], the command list after
    [AllocSubRegion] and [UpdateSubRegion] is the old one and the copy. *)
Theorem AllocSubRegion_then_UpdateSubRegion (this init : nat) (req_size init_off : Z)
    (w : Dx.world) :
  this <> init ->
  fst (Dx.Alloc (Dx.alloc_ (Dx.buffers w this)) req_size) <> 0xffffffff ->
  let r := Dx.AllocSubRegion this req_size (Some init) init_off w in
  Dx.cmd_buf (Dx.UpdateSubRegion this (fst r) req_size init init_off (snd r))
  = Dx.cmd_buf w ++ [Dx.CopyBufferRegion this (fst r) init init_off req_size].
Proof.
  intros Hne Hok. cbn zeta.
  pose proof (AllocSubRegion_records_nothing this req_size (Some init) init_off w) as Hcmd.
  assert (Hst : Dx.resource_state
                  (Dx.buffers (snd (Dx.AllocSubRegion this req_size (Some init) init_off w))
                     init) = Dx.CopySrc
                /\ Dx.resource_state
                     (Dx.buffers (snd (Dx.AllocSubRegion this req_size (Some init) init_off w))
                        this) = Dx.CopyDst).
  { unfold Dx.AllocSubRegion.
    destruct (Dx.Alloc (Dx.alloc_ (Dx.buffers w this)) req_size) as [off a].
    cbn [fst] in Hok. destruct (Z.eqb_spec off 0xffffffff) as [->|_]; [congruence|].
    cbn [negb snd]. split.
    - rewrite set_state_other by congruence. apply set_state_same.
    - apply set_state_same. }
  destruct Hst as [Hi Ht].
  set (r := Dx.AllocSubRegion this req_size (Some init) init_off w) in *.
  unfold Dx.UpdateSubRegion. cbn [Dx.set_state Dx.cmd_buf Dx.record].
  rewrite copy_barriers_ready by assumption.
  cbn [Dx.record_barriers]. rewrite Hcmd. reflexivity.
Qed.

(** X21.  [AllocSubRegion] touches the tracked states only when the
    allocation succeeds and an initialising buffer is given: when [Alloc]
    finds no room the result is [0xffffffff], and then, as when no
    initialising buffer is passed, every buffer keeps its resource state,
    type and size and nothing is recorded. *)
Theorem AllocSubRegion_keeps_states (this : nat) (req_size init_off : Z)
    (init_buf : option nat) (w : Dx.world) :
  fst (Dx.Alloc (Dx.alloc_ (Dx.buffers w this)) req_size) = 0xffffffff \/ init_buf = None ->
  let r := Dx.AllocSubRegion this req_size init_buf init_off w in
  fst r = fst (Dx.Alloc (Dx.alloc_ (Dx.buffers w this)) req_size)
  /\ Dx.cmd_buf (snd r) = Dx.cmd_buf w
  /\ forall id, Dx.resource_state (Dx.buffers (snd r) id) = Dx.resource_state (Dx.buffers w id)
                /\ Dx.type_ (Dx.buffers (snd r) id) = Dx.type_ (Dx.buffers w id)
                /\ Dx.size_ (Dx.buffers (snd r) id) = Dx.size_ (Dx.buffers w id).
Proof.
  intros Hcase. cbn zeta. unfold Dx.AllocSubRegion.
  destruct (Dx.Alloc (Dx.alloc_ (Dx.buffers w this)) req_size) as [off a]. cbn [fst] in *.
  assert (Hkeep : forall id,
            let bs := <[this := Dx.with_alloc a (Dx.buffers w this)]> (Dx.buffers w) in
            Dx.resource_state (bs id) = Dx.resource_state (Dx.buffers w id)
            /\ Dx.type_ (bs id) = Dx.type_ (Dx.buffers w id)
            /\ Dx.size_ (bs id) = Dx.size_ (Dx.buffers w id)).
  { intros id. cbn zeta. destruct (Nat.eq_dec this id) as [->|Hne].
    - rewrite fn_lookup_insert. auto.
    - rewrite fn_lookup_insert_ne by congruence. auto. }
  destruct (Z.eqb_spec off 0xffffffff) as [->|Hoff]; cbn [negb fst snd Dx.cmd_buf Dx.buffers].
  - auto.
  - destruct Hcase as [->| ->]; [congruence|]. cbn [fst snd Dx.cmd_buf Dx.buffers]. auto.
Qed.

End BufferSequences.

Lemma copy_again_records_no_barrier_witness :
  let w1 := Dx.CopyBufferToBuffer 2 0 0 64 16 fresh_world in
  Dx.cmd_buf (Dx.CopyBufferToBuffer 2 16 0 128 32 w1)
  = Dx.cmd_buf w1 ++ [Dx.CopyBufferRegion 0 128 2 16 32]
  /\ Dx.cmd_buf (Dx.UpdateSubRegion 0 128 32 2 16 w1)
     = Dx.cmd_buf w1 ++ [Dx.CopyBufferRegion 0 128 2 16 32]
  /\ Dx.cmd_buf (Dx.CopyBufferToBuffer 0 128 2 16 32 w1)
     = Dx.cmd_buf w1
       ++ [Dx.ResourceBarrier
             [{| Dx.pResource := 0; Dx.StateBefore := Dx.CopyDst;
                 Dx.StateAfter := Dx.CopySrc |};
              {| Dx.pResource := 2; Dx.StateBefore := Dx.CopySrc;
                 Dx.StateAfter := Dx.CopyDst |}];
           Dx.CopyBufferRegion 2 16 0 128 32].
Proof. apply (copy_again_records_no_barrier 2 0 0 64 16 16 128 32 fresh_world). lia. Defined.

Lemma AllocSubRegion_then_UpdateSubRegion_witness :
  let r := @Dx.AllocSubRegion bump_alloc 0 64 (Some 1%nat) 0 fresh_world in
  Dx.cmd_buf (Dx.UpdateSubRegion 0 (fst r) 64 1 0 (snd r))
  = Dx.cmd_buf fresh_world ++ [Dx.CopyBufferRegion 0 (fst r) 1 0 64].
Proof.
  apply (@AllocSubRegion_then_UpdateSubRegion bump_alloc 0 1 64 0 fresh_world); [lia|].
  vm_compute. discriminate.
Defined.

Lemma AllocSubRegion_keeps_states_witness :
  let r := @Dx.AllocSubRegion bump_alloc 0 8192 (Some 1%nat) 0 fresh_world in
  fst r = fst (@Dx.Alloc bump_alloc (Dx.alloc_ (Dx.buffers fresh_world 0%nat)) 8192)
  /\ Dx.cmd_buf (snd r) = Dx.cmd_buf fresh_world
  /\ forall id, Dx.resource_state (Dx.buffers (snd r) id)
                = Dx.resource_state (Dx.buffers fresh_world id)
                /\ Dx.type_ (Dx.buffers (snd r) id) = Dx.type_ (Dx.buffers fresh_world id)
                /\ Dx.size_ (Dx.buffers (snd r) id) = Dx.size_ (Dx.buffers fresh_world id).
Proof.
  apply (@AllocSubRegion_keeps_states bump_alloc 0 8192 0 (Some 1%nat) fresh_world).
  left. vm_compute. reflexivity.
Defined.

(** ** Growing a buffer *)

Section ResizeFacts.
Variable LinearAlloc_Resize : Dx.alloc_state -> Z -> Dx.alloc_state.

(** Below [2^31] the doubling does not wrap, and 32 rounds are enough. *)
Lemma Resize_loop_covers (new_size : Z) :
  new_size <= 2 ^ 31 ->
  forall (fuel : nat) (size_ : Z),
    1 <= size_ -> 2 ^ 32 <= size_ * 2 ^ Z.of_nat fuel ->
    exists k, 0 <= k
      /\ Resize_loop fuel size_ new_size = Ok (size_ * 2 ^ k)
      /\ new_size <= size_ * 2 ^ k
      /\ (k = 0 \/ size_ * 2 ^ k < 2 * new_size).
Proof.
  intros Hn. induction fuel as [|fuel IH]; intros size_ Hs Hf.
  - cbn [Resize_loop]. change (Z.of_nat 0) with 0 in Hf. rewrite Z.pow_0_r in Hf.
    destruct (Z.ltb_spec size_ new_size); [lia|].
    exists 0. rewrite Z.pow_0_r, Z.mul_1_r. auto with zarith.
  - cbn [Resize_loop]. destruct (Z.ltb_spec size_ new_size) as [Hlt|Hge].
    + assert (Hu : u32 (size_ * 2) = size_ * 2) by (unfold u32; apply Z.mod_small; lia).
      rewrite Hu.
      assert (Hf' : 2 ^ 32 <= size_ * 2 * 2 ^ Z.of_nat fuel).
      { rewrite Nat2Z.inj_succ, Z.pow_succ_r in Hf by lia. lia. }
      destruct (IH (size_ * 2) ltac:(lia) Hf') as (k & Hk & Hrun & Hcov & Htight).
      exists (k + 1). rewrite Z.pow_add_r, Z.pow_1_r by lia.
      replace (size_ * (2 ^ k * 2)) with (size_ * 2 * 2 ^ k) by ring.
      split; [lia|]. split; [exact Hrun|]. split; [exact Hcov|].
      right. destruct Htight as [->|Ht]; [|exact Ht]. rewrite Z.pow_0_r. lia.
    + exists 0. rewrite Z.pow_0_r, Z.mul_1_r. auto with zarith.
Qed.

Lemma Resize_loop_zero (new_size : Z) (fuel : nat) :
  0 < new_size -> Resize_loop fuel 0 new_size = Fail OutOfFuel.
Proof.
  intros Hn. induction fuel as [|fuel IH]; cbn [Resize_loop];
    destruct (Z.ltb_spec 0 new_size); try lia; [reflexivity|exact IH].
Qed.

Lemma Resize_loop_wraps (new_size : Z) :
  2 ^ 31 < new_size ->
  forall (n fuel : nat), (n <= 31)%nat ->
    Resize_loop fuel (2 ^ (31 - Z.of_nat n)) new_size = Fail OutOfFuel.
Proof.
  intros Hn. induction n as [|n IH]; intros fuel Hle.
  - change (31 - Z.of_nat 0) with 31. destruct fuel as [|fuel]; cbn [Resize_loop];
      destruct (Z.ltb_spec (2 ^ 31) new_size); try lia; [reflexivity|].
    change (u32 (2 ^ 31 * 2)) with 0. apply Resize_loop_zero. lia.
  - assert (Hp : 2 ^ (31 - Z.of_nat (S n)) * 2 = 2 ^ (31 - Z.of_nat n)).
    { replace (31 - Z.of_nat n) with (31 - Z.of_nat (S n) + 1) by lia.
      rewrite Z.pow_add_r by lia. reflexivity. }
    assert (Hb : 2 ^ (31 - Z.of_nat n) <= 2 ^ 31) by (apply Z.pow_le_mono_r; lia).
    assert (Hpos : 0 < 2 ^ (31 - Z.of_nat (S n))) by (apply Z.pow_pos_nonneg; lia).
    destruct fuel as [|fuel]; cbn [Resize_loop];
      destruct (Z.ltb_spec (2 ^ (31 - Z.of_nat (S n))) new_size); try lia; [reflexivity|].
    rewrite Hp. unfold u32. rewrite Z.mod_small by lia. apply IH. lia.
Qed.

(** X22.  [Resize] to at most [2^31] bytes returns with a size that covers
    the request: the size is kept when it already does, it is the requested
    size for a buffer of size 0, and otherwise the old size doubled until it
    covers the request, so less than twice the request.  When the device
    refuses the new resource the tracked state is kept but the size has
    grown all the same. *)
Theorem Buffer_Resize_covers (fuel : nat) (new_size : Z) (created : bool) (b : Dx.Buffer) :
  (32 <= fuel)%nat -> 0 <= Dx.size_ b < 2 ^ 32 -> 0 <= new_size <= 2 ^ 31 ->
  exists b',
    Buffer_Resize LinearAlloc_Resize fuel new_size created b = Ok b'
    /\ new_size <= Dx.size_ b'
    /\ (new_size <= Dx.size_ b -> b' = b)
    /\ (Dx.size_ b < new_size ->
        Dx.size_ b' < 2 * new_size
        /\ (Dx.size_ b = 0 -> Dx.size_ b' = new_size)
        /\ (exists k, 0 <= k /\ (Dx.size_ b <> 0 -> Dx.size_ b' = Dx.size_ b * 2 ^ k))
        /\ Dx.resource_state b'
           = (if created then Dx.GetInitialDxResourceState (Dx.type_ b)
              else Dx.resource_state b)).
Proof.
  intros Hfuel Hsize Hnew. unfold Buffer_Resize.
  destruct (Z.leb_spec new_size (Dx.size_ b)) as [Hle|Hlt].
  { exists b. split; [reflexivity|]. split; [exact Hle|]. split; [reflexivity|]. lia. }
  cbn zeta.
  set (size0 := if Dx.size_ b =? 0 then new_size else Dx.size_ b).
  assert (H0 : 1 <= size0) by (unfold size0; destruct (Z.eqb_spec (Dx.size_ b) 0); lia).
  assert (Hf : 2 ^ 32 <= size0 * 2 ^ Z.of_nat fuel).
  { assert (2 ^ 32 <= 2 ^ Z.of_nat fuel) by (apply Z.pow_le_mono_r; lia). nia. }
  destruct (Resize_loop_covers new_size ltac:(lia) fuel size0 H0 Hf)
    as (k & Hk & Hrun & Hcov & Htight).
  rewrite Hrun. cbn [bind]. eexists. split; [reflexivity|]. cbn [Dx.size_ Dx.resource_state].
  split; [exact Hcov|]. split; [lia|]. intros _.
  split; [|split; [|split]].
  - destruct Htight as [->|Ht]; [|exact Ht]. rewrite Z.pow_0_r, Z.mul_1_r.
    unfold size0. destruct (Z.eqb_spec (Dx.size_ b) 0); lia.
  - intros Hz. unfold size0 in *. rewrite Hz in *. cbn [Z.eqb] in *.
    destruct Htight as [->|Ht]; [rewrite Z.pow_0_r; lia|].
    assert (1 <= 2 ^ k) by (apply Z.pow_le_mono_r with (b := 0) (c := k) (a := 2); lia).
    destruct (Z.eq_dec k 0) as [->|Hk0]; [rewrite Z.pow_0_r; lia|].
    assert (2 ^ 1 <= 2 ^ k) by (apply Z.pow_le_mono_r; lia). nia.
  - exists k. split; [exact Hk|]. intros Hnz. unfold size0.
    destruct (Z.eqb_spec (Dx.size_ b) 0); [lia|reflexivity].
  - reflexivity.
Qed.

(** X23.  A request above [2^31] bytes on a buffer whose size is a power of
    two below the request never returns: the doubling wraps to 0 and the
    loop goes on for ever. *)
Theorem Buffer_Resize_never_returns (fuel : nat) (k new_size : Z) (created : bool)
    (b : Dx.Buffer) :
  0 <= k <= 31 -> Dx.size_ b = 2 ^ k -> 2 ^ 31 < new_size ->
  Buffer_Resize LinearAlloc_Resize fuel new_size created b = Fail OutOfFuel.
Proof.
  intros Hk Hs Hn. unfold Buffer_Resize. rewrite Hs.
  assert (Hb : 0 < 2 ^ k <= 2 ^ 31).
  { split; [apply Z.pow_pos_nonneg; lia|apply Z.pow_le_mono_r; lia]. }
  destruct (Z.leb_spec new_size (2 ^ k)); [lia|]. cbn zeta.
  destruct (Z.eqb_spec (2 ^ k) 0); [lia|].
  replace k with (31 - Z.of_nat (Z.to_nat (31 - k))) by lia.
  rewrite (Resize_loop_wraps new_size Hn (Z.to_nat (31 - k)) fuel) by lia.
  reflexivity.
Qed.

End ResizeFacts.

Lemma Buffer_Resize_covers_witness :
  exists b',
    Buffer_Resize (fun a _ => a) 32 10000 false (Dx.new_buffer Dx.Storage 4096) = Ok b'
    /\ 10000 <= Dx.size_ b'
    /\ (10000 <= Dx.size_ (Dx.new_buffer Dx.Storage 4096) -> b' = Dx.new_buffer Dx.Storage 4096)
    /\ (Dx.size_ (Dx.new_buffer Dx.Storage 4096) < 10000 ->
        Dx.size_ b' < 2 * 10000
        /\ (Dx.size_ (Dx.new_buffer Dx.Storage 4096) = 0 -> Dx.size_ b' = 10000)
        /\ (exists k, 0 <= k /\ (Dx.size_ (Dx.new_buffer Dx.Storage 4096) <> 0 ->
                                  Dx.size_ b' = Dx.size_ (Dx.new_buffer Dx.Storage 4096) * 2 ^ k))
        /\ Dx.resource_state b'
           = (if false then Dx.GetInitialDxResourceState (Dx.type_ (Dx.new_buffer Dx.Storage 4096))
              else Dx.resource_state (Dx.new_buffer Dx.Storage 4096))).
Proof.
  apply (Buffer_Resize_covers (fun a _ => a) 32 10000 false (Dx.new_buffer Dx.Storage 4096));
    [lia|cbn; lia|lia].
Defined.

Lemma Buffer_Resize_never_returns_witness :
  Buffer_Resize (fun a _ => a) 100 3000000000 true (Dx.new_buffer Dx.Storage 4096)
  = Fail OutOfFuel.
Proof.
  apply (Buffer_Resize_never_returns (fun a _ => a) 100 12 3000000000 true
           (Dx.new_buffer Dx.Storage 4096)); [lia|reflexivity|lia].
Defined.

(** ** Removing a principled material *)

Section RemoveMaterialFacts.
Context `{Constants} `{Externals}.

Lemma holds_main_push (m : material_t) (root0 : Z)
    (old ms : SparseStorage.t material_t) (x : material_t) :
  holds_main m root0 old ms -> holds_main m root0 old (snd (SparseStorage.push x ms)).
Proof.
  intros [Hm Hold]. split; [apply get_push_live; exact Hm|].
  intros i y Hi. apply get_push_live, Hold, Hi.
Qed.

Ltac node_step :=
  repeat (rewrite AddMaterial_eq; cbn [materials_ with_materials fst snd]).

(** The handle of a principled material with emission or alpha is the index
    of a node pushed after the main node. *)
Lemma AddMaterial_principled_later_node (m : principled_mat_desc_t) (s : Scene) :
  Z.of_nat (length (materials_ s)) + 4 < InvalidIndex ->
  sets_emission m = true \/ sets_alpha m = true ->
  let root0 := fst (SparseStorage.push (principled_main_mat m) (materials_ s)) in
  exists ms x,
    holds_main (principled_main_mat m) root0 (materials_ s) ms
    /\ fst (AddMaterial_principled m s) = fst (SparseStorage.push x ms)
    /\ holds_main (principled_main_mat m) root0 (materials_ s) (materials_ (snd (AddMaterial_principled m s))).
Proof.
  intros Hlen Hsets. cbn zeta.
  unfold AddMaterial_principled, sets_emission, sets_alpha in *.
  destruct (pm_emission_color m) as [[er eg] eb].
  set (M0 := materials_ s) in *.
  set (x0 := principled_main_mat m).
  destruct (SparseStorage.push x0 M0) as [root0 ms0] eqn:E0.
  assert (Hr0 : root0 = fst (SparseStorage.push x0 M0)) by now rewrite E0.
  assert (Hm0 : ms0 = snd (SparseStorage.push x0 M0)) by now rewrite E0.
  assert (Hl0 : (length ms0 <= S (length M0))%nat) by (subst ms0; apply push_length).
  assert (Hn0 : (root0 =? InvalidIndex) = false) by (subst root0; apply push_not_invalid; lia).
  assert (P0 : holds_main (principled_main_mat m) root0 M0 ms0).
  { subst root0 ms0. split; [apply get_push_same|]. intros i y Hi. apply get_push_live, Hi. }
  clear E0 Hr0 Hm0. cbn [fst].
  destruct (F32.gt (pm_emission_strength m) F32.zero
            && (F32.gt er F32.zero || F32.gt eg F32.zero || F32.gt eb F32.zero)).
  - node_step.
    set (xe := make_material (emissive_desc m)).
    set (e := fst (SparseStorage.push xe ms0)).
    set (ms1 := snd (SparseStorage.push xe ms0)).
    assert (Hl1 : (length ms1 <= S (length ms0))%nat) by apply push_length.
    assert (P1 : holds_main (principled_main_mat m) root0 M0 ms1) by (apply holds_main_push; exact P0).
    assert (Hne : (e =? InvalidIndex) = false) by (apply push_not_invalid; lia).
    rewrite Hne, Hn0. cbn [negb].
    destruct (F32.ne (pm_alpha m) F32.one || negb (pm_alpha_texture m =? InvalidIndex)).
    + node_step.
      set (xt := make_material transparent_desc).
      set (t := fst (SparseStorage.push xt ms1)).
      set (ms2 := snd (SparseStorage.push xt ms1)).
      assert (Hl2 : (length ms2 <= S (length ms1))%nat) by apply push_length.
      assert (P2 : holds_main (principled_main_mat m) root0 M0 ms2) by (apply holds_main_push; exact P1).
      assert (Hnt : (t =? InvalidIndex) = false) by (apply push_not_invalid; lia).
      set (xm := make_material (mix_desc InvalidIndex F32.half (Some true) root0 e)).
      set (r1 := fst (SparseStorage.push xm ms2)).
      set (ms3 := snd (SparseStorage.push xm ms2)).
      assert (Hl3 : (length ms3 <= S (length ms2))%nat) by apply push_length.
      assert (P3 : holds_main (principled_main_mat m) root0 M0 ms3) by (apply holds_main_push; exact P2).
      assert (Hn1 : (r1 =? InvalidIndex) = false) by (apply push_not_invalid; lia).
      rewrite Hnt, Hn1. cbn [negb orb].
      destruct (F32.eq (pm_alpha m) F32.zero).
      * cbn [fst snd materials_ with_materials]. exists ms1, xt.
        split; [exact P1|]. split; [reflexivity|exact P3].
      * node_step.
        exists ms3, (make_material (mix_desc (pm_alpha_texture m) (pm_alpha m) None t r1)).
        split; [exact P3|]. split; [reflexivity|].
        apply holds_main_push. exact P3.
    + node_step. rewrite Z.eqb_refl. cbn [negb fst snd materials_ with_materials].
      exists ms1, (make_material (mix_desc InvalidIndex F32.half (Some true) root0 e)).
      split; [exact P1|]. split; [reflexivity|].
      apply holds_main_push. exact P1.
  - rewrite Z.eqb_refl. cbn [negb].
    destruct Hsets as [Hs|Hs]; [discriminate Hs|]. rewrite Hs.
    node_step.
    set (xt := make_material transparent_desc).
    set (t := fst (SparseStorage.push xt ms0)).
    set (ms2 := snd (SparseStorage.push xt ms0)).
    assert (Hl2 : (length ms2 <= S (length ms0))%nat) by apply push_length.
    assert (P2 : holds_main (principled_main_mat m) root0 M0 ms2) by (apply holds_main_push; exact P0).
    assert (Hnt : (t =? InvalidIndex) = false) by (apply push_not_invalid; lia).
    rewrite Hnt, Hn0. cbn [negb orb].
    destruct (F32.eq (pm_alpha m) F32.zero).
    + cbn [fst snd materials_ with_materials]. exists ms0, xt.
      split; [exact P0|]. split; [reflexivity|exact P2].
    + node_step.
      exists ms2, (make_material (mix_desc (pm_alpha_texture m) (pm_alpha m) None t root0)).
      split; [exact P2|]. split; [reflexivity|].
      apply holds_main_push. exact P2.
Qed.

(** X24.  [RemoveMaterial] frees one node only.  For a principled material
    that sets emission or alpha, the handle [AddMaterial] returned is not
    the main Principled node: after [RemoveMaterial] of that handle the
    handle is free, but the main node that [AddMaterial] had stored is still
    in [materials_], as is every material that was there before. *)
Theorem RemoveMaterial_keeps_main_node (m : principled_mat_desc_t) (s : Scene) :
  Z.of_nat (length (materials_ s)) + 4 < InvalidIndex ->
  sets_emission m = true \/ sets_alpha m = true ->
  let root0 := fst (SparseStorage.push (principled_main_mat m) (materials_ s)) in
  let h := fst (AddMaterial_principled m s) in
  let s' := RemoveMaterial h (snd (AddMaterial_principled m s)) in
  SparseStorage.get (materials_ s) root0 = None
  /\ SparseStorage.exists_ (materials_ s') h = false
  /\ SparseStorage.get (materials_ s') root0 = Some (principled_main_mat m)
  /\ forall i x, SparseStorage.get (materials_ s) i = Some x ->
                 SparseStorage.get (materials_ s') i = Some x.
Proof.
  intros Hlen Hsets. cbn zeta.
  destruct (AddMaterial_principled_later_node m s Hlen Hsets)
    as (ms & x & [Pm Pold] & Hh & [Fm Fold]).
  pose proof (push_fresh x ms) as Hfresh. rewrite <- Hh in Hfresh.
  set (h := fst (AddMaterial_principled m s)) in *.
  set (s1 := snd (AddMaterial_principled m s)) in *.
  unfold RemoveMaterial. cbn [materials_ with_materials].
  split; [apply push_fresh|]. split; [apply exists_erase_same|]. split.
  - rewrite get_erase_other; [exact Fm|]. intros ->. rewrite Pm in Hfresh. discriminate.
  - intros i y Hi. rewrite get_erase_other; [apply Fold, Hi|].
    intros ->. rewrite (Pold _ _ Hi) in Hfresh. discriminate.
Qed.

End RemoveMaterialFacts.

Lemma RemoveMaterial_keeps_main_node_witness :
  let m := principled_desc F32.one F32.half in
  let s := Scene_new false false false in
  let root0 := fst (SparseStorage.push (@principled_main_mat ray_constants ray_externals m) (materials_ s)) in
  let h := fst (@AddMaterial_principled ray_constants ray_externals m s) in
  let s' := RemoveMaterial h (snd (@AddMaterial_principled ray_constants ray_externals m s)) in
  SparseStorage.get (materials_ s) root0 = None
  /\ SparseStorage.exists_ (materials_ s') h = false
  /\ SparseStorage.get (materials_ s') root0 = Some (@principled_main_mat ray_constants ray_externals m)
  /\ forall i x, SparseStorage.get (materials_ s) i = Some x ->
                 SparseStorage.get (materials_ s') i = Some x.
Proof.
  apply (@RemoveMaterial_keeps_main_node ray_constants ray_externals
           (principled_desc F32.one F32.half) (Scene_new false false false)).
  - vm_compute. reflexivity.
  - left. vm_compute. reflexivity.
Defined.

(** ** Setting the transform of an instance *)

Section MoreInstanceFacts.
Context `{Constants} `{Externals}.

(** X25.  [SetMeshInstanceTransform] on an instance stores the 16 floats and
    their inverse under the transform index of the instance, and the
    bounding box of the mesh transformed by the new matrix in the instance,
    which keeps its mesh and its transform index; the other instances and
    transforms are as before.  It does not return normally for a handle
    that is not in use. *)
Theorem SetMeshInstanceTransform_stored (h : Z) (xf : list float) (s s' : Scene) :
  SetMeshInstanceTransform h xf s = Ok s' ->
  exists mi m,
    SparseStorage.get (mesh_instances_ s) h = Some mi
    /\ SparseStorage.get (meshes_ s) (mesh_index mi) = Some m
    /\ SparseStorage.get (mesh_instances_ s') h
       = Some {| mi_bbox_min := fst (TransformBoundingBox (m_bbox_min m) (m_bbox_max m) xf);
                 tr_index := tr_index mi;
                 mi_bbox_max := snd (TransformBoundingBox (m_bbox_min m) (m_bbox_max m) xf);
                 mesh_index := mesh_index mi |}
    /\ (SparseStorage.exists_ (transforms_ s) (tr_index mi) = true ->
        SparseStorage.get (transforms_ s') (tr_index mi)
        = Some {| xform := take 16 xf; inv_xform := InverseMatrix (take 16 xf) |})
    /\ (forall i, i <> tr_index mi ->
                  SparseStorage.get (transforms_ s') i = SparseStorage.get (transforms_ s) i)
    /\ (forall h0, h0 <> h ->
                   SparseStorage.get (mesh_instances_ s') h0
                   = SparseStorage.get (mesh_instances_ s) h0).
Proof.
  unfold SetMeshInstanceTransform, SetMeshInstanceTransform_nolock.
  destruct (SparseStorage.get (mesh_instances_ s) h) as [mi|] eqn:Emi; [|discriminate].
  destruct (SparseStorage.get (meshes_ s) (mesh_index mi)) as [m|] eqn:Em; [|discriminate].
  destruct (TransformBoundingBox _ _ xf) as [bmin bmax] eqn:Etb.
  intros E. destruct (RebuildTLAS_frame _ _ E) as (St & Li & Tr & Mi).
  cbn [lights_ transforms_ mesh_instances_ with_transforms with_mesh_instances] in *.
  exists mi, m. split; [reflexivity|]. split; [exact Em|]. rewrite Etb. cbn [fst snd].
  split. { rewrite Mi. apply get_Set_same. apply exists_get. eauto. }
  split. { intros Hex. rewrite Tr. apply get_Set_same. exact Hex. }
  split. { intros i Hi. rewrite Tr. apply get_Set_other. congruence. }
  intros h0 Hne. rewrite Mi. apply get_Set_other. congruence.
Qed.


End MoreInstanceFacts.

Lemma SetMeshInstanceTransform_stored_witness :
  let s := scene_of instanced_once in
  let s' := scene_of instance_moved in
  exists mi m,
    SparseStorage.get (mesh_instances_ s) 0 = Some mi
    /\ SparseStorage.get (meshes_ s) (mesh_index mi) = Some m
    /\ SparseStorage.get (mesh_instances_ s') 0
       = Some {| mi_bbox_min :=
                   fst (@TransformBoundingBox ray_externals (m_bbox_min m) (m_bbox_max m)
                          unit_xform);
                 tr_index := tr_index mi;
                 mi_bbox_max :=
                   snd (@TransformBoundingBox ray_externals (m_bbox_min m) (m_bbox_max m)
                          unit_xform);
                 mesh_index := mesh_index mi |}
    /\ (SparseStorage.exists_ (transforms_ s) (tr_index mi) = true ->
        SparseStorage.get (transforms_ s') (tr_index mi)
        = Some {| xform := take 16 unit_xform;
                  inv_xform := @InverseMatrix ray_externals (take 16 unit_xform) |})
    /\ (forall i, i <> tr_index mi ->
                  SparseStorage.get (transforms_ s') i = SparseStorage.get (transforms_ s) i)
    /\ (forall h0, h0 <> 0 ->
                   SparseStorage.get (mesh_instances_ s') h0
                   = SparseStorage.get (mesh_instances_ s) h0).
Proof.
  apply (@SetMeshInstanceTransform_stored ray_constants ray_externals 0 unit_xform
           (scene_of instanced_once) (scene_of instance_moved)).
  vm_compute. reflexivity.
Defined.

